(** * Universal Pitch Shifter: the SoundTouch DSP core and its block processors

    A shallow embedding of

    - the SoundTouch library ([FifoSampleBuffer], [RateTransposer],
      [TimeStretch], [SoundTouch]),
    - the copy of it inlined in the SoundTouch AudioWorklet ([FifoBuffer],
      [RateTransposer], [TimeStretch], [SoundTouchEngine],
      [SoundTouchProcessor]),
    - the RubberBand AudioWorklet processor ([RubberbandProcessor]),

    followed by the vocabulary of the properties and by the properties
    proved about them.

    Conventions of the embedding.

    - A JavaScript [number] that holds a control value (rate, tempo, phase,
      milliseconds, sample rate) is an exact rational [Q]; those that hold
      frame counts and indices are [Z].  Rounding of IEEE doubles is not
      modelled: arithmetic is exact.
    - An audio sample is a [sample]: a rational or [NaN].  Reading a typed
      array outside its bounds yields [undefined] in JavaScript, which
      arithmetic turns into [NaN]; the embedding reads [NaN] there.
    - A [Float32Array] is a [list sample].  Index writes outside the bounds
      are ignored, [subarray] clips, [set] throws a [RangeError] when the
      source does not fit.
    - A method that may throw or loop returns a [res]; [while] loops take
      fuel and answer [OutOfFuel] when it is used up.
    - Objects are mutated in place in the source; here every method returns
      the new value of what it mutates. *)

From Stdlib Require Import ZArith QArith Qround Qabs Qminmax List Bool Lia Lqa.
Import ListNotations.

Set Implicit Arguments.
Open Scope Z_scope.

(** ** Results of methods *)

Inductive exn : Type :=
| RangeError   (* a typed-array operation was given a source that does not fit *)
| TypeError.   (* a [null] buffer was indexed *)

Inductive res (A : Type) : Type :=
| Ok (a : A)
| Throw (e : exn)
| OutOfFuel.

Arguments Ok {A} a.
Arguments Throw {A} e.
Arguments OutOfFuel {A}.

Definition bind {A B : Type} (m : res A) (k : A -> res B) : res B :=
  match m with
  | Ok a => k a
  | Throw e => Throw e
  | OutOfFuel => OutOfFuel
  end.

Notation "x <- m ;; k" := (bind m (fun x => k))
  (at level 61, m at next level, right associativity).
Notation "' p <- m ;; k" := (bind m (fun x => let p := x in k))
  (at level 61, p pattern, m at next level, right associativity).

(** ** Rational comparisons as booleans *)

Definition Qltb (x y : Q) : bool := (Qnum x * QDen y <? Qnum y * QDen x)%Z.
Definition Qleb (x y : Q) : bool := (Qnum x * QDen y <=? Qnum y * QDen x)%Z.
Definition Qeqb (x y : Q) : bool := (Qnum x * QDen y =? Qnum y * QDen x)%Z.

(** ** Samples *)

Inductive sample : Type :=
| Fin (q : Q)
| NaN.

(** [w * x] for a control value [w] and a sample [x]. *)
Definition scale (w : Q) (x : sample) : sample :=
  match x with
  | Fin q => Fin (w * q)
  | NaN => NaN
  end.

Definition sadd (x y : sample) : sample :=
  match x, y with
  | Fin a, Fin b => Fin (a + b)
  | _, _ => NaN
  end.

Definition smul (x y : sample) : sample :=
  match x, y with
  | Fin a, Fin b => Fin (a * b)
  | _, _ => NaN
  end.

(** [x > y]; every comparison with [NaN] is false. *)
Definition sgtb (x y : sample) : bool :=
  match x, y with
  | Fin a, Fin b => Qltb b a
  | _, _ => false
  end.

(** Equality of a sample with a rational value. *)
Definition sample_is (x : sample) (c : Q) : Prop :=
  match x with
  | Fin q => q == c
  | NaN => False
  end.

(** ** Counted loops: [for (let i = start; i < start + count; i++) body] *)

Fixpoint for_range {S : Type} (start : Z) (count : nat)
  (body : Z -> S -> S) (s : S) : S :=
  match count with
  | O => s
  | Datatypes.S count' => for_range (start + 1) count' body (body start s)
  end.

Fixpoint for_range_res {S : Type} (start : Z) (count : nat)
  (body : Z -> S -> res S) (s : S) : res S :=
  match count with
  | O => Ok s
  | Datatypes.S count' =>
      s' <- body start s ;; for_range_res (start + 1) count' body s'
  end.

(** ** Float32Array *)

Module F32.

Definition t : Type := list sample.

Definition length (v : t) : Z := Z.of_nat (List.length v).

(** [new Float32Array(n)]: [n] zeros.  The source only calls it with
    [n >= 0]. *)
Definition new (n : Z) : t := repeat (Fin 0) (Z.to_nat n).

(** [v[i]] as an rvalue. *)
Definition get (v : t) (i : Z) : sample :=
  if i <? 0 then NaN else nth (Z.to_nat i) v NaN.

(** [v[i] = x]. *)
Definition put (v : t) (i : Z) (x : sample) : t :=
  if (0 <=? i) && (i <? length v)
  then firstn (Z.to_nat i) v ++ x :: skipn (Datatypes.S (Z.to_nat i)) v
  else v.

(** A relative index of [subarray]: negative counts from the end, and the
    result is clipped to [0 .. length]. *)
Definition relative (len i : Z) : Z :=
  if i <? 0 then Z.max (len + i) 0 else Z.min i len.

(** [v.subarray(b, e)], as a copy. *)
Definition subarray (v : t) (b e : Z) : t :=
  let b' := relative (length v) b in
  let e' := relative (length v) e in
  firstn (Z.to_nat (Z.max (e' - b') 0)) (skipn (Z.to_nat b') v).

(** [dst.set(src, off)]. *)
Definition set (dst src : t) (off : Z) : res t :=
  if (off <? 0) || (length dst <? length src + off) then Throw RangeError
  else Ok (firstn (Z.to_nat off) dst ++ src
             ++ skipn (Z.to_nat (off + length src)) dst).

(** [v.fill(x)]. *)
Definition fill (v : t) (x : sample) : t := repeat x (List.length v).

End F32.

(** ** The sample FIFO

    [FifoSampleBuffer] (library) and [FifoBuffer] (worklet) have the same
    three fields. *)

Record Fifo : Type := mkFifo {
  _vector : F32.t;
  _position : Z;
  _frameCount : Z
}.

(** *** FifoSampleBuffer (library) *)

Module FifoSampleBuffer.

Definition new (initialCapacity : Z) : Fifo :=
  mkFifo (F32.new (initialCapacity * 2)) 0 0.

Definition position (f : Fifo) : Z := _position f.
Definition frameCount (f : Fifo) : Z := _frameCount f.
Definition startIndex (f : Fifo) : Z := _position f * 2.
Definition endIndex (f : Fifo) : Z := (_position f + _frameCount f) * 2.
Definition vector (f : Fifo) : F32.t := _vector f.

Definition put (f : Fifo) (numFrames : Z) : Fifo :=
  mkFifo (_vector f) (_position f) (_frameCount f + numFrames).

Definition receive (f : Fifo) (numFrames : Z) : Fifo :=
  let numFrames :=
    if (numFrames <? 0) || (_frameCount f <? numFrames)
    then _frameCount f else numFrames in
  mkFifo (_vector f) (_position f + numFrames) (_frameCount f - numFrames).

Definition rewind (f : Fifo) : res Fifo :=
  if 0 <? _position f then
    v <- F32.set (_vector f)
           (F32.subarray (_vector f) (startIndex f) (endIndex f)) 0 ;;
    Ok (mkFifo v 0 (_frameCount f))
  else Ok f.

Definition clear (f : Fifo) : res Fifo :=
  rewind (receive f (_frameCount f)).

Definition ensureCapacity (f : Fifo) (numFrames : Z) : res Fifo :=
  let requiredSize := numFrames * 2 in
  if F32.length (_vector f) <? requiredSize then
    newVector <- F32.set (F32.new requiredSize)
                   (F32.subarray (_vector f) (startIndex f) (endIndex f)) 0 ;;
    Ok (mkFifo newVector 0 (_frameCount f))
  else rewind f.

(** [putSamples(samples, offset, numFrames)].  Every caller in the engines
    passes [numFrames]; the default of the optional argument is not
    modelled. *)
Definition putSamples (f : Fifo) (samples : F32.t) (offset numFrames : Z)
  : res Fifo :=
  let sourceStart := offset * 2 in
  f <- ensureCapacity f (_frameCount f + numFrames) ;;
  let destStart := endIndex f in
  let count := numFrames * 2 in
  v <- F32.set (_vector f)
         (F32.subarray samples sourceStart (sourceStart + count)) destStart ;;
  Ok (mkFifo v (_position f) (_frameCount f + numFrames)).

(** [putBuffer(buffer, offset, numFrames)]; [None] is the omitted
    [numFrames]. *)
Definition putBuffer (f buffer : Fifo) (offset : Z) (numFrames : option Z)
  : res Fifo :=
  let numFrames :=
    match numFrames with
    | Some n => n
    | None => frameCount buffer - offset
    end in
  putSamples f (vector buffer) (position buffer + offset) numFrames.

(** [receiveSamples(output, numFrames)] returns the FIFO and the caller's
    [output] array. *)
Definition receiveSamples (f : Fifo) (output : F32.t) (numFrames : Z)
  : res (Fifo * F32.t) :=
  let count := numFrames * 2 in
  let start := startIndex f in
  output <- F32.set output (F32.subarray (_vector f) start (start + count)) 0 ;;
  Ok (receive f numFrames, output).

Definition extract (f : Fifo) (output : F32.t) (offset numFrames : Z)
  : res F32.t :=
  let start := startIndex f + offset * 2 in
  let count := numFrames * 2 in
  F32.set output (F32.subarray (_vector f) start (start + count)) 0.

End FifoSampleBuffer.

(** *** FifoBuffer (worklet) *)

Module FifoBuffer.

Definition new (initialCapacity : Z) : Fifo :=
  mkFifo (F32.new (initialCapacity * 2)) 0 0.

Definition position (f : Fifo) : Z := _position f.
Definition frameCount (f : Fifo) : Z := _frameCount f.
Definition startIndex (f : Fifo) : Z := _position f * 2.
Definition endIndex (f : Fifo) : Z := (_position f + _frameCount f) * 2.
Definition vector (f : Fifo) : F32.t := _vector f.

Definition put (f : Fifo) (numFrames : Z) : Fifo :=
  mkFifo (_vector f) (_position f) (_frameCount f + numFrames).

Definition receive (f : Fifo) (numFrames : Z) : Fifo :=
  let numFrames :=
    if (numFrames <? 0) || (_frameCount f <? numFrames)
    then _frameCount f else numFrames in
  mkFifo (_vector f) (_position f + numFrames) (_frameCount f - numFrames).

Definition rewind (f : Fifo) : res Fifo :=
  if 0 <? _position f then
    v <- F32.set (_vector f)
           (F32.subarray (_vector f) (startIndex f) (endIndex f)) 0 ;;
    Ok (mkFifo v 0 (_frameCount f))
  else Ok f.

Definition clear (f : Fifo) : res Fifo :=
  rewind (receive f (_frameCount f)).

Definition ensureCapacity (f : Fifo) (numFrames : Z) : res Fifo :=
  let requiredSize := numFrames * 2 in
  if F32.length (_vector f) <? requiredSize then
    newVector <- F32.set (F32.new requiredSize)
                   (F32.subarray (_vector f) (startIndex f) (endIndex f)) 0 ;;
    Ok (mkFifo newVector 0 (_frameCount f))
  else rewind f.

Definition putSamples (f : Fifo) (samples : F32.t) (offset numFrames : Z)
  : res Fifo :=
  let sourceStart := offset * 2 in
  f <- ensureCapacity f (_frameCount f + numFrames) ;;
  let destStart := endIndex f in
  let count := numFrames * 2 in
  v <- F32.set (_vector f)
         (F32.subarray samples sourceStart (sourceStart + count)) destStart ;;
  Ok (mkFifo v (_position f) (_frameCount f + numFrames)).

Definition putBuffer (f buffer : Fifo) (offset : Z) (numFrames : option Z)
  : res Fifo :=
  let numFrames :=
    match numFrames with
    | Some n => n
    | None => frameCount buffer - offset
    end in
  putSamples f (vector buffer) (position buffer + offset) numFrames.

Definition receiveSamples (f : Fifo) (output : F32.t) (numFrames : Z)
  : res (Fifo * F32.t) :=
  let count := numFrames * 2 in
  let start := startIndex f in
  output <- F32.set output (F32.subarray (_vector f) start (start + count)) 0 ;;
  Ok (receive f numFrames, output).

Definition extract (f : Fifo) (output : F32.t) (offset numFrames : Z)
  : res F32.t :=
  let start := startIndex f + offset * 2 in
  let count := numFrames * 2 in
  F32.set output (F32.subarray (_vector f) start (start + count)) 0.

End FifoBuffer.

(** ** State of a RateTransposer

    Both copies of the class have the same four private fields; the two
    FIFOs it is wired to are passed to its methods. *)

Module RT.

Record state : Type := mk {
  _rate : Q;
  slopeCount : Q;
  prevSampleL : sample;
  prevSampleR : sample
}.

End RT.

(** [Number.MIN_VALUE], the smallest positive double, [2^-1074]. *)
Definition Number_MIN_VALUE : Q := 1 # (2 ^ 1074).

(** The quick-seek table shared by both copies of [TimeStretch]. *)
Definition SCAN_OFFSETS_table : list (list Z) :=
  [ [124; 186; 248; 310; 372; 434; 496; 558; 620; 682; 744; 806; 868; 930;
     992; 1054; 1116; 1178; 1240; 1302; 1364; 1426; 1488; 0];
    [-100; -75; -50; -25; 25; 50; 75; 100; 0; 0; 0; 0; 0; 0; 0; 0; 0; 0; 0; 0;
     0; 0; 0; 0];
    [-20; -15; -10; -5; 5; 10; 15; 20; 0; 0; 0; 0; 0; 0; 0; 0; 0; 0; 0; 0; 0;
     0; 0; 0];
    [-4; -3; -2; -1; 1; 2; 3; 4; 0; 0; 0; 0; 0; 0; 0; 0; 0; 0; 0; 0; 0; 0; 0;
     0] ].

(** The entries a [while (row[scanCount]) ... scanCount++] loop visits: the
    prefix of the row before its first [0] (or its end, where the read is
    [undefined]). *)
Fixpoint truthy_prefix (row : list Z) : list Z :=
  match row with
  | [] => []
  | x :: row' => if x =? 0 then [] else x :: truthy_prefix row'
  end.

(** * The library (SoundTouch in TypeScript) *)

Module Lib.

(** ** RateTransposer *)

Module RateTransposer.

Import RT.

Definition new : state := mk 1 0 (Fin 0) (Fin 0).

Definition set_rate (rt : state) (value : Q) : state :=
  mk value (slopeCount rt) (prevSampleL rt) (prevSampleR rt).

Definition rate (rt : state) : Q := _rate rt.

Definition reset (rt : state) (inputBuffer outputBuffer : Fifo)
  : res (state * Fifo * Fifo) :=
  inputBuffer <- FifoSampleBuffer.clear inputBuffer ;;
  outputBuffer <- FifoSampleBuffer.clear outputBuffer ;;
  Ok (mk (_rate rt) 0 (Fin 0) (Fin 0), inputBuffer, outputBuffer).

(** [while (this.slopeCount < 1.0) { ... }]: frames interpolated between
    the retained previous frame and the first input frame. *)
Fixpoint transpose_prev (fuel : nat) (rt : state) (input : F32.t)
  (inputStart outputStart : Z) (output : F32.t) (slopeCount : Q)
  (outputCount : Z) : res (F32.t * Q * Z) :=
  if Qltb slopeCount 1 then
    match fuel with
    | O => OutOfFuel
    | S fuel' =>
        let weight := slopeCount in
        let output :=
          F32.put output (outputStart + outputCount * 2)
            (sadd (scale (1 - weight) (prevSampleL rt))
                  (scale weight (F32.get input inputStart))) in
        let output :=
          F32.put output (outputStart + outputCount * 2 + 1)
            (sadd (scale (1 - weight) (prevSampleR rt))
                  (scale weight (F32.get input (inputStart + 1)))) in
        transpose_prev fuel' rt input inputStart outputStart output
          (slopeCount + _rate rt) (outputCount + 1)
    end
  else Ok (output, slopeCount, outputCount).

(** [while (this.slopeCount >= 1.0) { this.slopeCount -= 1.0; inputIndex++;
    if (inputIndex >= numFrames - 1) break; }] *)
Fixpoint transpose_advance (fuel : nat) (numFrames : Z) (slopeCount : Q)
  (inputIndex : Z) : res (Q * Z) :=
  if Qleb 1 slopeCount then
    match fuel with
    | O => OutOfFuel
    | S fuel' =>
        let slopeCount := (slopeCount - 1)%Q in
        let inputIndex := inputIndex + 1 in
        if numFrames - 1 <=? inputIndex then Ok (slopeCount, inputIndex)
        else transpose_advance fuel' numFrames slopeCount inputIndex
    end
  else Ok (slopeCount, inputIndex).

(** The [while (true)] loop over the remaining input frames; [inner] is the
    fuel of each run of the loop inside it. *)
Fixpoint transpose_rest (fuel inner : nat) (rt : state) (input : F32.t)
  (inputStart outputStart numFrames : Z) (output : F32.t) (slopeCount : Q)
  (inputIndex outputCount : Z) : res (F32.t * Q * Z) :=
  match fuel with
  | O => OutOfFuel
  | S fuel' =>
      '(slopeCount, inputIndex) <-
         transpose_advance inner numFrames slopeCount inputIndex ;;
      if numFrames - 1 <=? inputIndex then Ok (output, slopeCount, outputCount)
      else
        let idx := inputStart + inputIndex * 2 in
        let weight := slopeCount in
        let output :=
          F32.put output (outputStart + outputCount * 2)
            (sadd (scale (1 - weight) (F32.get input idx))
                  (scale weight (F32.get input (idx + 2)))) in
        let output :=
          F32.put output (outputStart + outputCount * 2 + 1)
            (sadd (scale (1 - weight) (F32.get input (idx + 1)))
                  (scale weight (F32.get input (idx + 3)))) in
        transpose_rest fuel' inner rt input inputStart outputStart numFrames
          output (slopeCount + _rate rt) inputIndex (outputCount + 1)
  end.

(** [transpose(numFrames)]: the new state, the output FIFO with its vector
    written, and [outputCount]. *)
Definition transpose (fuel : nat) (rt : state) (inputBuffer outputBuffer : Fifo)
  (numFrames : Z) : res (state * Fifo * Z) :=
  if numFrames =? 0 then Ok (rt, outputBuffer, 0)
  else
    let input := FifoSampleBuffer.vector inputBuffer in
    let inputStart := FifoSampleBuffer.startIndex inputBuffer in
    let output := FifoSampleBuffer.vector outputBuffer in
    let outputStart := FifoSampleBuffer.endIndex outputBuffer in
    '(output, slopeCount, outputCount) <-
       transpose_prev fuel rt input inputStart outputStart output
         (slopeCount rt) 0 ;;
    let slopeCount := (slopeCount - 1)%Q in
    '(output, slopeCount, outputCount) <-
       (if 1 <? numFrames then
          transpose_rest fuel fuel rt input inputStart outputStart numFrames
            output slopeCount 0 outputCount
        else Ok (output, slopeCount, outputCount)) ;;
    Ok (mk (_rate rt) slopeCount
          (F32.get input (inputStart + (numFrames - 1) * 2))
          (F32.get input (inputStart + (numFrames - 1) * 2 + 1)),
        mkFifo output (_position outputBuffer) (_frameCount outputBuffer),
        outputCount).

Definition process (fuel : nat) (rt : state) (inputBuffer outputBuffer : Fifo)
  : res (state * Fifo * Fifo) :=
  let numFrames := FifoSampleBuffer.frameCount inputBuffer in
  if numFrames =? 0 then Ok (rt, inputBuffer, outputBuffer)
  else
    outputBuffer <-
      FifoSampleBuffer.ensureCapacity outputBuffer
        (FifoSampleBuffer.frameCount outputBuffer
         + Qceiling (inject_Z numFrames / _rate rt) + 1) ;;
    '(rt, outputBuffer, outputCount) <-
       transpose fuel rt inputBuffer outputBuffer numFrames ;;
    let inputBuffer := FifoSampleBuffer.receive inputBuffer numFrames in
    let outputBuffer := FifoSampleBuffer.put outputBuffer outputCount in
    Ok (rt, inputBuffer, outputBuffer).

End RateTransposer.

(** ** TimeStretch *)

Module TimeStretch.

Record state : Type := mk {
  sampleRate : Q;
  _tempo : Q;
  sequenceMs : Q;
  seekWindowMs : Q;
  overlapMs : Q;
  sequenceLength : Z;
  seekLength : Z;
  overlapLength : Z;
  nominalSkip : Q;
  skipFract : Q;
  midBuffer : option F32.t;
  refMidBuffer : option F32.t;
  sampleReq : Z
}.

Definition new : state :=
  mk 44100 1 0 0 16 0 0 0 0 0 None None 0.

Definition SCAN_OFFSETS : list (list Z) := SCAN_OFFSETS_table.

Definition tempo (ts : state) : Q := _tempo ts.

Definition seekWindowLength (ts : state) : Z := sequenceLength ts.

Definition calculateEffectiveParams (ts : state) : state :=
  let sequenceLength' :=
    if Qeqb (sequenceMs ts) 0 then
      let seqMs := (125 - (125 - 50) / (2 - (1 # 2)) * (_tempo ts - (1 # 2)))%Q in
      Qfloor (sampleRate ts * Qmax 50 (Qmin 125 seqMs) / 1000)
    else Qfloor (sampleRate ts * sequenceMs ts / 1000) in
  let seekLength' :=
    if Qeqb (seekWindowMs ts) 0 then
      let seekMs := (25 - (25 - 15) / (2 - (1 # 2)) * (_tempo ts - (1 # 2)))%Q in
      Qfloor (sampleRate ts * Qmax 15 (Qmin 25 seekMs) / 1000)
    else Qfloor (sampleRate ts * seekWindowMs ts / 1000) in
  mk (sampleRate ts) (_tempo ts) (sequenceMs ts) (seekWindowMs ts)
     (overlapMs ts) sequenceLength' seekLength' (overlapLength ts)
     (nominalSkip ts) (skipFract ts) (midBuffer ts) (refMidBuffer ts)
     (sampleReq ts).

(** The [tempo] setter. *)
Definition set_tempo (ts : state) (value : Q) : state :=
  let ts :=
    calculateEffectiveParams
      (mk (sampleRate ts) value (sequenceMs ts) (seekWindowMs ts)
          (overlapMs ts) (sequenceLength ts) (seekLength ts) (overlapLength ts)
          (nominalSkip ts) (skipFract ts) (midBuffer ts) (refMidBuffer ts)
          (sampleReq ts)) in
  let nominalSkip' :=
    (_tempo ts * inject_Z (seekWindowLength ts - overlapLength ts))%Q in
  let skip := Qfloor (nominalSkip' + (1 # 2)) in
  let sampleReq' :=
    Z.max (skip + overlapLength ts) (seekWindowLength ts) + seekLength ts in
  mk (sampleRate ts) (_tempo ts) (sequenceMs ts) (seekWindowMs ts)
     (overlapMs ts) (sequenceLength ts) (seekLength ts) (overlapLength ts)
     nominalSkip' 0 (midBuffer ts) (refMidBuffer ts) sampleReq'.

Definition calculateOverlapLength (ts : state) : state :=
  let overlap := Qfloor (sampleRate ts * overlapMs ts / 1000) in
  let overlap := if overlap <? 16 then 16 else overlap in
  let overlap := overlap - Z.rem overlap 8 in
  mk (sampleRate ts) (_tempo ts) (sequenceMs ts) (seekWindowMs ts)
     (overlapMs ts) (sequenceLength ts) (seekLength ts) overlap
     (nominalSkip ts) (skipFract ts)
     (Some (F32.new (overlap * 2))) (Some (F32.new (overlap * 2)))
     (sampleReq ts).

(** [setParameters(sampleRate, sequenceMs, seekWindowMs, overlapMs)]; the
    defaults of the last three are [0], [0] and [16]. *)
Definition setParameters (ts : state)
  (sampleRate' sequenceMs' seekWindowMs' overlapMs' : Q) : state :=
  let sr := if Qltb 0 sampleRate' then sampleRate' else sampleRate ts in
  let ov := if Qltb 0 overlapMs' then overlapMs' else overlapMs ts in
  let ts :=
    mk sr (_tempo ts) sequenceMs' seekWindowMs' ov (sequenceLength ts)
       (seekLength ts) (overlapLength ts) (nominalSkip ts) (skipFract ts)
       (midBuffer ts) (refMidBuffer ts) (sampleReq ts) in
  let ts := calculateEffectiveParams ts in
  let ts := calculateOverlapLength ts in
  set_tempo ts (_tempo ts).

Definition set_midBuffer (ts : state) (m : option F32.t) : state :=
  mk (sampleRate ts) (_tempo ts) (sequenceMs ts) (seekWindowMs ts)
     (overlapMs ts) (sequenceLength ts) (seekLength ts) (overlapLength ts)
     (nominalSkip ts) (skipFract ts) m (refMidBuffer ts) (sampleReq ts).

Definition set_refMidBuffer (ts : state) (m : option F32.t) : state :=
  mk (sampleRate ts) (_tempo ts) (sequenceMs ts) (seekWindowMs ts)
     (overlapMs ts) (sequenceLength ts) (seekLength ts) (overlapLength ts)
     (nominalSkip ts) (skipFract ts) (midBuffer ts) m (sampleReq ts).

Definition set_skipFract (ts : state) (q : Q) : state :=
  mk (sampleRate ts) (_tempo ts) (sequenceMs ts) (seekWindowMs ts)
     (overlapMs ts) (sequenceLength ts) (seekLength ts) (overlapLength ts)
     (nominalSkip ts) q (midBuffer ts) (refMidBuffer ts) (sampleReq ts).

Definition reset (ts : state) (inputBuffer outputBuffer : Fifo)
  : res (state * Fifo * Fifo) :=
  let ts := set_skipFract (set_midBuffer ts None) 0 in
  inputBuffer <- FifoSampleBuffer.clear inputBuffer ;;
  outputBuffer <- FifoSampleBuffer.clear outputBuffer ;;
  Ok (ts, inputBuffer, outputBuffer).

(** [this.midBuffer!] and [this.refMidBuffer!]: indexing [null] throws. *)
Definition nonnull (m : option F32.t) : res F32.t :=
  match m with
  | Some v => Ok v
  | None => Throw TypeError
  end.

(** [precalcCorrReference()]: the new [refMidBuffer]. *)
Definition precalcCorrReference (ts : state) : res state :=
  r <- for_range_res 0 (Z.to_nat (overlapLength ts))
         (fun i (r : option F32.t) =>
            let weight := inject_Z (i * (overlapLength ts - i)) in
            let idx := i * 2 in
            m <- nonnull (midBuffer ts) ;;
            r <- nonnull r ;;
            let r := F32.put r idx (scale weight (F32.get m idx)) in
            let r := F32.put r (idx + 1) (scale weight (F32.get m (idx + 1))) in
            Ok (Some r))
         (refMidBuffer ts) ;;
  Ok (set_refMidBuffer ts r).

(** [calculateCrossCorr(offset)].  The source's [i] runs over
    [2, 4, ..., 2 * overlapLength - 2]; here [j = i / 2]. *)
Definition calculateCrossCorr (ts : state) (inputBuffer : Fifo) (offset : Z)
  : res sample :=
  let input := FifoSampleBuffer.vector inputBuffer in
  let inputStart := FifoSampleBuffer.startIndex inputBuffer + offset in
  for_range_res 1 (Z.to_nat (overlapLength ts - 1))
    (fun j corr =>
       let i := j * 2 in
       r <- nonnull (refMidBuffer ts) ;;
       Ok (sadd corr
             (sadd (smul (F32.get input (inputStart + i)) (F32.get r i))
                   (smul (F32.get input (inputStart + i + 1))
                         (F32.get r (i + 1))))))
    (Fin 0).

(** One scan level of the quick seek: the entries of the row are tried in
    order around [corrOffset]. *)
Fixpoint scan_level (ts : state) (inputBuffer : Fifo) (corrOffset : Z)
  (entries : list Z) (bestOffset : Z) (bestCorr : sample)
  : res (Z * sample) :=
  match entries with
  | [] => Ok (bestOffset, bestCorr)
  | entry :: entries' =>
      let testOffset := corrOffset + entry in
      '(bestOffset, bestCorr) <-
         (if (0 <=? testOffset) && (testOffset <? seekLength ts) then
            corr <- calculateCrossCorr ts inputBuffer (testOffset * 2) ;;
            if sgtb corr bestCorr then Ok (testOffset, corr)
            else Ok (bestOffset, bestCorr)
          else Ok (bestOffset, bestCorr)) ;;
      scan_level ts inputBuffer corrOffset entries' bestOffset bestCorr
  end.

(** The [for (scanLevel ...)] loop over the rows of the table. *)
Fixpoint scan_levels (ts : state) (inputBuffer : Fifo) (rows : list (list Z))
  (corrOffset bestOffset : Z) (bestCorr : sample) : res Z :=
  match rows with
  | [] => Ok bestOffset
  | row :: rows' =>
      '(bestOffset, bestCorr) <-
         scan_level ts inputBuffer corrOffset (truthy_prefix row)
           bestOffset bestCorr ;;
      scan_levels ts inputBuffer rows' bestOffset bestOffset bestCorr
  end.

Definition seekBestOverlapPositionQuick (ts : state) (inputBuffer : Fifo)
  : res Z :=
  scan_levels ts inputBuffer SCAN_OFFSETS 0 0 (Fin Number_MIN_VALUE).

Definition seekBestOverlapPosition (ts : state) (inputBuffer : Fifo)
  : res (state * Z) :=
  ts <- precalcCorrReference ts ;;
  offset <- seekBestOverlapPositionQuick ts inputBuffer ;;
  Ok (ts, offset).

(** [overlap(offset)]: the output FIFO with its vector written. *)
Definition overlap (ts : state) (inputBuffer outputBuffer : Fifo) (offset : Z)
  : res Fifo :=
  let input := FifoSampleBuffer.vector inputBuffer in
  let inputStart := FifoSampleBuffer.startIndex inputBuffer + offset * 2 in
  let outputStart := FifoSampleBuffer.endIndex outputBuffer in
  let invOverlap := (1 / inject_Z (overlapLength ts))%Q in
  output <- for_range_res 0 (Z.to_nat (overlapLength ts))
         (fun i output =>
            let fadeOut := (inject_Z (overlapLength ts - i) * invOverlap)%Q in
            let fadeIn := (inject_Z i * invOverlap)%Q in
            let idx := i * 2 in
            let inIdx := inputStart + idx in
            let outIdx := outputStart + idx in
            m <- nonnull (midBuffer ts) ;;
            let output :=
              F32.put output outIdx
                (sadd (scale fadeIn (F32.get input inIdx))
                      (scale fadeOut (F32.get m idx))) in
            let output :=
              F32.put output (outIdx + 1)
                (sadd (scale fadeIn (F32.get input (inIdx + 1)))
                      (scale fadeOut (F32.get m (idx + 1)))) in
            Ok output)
         (FifoSampleBuffer.vector outputBuffer) ;;
  Ok (mkFifo output (_position outputBuffer) (_frameCount outputBuffer)).

(** One turn of [while (this.inputBuffer.frameCount >= this.sampleReq)]. *)
Definition process_step (ts : state) (inputBuffer outputBuffer : Fifo)
  : res (state * Fifo * Fifo) :=
  '(ts, offset) <- seekBestOverlapPosition ts inputBuffer ;;
  outputBuffer <-
    FifoSampleBuffer.ensureCapacity outputBuffer
      (FifoSampleBuffer.frameCount outputBuffer + overlapLength ts) ;;
  outputBuffer <- overlap ts inputBuffer outputBuffer offset ;;
  let outputBuffer := FifoSampleBuffer.put outputBuffer (overlapLength ts) in
  let middleLength := seekWindowLength ts - 2 * overlapLength ts in
  outputBuffer <-
    (if 0 <? middleLength then
       FifoSampleBuffer.putBuffer outputBuffer inputBuffer
         (offset + overlapLength ts) (Some middleLength)
     else Ok outputBuffer) ;;
  let midStart :=
    FifoSampleBuffer.startIndex inputBuffer
    + (offset + seekWindowLength ts - overlapLength ts) * 2 in
  m <- nonnull (midBuffer ts) ;;
  m <- F32.set m
         (F32.subarray (FifoSampleBuffer.vector inputBuffer) midStart
            (midStart + overlapLength ts * 2)) 0 ;;
  let ts := set_midBuffer ts (Some m) in
  let skipFract' := (skipFract ts + nominalSkip ts)%Q in
  let skip := Qfloor skipFract' in
  let ts := set_skipFract ts (skipFract' - inject_Z skip)%Q in
  let inputBuffer := FifoSampleBuffer.receive inputBuffer skip in
  Ok (ts, inputBuffer, outputBuffer).

Fixpoint process_loop (fuel : nat) (ts : state) (inputBuffer outputBuffer : Fifo)
  : res (state * Fifo * Fifo) :=
  if sampleReq ts <=? FifoSampleBuffer.frameCount inputBuffer then
    match fuel with
    | O => OutOfFuel
    | S fuel' =>
        '(ts, inputBuffer, outputBuffer) <-
           process_step ts inputBuffer outputBuffer ;;
        process_loop fuel' ts inputBuffer outputBuffer
    end
  else Ok (ts, inputBuffer, outputBuffer).

(** Is [this.midBuffer === null || this.midBuffer.length === 0]? *)
Definition midBuffer_missing (ts : state) : bool :=
  match midBuffer ts with
  | None => true
  | Some m => F32.length m =? 0
  end.

Definition process (fuel : nat) (ts : state) (inputBuffer outputBuffer : Fifo)
  : res (state * Fifo * Fifo) :=
  if midBuffer_missing ts then
    if FifoSampleBuffer.frameCount inputBuffer <? overlapLength ts then
      Ok (ts, inputBuffer, outputBuffer)
    else
      '(inputBuffer, m) <-
         FifoSampleBuffer.receiveSamples inputBuffer
           (F32.new (overlapLength ts * 2)) (overlapLength ts) ;;
      process_loop fuel (set_midBuffer ts (Some m)) inputBuffer outputBuffer
  else process_loop fuel ts inputBuffer outputBuffer.

End TimeStretch.

(** ** SoundTouch

    The engine owns three FIFOs and wires the two components to them by
    reference; a [bufref] names the FIFO a component field points to. *)

Module SoundTouch.

Inductive bufref : Type :=
| InputBuffer
| IntermediateBuffer
| OutputBuffer.

Definition bufref_eqb (a b : bufref) : bool :=
  match a, b with
  | InputBuffer, InputBuffer => true
  | IntermediateBuffer, IntermediateBuffer => true
  | OutputBuffer, OutputBuffer => true
  | _, _ => false
  end.

Record state : Type := mk {
  rateTransposer : RT.state;
  rateTransposer_inputBuffer : bufref;
  rateTransposer_outputBuffer : bufref;
  timeStretch : TimeStretch.state;
  timeStretch_inputBuffer : bufref;
  timeStretch_outputBuffer : bufref;
  _inputBuffer : Fifo;
  _intermediateBuffer : Fifo;
  _outputBuffer : Fifo;
  _rate : Q;
  _tempo : Q;
  virtualPitch : Q;
  virtualRate : Q;
  virtualTempo : Q
}.

Definition inputBuffer (e : state) : Fifo := _inputBuffer e.
Definition outputBuffer (e : state) : Fifo := _outputBuffer e.
Definition rate (e : state) : Q := _rate e.
Definition tempo (e : state) : Q := _tempo e.
Definition pitch (e : state) : Q := virtualPitch e.

Definition deref (e : state) (r : bufref) : Fifo :=
  match r with
  | InputBuffer => _inputBuffer e
  | IntermediateBuffer => _intermediateBuffer e
  | OutputBuffer => _outputBuffer e
  end.

Definition assign (e : state) (r : bufref) (f : Fifo) : state :=
  mk (rateTransposer e) (rateTransposer_inputBuffer e)
     (rateTransposer_outputBuffer e) (timeStretch e)
     (timeStretch_inputBuffer e) (timeStretch_outputBuffer e)
     (match r with InputBuffer => f | _ => _inputBuffer e end)
     (match r with IntermediateBuffer => f | _ => _intermediateBuffer e end)
     (match r with OutputBuffer => f | _ => _outputBuffer e end)
     (_rate e) (_tempo e) (virtualPitch e) (virtualRate e) (virtualTempo e).

Definition set_rateTransposer (e : state) (rt : RT.state) : state :=
  mk rt (rateTransposer_inputBuffer e) (rateTransposer_outputBuffer e)
     (timeStretch e) (timeStretch_inputBuffer e) (timeStretch_outputBuffer e)
     (_inputBuffer e) (_intermediateBuffer e) (_outputBuffer e)
     (_rate e) (_tempo e) (virtualPitch e) (virtualRate e) (virtualTempo e).

Definition set_timeStretch (e : state) (ts : TimeStretch.state) : state :=
  mk (rateTransposer e) (rateTransposer_inputBuffer e)
     (rateTransposer_outputBuffer e) ts
     (timeStretch_inputBuffer e) (timeStretch_outputBuffer e)
     (_inputBuffer e) (_intermediateBuffer e) (_outputBuffer e)
     (_rate e) (_tempo e) (virtualPitch e) (virtualRate e) (virtualTempo e).

(** The wiring assignments of the two branches. *)
Definition wire (e : state) (rt_in rt_out ts_in ts_out : bufref) : state :=
  mk (rateTransposer e) rt_in rt_out (timeStretch e) ts_in ts_out
     (_inputBuffer e) (_intermediateBuffer e) (_outputBuffer e)
     (_rate e) (_tempo e) (virtualPitch e) (virtualRate e) (virtualTempo e).

Definition calculateEffectiveRateAndTempo (e : state) : state :=
  let oldTempo := _tempo e in
  let oldRate := _rate e in
  let tempo' := (virtualTempo e / virtualPitch e)%Q in
  let rate' := (virtualRate e * virtualPitch e)%Q in
  let ts :=
    if Qltb (1 # 10 ^ 10) (Qabs (tempo' - oldTempo))
    then TimeStretch.set_tempo (timeStretch e) tempo'
    else timeStretch e in
  let rt :=
    if Qltb (1 # 10 ^ 10) (Qabs (rate' - oldRate))
    then RateTransposer.set_rate (rateTransposer e) rate'
    else rateTransposer e in
  let e :=
    mk rt (rateTransposer_inputBuffer e) (rateTransposer_outputBuffer e)
       ts (timeStretch_inputBuffer e) (timeStretch_outputBuffer e)
       (_inputBuffer e) (_intermediateBuffer e) (_outputBuffer e)
       rate' tempo' (virtualPitch e) (virtualRate e) (virtualTempo e) in
  if Qltb 1 (_rate e) then
    if negb (bufref_eqb OutputBuffer (rateTransposer_outputBuffer e))
    then wire e IntermediateBuffer OutputBuffer InputBuffer IntermediateBuffer
    else e
  else
    if negb (bufref_eqb OutputBuffer (timeStretch_outputBuffer e))
    then wire e InputBuffer IntermediateBuffer IntermediateBuffer OutputBuffer
    else e.

(** [new SoundTouch()].  The two components are created with FIFOs of their
    own; the constructor's call of [calculateEffectiveRateAndTempo] finds
    rate 1 and the time stretcher not on [_outputBuffer], pushes nothing, and
    wires transposer: input to intermediate, stretcher: intermediate to
    output.  The components' own FIFOs are unreachable from then on. *)
Definition new : state :=
  mk RateTransposer.new InputBuffer IntermediateBuffer
     TimeStretch.new IntermediateBuffer OutputBuffer
     (FifoSampleBuffer.new 4096) (FifoSampleBuffer.new 4096)
     (FifoSampleBuffer.new 4096) 1 1 1 1 1.

Definition set_virtualRate (e : state) (value : Q) : state :=
  mk (rateTransposer e) (rateTransposer_inputBuffer e)
     (rateTransposer_outputBuffer e) (timeStretch e)
     (timeStretch_inputBuffer e) (timeStretch_outputBuffer e)
     (_inputBuffer e) (_intermediateBuffer e) (_outputBuffer e)
     (_rate e) (_tempo e) (virtualPitch e) value (virtualTempo e).

Definition set_virtualTempo (e : state) (value : Q) : state :=
  mk (rateTransposer e) (rateTransposer_inputBuffer e)
     (rateTransposer_outputBuffer e) (timeStretch e)
     (timeStretch_inputBuffer e) (timeStretch_outputBuffer e)
     (_inputBuffer e) (_intermediateBuffer e) (_outputBuffer e)
     (_rate e) (_tempo e) (virtualPitch e) (virtualRate e) value.

Definition set_virtualPitch (e : state) (value : Q) : state :=
  mk (rateTransposer e) (rateTransposer_inputBuffer e)
     (rateTransposer_outputBuffer e) (timeStretch e)
     (timeStretch_inputBuffer e) (timeStretch_outputBuffer e)
     (_inputBuffer e) (_intermediateBuffer e) (_outputBuffer e)
     (_rate e) (_tempo e) value (virtualRate e) (virtualTempo e).

(** The three setters. *)
Definition set_rate (e : state) (value : Q) : state :=
  calculateEffectiveRateAndTempo (set_virtualRate e value).

Definition set_tempo (e : state) (value : Q) : state :=
  calculateEffectiveRateAndTempo (set_virtualTempo e value).

Definition set_pitch (e : state) (value : Q) : state :=
  calculateEffectiveRateAndTempo (set_virtualPitch e value).

(** The [pitchSemitones] setter; [Math_pow] stands for [Math.pow]. *)
Definition set_pitchSemitones (Math_pow : Q -> Q -> Q) (e : state)
  (semitones : Q) : state :=
  set_pitch e (Math_pow 2%Q (semitones / 12)%Q).

(** [setParameters]; the optional arguments are passed on, so the defaults
    of [TimeStretch.setParameters] apply. *)
Definition setParameters (e : state)
  (sampleRate sequenceMs seekWindowMs overlapMs : Q) : state :=
  set_timeStretch e
    (TimeStretch.setParameters (timeStretch e) sampleRate sequenceMs
       seekWindowMs overlapMs).

(** [this.rateTransposer.process()] on the FIFOs it is wired to. *)
Definition rateTransposer_process (fuel : nat) (e : state) : res state :=
  '(rt, i, o) <-
     RateTransposer.process fuel (rateTransposer e)
       (deref e (rateTransposer_inputBuffer e))
       (deref e (rateTransposer_outputBuffer e)) ;;
  Ok (assign (assign (set_rateTransposer e rt)
                (rateTransposer_inputBuffer e) i)
        (rateTransposer_outputBuffer e) o).

(** [this.timeStretch.process()] on the FIFOs it is wired to. *)
Definition timeStretch_process (fuel : nat) (e : state) : res state :=
  '(ts, i, o) <-
     TimeStretch.process fuel (timeStretch e)
       (deref e (timeStretch_inputBuffer e))
       (deref e (timeStretch_outputBuffer e)) ;;
  Ok (assign (assign (set_timeStretch e ts) (timeStretch_inputBuffer e) i)
        (timeStretch_outputBuffer e) o).

Definition process (fuel : nat) (e : state) : res state :=
  if Qltb 1 (_rate e) then
    e <- timeStretch_process fuel e ;;
    rateTransposer_process fuel e
  else
    e <- rateTransposer_process fuel e ;;
    timeStretch_process fuel e.

Definition clear_buffer (e : state) (r : bufref) : res state :=
  f <- FifoSampleBuffer.clear (deref e r) ;;
  Ok (assign e r f).

Definition reset (e : state) : res state :=
  '(rt, i, o) <-
     RateTransposer.reset (rateTransposer e)
       (deref e (rateTransposer_inputBuffer e))
       (deref e (rateTransposer_outputBuffer e)) ;;
  let e := assign (assign (set_rateTransposer e rt)
                     (rateTransposer_inputBuffer e) i)
             (rateTransposer_outputBuffer e) o in
  '(ts, i, o) <-
     TimeStretch.reset (timeStretch e)
       (deref e (timeStretch_inputBuffer e))
       (deref e (timeStretch_outputBuffer e)) ;;
  let e := assign (assign (set_timeStretch e ts) (timeStretch_inputBuffer e) i)
             (timeStretch_outputBuffer e) o in
  e <- clear_buffer e InputBuffer ;;
  e <- clear_buffer e IntermediateBuffer ;;
  clear_buffer e OutputBuffer.

End SoundTouch.

End Lib.

(** * The copy inlined in the SoundTouch AudioWorklet *)

Module Worklet.

(** ** RateTransposer *)

Module RateTransposer.

Import RT.

Definition new : state := mk 1 0 (Fin 0) (Fin 0).

Definition set_rate (rt : state) (value : Q) : state :=
  mk value (slopeCount rt) (prevSampleL rt) (prevSampleR rt).

Definition rate (rt : state) : Q := _rate rt.

Definition reset (rt : state) (inputBuffer outputBuffer : Fifo)
  : res (state * Fifo * Fifo) :=
  inputBuffer <- FifoBuffer.clear inputBuffer ;;
  outputBuffer <- FifoBuffer.clear outputBuffer ;;
  Ok (mk (_rate rt) 0 (Fin 0) (Fin 0), inputBuffer, outputBuffer).

(** [while (this.slopeCount < 1.0) { ... }]: frames interpolated between
    the retained previous frame and the first input frame. *)
Fixpoint transpose_prev (fuel : nat) (rt : state) (input : F32.t)
  (inputStart outputStart : Z) (output : F32.t) (slopeCount : Q)
  (outputCount : Z) : res (F32.t * Q * Z) :=
  if Qltb slopeCount 1 then
    match fuel with
    | O => OutOfFuel
    | S fuel' =>
        let weight := slopeCount in
        let output :=
          F32.put output (outputStart + outputCount * 2)
            (sadd (scale (1 - weight) (prevSampleL rt))
                  (scale weight (F32.get input inputStart))) in
        let output :=
          F32.put output (outputStart + outputCount * 2 + 1)
            (sadd (scale (1 - weight) (prevSampleR rt))
                  (scale weight (F32.get input (inputStart + 1)))) in
        transpose_prev fuel' rt input inputStart outputStart output
          (slopeCount + _rate rt) (outputCount + 1)
    end
  else Ok (output, slopeCount, outputCount).

(** [while (this.slopeCount >= 1.0) { this.slopeCount -= 1.0; inputIndex++;
    if (inputIndex >= numFrames - 1) break; }] *)
Fixpoint transpose_advance (fuel : nat) (numFrames : Z) (slopeCount : Q)
  (inputIndex : Z) : res (Q * Z) :=
  if Qleb 1 slopeCount then
    match fuel with
    | O => OutOfFuel
    | S fuel' =>
        let slopeCount := (slopeCount - 1)%Q in
        let inputIndex := inputIndex + 1 in
        if numFrames - 1 <=? inputIndex then Ok (slopeCount, inputIndex)
        else transpose_advance fuel' numFrames slopeCount inputIndex
    end
  else Ok (slopeCount, inputIndex).

(** The [while (true)] loop over the remaining input frames; [inner] is the
    fuel of each run of the loop inside it. *)
Fixpoint transpose_rest (fuel inner : nat) (rt : state) (input : F32.t)
  (inputStart outputStart numFrames : Z) (output : F32.t) (slopeCount : Q)
  (inputIndex outputCount : Z) : res (F32.t * Q * Z) :=
  match fuel with
  | O => OutOfFuel
  | S fuel' =>
      '(slopeCount, inputIndex) <-
         transpose_advance inner numFrames slopeCount inputIndex ;;
      if numFrames - 1 <=? inputIndex then Ok (output, slopeCount, outputCount)
      else
        let idx := inputStart + inputIndex * 2 in
        let weight := slopeCount in
        let output :=
          F32.put output (outputStart + outputCount * 2)
            (sadd (scale (1 - weight) (F32.get input idx))
                  (scale weight (F32.get input (idx + 2)))) in
        let output :=
          F32.put output (outputStart + outputCount * 2 + 1)
            (sadd (scale (1 - weight) (F32.get input (idx + 1)))
                  (scale weight (F32.get input (idx + 3)))) in
        transpose_rest fuel' inner rt input inputStart outputStart numFrames
          output (slopeCount + _rate rt) inputIndex (outputCount + 1)
  end.

(** [transpose(numFrames)]: the new state, the output FIFO with its vector
    written, and [outputCount]. *)
Definition transpose (fuel : nat) (rt : state) (inputBuffer outputBuffer : Fifo)
  (numFrames : Z) : res (state * Fifo * Z) :=
  if numFrames =? 0 then Ok (rt, outputBuffer, 0)
  else
    let input := FifoBuffer.vector inputBuffer in
    let inputStart := FifoBuffer.startIndex inputBuffer in
    let output := FifoBuffer.vector outputBuffer in
    let outputStart := FifoBuffer.endIndex outputBuffer in
    '(output, slopeCount, outputCount) <-
       transpose_prev fuel rt input inputStart outputStart output
         (slopeCount rt) 0 ;;
    let slopeCount := (slopeCount - 1)%Q in
    '(output, slopeCount, outputCount) <-
       (if 1 <? numFrames then
          transpose_rest fuel fuel rt input inputStart outputStart numFrames
            output slopeCount 0 outputCount
        else Ok (output, slopeCount, outputCount)) ;;
    Ok (mk (_rate rt) slopeCount
          (F32.get input (inputStart + (numFrames - 1) * 2))
          (F32.get input (inputStart + (numFrames - 1) * 2 + 1)),
        mkFifo output (_position outputBuffer) (_frameCount outputBuffer),
        outputCount).

Definition process (fuel : nat) (rt : state) (inputBuffer outputBuffer : Fifo)
  : res (state * Fifo * Fifo) :=
  let numFrames := FifoBuffer.frameCount inputBuffer in
  if numFrames =? 0 then Ok (rt, inputBuffer, outputBuffer)
  else
    outputBuffer <-
      FifoBuffer.ensureCapacity outputBuffer
        (FifoBuffer.frameCount outputBuffer
         + Qceiling (inject_Z numFrames / _rate rt) + 1) ;;
    '(rt, outputBuffer, outputCount) <-
       transpose fuel rt inputBuffer outputBuffer numFrames ;;
    let inputBuffer := FifoBuffer.receive inputBuffer numFrames in
    let outputBuffer := FifoBuffer.put outputBuffer outputCount in
    Ok (rt, inputBuffer, outputBuffer).

End RateTransposer.

(** ** TimeStretch

    The worklet's copy always auto-tunes: it has no [sequenceMs],
    [seekWindowMs] or [overlapMs] fields. *)

Module TimeStretch.

Record state : Type := mk {
  _sampleRate : Q;
  _tempo : Q;
  sequenceLength : Z;
  seekLength : Z;
  overlapLength : Z;
  nominalSkip : Q;
  skipFract : Q;
  midBuffer : option F32.t;
  refMidBuffer : option F32.t;
  sampleReq : Z
}.

Definition new : state := mk 44100 1 0 0 0 0 0 None None 0.

Definition SCAN_OFFSETS : list (list Z) := SCAN_OFFSETS_table.

Definition tempo (ts : state) : Q := _tempo ts.

Definition calculateEffectiveParams (ts : state) : state :=
  let seqMs := (125 - (125 - 50) / (2 - (1 # 2)) * (_tempo ts - (1 # 2)))%Q in
  let sequenceLength' :=
    Qfloor (_sampleRate ts * Qmax 50 (Qmin 125 seqMs) / 1000) in
  let seekMs := (25 - (25 - 15) / (2 - (1 # 2)) * (_tempo ts - (1 # 2)))%Q in
  let seekLength' :=
    Qfloor (_sampleRate ts * Qmax 15 (Qmin 25 seekMs) / 1000) in
  mk (_sampleRate ts) (_tempo ts) sequenceLength' seekLength'
     (overlapLength ts) (nominalSkip ts) (skipFract ts) (midBuffer ts)
     (refMidBuffer ts) (sampleReq ts).

(** The [tempo] setter. *)
Definition set_tempo (ts : state) (value : Q) : state :=
  let ts :=
    calculateEffectiveParams
      (mk (_sampleRate ts) value (sequenceLength ts) (seekLength ts)
          (overlapLength ts) (nominalSkip ts) (skipFract ts) (midBuffer ts)
          (refMidBuffer ts) (sampleReq ts)) in
  let nominalSkip' :=
    (_tempo ts * inject_Z (sequenceLength ts - overlapLength ts))%Q in
  let skip := Qfloor (nominalSkip' + (1 # 2)) in
  let sampleReq' :=
    Z.max (skip + overlapLength ts) (sequenceLength ts) + seekLength ts in
  mk (_sampleRate ts) (_tempo ts) (sequenceLength ts) (seekLength ts)
     (overlapLength ts) nominalSkip' 0 (midBuffer ts) (refMidBuffer ts)
     sampleReq'.

Definition calculateOverlapLength (ts : state) (overlapMs : Q) : state :=
  let overlap := Qfloor (_sampleRate ts * overlapMs / 1000) in
  let overlap := if overlap <? 16 then 16 else overlap in
  let overlap := overlap - Z.rem overlap 8 in
  mk (_sampleRate ts) (_tempo ts) (sequenceLength ts) (seekLength ts) overlap
     (nominalSkip ts) (skipFract ts)
     (Some (F32.new (overlap * 2))) (Some (F32.new (overlap * 2)))
     (sampleReq ts).

(** [setParameters(sampleRate, overlapMs)]; the default of [overlapMs] is
    [16]. *)
Definition setParameters (ts : state) (sampleRate overlapMs : Q) : state :=
  let sr := if Qltb 0 sampleRate then sampleRate else _sampleRate ts in
  let ts :=
    mk sr (_tempo ts) (sequenceLength ts) (seekLength ts) (overlapLength ts)
       (nominalSkip ts) (skipFract ts) (midBuffer ts) (refMidBuffer ts)
       (sampleReq ts) in
  let ts := calculateEffectiveParams ts in
  let ts := calculateOverlapLength ts overlapMs in
  set_tempo ts (_tempo ts).

Definition set_midBuffer (ts : state) (m : option F32.t) : state :=
  mk (_sampleRate ts) (_tempo ts) (sequenceLength ts) (seekLength ts)
     (overlapLength ts) (nominalSkip ts) (skipFract ts) m (refMidBuffer ts)
     (sampleReq ts).

Definition set_refMidBuffer (ts : state) (m : option F32.t) : state :=
  mk (_sampleRate ts) (_tempo ts) (sequenceLength ts) (seekLength ts)
     (overlapLength ts) (nominalSkip ts) (skipFract ts) (midBuffer ts) m
     (sampleReq ts).

Definition set_skipFract (ts : state) (q : Q) : state :=
  mk (_sampleRate ts) (_tempo ts) (sequenceLength ts) (seekLength ts)
     (overlapLength ts) (nominalSkip ts) q (midBuffer ts) (refMidBuffer ts)
     (sampleReq ts).

Definition reset (ts : state) (inputBuffer outputBuffer : Fifo)
  : res (state * Fifo * Fifo) :=
  let ts := set_skipFract (set_midBuffer ts None) 0 in
  inputBuffer <- FifoBuffer.clear inputBuffer ;;
  outputBuffer <- FifoBuffer.clear outputBuffer ;;
  Ok (ts, inputBuffer, outputBuffer).

Definition nonnull (m : option F32.t) : res F32.t :=
  match m with
  | Some v => Ok v
  | None => Throw TypeError
  end.

Definition precalcCorrReference (ts : state) : res state :=
  r <- for_range_res 0 (Z.to_nat (overlapLength ts))
         (fun i (r : option F32.t) =>
            let weight := inject_Z (i * (overlapLength ts - i)) in
            let idx := i * 2 in
            m <- nonnull (midBuffer ts) ;;
            r <- nonnull r ;;
            let r := F32.put r idx (scale weight (F32.get m idx)) in
            let r := F32.put r (idx + 1) (scale weight (F32.get m (idx + 1))) in
            Ok (Some r))
         (refMidBuffer ts) ;;
  Ok (set_refMidBuffer ts r).

(** As in the library, [j = i / 2] for the source's loop variable [i]. *)
Definition calculateCrossCorr (ts : state) (inputBuffer : Fifo) (offset : Z)
  : res sample :=
  let input := FifoBuffer.vector inputBuffer in
  let inputStart := FifoBuffer.startIndex inputBuffer + offset in
  for_range_res 1 (Z.to_nat (overlapLength ts - 1))
    (fun j corr =>
       let i := j * 2 in
       r <- nonnull (refMidBuffer ts) ;;
       Ok (sadd corr
             (sadd (smul (F32.get input (inputStart + i)) (F32.get r i))
                   (smul (F32.get input (inputStart + i + 1))
                         (F32.get r (i + 1))))))
    (Fin 0).

Fixpoint scan_level (ts : state) (inputBuffer : Fifo) (corrOffset : Z)
  (entries : list Z) (bestOffset : Z) (bestCorr : sample)
  : res (Z * sample) :=
  match entries with
  | [] => Ok (bestOffset, bestCorr)
  | entry :: entries' =>
      let testOffset := corrOffset + entry in
      '(bestOffset, bestCorr) <-
         (if (0 <=? testOffset) && (testOffset <? seekLength ts) then
            corr <- calculateCrossCorr ts inputBuffer (testOffset * 2) ;;
            if sgtb corr bestCorr then Ok (testOffset, corr)
            else Ok (bestOffset, bestCorr)
          else Ok (bestOffset, bestCorr)) ;;
      scan_level ts inputBuffer corrOffset entries' bestOffset bestCorr
  end.

Fixpoint scan_levels (ts : state) (inputBuffer : Fifo) (rows : list (list Z))
  (corrOffset bestOffset : Z) (bestCorr : sample) : res Z :=
  match rows with
  | [] => Ok bestOffset
  | row :: rows' =>
      '(bestOffset, bestCorr) <-
         scan_level ts inputBuffer corrOffset (truthy_prefix row)
           bestOffset bestCorr ;;
      scan_levels ts inputBuffer rows' bestOffset bestOffset bestCorr
  end.

Definition seekBestOverlapPositionQuick (ts : state) (inputBuffer : Fifo)
  : res Z :=
  scan_levels ts inputBuffer SCAN_OFFSETS 0 0 (Fin Number_MIN_VALUE).

Definition seekBestOverlapPosition (ts : state) (inputBuffer : Fifo)
  : res (state * Z) :=
  ts <- precalcCorrReference ts ;;
  offset <- seekBestOverlapPositionQuick ts inputBuffer ;;
  Ok (ts, offset).

Definition overlap (ts : state) (inputBuffer outputBuffer : Fifo) (offset : Z)
  : res Fifo :=
  let input := FifoBuffer.vector inputBuffer in
  let inputStart := FifoBuffer.startIndex inputBuffer + offset * 2 in
  let outputStart := FifoBuffer.endIndex outputBuffer in
  let invOverlap := (1 / inject_Z (overlapLength ts))%Q in
  output <- for_range_res 0 (Z.to_nat (overlapLength ts))
         (fun i output =>
            let fadeOut := (inject_Z (overlapLength ts - i) * invOverlap)%Q in
            let fadeIn := (inject_Z i * invOverlap)%Q in
            let idx := i * 2 in
            let inIdx := inputStart + idx in
            let outIdx := outputStart + idx in
            m <- nonnull (midBuffer ts) ;;
            let output :=
              F32.put output outIdx
                (sadd (scale fadeIn (F32.get input inIdx))
                      (scale fadeOut (F32.get m idx))) in
            let output :=
              F32.put output (outIdx + 1)
                (sadd (scale fadeIn (F32.get input (inIdx + 1)))
                      (scale fadeOut (F32.get m (idx + 1)))) in
            Ok output)
         (FifoBuffer.vector outputBuffer) ;;
  Ok (mkFifo output (_position outputBuffer) (_frameCount outputBuffer)).

Definition process_step (ts : state) (inputBuffer outputBuffer : Fifo)
  : res (state * Fifo * Fifo) :=
  '(ts, offset) <- seekBestOverlapPosition ts inputBuffer ;;
  outputBuffer <-
    FifoBuffer.ensureCapacity outputBuffer
      (FifoBuffer.frameCount outputBuffer + overlapLength ts) ;;
  outputBuffer <- overlap ts inputBuffer outputBuffer offset ;;
  let outputBuffer := FifoBuffer.put outputBuffer (overlapLength ts) in
  let middleLength := sequenceLength ts - 2 * overlapLength ts in
  outputBuffer <-
    (if 0 <? middleLength then
       FifoBuffer.putBuffer outputBuffer inputBuffer
         (offset + overlapLength ts) (Some middleLength)
     else Ok outputBuffer) ;;
  let midStart :=
    FifoBuffer.startIndex inputBuffer
    + (offset + sequenceLength ts - overlapLength ts) * 2 in
  m <- nonnull (midBuffer ts) ;;
  m <- F32.set m
         (F32.subarray (FifoBuffer.vector inputBuffer) midStart
            (midStart + overlapLength ts * 2)) 0 ;;
  let ts := set_midBuffer ts (Some m) in
  let skipFract' := (skipFract ts + nominalSkip ts)%Q in
  let skip := Qfloor skipFract' in
  let ts := set_skipFract ts (skipFract' - inject_Z skip)%Q in
  let inputBuffer := FifoBuffer.receive inputBuffer skip in
  Ok (ts, inputBuffer, outputBuffer).

Fixpoint process_loop (fuel : nat) (ts : state) (inputBuffer outputBuffer : Fifo)
  : res (state * Fifo * Fifo) :=
  if sampleReq ts <=? FifoBuffer.frameCount inputBuffer then
    match fuel with
    | O => OutOfFuel
    | S fuel' =>
        '(ts, inputBuffer, outputBuffer) <-
           process_step ts inputBuffer outputBuffer ;;
        process_loop fuel' ts inputBuffer outputBuffer
    end
  else Ok (ts, inputBuffer, outputBuffer).

Definition midBuffer_missing (ts : state) : bool :=
  match midBuffer ts with
  | None => true
  | Some m => F32.length m =? 0
  end.

Definition process (fuel : nat) (ts : state) (inputBuffer outputBuffer : Fifo)
  : res (state * Fifo * Fifo) :=
  if midBuffer_missing ts then
    if FifoBuffer.frameCount inputBuffer <? overlapLength ts then
      Ok (ts, inputBuffer, outputBuffer)
    else
      '(inputBuffer, m) <-
         FifoBuffer.receiveSamples inputBuffer
           (F32.new (overlapLength ts * 2)) (overlapLength ts) ;;
      process_loop fuel (set_midBuffer ts (Some m)) inputBuffer outputBuffer
  else process_loop fuel ts inputBuffer outputBuffer.

End TimeStretch.

(** ** SoundTouchEngine *)

Module SoundTouchEngine.

Inductive bufref : Type :=
| InputBuffer
| IntermediateBuffer
| OutputBuffer.

Record state : Type := mk {
  rateTransposer : RT.state;
  rateTransposer_inputBuffer : bufref;
  rateTransposer_outputBuffer : bufref;
  timeStretch : TimeStretch.state;
  timeStretch_inputBuffer : bufref;
  timeStretch_outputBuffer : bufref;
  _inputBuffer : Fifo;
  _intermediateBuffer : Fifo;
  _outputBuffer : Fifo;
  _rate : Q;
  _tempo : Q;
  virtualPitch : Q
}.

Definition inputBuffer (e : state) : Fifo := _inputBuffer e.
Definition outputBuffer (e : state) : Fifo := _outputBuffer e.
Definition pitch (e : state) : Q := virtualPitch e.

Definition deref (e : state) (r : bufref) : Fifo :=
  match r with
  | InputBuffer => _inputBuffer e
  | IntermediateBuffer => _intermediateBuffer e
  | OutputBuffer => _outputBuffer e
  end.

Definition assign (e : state) (r : bufref) (f : Fifo) : state :=
  mk (rateTransposer e) (rateTransposer_inputBuffer e)
     (rateTransposer_outputBuffer e) (timeStretch e)
     (timeStretch_inputBuffer e) (timeStretch_outputBuffer e)
     (match r with InputBuffer => f | _ => _inputBuffer e end)
     (match r with IntermediateBuffer => f | _ => _intermediateBuffer e end)
     (match r with OutputBuffer => f | _ => _outputBuffer e end)
     (_rate e) (_tempo e) (virtualPitch e).

Definition set_rateTransposer (e : state) (rt : RT.state) : state :=
  mk rt (rateTransposer_inputBuffer e) (rateTransposer_outputBuffer e)
     (timeStretch e) (timeStretch_inputBuffer e) (timeStretch_outputBuffer e)
     (_inputBuffer e) (_intermediateBuffer e) (_outputBuffer e)
     (_rate e) (_tempo e) (virtualPitch e).

Definition set_timeStretch (e : state) (ts : TimeStretch.state) : state :=
  mk (rateTransposer e) (rateTransposer_inputBuffer e)
     (rateTransposer_outputBuffer e) ts
     (timeStretch_inputBuffer e) (timeStretch_outputBuffer e)
     (_inputBuffer e) (_intermediateBuffer e) (_outputBuffer e)
     (_rate e) (_tempo e) (virtualPitch e).

Definition wire (e : state) (rt_in rt_out ts_in ts_out : bufref) : state :=
  mk (rateTransposer e) rt_in rt_out (timeStretch e) ts_in ts_out
     (_inputBuffer e) (_intermediateBuffer e) (_outputBuffer e)
     (_rate e) (_tempo e) (virtualPitch e).

Definition calculateEffectiveRateAndTempo (e : state) : state :=
  let oldTempo := _tempo e in
  let oldRate := _rate e in
  let tempo' := (1 / virtualPitch e)%Q in
  let rate' := virtualPitch e in
  let ts :=
    if Qltb (1 # 10 ^ 10) (Qabs (tempo' - oldTempo))
    then TimeStretch.set_tempo (timeStretch e) tempo'
    else timeStretch e in
  let rt :=
    if Qltb (1 # 10 ^ 10) (Qabs (rate' - oldRate))
    then RateTransposer.set_rate (rateTransposer e) rate'
    else rateTransposer e in
  let e :=
    mk rt (rateTransposer_inputBuffer e) (rateTransposer_outputBuffer e)
       ts (timeStretch_inputBuffer e) (timeStretch_outputBuffer e)
       (_inputBuffer e) (_intermediateBuffer e) (_outputBuffer e)
       rate' tempo' (virtualPitch e) in
  if Qltb 1 (_rate e)
  then wire e IntermediateBuffer OutputBuffer InputBuffer IntermediateBuffer
  else wire e InputBuffer IntermediateBuffer IntermediateBuffer OutputBuffer.

(** [new SoundTouchEngine(sampleRate)].  The FIFOs the two components
    create for themselves are replaced by the unconditional wiring at the
    end of the constructor, so the references given here before it do not
    matter. *)
Definition new (sampleRate : Q) : state :=
  calculateEffectiveRateAndTempo
    (mk RateTransposer.new InputBuffer IntermediateBuffer
        (TimeStretch.setParameters TimeStretch.new sampleRate 16)
        IntermediateBuffer OutputBuffer
        (FifoBuffer.new 4096) (FifoBuffer.new 4096) (FifoBuffer.new 4096)
        1 1 1).

Definition set_pitch (e : state) (value : Q) : state :=
  calculateEffectiveRateAndTempo
    (mk (rateTransposer e) (rateTransposer_inputBuffer e)
        (rateTransposer_outputBuffer e) (timeStretch e)
        (timeStretch_inputBuffer e) (timeStretch_outputBuffer e)
        (_inputBuffer e) (_intermediateBuffer e) (_outputBuffer e)
        (_rate e) (_tempo e) value).

(** The [pitchSemitones] setter; [Math_pow] stands for [Math.pow]. *)
Definition set_pitchSemitones (Math_pow : Q -> Q -> Q) (e : state)
  (semitones : Q) : state :=
  set_pitch e (Math_pow 2%Q (semitones / 12)%Q).

Definition rateTransposer_process (fuel : nat) (e : state) : res state :=
  '(rt, i, o) <-
     RateTransposer.process fuel (rateTransposer e)
       (deref e (rateTransposer_inputBuffer e))
       (deref e (rateTransposer_outputBuffer e)) ;;
  Ok (assign (assign (set_rateTransposer e rt)
                (rateTransposer_inputBuffer e) i)
        (rateTransposer_outputBuffer e) o).

Definition timeStretch_process (fuel : nat) (e : state) : res state :=
  '(ts, i, o) <-
     TimeStretch.process fuel (timeStretch e)
       (deref e (timeStretch_inputBuffer e))
       (deref e (timeStretch_outputBuffer e)) ;;
  Ok (assign (assign (set_timeStretch e ts) (timeStretch_inputBuffer e) i)
        (timeStretch_outputBuffer e) o).

Definition process (fuel : nat) (e : state) : res state :=
  if Qltb 1 (_rate e) then
    e <- timeStretch_process fuel e ;;
    rateTransposer_process fuel e
  else
    e <- rateTransposer_process fuel e ;;
    timeStretch_process fuel e.

Definition clear_buffer (e : state) (r : bufref) : res state :=
  f <- FifoBuffer.clear (deref e r) ;;
  Ok (assign e r f).

Definition reset (e : state) : res state :=
  '(rt, i, o) <-
     RateTransposer.reset (rateTransposer e)
       (deref e (rateTransposer_inputBuffer e))
       (deref e (rateTransposer_outputBuffer e)) ;;
  let e := assign (assign (set_rateTransposer e rt)
                     (rateTransposer_inputBuffer e) i)
             (rateTransposer_outputBuffer e) o in
  '(ts, i, o) <-
     TimeStretch.reset (timeStretch e)
       (deref e (timeStretch_inputBuffer e))
       (deref e (timeStretch_outputBuffer e)) ;;
  let e := assign (assign (set_timeStretch e ts) (timeStretch_inputBuffer e) i)
             (timeStretch_outputBuffer e) o in
  e <- clear_buffer e InputBuffer ;;
  e <- clear_buffer e IntermediateBuffer ;;
  clear_buffer e OutputBuffer.

End SoundTouchEngine.

(** ** SoundTouchProcessor, the AudioWorklet processor *)

Module SoundTouchProcessor.

Definition ST_BLOCK_SIZE : Z := 128.
Definition ST_FADE_FRAMES : Z := 64.
Definition ST_MIN_FRAMES_FOR_PROCESSING : Z := 4096.

Record state : Type := mk {
  soundTouch : SoundTouchEngine.state;
  outputBuffer : F32.t;
  bypassed : bool;
  fadeCounter : Z;
  previousPitch : Q;
  skipBuffer : bool;
  skipBufferCounter : Z
}.

(** The first entries of the three k-rate parameter arrays. *)
Record parameters : Type := mkParameters {
  semitone : Q;
  cents : Q;
  enabled : Q
}.

(** The constructor; [sampleRate] is the global of the worklet scope. *)
Definition new (sampleRate : Q) : state :=
  mk (SoundTouchEngine.new sampleRate) (F32.new (ST_BLOCK_SIZE * 2))
     true 0 1 false 0.

(** The ['reset'] message. *)
Definition on_reset (p : state) : res state :=
  e <- SoundTouchEngine.reset (soundTouch p) ;;
  Ok (mk e (outputBuffer p) true (fadeCounter p) (previousPitch p)
        (skipBuffer p) (skipBufferCounter p)).

(** [outLeft.set(left); if (outRight) outRight.set(right);] on the channels
    of the output block. *)
Definition set_left_right (output : list F32.t) (left_ right_ : F32.t)
  : res (list F32.t) :=
  match output with
  | [] => Ok []
  | outLeft :: rest =>
      outLeft <- F32.set outLeft left_ 0 ;;
      match rest with
      | [] => Ok [outLeft]
      | outRight :: rest' =>
          outRight <- F32.set outRight right_ 0 ;;
          Ok (outLeft :: outRight :: rest')
      end
  end.

(** The loop that interleaves [left] and [right]. *)
Definition interleave (left_ right_ : F32.t) (numSamples : Z) : F32.t :=
  for_range 0 (Z.to_nat numSamples)
    (fun i v =>
       let v := F32.put v (i * 2) (F32.get left_ i) in
       F32.put v (i * 2 + 1) (F32.get right_ i))
    (F32.new (numSamples * 2)).

(** The crossfading output loop, for one channel: [dry] is [left] or
    [right], [k] is [0] or [1]. *)
Definition fade_channel (out dry wet : F32.t) (k : Z) (fadeProgress : Q)
  (numSamples : Z) : F32.t :=
  for_range 0 (Z.to_nat numSamples)
    (fun i out =>
       F32.put out i
         (sadd (scale (1 - fadeProgress) (F32.get dry i))
               (scale fadeProgress (F32.get wet (i * 2 + k)))))
    out.

(** The plain output loop, for one channel. *)
Definition copy_channel (out wet : F32.t) (k : Z) (numSamples : Z) : F32.t :=
  for_range 0 (Z.to_nat numSamples)
    (fun i out => F32.put out i (F32.get wet (i * 2 + k)))
    out.

Section WithMath.

(** [Math.pow]. *)
Variable Math_pow : Q -> Q -> Q.

(** [process(inputs, outputs, parameters)]: [input] is [inputs[0]], the
    list of channels, and [output] is [outputs[0]]; a missing [inputs[0]]
    is an empty list.  The result is the new state and the output block.
    The method always returns [true]. *)
Definition process (fuel : nat) (p : state) (input output : list F32.t)
  (parameters : parameters) : res (state * list F32.t) :=
  match input, output with
  | left_ :: input_rest, outLeft :: output_rest =>
      let numSamples := F32.length left_ in
      let right_ := match input_rest with r :: _ => r | [] => left_ end in
      let enabled := Qleb (1 # 2) (enabled parameters) in
      let totalSemitones := (semitone parameters + cents parameters / 100)%Q in
      let targetPitch := Math_pow 2%Q (totalSemitones / 12)%Q in
      let shouldBypass :=
        negb enabled || Qltb (Qabs (targetPitch - 1)) (1 # 1000) in
      (* Handle pitch changes *)
      let pitchChanged :=
        Qltb (1 # 1000) (Qabs (targetPitch - previousPitch p)) in
      let jump :=
        pitchChanged
        && (Qltb 3 (Qabs totalSemitones) || (bypassed p && negb shouldBypass)) in
      let skipBuffer1 := if jump then true else skipBuffer p in
      let skipBufferCounter1 := if jump then 32 else skipBufferCounter p in
      let soundTouch1 :=
        if pitchChanged
        then SoundTouchEngine.set_pitchSemitones Math_pow (soundTouch p)
               totalSemitones
        else soundTouch p in
      let previousPitch1 := if pitchChanged then targetPitch else previousPitch p in
      (* Handle bypass transitions *)
      '(skipBuffer2, skipBufferCounter2, bypassed2, soundTouch2) <-
         (if shouldBypass && negb (bypassed p) then
            e <- SoundTouchEngine.reset soundTouch1 ;;
            Ok (true, 32, true, e)
          else if negb shouldBypass && bypassed p then
            Ok (true, 32, false, soundTouch1)
          else Ok (skipBuffer1, skipBufferCounter1, bypassed p, soundTouch1)) ;;
      (* If bypassed, pass through *)
      if bypassed2 && (skipBufferCounter2 <=? 0) && (fadeCounter p <=? 0) then
        output' <- set_left_right output left_ right_ ;;
        Ok (mk soundTouch2 (outputBuffer p) bypassed2 (fadeCounter p)
              previousPitch1 skipBuffer2 skipBufferCounter2, output')
      else
        let interleavedInput := interleave left_ right_ numSamples in
        (* Push to SoundTouch *)
        inb <- FifoBuffer.putSamples (SoundTouchEngine.inputBuffer soundTouch2)
                 interleavedInput 0 numSamples ;;
        let soundTouch3 :=
          SoundTouchEngine.assign soundTouch2 SoundTouchEngine.InputBuffer inb in
        (* Process if we have enough samples *)
        soundTouch4 <-
          (if ST_MIN_FRAMES_FOR_PROCESSING
              <=? FifoBuffer.frameCount (SoundTouchEngine.inputBuffer soundTouch3)
           then SoundTouchEngine.process fuel soundTouch3
           else Ok soundTouch3) ;;
        (* Extract output *)
        let outputBuffer1 := F32.fill (outputBuffer p) (Fin 0) in
        let available :=
          Z.min numSamples
            (FifoBuffer.frameCount (SoundTouchEngine.outputBuffer soundTouch4)) in
        '(soundTouch5, outputBuffer2) <-
           (if 0 <? available then
              '(o, b) <-
                 FifoBuffer.receiveSamples
                   (SoundTouchEngine.outputBuffer soundTouch4) outputBuffer1
                   available ;;
              Ok (SoundTouchEngine.assign soundTouch4
                    SoundTouchEngine.OutputBuffer o, b)
            else Ok (soundTouch4, outputBuffer1)) ;;
        (* Handle skip buffer period *)
        if 0 <? skipBufferCounter2 then
          output' <- set_left_right output left_ right_ ;;
          Ok (mk soundTouch5 outputBuffer2 bypassed2 (fadeCounter p)
                previousPitch1 skipBuffer2 (skipBufferCounter2 - 1), output')
        else
          (* Handle fade *)
          let fadeCounter1 := if skipBuffer2 then ST_FADE_FRAMES else fadeCounter p in
          let skipBuffer3 := false in
          (* Apply output *)
          if 0 <? fadeCounter1 then
            let fadeProgress :=
              (1 - inject_Z fadeCounter1 / inject_Z ST_FADE_FRAMES)%Q in
            let outLeft' :=
              fade_channel outLeft left_ outputBuffer2 0 fadeProgress numSamples in
            let output' :=
              match output_rest with
              | [] => [outLeft']
              | outRight :: rest' =>
                  outLeft'
                  :: fade_channel outRight right_ outputBuffer2 1 fadeProgress
                       numSamples
                  :: rest'
              end in
            Ok (mk soundTouch5 outputBuffer2 bypassed2 (fadeCounter1 - 1)
                  previousPitch1 skipBuffer3 skipBufferCounter2, output')
          else
            let outLeft' := copy_channel outLeft outputBuffer2 0 numSamples in
            let output' :=
              match output_rest with
              | [] => [outLeft']
              | outRight :: rest' =>
                  outLeft' :: copy_channel outRight outputBuffer2 1 numSamples
                  :: rest'
              end in
            Ok (mk soundTouch5 outputBuffer2 bypassed2 fadeCounter1
                  previousPitch1 skipBuffer3 skipBufferCounter2, output')
  | _, _ => Ok (p, output)
  end.

End WithMath.

End SoundTouchProcessor.

End Worklet.

(** * The RubberBand AudioWorklet processor

    The RubberBand stretcher is a WebAssembly module outside the
    repository.  It is taken abstractly: a type of instance states and the
    exported functions the processor calls.  The two groups of per-channel
    sample buffers the processor allocates in the module's memory are kept
    as lists of channels; pointers and the layout of the heap are not
    modelled, and blocks are assumed to fit the [BLOCK_SIZE] buffers. *)

Module RubberbandProcessor.

Definition BLOCK_SIZE : Z := 128.
Definition FADE_FRAMES : Z := 64.

Section WithWasm.

(** The state of a native stretcher instance; handle [0] is [None]. *)
Variable Stretcher : Type.

Variable rubberband_new : Q -> Z -> Z -> Q -> Q -> option Stretcher.
Variable rubberband_reset : Stretcher -> Stretcher.
Variable rubberband_set_pitch_scale : Stretcher -> Q -> Stretcher.
Variable rubberband_set_formant_scale : Stretcher -> Q -> Stretcher.
Variable rubberband_set_max_process_size : Stretcher -> Z -> Stretcher.
Variable rubberband_set_expected_input_duration : Stretcher -> Z -> Stretcher.

(** [_rubberband_process(state, input, samples, 0)] reads the input
    buffers. *)
Variable rubberband_process : Stretcher -> list F32.t -> Z -> Stretcher.
Variable rubberband_available : Stretcher -> Z.

(** [_rubberband_retrieve(state, output, samples)] writes the output
    buffers. *)
Variable rubberband_retrieve :
  Stretcher -> list F32.t -> Z -> Stretcher * list F32.t.

(** The global [sampleRate] of the worklet scope, [Math.sin], [Math.cos]
    and [Math.PI]. *)
Variable sampleRate : Q.
Variable Math_sin : Q -> Q.
Variable Math_cos : Q -> Q.
Variable Math_PI : Q.

Record state : Type := mk {
  wasm : bool;
  stretcher : option Stretcher;
  channels : Z;
  ready : bool;
  bypassed : bool;
  currentOptions : Z;
  inputBuffers : list F32.t;
  outputBuffers : list F32.t;
  previousPitchScale : Q;
  previousFormantScale : Q;
  fadeCounter : Z
}.

Record parameters : Type := mkParameters {
  pitchScale : Q;
  formantScale : Q;
  enabled : Q
}.

(** The constructor, before the asynchronous [initializeWasm] has run (or
    when no WASM bytes were given); [channels] is the clamped
    [outputChannelCount[0] ?? 2]. *)
Definition new (outputChannelCount : option Z) (initialOptions : option Z)
  : state :=
  let channels := match outputChannelCount with Some c => c | None => 2 end in
  let channels := Z.min 2 (Z.max 1 channels) in
  mk false None channels false true
     (match initialOptions with Some o => o | None => 587268097 end)
     [] [] 1 1 0.

Definition createStretcher (p : state) (options : option Z) : state :=
  if negb (wasm p) then p
  else
    let currentOptions' :=
      match options with Some o => o | None => currentOptions p end in
    match rubberband_new sampleRate (channels p) currentOptions' 1 1 with
    | None =>
        mk (wasm p) None (channels p) (ready p) (bypassed p) currentOptions'
           (inputBuffers p) (outputBuffers p) (previousPitchScale p)
           (previousFormantScale p) (fadeCounter p)
    | Some s =>
        let s := rubberband_set_max_process_size s BLOCK_SIZE in
        let s := rubberband_set_expected_input_duration s BLOCK_SIZE in
        let s := rubberband_set_pitch_scale s (previousPitchScale p) in
        let s := rubberband_set_formant_scale s (previousFormantScale p) in
        mk (wasm p) (Some s) (channels p) (ready p) (bypassed p)
           currentOptions' (inputBuffers p) (outputBuffers p)
           (previousPitchScale p) (previousFormantScale p) FADE_FRAMES
    end.

(** A successful [initializeWasm]: the module is instantiated, the buffers
    are allocated ([fresh] is what [_malloc] hands out for one buffer), the
    stretcher is created and [ready] is set. *)
Definition initializeWasm (p : state) (fresh : F32.t) : state :=
  let n := Z.to_nat (channels p) in
  let p :=
    mk true (stretcher p) (channels p) (ready p) (bypassed p)
       (currentOptions p) (repeat fresh n) (repeat fresh n)
       (previousPitchScale p) (previousFormantScale p) (fadeCounter p) in
  let p := createStretcher p None in
  mk (wasm p) (stretcher p) (channels p) true (bypassed p) (currentOptions p)
     (inputBuffers p) (outputBuffers p) (previousPitchScale p)
     (previousFormantScale p) (fadeCounter p).

(** The ['reset'] and ['rebuildStretcher'] messages. *)
Definition on_reset (p : state) : state :=
  let s :=
    if wasm p then option_map rubberband_reset (stretcher p)
    else stretcher p in
  mk (wasm p) s (channels p) (ready p) true (currentOptions p)
     (inputBuffers p) (outputBuffers p) (previousPitchScale p)
     (previousFormantScale p) (fadeCounter p).

Definition on_rebuildStretcher (p : state) (options : Z) : state :=
  createStretcher p (Some options).

(** [input[ch] || input[0]]. *)
Definition channel_or_first (input : list F32.t) (ch : nat) : F32.t :=
  nth ch input (nth 0 input []).

(** [passthrough(input, output)], from output channel [ch] on. *)
Fixpoint passthrough_from (ch : nat) (input output : list F32.t)
  : res (list F32.t) :=
  match output with
  | [] => Ok []
  | out :: rest =>
      let source := channel_or_first input ch in
      out <- F32.set out source 0 ;;
      rest <- passthrough_from (S ch) input rest ;;
      Ok (out :: rest)
  end.

Definition passthrough (input output : list F32.t) : res (list F32.t) :=
  passthrough_from 0 input output.

(** [HEAPF32.set(src, ptr / 4)] on the buffer at [ptr]. *)
Definition heap_store (buffer src : F32.t) : F32.t :=
  src ++ skipn (List.length src) buffer.

Definition store_channel (buffers : list F32.t) (ch : nat) (src : F32.t)
  : list F32.t :=
  match nth_error buffers ch with
  | Some b => firstn ch buffers ++ heap_store b src :: skipn (S ch) buffers
  | None => buffers
  end.

(** The loop copying the input block into the WASM input buffers, and the
    duplication of a mono input. *)
Definition copy_input (p : state) (input : list F32.t) : list F32.t :=
  let n := Z.to_nat (Z.min (channels p) (Z.of_nat (List.length input))) in
  let buffers :=
    for_range 0 n
      (fun ch buffers =>
         store_channel buffers (Z.to_nat ch) (nth (Z.to_nat ch) input []))
      (inputBuffers p) in
  if (Z.of_nat (List.length input) =? 1) && (channels p =? 2)
  then store_channel buffers 1 (nth 0 input [])
  else buffers.

(** [applyCrossfade(dry, wet, output)]. *)
Definition applyCrossfade (bypassed : bool) (fadeCounter : Z)
  (dry wet output : F32.t) : F32.t :=
  let fadeProgress := (1 - inject_Z fadeCounter / inject_Z FADE_FRAMES)%Q in
  let wetGain :=
    if bypassed then Math_cos (fadeProgress * Math_PI * (1 # 2))%Q
    else Math_sin (fadeProgress * Math_PI * (1 # 2))%Q in
  let dryGain :=
    if bypassed then Math_sin (fadeProgress * Math_PI * (1 # 2))%Q
    else Math_cos (fadeProgress * Math_PI * (1 # 2))%Q in
  for_range 0 (List.length output)
    (fun i output =>
       F32.put output i
         (sadd (scale dryGain (F32.get dry i)) (scale wetGain (F32.get wet i))))
    output.

(** The loop copying the processed channels to the output block, from
    output channel [ch] on; it threads [fadeCounter]. *)
Fixpoint copy_output (ch : nat) (channels : Z) (bypassed : bool)
  (outputBuffers input : list F32.t) (numSamples : Z) (fadeCounter : Z)
  (output : list F32.t) : res (Z * list F32.t) :=
  match output with
  | [] => Ok (fadeCounter, [])
  | out :: rest =>
      let sourceChannel := Z.min (Z.of_nat ch) (channels - 1) in
      let processedData :=
        F32.subarray (nth (Z.to_nat sourceChannel) outputBuffers []) 0
          numSamples in
      '(fadeCounter, out) <-
         (if 0 <? fadeCounter then
            Ok (fadeCounter - 1,
                applyCrossfade bypassed fadeCounter (channel_or_first input ch)
                  processedData out)
          else
            out <- F32.set out processedData 0 ;;
            Ok (fadeCounter, out)) ;;
      '(fadeCounter, rest) <-
         copy_output (S ch) channels bypassed outputBuffers input numSamples
           fadeCounter rest ;;
      Ok (fadeCounter, out :: rest)
  end.

(** [process(inputs, outputs, parameters)], with [input = inputs[0]] and
    [output = outputs[0]] as lists of channels.  The method always returns
    [true]. *)
Definition process (p : state) (input output : list F32.t)
  (parameters : parameters) : res (state * list F32.t) :=
  match input, output with
  | in0 :: _, _ :: _ =>
      let numSamples := F32.length in0 in
      let enabled := Qleb (1 # 2) (enabled parameters) in
      let shouldBypass :=
        negb enabled || Qltb (Qabs (pitchScale parameters - 1)) (1 # 1000) in
      (* Handle bypass transitions *)
      let '(fadeCounter1, bypassed1) :=
        if shouldBypass && negb (bypassed p) then (FADE_FRAMES, true)
        else if negb shouldBypass && bypassed p then (FADE_FRAMES, false)
        else (fadeCounter p, bypassed p) in
      let p1 :=
        mk (wasm p) (stretcher p) (channels p) (ready p) bypassed1
           (currentOptions p) (inputBuffers p) (outputBuffers p)
           (previousPitchScale p) (previousFormantScale p) fadeCounter1 in
      match ready p && wasm p, stretcher p with
      | true, Some s =>
          if bypassed1 && (fadeCounter1 <=? 0) then
            output' <- passthrough input output ;;
            Ok (p1, output')
          else
            (* Update pitch scale and formant scale if changed *)
            let pitchChanged :=
              Qltb (1 # 1000)
                (Qabs (pitchScale parameters - previousPitchScale p)) in
            let s :=
              if pitchChanged
              then rubberband_set_pitch_scale s (pitchScale parameters)
              else s in
            let previousPitchScale1 :=
              if pitchChanged then pitchScale parameters
              else previousPitchScale p in
            let formantChanged :=
              Qltb (1 # 1000)
                (Qabs (formantScale parameters - previousFormantScale p)) in
            let s :=
              if formantChanged
              then rubberband_set_formant_scale s (formantScale parameters)
              else s in
            let previousFormantScale1 :=
              if formantChanged then formantScale parameters
              else previousFormantScale p in
            (* Copy input to WASM buffers and process *)
            let inputBuffers1 := copy_input p input in
            let s := rubberband_process s inputBuffers1 numSamples in
            (* Check if output is available *)
            let available := rubberband_available s in
            if numSamples <=? available then
              let '(s, outputBuffers1) :=
                rubberband_retrieve s (outputBuffers p) numSamples in
              '(fadeCounter2, output') <-
                 copy_output 0 (channels p) bypassed1 outputBuffers1 input
                   numSamples fadeCounter1 output ;;
              Ok (mk (wasm p) (Some s) (channels p) (ready p) bypassed1
                    (currentOptions p) inputBuffers1 outputBuffers1
                    previousPitchScale1 previousFormantScale1 fadeCounter2,
                  output')
            else
              output' <- passthrough input output ;;
              Ok (mk (wasm p) (Some s) (channels p) (ready p) bypassed1
                    (currentOptions p) inputBuffers1 (outputBuffers p)
                    previousPitchScale1 previousFormantScale1 fadeCounter1,
                  output')
      | _, _ =>
          output' <- passthrough input output ;;
          Ok (p1, output')
      end
  | _, _ => Ok (p, output)
  end.

End WithWasm.

End RubberbandProcessor.

(** * Vocabulary of the properties *)

(** ** The FIFO invariant: the live frames lie inside the storage: definitions *)

Definition fifo_wf (f : Fifo) : Prop :=
  0 <= _position f /\ 0 <= _frameCount f
  /\ (_position f + _frameCount f) * 2 <= F32.length (_vector f).

(** ** C7: over-long requests to [receive] and [receiveSamples]: definitions *)

(** A FIFO reached by putting three frames into a fresh FIFO of capacity
    four, taking two and compacting: one live frame [(3, 3)], followed in
    the storage by the stale frames [(2, 2)] and [(3, 3)]. *)
Definition stale_fifo : Fifo :=
  mkFifo [Fin 3; Fin 3; Fin 2; Fin 2; Fin 3; Fin 3; Fin 0; Fin 0] 0 1.

(** ** C2 and C3: virtual controls and effective values: definitions *)

(** The three virtual controls of the library engine. *)
Inductive control : Type :=
| Pitch
| Tempo
| Rate.

(** An assignment to one of the controls, through its setter. *)
Definition assign_control (c : control) (e : Lib.SoundTouch.state) (v : Q)
  : Lib.SoundTouch.state :=
  match c with
  | Pitch => Lib.SoundTouch.set_pitch e v
  | Tempo => Lib.SoundTouch.set_tempo e v
  | Rate => Lib.SoundTouch.set_rate e v
  end.

(** The values of the three controls once [c] has been given [v]. *)
Definition pitch_after (c : control) (e : Lib.SoundTouch.state) (v : Q) : Q :=
  match c with Pitch => v | _ => Lib.SoundTouch.virtualPitch e end.
Definition tempo_after (c : control) (e : Lib.SoundTouch.state) (v : Q) : Q :=
  match c with Tempo => v | _ => Lib.SoundTouch.virtualTempo e end.
Definition rate_after (c : control) (e : Lib.SoundTouch.state) (v : Q) : Q :=
  match c with Rate => v | _ => Lib.SoundTouch.virtualRate e end.

Definition epsilon : Q := 1 # 10 ^ 10.

(** The engine of C3: built, then [pitch = 2], then [pitch = 0.5]; and the
    engine built and given [pitch = 1]. *)
Definition pitch_2_then_half : Lib.SoundTouch.state :=
  Lib.SoundTouch.set_pitch (Lib.SoundTouch.set_pitch Lib.SoundTouch.new 2)
    (1 # 2).

Definition pitch_1 : Lib.SoundTouch.state :=
  Lib.SoundTouch.set_pitch Lib.SoundTouch.new 1.

(** ** Blocks: definitions *)

(** A block of channels, each holding [n] samples. *)
Definition block_of (n : Z) (block : list F32.t) : Prop :=
  Forall (fun c => F32.length c = n) block.

(** The block [passthrough] writes: output channel [ch] receives input
    channel [ch], or the first input channel when there is no such
    channel. *)
Definition passed_through (input output : list F32.t) : list F32.t :=
  map (RubberbandProcessor.channel_or_first input) (seq 0 (List.length output)).

(** ** C4 and C1: the RubberBand processor: definitions *)

(** A stand-in for the native stretcher, used to exercise the theorems: it
    only counts the frames pushed into it and has a start-up latency of 512
    frames, during which nothing is available; what it retrieves is
    silence. *)
Definition latency_stretcher_available (pushed : Z) : Z := Z.max 0 (pushed - 512).

Definition latency_stretcher_retrieve (pushed : Z) (buffers : list F32.t)
  (samples : Z) : Z * list F32.t :=
  (pushed - samples, map (fun _ => F32.new samples) buffers).

Section RubberbandVocabulary.

Variable Stretcher : Type.
Variable rubberband_set_pitch_scale : Stretcher -> Q -> Stretcher.
Variable rubberband_set_formant_scale : Stretcher -> Q -> Stretcher.
Variable rubberband_process : Stretcher -> list F32.t -> Z -> Stretcher.

(** The engine is not initialized: the module is absent, or not ready, or
    the stretcher handle is null. *)
Definition not_initialized (p : RubberbandProcessor.state Stretcher) : Prop :=
  RubberbandProcessor.wasm p = false
  \/ RubberbandProcessor.ready p = false
  \/ RubberbandProcessor.stretcher p = None.

(** The stretcher as [process] polls it: after the pitch and formant
    updates of this block and the push of the input block. *)
Definition polled_stretcher (p : RubberbandProcessor.state Stretcher)
  (s : Stretcher) (parameters : RubberbandProcessor.parameters)
  (input : list F32.t) (n : Z) : Stretcher :=
  let s :=
    if Qltb (1 # 1000)
         (Qabs (RubberbandProcessor.pitchScale parameters
                - RubberbandProcessor.previousPitchScale p))
    then rubberband_set_pitch_scale s (RubberbandProcessor.pitchScale parameters)
    else s in
  let s :=
    if Qltb (1 # 1000)
         (Qabs (RubberbandProcessor.formantScale parameters
                - RubberbandProcessor.previousFormantScale p))
    then rubberband_set_formant_scale s
           (RubberbandProcessor.formantScale parameters)
    else s in
  rubberband_process s (RubberbandProcessor.copy_input p input) n.

(** The parameters ask for processing: enabled, and a pitch scale at least
    [0.001] away from 1. *)
Definition wants_processing (parameters : RubberbandProcessor.parameters)
  : Prop :=
  ((1 # 2) <= RubberbandProcessor.enabled parameters)%Q
  /\ ((1 # 1000)
      <= Qabs (RubberbandProcessor.pitchScale parameters - 1))%Q.

End RubberbandVocabulary.

(** ** C1: the SoundTouch worklet on an underrun: definitions *)

(** The output block with its first two channels silent. *)
Definition silenced (n : Z) (output : list F32.t) : list F32.t :=
  match output with
  | [] => []
  | [_] => [F32.new n]
  | _ :: _ :: rest => F32.new n :: F32.new n :: rest
  end.

Section SoundTouchProcessorVocabulary.

Variable Math_pow : Q -> Q -> Q.

(** The pitch the block asks for. *)
Definition target_pitch
  (parameters : Worklet.SoundTouchProcessor.parameters) : Q :=
  Math_pow 2%Q
    ((Worklet.SoundTouchProcessor.semitone parameters
      + Worklet.SoundTouchProcessor.cents parameters / 100) / 12)%Q.

(** The worklet is running on this block: enabled, shifting by the pitch
    it already has, not bypassed, no skip period and no fade in progress. *)
Definition steady_running (p : Worklet.SoundTouchProcessor.state)
  (parameters : Worklet.SoundTouchProcessor.parameters) : Prop :=
  Worklet.SoundTouchProcessor.bypassed p = false
  /\ Worklet.SoundTouchProcessor.skipBuffer p = false
  /\ Worklet.SoundTouchProcessor.skipBufferCounter p <= 0
  /\ Worklet.SoundTouchProcessor.fadeCounter p <= 0
  /\ ((1 # 2) <= Worklet.SoundTouchProcessor.enabled parameters)%Q
  /\ ((1 # 1000) <= Qabs (target_pitch parameters - 1))%Q
  /\ (Qabs (target_pitch parameters
            - Worklet.SoundTouchProcessor.previousPitch p) <= 1 # 1000)%Q.

(** The engine has no output buffered, and with the [n] frames of this
    block its input stays below the threshold at which it is run. *)
Definition starved (p : Worklet.SoundTouchProcessor.state) (n : Z) : Prop :=
  let e := Worklet.SoundTouchProcessor.soundTouch p in
  0 <= _position (Worklet.SoundTouchEngine.inputBuffer e)
  /\ 0 <= _frameCount (Worklet.SoundTouchEngine.inputBuffer e)
  /\ _frameCount (Worklet.SoundTouchEngine.inputBuffer e) + n
     < Worklet.SoundTouchProcessor.ST_MIN_FRAMES_FOR_PROCESSING
  /\ _frameCount (Worklet.SoundTouchEngine.outputBuffer e) <= 0.

End SoundTouchProcessorVocabulary.

(** *** Concrete inputs: definitions *)

(** A stand-in for [Math.pow] that is exact at integer exponents, the only
    ones it is applied to below ([2 ^ (12 / 12)]). *)
Definition pow_octaves (b e : Q) : Q := Qpower b (Qfloor e).

(** Rational stand-ins for [Math.sin], [Math.cos] and [Math.PI]; the
    theorems hold for every choice of them. *)
Definition sin_standin (x : Q) : Q := x.
Definition cos_standin (x : Q) : Q := (1 - x * x / 2)%Q.
Definition PI_standin : Q := 355 # 113.

(** A stereo block of 128 frames of the constant 1, and a silent one. *)
Definition ones_block : list F32.t := [repeat (Fin 1) 128; repeat (Fin 1) 128].
Definition zero_block : list F32.t := [F32.new 128; F32.new 128].

(** One octave up, enabled. *)
Definition octave_up : Worklet.SoundTouchProcessor.parameters :=
  Worklet.SoundTouchProcessor.mkParameters 12 0 1.

(** The worklet processor at 44100 Hz after [k] blocks [ones_block] with
    [octave_up], and the output of the last of them. *)
Fixpoint worklet_after (k : nat)
  : res (Worklet.SoundTouchProcessor.state * list F32.t) :=
  match k with
  | O => Ok (Worklet.SoundTouchProcessor.new 44100, zero_block)
  | S k' =>
      '(p, _) <- worklet_after k' ;;
      Worklet.SoundTouchProcessor.process pow_octaves 0 p ones_block
        zero_block octave_up
  end.

(** The first sample of the first channel of a block. *)
Definition first_sample (block : list F32.t) : sample :=
  F32.get (nth 0 block []) 0.

(** The block a call of [process] emitted; empty when it did not return. *)
Definition block_emitted
  (r : res (Worklet.SoundTouchProcessor.state * list F32.t)) : list F32.t :=
  match r with
  | Ok (_, out) => out
  | _ => []
  end.

(** What C1 asks of a worklet state before a block and of the block
    emitted for the input [ones_block]: if the worklet is running, out of
    its skip period and short of buffered output, the emitted block is the
    input block. *)
Definition passes_through_on_underrun
  (before : res (Worklet.SoundTouchProcessor.state * list F32.t))
  (emitted : res (Worklet.SoundTouchProcessor.state * list F32.t)) : Prop :=
  match before, emitted with
  | Ok (p, _), Ok (_, out) =>
      Worklet.SoundTouchProcessor.bypassed p = false ->
      Worklet.SoundTouchProcessor.skipBufferCounter p = 0 ->
      _frameCount
        (Worklet.SoundTouchEngine.outputBuffer
           (Worklet.SoundTouchProcessor.soundTouch p)) < 128 ->
      sample_is (first_sample out) 1
  | _, _ => True
  end.

(** The stand-in stretcher as a processor: initialized, with its start-up
    latency ahead of it. *)
Definition latency_processor : RubberbandProcessor.state Z :=
  RubberbandProcessor.initializeWasm
    (fun _ _ _ _ _ => Some 0) (fun s _ => s) (fun s _ => s)
    (fun s _ => s) (fun s _ => s) 44100
    (RubberbandProcessor.new Z (Some 2) None) (F32.new 128).

Definition octave_up_scale : RubberbandProcessor.parameters :=
  RubberbandProcessor.mkParameters 2 1 1.

(** A worklet processor in its steady state: pitch 2, running, nothing
    buffered. *)
Definition steady_worklet : Worklet.SoundTouchProcessor.state :=
  Worklet.SoundTouchProcessor.mk
    (Worklet.SoundTouchEngine.set_pitch (Worklet.SoundTouchEngine.new 44100) 2)
    (F32.new 256) false 0 2 false 0.

(** ** C6: the phase accumulator of the rate transposer: definitions *)

(** The bounds that hold between [process] calls: the phase is not
    negative and stays below the larger of 1 and the rate. *)
Definition slope_in_bounds (rt : RT.state) : Prop :=
  (0 <= RT.slopeCount rt)%Q
  /\ (RT.slopeCount rt < Qmax 1 (RT._rate rt))%Q.

(** The type of the [process] method of a rate transposer. *)
Definition transposer_process : Type :=
  nat -> RT.state -> Fifo -> Fifo -> res (RT.state * Fifo * Fifo).

(** A sequence of [process] calls; each call finds the two FIFOs in a state
    of its own, whatever was put into or taken from them in between. *)
Fixpoint process_calls (process : transposer_process) (fuel : nat)
  (rt : RT.state) (calls : list (Fifo * Fifo)) : res RT.state :=
  match calls with
  | [] => Ok rt
  | (inputBuffer, outputBuffer) :: calls' =>
      '(rt, _, _) <- process fuel rt inputBuffer outputBuffer ;;
      process_calls process fuel rt calls'
  end.

(** Fuel that lets [process] finish on [numFrames] input frames. *)
Definition transposer_fuel (rate : Q) (numFrames : Z) : nat :=
  Z.to_nat (Qceiling (inject_Z (Z.max numFrames 1) / rate) + numFrames + 1).

(** Fuel that lets every call of a sequence finish. *)
Definition calls_fuel (rate : Q) (calls : list (Fifo * Fifo)) : nat :=
  fold_right
    (fun call acc => Nat.max (transposer_fuel rate (_frameCount (fst call))) acc)
    0%nat calls.

(** The input FIFO of every call holds a non-negative number of frames. *)
Definition calls_nonneg (calls : list (Fifo * Fifo)) : Prop :=
  Forall (fun call => 0 <= _frameCount (fst call)) calls.

(** The phase accumulator after a call of [process]. *)
Definition slope_after (r : res (RT.state * Fifo * Fifo)) : option Q :=
  match r with
  | Ok (rt, _, _) => Some (RT.slopeCount rt)
  | _ => None
  end.

(** A FIFO holding the single frame [(1, 1)]. *)
Definition one_frame_fifo : Fifo := mkFifo [Fin 1; Fin 1; Fin 0; Fin 0] 0 1.

(** ** C8: a constant input through the rate transposer: definitions *)

(** The frames [lo .. hi - 1], counted from sample index [start] of [v],
    hold the value [c] in both channels. *)
Definition frames_are (v : F32.t) (start lo hi : Z) (c : Q) : Prop :=
  forall j, lo <= j < hi ->
    sample_is (F32.get v (start + j * 2)) c
    /\ sample_is (F32.get v (start + j * 2 + 1)) c.

(** The output FIFO after a call of [process]; empty when it did not
    return. *)
Definition output_after (r : res (RT.state * Fifo * Fifo)) : Fifo :=
  match r with
  | Ok (_, _, outputBuffer) => outputBuffer
  | _ => mkFifo [] 0 0
  end.

(** A transposer at rate 1/2 that last saw the frame [(1, 1)]. *)
Definition transposer_after_ones : RT.state := RT.mk (1 # 2) 0 (Fin 1) (Fin 1).

(** ** C10: the worklet's copies against the library: definitions *)

(** The worklet state of a library time stretcher: the library state
    without its three millisecond settings. *)
Definition to_worklet (l : Lib.TimeStretch.state) : Worklet.TimeStretch.state :=
  Worklet.TimeStretch.mk (Lib.TimeStretch.sampleRate l)
    (Lib.TimeStretch._tempo l) (Lib.TimeStretch.sequenceLength l)
    (Lib.TimeStretch.seekLength l) (Lib.TimeStretch.overlapLength l)
    (Lib.TimeStretch.nominalSkip l) (Lib.TimeStretch.skipFract l)
    (Lib.TimeStretch.midBuffer l) (Lib.TimeStretch.refMidBuffer l)
    (Lib.TimeStretch.sampleReq l).

(** The library stretcher auto-tunes: [sequenceMs === 0] and
    [seekWindowMs === 0]. *)
Definition auto_tuned (l : Lib.TimeStretch.state) : Prop :=
  Qeqb (Lib.TimeStretch.sequenceMs l) 0 = true
  /\ Qeqb (Lib.TimeStretch.seekWindowMs l) 0 = true.

(** The result of a library method, seen from the worklet. *)
Definition to_worklet_result
  (r : res (Lib.TimeStretch.state * Fifo * Fifo))
  : res (Worklet.TimeStretch.state * Fifo * Fifo) :=
  match r with
  | Ok (l, inputBuffer, outputBuffer) =>
      Ok (to_worklet l, inputBuffer, outputBuffer)
  | Throw e => Throw e
  | OutOfFuel => OutOfFuel
  end.

(** The library stretcher of a result is auto-tuned. *)
Definition result_auto_tuned
  (r : res (Lib.TimeStretch.state * Fifo * Fifo)) : Prop :=
  match r with
  | Ok (l, _, _) => auto_tuned l
  | _ => True
  end.

(** A FIFO holding 1000 frames of silence. *)
Definition silence_fifo : Fifo := mkFifo (F32.new 2000) 0 1000.

(** The number of frames in the output FIFO of a result. *)
Definition frames_out {S : Type} (r : res (S * Fifo * Fifo)) : Z :=
  match r with
  | Ok (_, _, outputBuffer) => _frameCount outputBuffer
  | _ => -1
  end.

(** ** C5: the time stretcher at tempo 1: definitions *)

(** The frames the stretcher holds in its mid buffer: one overlap window
    once the buffer exists, none after a [reset]. *)
Definition held_frames (ts : Lib.TimeStretch.state) : Z :=
  if Lib.TimeStretch.midBuffer_missing ts then 0
  else Lib.TimeStretch.overlapLength ts.

(** The stretcher is set up for tempo 1 with a sequence of at least two
    overlap windows. *)
Definition unit_tempo (ts : Lib.TimeStretch.state) : Prop :=
  16 <= Lib.TimeStretch.overlapLength ts
  /\ 2 * Lib.TimeStretch.overlapLength ts <= Lib.TimeStretch.sequenceLength ts
  /\ Lib.TimeStretch.sequenceLength ts <= Lib.TimeStretch.sampleReq ts
  /\ (Lib.TimeStretch.nominalSkip ts
      == inject_Z (Lib.TimeStretch.sequenceLength ts
                   - Lib.TimeStretch.overlapLength ts))%Q
  /\ (Lib.TimeStretch.skipFract ts == 0)%Q
  /\ (exists r, Lib.TimeStretch.refMidBuffer ts = Some r)
  /\ (forall m, Lib.TimeStretch.midBuffer ts = Some m ->
        F32.length m = Lib.TimeStretch.overlapLength ts * 2).

(** A run of the stretcher: for each block, [numFrames] frames of
    [samples] are put into the input FIFO and [process] is called. *)
Fixpoint stretch_blocks (fuel : nat) (ts : Lib.TimeStretch.state)
  (inputBuffer outputBuffer : Fifo) (blocks : list (F32.t * Z))
  : res (Lib.TimeStretch.state * Fifo * Fifo) :=
  match blocks with
  | [] => Ok (ts, inputBuffer, outputBuffer)
  | (samples, numFrames) :: blocks' =>
      inputBuffer <-
        FifoSampleBuffer.putSamples inputBuffer samples 0 numFrames ;;
      '(ts, inputBuffer, outputBuffer) <-
         Lib.TimeStretch.process fuel ts inputBuffer outputBuffer ;;
      stretch_blocks fuel ts inputBuffer outputBuffer blocks'
  end.

(** The number of frames fed by a run. *)
Definition frames_fed (blocks : list (F32.t * Z)) : Z :=
  fold_right (fun block acc => snd block + acc) 0 blocks.

(** Every block feeds a non-negative number of frames. *)
Definition blocks_nonneg (blocks : list (F32.t * Z)) : Prop :=
  Forall (fun block => 0 <= snd block) blocks.

(** The number of frames left in the input FIFO of a result. *)
Definition frames_in {S : Type} (r : res (S * Fifo * Fifo)) : Z :=
  match r with
  | Ok (_, inputBuffer, _) => _frameCount inputBuffer
  | _ => -1
  end.

(** The state after [setParameters(sampleRate, 0, 0, overlapMs)] (auto
    sequence and seek durations) followed by [tempo = 1]. *)
Definition configured (ts0 : Lib.TimeStretch.state) (sampleRate overlapMs : Q)
  : Lib.TimeStretch.state :=
  Lib.TimeStretch.set_tempo
    (Lib.TimeStretch.setParameters ts0 sampleRate 0 0 overlapMs) 1.

(** The stretcher with the two FIFOs of its constructor, after a [reset()]
    when [reset_first] is set. *)
Definition started (reset_first : bool) (ts : Lib.TimeStretch.state)
  : res (Lib.TimeStretch.state * Fifo * Fifo) :=
  if reset_first then
    Lib.TimeStretch.reset ts (FifoSampleBuffer.new 4096)
      (FifoSampleBuffer.new 4096)
  else Ok (ts, FifoSampleBuffer.new 4096, FifoSampleBuffer.new 4096).

Definition stretch_run (fuel : nat) (reset_first : bool)
  (ts : Lib.TimeStretch.state) (blocks : list (F32.t * Z))
  : res (Lib.TimeStretch.state * Fifo * Fifo) :=
  '(ts, inputBuffer, outputBuffer) <- started reset_first ts ;;
  stretch_blocks fuel ts inputBuffer outputBuffer blocks.


(** ** The FIFO as a queue: definitions *)

(** The live samples of a FIFO, oldest first:
    [vector.subarray(startIndex, endIndex)]. *)
Definition live (f : Fifo) : F32.t :=
  F32.subarray (_vector f) (FifoSampleBuffer.startIndex f)
    (FifoSampleBuffer.endIndex f).

(** A FIFO of capacity 4 whose first frame has been taken: the live frames
    are [(2, 2)] and [(3, 3)]. *)
Definition two_frame_fifo : Fifo :=
  mkFifo [Fin 1; Fin 1; Fin 2; Fin 2; Fin 3; Fin 3; Fin 0; Fin 0] 1 2.

(** ** The rate transposer as an interpolator: definitions *)

(** The stream a [process] call interpolates: frame 0 is the frame retained
    from the previous call, frame [i >= 1] is input frame [i - 1];
    [channel] is 0 (left) or 1 (right). *)
Definition stream_sample (rt : RT.state) (input : F32.t)
  (inputStart i channel : Z) : sample :=
  if i =? 0 then
    if channel =? 0 then RT.prevSampleL rt else RT.prevSampleR rt
  else F32.get input (inputStart + (i - 1) * 2 + channel).

(** [x] is the linear interpolation of the stream at position [p]: between
    the frames [floor p] and [floor p + 1], with the fractional part of [p]
    as weight. *)
Definition interpolated_at (rt : RT.state) (input : F32.t) (inputStart : Z)
  (p : Q) (channel : Z) (x : sample) : Prop :=
  exists w : Q,
    (w == p - inject_Z (Qfloor p))%Q
    /\ x = sadd
             (scale (1 - w)
                (stream_sample rt input inputStart (Qfloor p) channel))
             (scale w
                (stream_sample rt input inputStart (Qfloor p + 1) channel)).

(** The frames [lo .. hi - 1], counted from sample index [start] of [v],
    are the interpolations of the stream at the positions
    [s0 + j * rate]. *)
Definition interpolated (rt : RT.state) (input : F32.t) (inputStart : Z)
  (s0 : Q) (v : F32.t) (start lo hi : Z) : Prop :=
  forall j channel, lo <= j < hi -> 0 <= channel <= 1 ->
    interpolated_at rt input inputStart (s0 + inject_Z j * RT._rate rt)
      channel (F32.get v (start + j * 2 + channel)).

(** A transposer at rate 5/2 carrying the phase 3/2 from an earlier
    call. *)
Definition fast_transposer : RT.state := RT.mk (5 # 2) (3 # 2) (Fin 0) (Fin 0).

(** The number of frames [process] emits for [numFrames] input frames at
    phase [slopeCount]: the positions [slopeCount + j * rate] below
    [numFrames]. *)
Definition frames_emitted (rate slopeCount : Q) (numFrames : Z) : Z :=
  Z.max 0 (Qceiling ((inject_Z numFrames - slopeCount) / rate)).

(** What the loops of [transpose] keep while they write behind
    [outputStart]: the length of the output array, the samples in front of
    [outputStart], and the [cnt] frames written so far. *)
Definition transposed (rt : RT.state) (input : F32.t)
  (inputStart outputStart : Z) (s0 : Q) (output0 output : F32.t) (cnt : Z)
  : Prop :=
  F32.length output = F32.length output0
  /\ (forall j, j < outputStart -> F32.get output j = F32.get output0 j)
  /\ interpolated rt input inputStart s0 output outputStart 0 cnt.

(** ** The time stretcher: definitions *)

(** A seek offset lies in the seek window: it is 0, or at least below
    [seekLength]. *)
Definition in_seek_window (ts : Lib.TimeStretch.state) (offset : Z) : Prop :=
  0 <= offset /\ (offset = 0 \/ offset < Lib.TimeStretch.seekLength ts).

(** A stretcher that never received [setParameters] nor a tempo, once
    [process] has given it its (empty) mid buffer: every derived length is
    0. *)
Definition unconfigured (ts : Lib.TimeStretch.state) : Prop :=
  Lib.TimeStretch.sampleReq ts = 0
  /\ Lib.TimeStretch.overlapLength ts = 0
  /\ Lib.TimeStretch.sequenceLength ts = 0
  /\ Lib.TimeStretch.seekLength ts = 0
  /\ (Lib.TimeStretch.nominalSkip ts == 0)%Q
  /\ (Lib.TimeStretch.skipFract ts == 0)%Q
  /\ Lib.TimeStretch.midBuffer ts = Some [].

(** ** The library engine: definitions *)

(** What a user of [SoundTouch] does with an engine: assign a control,
    configure the stretcher, put frames into [inputBuffer], call
    [process()], take frames from [outputBuffer], call [reset()]. *)
Inductive engine_op : Type :=
| SetControl (c : control) (value : Q)
| SetParameters (sampleRate sequenceMs seekWindowMs overlapMs : Q)
| PutSamples (samples : F32.t) (numFrames : Z)
| Process (fuel : nat)
| Receive (numFrames : Z)
| Reset.

Definition run_op (op : engine_op) (e : Lib.SoundTouch.state)
  : res Lib.SoundTouch.state :=
  match op with
  | SetControl c value => Ok (assign_control c e value)
  | SetParameters sampleRate sequenceMs seekWindowMs overlapMs =>
      Ok (Lib.SoundTouch.setParameters e sampleRate sequenceMs seekWindowMs
            overlapMs)
  | PutSamples samples numFrames =>
      f <- FifoSampleBuffer.putSamples (Lib.SoundTouch.inputBuffer e) samples
             0 numFrames ;;
      Ok (Lib.SoundTouch.assign e Lib.SoundTouch.InputBuffer f)
  | Process fuel => Lib.SoundTouch.process fuel e
  | Receive numFrames =>
      Ok (Lib.SoundTouch.assign e Lib.SoundTouch.OutputBuffer
            (FifoSampleBuffer.receive (Lib.SoundTouch.outputBuffer e)
               numFrames))
  | Reset => Lib.SoundTouch.reset e
  end.

Fixpoint run_ops (ops : list engine_op) (e : Lib.SoundTouch.state)
  : res Lib.SoundTouch.state :=
  match ops with
  | [] => Ok e
  | op :: ops' => e <- run_op op e ;; run_ops ops' e
  end.

(** The wiring [process()] relies on: the stage it runs first reads the
    engine's input FIFO and writes the intermediate one, the stage it runs
    second reads the intermediate FIFO and writes the engine's output
    FIFO. *)
Definition wired (e : Lib.SoundTouch.state) : Prop :=
  if Qltb 1 (Lib.SoundTouch._rate e) then
    Lib.SoundTouch.timeStretch_inputBuffer e = Lib.SoundTouch.InputBuffer
    /\ Lib.SoundTouch.timeStretch_outputBuffer e
       = Lib.SoundTouch.IntermediateBuffer
    /\ Lib.SoundTouch.rateTransposer_inputBuffer e
       = Lib.SoundTouch.IntermediateBuffer
    /\ Lib.SoundTouch.rateTransposer_outputBuffer e
       = Lib.SoundTouch.OutputBuffer
  else
    Lib.SoundTouch.rateTransposer_inputBuffer e = Lib.SoundTouch.InputBuffer
    /\ Lib.SoundTouch.rateTransposer_outputBuffer e
       = Lib.SoundTouch.IntermediateBuffer
    /\ Lib.SoundTouch.timeStretch_inputBuffer e
       = Lib.SoundTouch.IntermediateBuffer
    /\ Lib.SoundTouch.timeStretch_outputBuffer e
       = Lib.SoundTouch.OutputBuffer.

(** The four wiring fields and the effective rate of two engines agree. *)
Definition same_wiring (e e' : Lib.SoundTouch.state) : Prop :=
  Lib.SoundTouch.rateTransposer_inputBuffer e'
  = Lib.SoundTouch.rateTransposer_inputBuffer e
  /\ Lib.SoundTouch.rateTransposer_outputBuffer e'
     = Lib.SoundTouch.rateTransposer_outputBuffer e
  /\ Lib.SoundTouch.timeStretch_inputBuffer e'
     = Lib.SoundTouch.timeStretch_inputBuffer e
  /\ Lib.SoundTouch.timeStretch_outputBuffer e'
     = Lib.SoundTouch.timeStretch_outputBuffer e
  /\ Lib.SoundTouch._rate e' = Lib.SoundTouch._rate e.

(** A sequence of control assignments. *)
Fixpoint assign_all (e : Lib.SoundTouch.state) (steps : list (control * Q))
  : Lib.SoundTouch.state :=
  match steps with
  | [] => e
  | (c, value) :: steps' => assign_all (assign_control c e value) steps'
  end.

(** Every assignment of the sequence leaves the pitch other than 0 and
    moves the effective tempo and the effective rate by at most [epsilon]
    ([1e-10]). *)
Fixpoint small_steps (e : Lib.SoundTouch.state) (steps : list (control * Q))
  : Prop :=
  match steps with
  | [] => True
  | (c, value) :: steps' =>
      let e' := assign_control c e value in
      ~ (pitch_after c e value == 0)%Q
      /\ (Qabs (Lib.SoundTouch._tempo e' - Lib.SoundTouch._tempo e)
          <= epsilon)%Q
      /\ (Qabs (Lib.SoundTouch._rate e' - Lib.SoundTouch._rate e)
          <= epsilon)%Q
      /\ small_steps e' steps'
  end.

(** A ramp of the pitch from 1 in three steps of [0.5e-10]. *)
Definition slow_ramp : list (control * Q) :=
  [(Pitch, 1 + (5 # 10 ^ 11)); (Pitch, 1 + (10 # 10 ^ 11));
   (Pitch, 1 + (15 # 10 ^ 11))]%Q.

(** ** The time stretcher at any tempo: definitions *)

(** The stretcher is set up: a positive tempo, a sequence longer than the
    overlap window, the skip and the input requirement as the [tempo]
    setter computes them, a fractional skip in [0, 1), and overlap buffers
    of the size [calculateOverlapLength] gives them. *)
Definition stretching (ts : Lib.TimeStretch.state) : Prop :=
  (0 < Lib.TimeStretch._tempo ts)%Q
  /\ 1 <= Lib.TimeStretch.overlapLength ts
  /\ Lib.TimeStretch.overlapLength ts < Lib.TimeStretch.sequenceLength ts
  /\ 0 <= Lib.TimeStretch.seekLength ts
  /\ (Lib.TimeStretch.nominalSkip ts
      == Lib.TimeStretch._tempo ts
         * inject_Z (Lib.TimeStretch.sequenceLength ts
                     - Lib.TimeStretch.overlapLength ts))%Q
  /\ Lib.TimeStretch.sampleReq ts
     = Z.max (Qfloor (Lib.TimeStretch.nominalSkip ts + (1 # 2))
              + Lib.TimeStretch.overlapLength ts)
         (Lib.TimeStretch.sequenceLength ts)
       + Lib.TimeStretch.seekLength ts
  /\ (0 <= Lib.TimeStretch.skipFract ts)%Q
  /\ (Lib.TimeStretch.skipFract ts < 1)%Q
  /\ (exists r, Lib.TimeStretch.refMidBuffer ts = Some r)
  /\ (forall m, Lib.TimeStretch.midBuffer ts = Some m ->
        F32.length m = Lib.TimeStretch.overlapLength ts * 2).

(** The settings of two stretcher states agree: everything but the
    overlap buffers and the fractional skip. *)
Definition same_settings (ts ts' : Lib.TimeStretch.state) : Prop :=
  Lib.TimeStretch.sampleRate ts' = Lib.TimeStretch.sampleRate ts
  /\ Lib.TimeStretch._tempo ts' = Lib.TimeStretch._tempo ts
  /\ Lib.TimeStretch.sequenceMs ts' = Lib.TimeStretch.sequenceMs ts
  /\ Lib.TimeStretch.seekWindowMs ts' = Lib.TimeStretch.seekWindowMs ts
  /\ Lib.TimeStretch.overlapMs ts' = Lib.TimeStretch.overlapMs ts
  /\ Lib.TimeStretch.sequenceLength ts' = Lib.TimeStretch.sequenceLength ts
  /\ Lib.TimeStretch.seekLength ts' = Lib.TimeStretch.seekLength ts
  /\ Lib.TimeStretch.overlapLength ts' = Lib.TimeStretch.overlapLength ts
  /\ Lib.TimeStretch.nominalSkip ts' = Lib.TimeStretch.nominalSkip ts
  /\ Lib.TimeStretch.sampleReq ts' = Lib.TimeStretch.sampleReq ts.

(** The frames one turn of the stretcher's loop appends to its output: the
    crossfaded overlap window and, when the sequence is longer than two
    windows, the middle of the sequence. *)
Definition frames_per_sequence (ts : Lib.TimeStretch.state) : Z :=
  Lib.TimeStretch.overlapLength ts
  + Z.max 0 (Lib.TimeStretch.sequenceLength ts
             - 2 * Lib.TimeStretch.overlapLength ts).


(** The engine is ready to process: wired, its stretcher set up, its
    transposer at a positive rate with a phase that is not negative, and
    no FIFO with a negative position or frame count. *)
Definition engine_ready (e : Lib.SoundTouch.state) : Prop :=
  wired e
  /\ stretching (Lib.SoundTouch.timeStretch e)
  /\ (0 < RT._rate (Lib.SoundTouch.rateTransposer e))%Q
  /\ (0 <= RT.slopeCount (Lib.SoundTouch.rateTransposer e))%Q
  /\ 0 <= _position (Lib.SoundTouch._inputBuffer e)
  /\ 0 <= _frameCount (Lib.SoundTouch._inputBuffer e)
  /\ 0 <= _position (Lib.SoundTouch._intermediateBuffer e)
  /\ 0 <= _frameCount (Lib.SoundTouch._intermediateBuffer e)
  /\ 0 <= _position (Lib.SoundTouch._outputBuffer e)
  /\ 0 <= _frameCount (Lib.SoundTouch._outputBuffer e).

(** An engine with the pitch set to 2, configured for 1000 Hz, holding 500
    silent frames of input: more than the 150 frames its stretcher, at
    tempo 1/2, requires for a turn of its loop. *)
Definition ready_engine : Lib.SoundTouch.state :=
  Lib.SoundTouch.assign
    (Lib.SoundTouch.setParameters (assign_control Pitch Lib.SoundTouch.new 2)
       1000 0 0 16)
    Lib.SoundTouch.InputBuffer (mkFifo (F32.new 1000) 0 500).

(** ** The RubberBand processor, bypass and fades: definitions *)

(** [shouldBypass]: the parameters ask for the bypass, the processor being
    disabled or the pitch scale less than [0.001] away from 1. *)
Definition asks_bypass (parameters : RubberbandProcessor.parameters) : bool :=
  negb (Qleb (1 # 2) (RubberbandProcessor.enabled parameters))
  || Qltb (Qabs (RubberbandProcessor.pitchScale parameters - 1)) (1 # 1000).

(** The fade counter a block starts with: [FADE_FRAMES] when the block
    toggles the bypass, the counter left by the block before otherwise. *)
Definition fade_start (Stretcher : Type)
  (p : RubberbandProcessor.state Stretcher)
  (parameters : RubberbandProcessor.parameters) : Z :=
  if Bool.eqb (asks_bypass parameters) (RubberbandProcessor.bypassed p)
  then RubberbandProcessor.fadeCounter p
  else RubberbandProcessor.FADE_FRAMES.

(** A processor with a warm stand-in stretcher (1000 frames pushed), in
    the middle of nothing: bypassed, with a fade about to start; and the
    same processor once the fade is over. *)
Definition warm_processor : RubberbandProcessor.state Z :=
  @RubberbandProcessor.mk Z true (Some 1000) 2 true true 0
    [F32.new 128; F32.new 128] [F32.new 128; F32.new 128] 1 1 64.
Definition idle_processor : RubberbandProcessor.state Z :=
  @RubberbandProcessor.mk Z true (Some 1000) 2 true true 0
    [F32.new 128; F32.new 128] [F32.new 128; F32.new 128] 1 1 0.

(** The pitch scale of an octave, disabled. *)
Definition octave_up_disabled : RubberbandProcessor.parameters :=
  RubberbandProcessor.mkParameters 2 1 0.

(** ** The SoundTouch worklet, bypass and skip period: definitions *)

(** The block [process] writes when it copies the input: the first output
    channel receives the first input channel, the second output channel
    the second input channel, or the first one for a mono input; further
    output channels are left as they are. *)
Definition dry_block (input output : list F32.t) : list F32.t :=
  match input, output with
  | left_ :: input_rest, _ :: output_rest =>
      left_
      :: match output_rest with
         | [] => []
         | _ :: rest' =>
             match input_rest with r :: _ => r | [] => left_ end :: rest'
         end
  | _, _ => output
  end.

Section SoundTouchProcessorBypassVocabulary.

Variable Math_pow : Q -> Q -> Q.

(** [shouldBypass]: the parameters ask for the bypass, the worklet being
    disabled or the target pitch less than [0.001] away from 1. *)
Definition worklet_asks_bypass
  (parameters : Worklet.SoundTouchProcessor.parameters) : bool :=
  negb (Qleb (1 # 2) (Worklet.SoundTouchProcessor.enabled parameters))
  || Qltb (Qabs (target_pitch Math_pow parameters - 1)) (1 # 1000).

(** The target pitch is the pitch of the block before, up to [0.001]. *)
Definition pitch_kept (p : Worklet.SoundTouchProcessor.state)
  (parameters : Worklet.SoundTouchProcessor.parameters) : Prop :=
  (Qabs (target_pitch Math_pow parameters
         - Worklet.SoundTouchProcessor.previousPitch p) <= 1 # 1000)%Q.

(** The block is one of a skip period: it switches the worklet on, or the
    worklet is on with blocks left to skip and an unchanged pitch. *)
Definition skipping (p : Worklet.SoundTouchProcessor.state)
  (parameters : Worklet.SoundTouchProcessor.parameters) : Prop :=
  Worklet.SoundTouchProcessor.bypassed p = true
  \/ (Worklet.SoundTouchProcessor.bypassed p = false
      /\ 0 < Worklet.SoundTouchProcessor.skipBufferCounter p
      /\ pitch_kept p parameters).

End SoundTouchProcessorBypassVocabulary.

(** A worklet at 44100 Hz as it is built: bypassed; and the parameters of
    an octave up, disabled. *)
Definition new_worklet : Worklet.SoundTouchProcessor.state :=
  Worklet.SoundTouchProcessor.new 44100.
Definition unison_disabled : Worklet.SoundTouchProcessor.parameters :=
  Worklet.SoundTouchProcessor.mkParameters 0 0 0.

(** * Properties *)

(** ** Basic facts *)

Lemma Qltb_lt (x y : Q) : Qltb x y = true <-> (x < y)%Q.
Proof. unfold Qltb, Qlt. apply Z.ltb_lt. Qed.

Lemma Qltb_ge (x y : Q) : Qltb x y = false <-> (y <= x)%Q.
Proof. unfold Qltb, Qle. apply Z.ltb_ge. Qed.

Lemma Qleb_le (x y : Q) : Qleb x y = true <-> (x <= y)%Q.
Proof. unfold Qleb, Qle. apply Z.leb_le. Qed.

Lemma Qleb_gt (x y : Q) : Qleb x y = false <-> (y < x)%Q.
Proof. unfold Qleb, Qlt. apply Z.leb_gt. Qed.

Lemma Qeqb_eq (x y : Q) : Qeqb x y = true <-> (x == y)%Q.
Proof. unfold Qeqb, Qeq. apply Z.eqb_eq. Qed.

Lemma F32_length_nonneg (v : F32.t) : 0 <= F32.length v.
Proof. unfold F32.length. lia. Qed.

Lemma F32_length_new (n : Z) : F32.length (F32.new n) = Z.max n 0.
Proof. unfold F32.length, F32.new. rewrite repeat_length. lia. Qed.

Lemma F32_length_app (u v : F32.t) :
  F32.length (u ++ v) = F32.length u + F32.length v.
Proof. unfold F32.length. rewrite length_app. lia. Qed.

Lemma F32_length_firstn (n : nat) (v : F32.t) :
  F32.length (firstn n v) = Z.min (Z.of_nat n) (F32.length v).
Proof. unfold F32.length. rewrite length_firstn. lia. Qed.

Lemma F32_length_skipn (n : nat) (v : F32.t) :
  F32.length (skipn n v) = Z.max (F32.length v - Z.of_nat n) 0.
Proof. unfold F32.length. rewrite length_skipn. lia. Qed.

(** The length of a slice: both ends clipped to the array. *)
Lemma F32_length_subarray (v : F32.t) (b e : Z) :
  F32.length (F32.subarray v b e)
  = Z.max (F32.relative (F32.length v) e - F32.relative (F32.length v) b) 0.
Proof.
  unfold F32.subarray.
  rewrite F32_length_firstn, F32_length_skipn.
  assert (Hb : 0 <= F32.relative (F32.length v) b <= F32.length v).
  { pose proof (F32_length_nonneg v). unfold F32.relative.
    destruct (Z.ltb_spec b 0); lia. }
  assert (He : 0 <= F32.relative (F32.length v) e <= F32.length v).
  { pose proof (F32_length_nonneg v). unfold F32.relative.
    destruct (Z.ltb_spec e 0); lia. }
  lia.
Qed.

Lemma F32_length_subarray_le (v : F32.t) (b e : Z) :
  F32.length (F32.subarray v b e) <= F32.length v.
Proof.
  rewrite F32_length_subarray.
  pose proof (F32_length_nonneg v).
  unfold F32.relative.
  destruct (Z.ltb_spec b 0), (Z.ltb_spec e 0); lia.
Qed.

Lemma F32_set_ok (dst src : F32.t) (off : Z) :
  0 <= off -> F32.length src + off <= F32.length dst ->
  F32.set dst src off
  = Ok (firstn (Z.to_nat off) dst ++ src
          ++ skipn (Z.to_nat (off + F32.length src)) dst).
Proof.
  intros H0 H1. unfold F32.set.
  destruct (off <? 0) eqn:E0; [apply Z.ltb_lt in E0; lia|].
  destruct (F32.length dst <? F32.length src + off) eqn:E1;
    [apply Z.ltb_lt in E1; lia|].
  reflexivity.
Qed.

Lemma F32_set_length (dst src v : F32.t) (off : Z) :
  F32.set dst src off = Ok v -> F32.length v = F32.length dst.
Proof.
  unfold F32.set.
  destruct (off <? 0) eqn:E0; [discriminate|].
  destruct (F32.length dst <? F32.length src + off) eqn:E1; [discriminate|].
  intros H. inversion H; subst; clear H.
  apply Z.ltb_ge in E0, E1.
  rewrite !F32_length_app, F32_length_firstn, F32_length_skipn.
  pose proof (F32_length_nonneg src). lia.
Qed.

(** ** C7: over-long requests to [receive] and [receiveSamples] *)

Lemma stale_fifo_reachable :
  (f <- FifoSampleBuffer.putSamples (FifoSampleBuffer.new 4)
          [Fin 1; Fin 1; Fin 2; Fin 2; Fin 3; Fin 3] 0 3 ;;
   FifoSampleBuffer.rewind (FifoSampleBuffer.receive f 2))
  = Ok stale_fifo.
Proof. reflexivity. Qed.

(** C7, counterexample.  With one live frame and two frames requested,
    [receiveSamples] copies two frames: the second one, [(2, 2)], is stale
    storage that was consumed earlier, and it overwrites the caller's
    [output] beyond the one available frame.  With an [output] that has room
    for the available frame only, the same call throws. *)
Lemma C7_counterexample :
  fifo_wf stale_fifo
  /\ FifoSampleBuffer.frameCount stale_fifo = 1
  /\ FifoSampleBuffer.receiveSamples stale_fifo
       [Fin 9; Fin 9; Fin 9; Fin 9] 2
     = Ok (FifoSampleBuffer.receive stale_fifo 2,
           [Fin 3; Fin 3; Fin 2; Fin 2])
  /\ FifoSampleBuffer.receiveSamples stale_fifo [Fin 9; Fin 9] 2
     = Throw RangeError.
Proof.
  repeat split; try reflexivity; vm_compute; congruence.
Qed.

Lemma receive_clamped (f : Fifo) (n : Z) :
  0 <= _frameCount f -> _frameCount f < n ->
  FifoSampleBuffer.receive f n
  = mkFifo (_vector f) (_position f + _frameCount f) 0.
Proof.
  intros Hk Hn. unfold FifoSampleBuffer.receive.
  destruct (Z.ltb_spec n 0); [lia|].
  destruct (Z.ltb_spec (_frameCount f) n); [|lia].
  cbn [orb]. f_equal. lia.
Qed.

(** C7, amended.  For a well-formed FIFO with [k] live frames and a request
    of [n > k] frames, [receive] and [receiveSamples] remove exactly the [k]
    live frames.  [receiveSamples] does not clamp its copy to them: it copies
    the [m = min (2n) (length - 2 * position)] stored samples that follow
    the read position, live or not, over the head of [output], and throws a
    [RangeError] when [output] is shorter than [m]. *)
Theorem C7_receive_clamps_removal_only :
  forall (f : Fifo) (output : F32.t) (n : Z),
    fifo_wf f -> _frameCount f < n ->
    let k := _frameCount f in
    let m := Z.min (2 * n) (F32.length (_vector f) - 2 * _position f) in
    FifoSampleBuffer.receive f n = mkFifo (_vector f) (_position f + k) 0
    /\ 2 * k <= m
    /\ FifoSampleBuffer.receiveSamples f output n
       = if F32.length output <? m then Throw RangeError
         else Ok (mkFifo (_vector f) (_position f + k) 0,
                  firstn (Z.to_nat m)
                    (skipn (Z.to_nat (2 * _position f)) (_vector f))
                  ++ skipn (Z.to_nat m) output).
Proof.
  intros f output n (Hp & Hk & Hlen) Hn k m.
  split; [apply receive_clamped; assumption|].
  split; [subst k m; lia|].
  unfold FifoSampleBuffer.receiveSamples, FifoSampleBuffer.startIndex.
  rewrite receive_clamped by assumption.
  set (src := F32.subarray _ _ _).
  assert (Hsrc : src = firstn (Z.to_nat m)
                         (skipn (Z.to_nat (2 * _position f)) (_vector f))).
  { subst src. unfold F32.subarray, F32.relative.
    destruct (Z.ltb_spec (_position f * 2) 0); [lia|].
    destruct (Z.ltb_spec (_position f * 2 + n * 2) 0); [lia|].
    f_equal; [|f_equal]; subst m; lia. }
  assert (Hm : F32.length src = m).
  { rewrite Hsrc, F32_length_firstn, F32_length_skipn. subst m k. lia. }
  unfold F32.set. cbn [Z.ltb orb]. rewrite Z.add_0_r, Hm.
  destruct (F32.length output <? m); [reflexivity|].
  cbn [bind]. rewrite Hsrc. cbn [Z.to_nat firstn app]. rewrite Z.add_0_l.
  reflexivity.
Qed.

(** The amended C7 at the stale FIFO. *)
Lemma C7_witness :
  fifo_wf stale_fifo /\ _frameCount stale_fifo < 2
  /\ FifoSampleBuffer.receive stale_fifo 2 = mkFifo (_vector stale_fifo) 1 0.
Proof.
  assert (Hwf : fifo_wf stale_fifo) by (vm_compute; repeat split; congruence).
  assert (Hn : _frameCount stale_fifo < 2) by reflexivity.
  split; [exact Hwf|]. split; [exact Hn|].
  exact (proj1 (C7_receive_clamps_removal_only [] Hwf Hn)).
Defined.

(** ** C9: the overlap length *)

(** [setParameters] computes the overlap length from the sample rate and
    the overlap duration it leaves in force, and from nothing else. *)
Lemma Lib_setParameters_overlapLength
  (ts : Lib.TimeStretch.state) (sr seq seek ov : Q) :
  Lib.TimeStretch.overlapLength
    (Lib.TimeStretch.setParameters ts sr seq seek ov)
  = (let overlap :=
       Qfloor (Lib.TimeStretch.sampleRate
                 (Lib.TimeStretch.setParameters ts sr seq seek ov)
               * Lib.TimeStretch.overlapMs
                   (Lib.TimeStretch.setParameters ts sr seq seek ov)
               / 1000) in
     let overlap := if overlap <? 16 then 16 else overlap in
     overlap - Z.rem overlap 8).
Proof. reflexivity. Qed.

Lemma Worklet_setParameters_overlapLength
  (ts : Worklet.TimeStretch.state) (sr ov : Q) :
  Worklet.TimeStretch.overlapLength (Worklet.TimeStretch.setParameters ts sr ov)
  = (let overlap :=
       Qfloor (Worklet.TimeStretch._sampleRate
                 (Worklet.TimeStretch.setParameters ts sr ov)
               * ov / 1000) in
     let overlap := if overlap <? 16 then 16 else overlap in
     overlap - Z.rem overlap 8).
Proof. reflexivity. Qed.

(** The alignment of [calculateOverlapLength], whatever integer the floor
    of the duration in frames is. *)
Lemma overlap_code_bounds (x : Z) :
  let overlap := if x <? 16 then 16 else x in
  (overlap - Z.rem overlap 8) mod 8 = 0 /\ 16 <= overlap - Z.rem overlap 8.
Proof.
  cbv zeta. set (o := if x <? 16 then 16 else x).
  assert (Ho : 16 <= o) by (subst o; destruct (Z.ltb_spec x 16); lia).
  rewrite Z.rem_mod_nonneg by lia.
  pose proof (Z.div_mod o 8 ltac:(lia)) as Hdm.
  pose proof (Z.mod_pos_bound o 8 ltac:(lia)) as Hb.
  replace (o - o mod 8) with (o / 8 * 8) by lia.
  split; [apply Z_mod_mult|].
  assert (2 <= o / 8) by (apply Z.div_le_lower_bound; lia). lia.
Qed.

Lemma Lib_setParameters_overlapLength_bounds
  (ts : Lib.TimeStretch.state) (sr seq seek ov : Q) :
  Lib.TimeStretch.overlapLength
    (Lib.TimeStretch.setParameters ts sr seq seek ov) mod 8 = 0
  /\ 16 <= Lib.TimeStretch.overlapLength
             (Lib.TimeStretch.setParameters ts sr seq seek ov).
Proof.
  unfold Lib.TimeStretch.setParameters.
  cbn -[Z.rem Qfloor Qmult Qdiv Z.ltb Z.modulo].
  apply overlap_code_bounds.
Qed.

Lemma Worklet_setParameters_overlapLength_bounds
  (ts : Worklet.TimeStretch.state) (sr ov : Q) :
  Worklet.TimeStretch.overlapLength (Worklet.TimeStretch.setParameters ts sr ov)
    mod 8 = 0
  /\ 16 <= Worklet.TimeStretch.overlapLength
             (Worklet.TimeStretch.setParameters ts sr ov).
Proof.
  unfold Worklet.TimeStretch.setParameters.
  cbn -[Z.rem Qfloor Qmult Qdiv Z.ltb Z.modulo].
  apply overlap_code_bounds.
Qed.

(** C9.  After every [setParameters] call, with any sample rate and any
    overlap duration, the overlap length is a multiple of 8 and at least
    16, whatever integer the floor of the duration in frames comes to; and
    it is recomputed by the call: it depends on nothing but the sample rate
    and the overlap duration in force after the call, so two calls that
    leave the same rate and duration in force leave the same overlap
    length, whatever the stretchers held before.  In the library the
    duration in force is the argument when positive and the stored one
    otherwise; in the worklet it is the argument.  In both the sample rate
    in force is the argument when positive and the stored one otherwise. *)
Theorem C9_overlapLength_aligned :
  (forall (ts : Lib.TimeStretch.state) (sr seq seek ov : Q),
      let ts' := Lib.TimeStretch.setParameters ts sr seq seek ov in
      Lib.TimeStretch.sampleRate ts'
      = (if Qltb 0 sr then sr else Lib.TimeStretch.sampleRate ts)
      /\ Lib.TimeStretch.overlapMs ts'
         = (if Qltb 0 ov then ov else Lib.TimeStretch.overlapMs ts)
      /\ Lib.TimeStretch.overlapLength ts' mod 8 = 0
      /\ 16 <= Lib.TimeStretch.overlapLength ts')
  /\ (forall (ts1 ts2 : Lib.TimeStretch.state)
             (sr1 seq1 seek1 ov1 sr2 seq2 seek2 ov2 : Q),
         let ts1' := Lib.TimeStretch.setParameters ts1 sr1 seq1 seek1 ov1 in
         let ts2' := Lib.TimeStretch.setParameters ts2 sr2 seq2 seek2 ov2 in
         Lib.TimeStretch.sampleRate ts1' = Lib.TimeStretch.sampleRate ts2' ->
         Lib.TimeStretch.overlapMs ts1' = Lib.TimeStretch.overlapMs ts2' ->
         Lib.TimeStretch.overlapLength ts1'
         = Lib.TimeStretch.overlapLength ts2')
  /\ (forall (ts : Worklet.TimeStretch.state) (sr ov : Q),
         let ts' := Worklet.TimeStretch.setParameters ts sr ov in
         Worklet.TimeStretch._sampleRate ts'
         = (if Qltb 0 sr then sr else Worklet.TimeStretch._sampleRate ts)
         /\ Worklet.TimeStretch.overlapLength ts' mod 8 = 0
         /\ 16 <= Worklet.TimeStretch.overlapLength ts')
  /\ (forall (ts1 ts2 : Worklet.TimeStretch.state) (sr1 sr2 ov : Q),
         let ts1' := Worklet.TimeStretch.setParameters ts1 sr1 ov in
         let ts2' := Worklet.TimeStretch.setParameters ts2 sr2 ov in
         Worklet.TimeStretch._sampleRate ts1'
         = Worklet.TimeStretch._sampleRate ts2' ->
         Worklet.TimeStretch.overlapLength ts1'
         = Worklet.TimeStretch.overlapLength ts2').
Proof.
  split; [|split; [|split]].
  - intros ts sr seq seek ov ts'.
    split; [reflexivity|]. split; [reflexivity|].
    apply Lib_setParameters_overlapLength_bounds.
  - intros ts1 ts2 sr1 seq1 seek1 ov1 sr2 seq2 seek2 ov2 ts1' ts2' Hsr Hov.
    pose proof (Lib_setParameters_overlapLength ts1 sr1 seq1 seek1 ov1) as H1.
    pose proof (Lib_setParameters_overlapLength ts2 sr2 seq2 seek2 ov2) as H2.
    fold ts1' in H1. fold ts2' in H2.
    rewrite H1, H2, Hsr, Hov. reflexivity.
  - intros ts sr ov ts'.
    split; [reflexivity|].
    apply Worklet_setParameters_overlapLength_bounds.
  - intros ts1 ts2 sr1 sr2 ov ts1' ts2' Hsr.
    pose proof (Worklet_setParameters_overlapLength ts1 sr1 ov) as H1.
    pose proof (Worklet_setParameters_overlapLength ts2 sr2 ov) as H2.
    fold ts1' in H1. fold ts2' in H2.
    rewrite H1, H2, Hsr. reflexivity.
Qed.

(** ** C2 and C3: virtual controls and effective values *)

Lemma Lib_calculate_fields (e : Lib.SoundTouch.state) :
  let e' := Lib.SoundTouch.calculateEffectiveRateAndTempo e in
  Lib.SoundTouch.virtualPitch e' = Lib.SoundTouch.virtualPitch e
  /\ Lib.SoundTouch.virtualTempo e' = Lib.SoundTouch.virtualTempo e
  /\ Lib.SoundTouch.virtualRate e' = Lib.SoundTouch.virtualRate e
  /\ Lib.SoundTouch._tempo e'
     = (Lib.SoundTouch.virtualTempo e / Lib.SoundTouch.virtualPitch e)%Q
  /\ Lib.SoundTouch._rate e'
     = (Lib.SoundTouch.virtualRate e * Lib.SoundTouch.virtualPitch e)%Q
  /\ Lib.SoundTouch.timeStretch e'
     = (if Qltb epsilon
             (Qabs (Lib.SoundTouch._tempo e' - Lib.SoundTouch._tempo e))
        then Lib.TimeStretch.set_tempo (Lib.SoundTouch.timeStretch e)
               (Lib.SoundTouch._tempo e')
        else Lib.SoundTouch.timeStretch e)
  /\ Lib.SoundTouch.rateTransposer e'
     = (if Qltb epsilon
             (Qabs (Lib.SoundTouch._rate e' - Lib.SoundTouch._rate e))
        then Lib.RateTransposer.set_rate (Lib.SoundTouch.rateTransposer e)
               (Lib.SoundTouch._rate e')
        else Lib.SoundTouch.rateTransposer e).
Proof.
  cbv zeta. unfold Lib.SoundTouch.calculateEffectiveRateAndTempo.
  cbv zeta. cbn [Lib.SoundTouch._rate Lib.SoundTouch.rateTransposer_outputBuffer
                 Lib.SoundTouch.timeStretch_outputBuffer].
  destruct (Qltb 1 _);
    [destruct (negb (Lib.SoundTouch.bufref_eqb _
                       (Lib.SoundTouch.rateTransposer_outputBuffer e)))
    |destruct (negb (Lib.SoundTouch.bufref_eqb _
                       (Lib.SoundTouch.timeStretch_outputBuffer e)))];
    repeat split; reflexivity.
Qed.

Lemma Worklet_calculate_fields (e : Worklet.SoundTouchEngine.state) :
  let e' := Worklet.SoundTouchEngine.calculateEffectiveRateAndTempo e in
  Worklet.SoundTouchEngine.virtualPitch e'
  = Worklet.SoundTouchEngine.virtualPitch e
  /\ Worklet.SoundTouchEngine._tempo e'
     = (1 / Worklet.SoundTouchEngine.virtualPitch e)%Q
  /\ Worklet.SoundTouchEngine._rate e'
     = Worklet.SoundTouchEngine.virtualPitch e
  /\ Worklet.SoundTouchEngine.timeStretch e'
     = (if Qltb epsilon
             (Qabs (Worklet.SoundTouchEngine._tempo e'
                    - Worklet.SoundTouchEngine._tempo e))
        then Worklet.TimeStretch.set_tempo
               (Worklet.SoundTouchEngine.timeStretch e)
               (Worklet.SoundTouchEngine._tempo e')
        else Worklet.SoundTouchEngine.timeStretch e)
  /\ Worklet.SoundTouchEngine.rateTransposer e'
     = (if Qltb epsilon
             (Qabs (Worklet.SoundTouchEngine._rate e'
                    - Worklet.SoundTouchEngine._rate e))
        then Worklet.RateTransposer.set_rate
               (Worklet.SoundTouchEngine.rateTransposer e)
               (Worklet.SoundTouchEngine._rate e')
        else Worklet.SoundTouchEngine.rateTransposer e).
Proof.
  cbv zeta. unfold Worklet.SoundTouchEngine.calculateEffectiveRateAndTempo.
  cbv zeta. cbn [Worklet.SoundTouchEngine._rate].
  destruct (Qltb 1 _); repeat split; reflexivity.
Qed.

(** The setters of the two components store the value they are given:
    the getter returns it afterwards. *)
Lemma Lib_set_tempo_holds (ts : Lib.TimeStretch.state) (value : Q) :
  Lib.TimeStretch.tempo (Lib.TimeStretch.set_tempo ts value) = value.
Proof. reflexivity. Qed.

Lemma Lib_set_rate_holds (rt : RT.state) (value : Q) :
  Lib.RateTransposer.rate (Lib.RateTransposer.set_rate rt value) = value.
Proof. reflexivity. Qed.

Lemma Worklet_set_tempo_holds (ts : Worklet.TimeStretch.state) (value : Q) :
  Worklet.TimeStretch.tempo (Worklet.TimeStretch.set_tempo ts value) = value.
Proof. reflexivity. Qed.

Lemma Worklet_set_rate_holds (rt : RT.state) (value : Q) :
  Worklet.RateTransposer.rate (Worklet.RateTransposer.set_rate rt value)
  = value.
Proof. reflexivity. Qed.

(** C2.  Library engine: after an assignment of a positive value to any of
    the three controls of an engine whose controls are positive, the
    effective tempo is [virtualTempo / virtualPitch] and the effective rate
    is [virtualRate * virtualPitch], taken at the new control values; the
    time stretcher receives the new effective tempo through its [tempo]
    setter exactly when it differs from the previous effective tempo by more
    than [1e-10], and the rate transposer the new effective rate exactly when
    it differs from the previous one by more than [1e-10]; after such a push
    the tempo the stretcher holds (what its [tempo] getter returns) is the
    new effective tempo, and the rate the transposer holds is the new
    effective rate.  Worklet engine: pitch is its only control, virtual
    tempo and rate being the constant 1; the same holds with effective
    tempo [1 / virtualPitch] and effective rate [virtualPitch]. *)
Theorem C2_effective_rate_and_tempo :
  (forall (c : control) (e : Lib.SoundTouch.state) (v : Q),
      (0 < v)%Q ->
      (0 < Lib.SoundTouch.virtualPitch e)%Q ->
      (0 < Lib.SoundTouch.virtualTempo e)%Q ->
      (0 < Lib.SoundTouch.virtualRate e)%Q ->
      let e' := assign_control c e v in
      Lib.SoundTouch.virtualPitch e' = pitch_after c e v
      /\ Lib.SoundTouch.virtualTempo e' = tempo_after c e v
      /\ Lib.SoundTouch.virtualRate e' = rate_after c e v
      /\ (0 < Lib.SoundTouch.virtualPitch e')%Q
      /\ Lib.SoundTouch._tempo e'
         = (Lib.SoundTouch.virtualTempo e' / Lib.SoundTouch.virtualPitch e')%Q
      /\ Lib.SoundTouch._rate e'
         = (Lib.SoundTouch.virtualRate e' * Lib.SoundTouch.virtualPitch e')%Q
      /\ ((epsilon < Qabs (Lib.SoundTouch._tempo e' - Lib.SoundTouch._tempo e))%Q ->
          Lib.SoundTouch.timeStretch e'
          = Lib.TimeStretch.set_tempo (Lib.SoundTouch.timeStretch e)
              (Lib.SoundTouch._tempo e'))
      /\ ((Qabs (Lib.SoundTouch._tempo e' - Lib.SoundTouch._tempo e) <= epsilon)%Q ->
          Lib.SoundTouch.timeStretch e' = Lib.SoundTouch.timeStretch e)
      /\ ((epsilon < Qabs (Lib.SoundTouch._rate e' - Lib.SoundTouch._rate e))%Q ->
          Lib.SoundTouch.rateTransposer e'
          = Lib.RateTransposer.set_rate (Lib.SoundTouch.rateTransposer e)
              (Lib.SoundTouch._rate e'))
      /\ ((Qabs (Lib.SoundTouch._rate e' - Lib.SoundTouch._rate e) <= epsilon)%Q ->
          Lib.SoundTouch.rateTransposer e' = Lib.SoundTouch.rateTransposer e)
      /\ ((epsilon
           < Qabs (Lib.SoundTouch._tempo e' - Lib.SoundTouch._tempo e))%Q ->
          Lib.TimeStretch.tempo (Lib.SoundTouch.timeStretch e')
          = Lib.SoundTouch._tempo e')
      /\ ((epsilon
           < Qabs (Lib.SoundTouch._rate e' - Lib.SoundTouch._rate e))%Q ->
          Lib.RateTransposer.rate (Lib.SoundTouch.rateTransposer e')
          = Lib.SoundTouch._rate e'))
  /\ (forall (e : Worklet.SoundTouchEngine.state) (v : Q),
         (0 < v)%Q ->
         let e' := Worklet.SoundTouchEngine.set_pitch e v in
         Worklet.SoundTouchEngine.virtualPitch e' = v
         /\ Worklet.SoundTouchEngine._tempo e'
            = (1 / Worklet.SoundTouchEngine.virtualPitch e')%Q
         /\ Worklet.SoundTouchEngine._rate e'
            = Worklet.SoundTouchEngine.virtualPitch e'
         /\ ((epsilon < Qabs (Worklet.SoundTouchEngine._tempo e'
                              - Worklet.SoundTouchEngine._tempo e))%Q ->
             Worklet.SoundTouchEngine.timeStretch e'
             = Worklet.TimeStretch.set_tempo
                 (Worklet.SoundTouchEngine.timeStretch e)
                 (Worklet.SoundTouchEngine._tempo e'))
         /\ ((Qabs (Worklet.SoundTouchEngine._tempo e'
                    - Worklet.SoundTouchEngine._tempo e) <= epsilon)%Q ->
             Worklet.SoundTouchEngine.timeStretch e'
             = Worklet.SoundTouchEngine.timeStretch e)
         /\ ((epsilon < Qabs (Worklet.SoundTouchEngine._rate e'
                              - Worklet.SoundTouchEngine._rate e))%Q ->
             Worklet.SoundTouchEngine.rateTransposer e'
             = Worklet.RateTransposer.set_rate
                 (Worklet.SoundTouchEngine.rateTransposer e)
                 (Worklet.SoundTouchEngine._rate e'))
         /\ ((Qabs (Worklet.SoundTouchEngine._rate e'
                    - Worklet.SoundTouchEngine._rate e) <= epsilon)%Q ->
             Worklet.SoundTouchEngine.rateTransposer e'
             = Worklet.SoundTouchEngine.rateTransposer e)
         /\ ((epsilon < Qabs (Worklet.SoundTouchEngine._tempo e'
                              - Worklet.SoundTouchEngine._tempo e))%Q ->
             Worklet.TimeStretch.tempo
               (Worklet.SoundTouchEngine.timeStretch e')
             = Worklet.SoundTouchEngine._tempo e')
         /\ ((epsilon < Qabs (Worklet.SoundTouchEngine._rate e'
                              - Worklet.SoundTouchEngine._rate e))%Q ->
             Worklet.RateTransposer.rate
               (Worklet.SoundTouchEngine.rateTransposer e')
             = Worklet.SoundTouchEngine._rate e')).
Proof.
  split.
  - intros c e v Hv Hp Ht Hr e'.
    assert (He' : exists e0,
               e' = Lib.SoundTouch.calculateEffectiveRateAndTempo e0
               /\ Lib.SoundTouch.virtualPitch e0 = pitch_after c e v
               /\ Lib.SoundTouch.virtualTempo e0 = tempo_after c e v
               /\ Lib.SoundTouch.virtualRate e0 = rate_after c e v
               /\ Lib.SoundTouch._tempo e0 = Lib.SoundTouch._tempo e
               /\ Lib.SoundTouch._rate e0 = Lib.SoundTouch._rate e
               /\ Lib.SoundTouch.timeStretch e0 = Lib.SoundTouch.timeStretch e
               /\ Lib.SoundTouch.rateTransposer e0
                  = Lib.SoundTouch.rateTransposer e).
    { subst e'. destruct c; cbn [assign_control];
        eexists; (split; [reflexivity|]); repeat split; reflexivity. }
    destruct He' as (e0 & -> & Hvp & Hvt & Hvr & Hot & Hor & Hts & Hrt).
    destruct (Lib_calculate_fields e0) as (Fp & Ft & Fr & Etempo & Erate & Ets & Ert).
    rewrite Hot in Ets. rewrite Hor in Ert. rewrite Hts in Ets. rewrite Hrt in Ert.
    rewrite Fp, Ft, Fr.
    split; [exact Hvp|]. split; [exact Hvt|]. split; [exact Hvr|].
    split; [rewrite Hvp; destruct c; assumption|].
    split; [exact Etempo|]. split; [exact Erate|].
    split; [intros H; apply Qltb_lt in H; rewrite H in Ets; exact Ets|].
    split; [intros H; apply Qltb_ge in H; rewrite H in Ets; exact Ets|].
    split; [intros H; apply Qltb_lt in H; rewrite H in Ert; exact Ert|].
    split; [intros H; apply Qltb_ge in H; rewrite H in Ert; exact Ert|].
    split; [intros H; apply Qltb_lt in H; rewrite H in Ets; rewrite Ets;
            apply Lib_set_tempo_holds|].
    intros H; apply Qltb_lt in H; rewrite H in Ert; rewrite Ert.
    apply Lib_set_rate_holds.
  - intros e v Hv e'. subst e'. unfold Worklet.SoundTouchEngine.set_pitch.
    set (e0 := Worklet.SoundTouchEngine.mk _ _ _ _ _ _ _ _ _ _ _ _).
    destruct (Worklet_calculate_fields e0) as (Fp & Etempo & Erate & Ets & Ert).
    change (Worklet.SoundTouchEngine._tempo e0)
      with (Worklet.SoundTouchEngine._tempo e) in Ets.
    change (Worklet.SoundTouchEngine.timeStretch e0)
      with (Worklet.SoundTouchEngine.timeStretch e) in Ets.
    change (Worklet.SoundTouchEngine._rate e0)
      with (Worklet.SoundTouchEngine._rate e) in Ert.
    change (Worklet.SoundTouchEngine.rateTransposer e0)
      with (Worklet.SoundTouchEngine.rateTransposer e) in Ert.
    rewrite Fp.
    split; [reflexivity|]. split; [exact Etempo|]. split; [exact Erate|].
    split; [intros H; apply Qltb_lt in H; rewrite H in Ets; exact Ets|].
    split; [intros H; apply Qltb_ge in H; rewrite H in Ets; exact Ets|].
    split; [intros H; apply Qltb_lt in H; rewrite H in Ert; exact Ert|].
    split; [intros H; apply Qltb_ge in H; rewrite H in Ert; exact Ert|].
    split; [intros H; apply Qltb_lt in H; rewrite H in Ets; rewrite Ets;
            apply Worklet_set_tempo_holds|].
    intros H; apply Qltb_lt in H; rewrite H in Ert; rewrite Ert.
    apply Worklet_set_rate_holds.
Qed.

(** C2 at the freshly built library engine with [pitch = 2], and at the
    freshly built worklet engine (44100 Hz) with [pitch = 2]; in the
    library engine the tempo goes from 1 to 1/2 and the rate from 1 to 2,
    and both are pushed. *)
Lemma C2_witness :
  (Lib.SoundTouch._tempo (Lib.SoundTouch.set_pitch Lib.SoundTouch.new 2)
   = (Lib.SoundTouch.virtualTempo (Lib.SoundTouch.set_pitch Lib.SoundTouch.new 2)
      / Lib.SoundTouch.virtualPitch (Lib.SoundTouch.set_pitch Lib.SoundTouch.new 2))%Q)
  /\ Worklet.SoundTouchEngine._rate
       (Worklet.SoundTouchEngine.set_pitch (Worklet.SoundTouchEngine.new 44100) 2)
     = Worklet.SoundTouchEngine.virtualPitch
         (Worklet.SoundTouchEngine.set_pitch (Worklet.SoundTouchEngine.new 44100) 2)
  /\ Lib.TimeStretch.tempo
       (Lib.SoundTouch.timeStretch
          (Lib.SoundTouch.set_pitch Lib.SoundTouch.new 2))
     = Lib.SoundTouch._tempo (Lib.SoundTouch.set_pitch Lib.SoundTouch.new 2)
  /\ Lib.RateTransposer.rate
       (Lib.SoundTouch.rateTransposer
          (Lib.SoundTouch.set_pitch Lib.SoundTouch.new 2))
     = Lib.SoundTouch._rate (Lib.SoundTouch.set_pitch Lib.SoundTouch.new 2).
Proof.
  assert (H2 : (0 < 2)%Q) by reflexivity.
  assert (H1 : (0 < 1)%Q) by reflexivity.
  destruct (proj1 C2_effective_rate_and_tempo Pitch Lib.SoundTouch.new
              2%Q H2 H1 H1 H1)
    as (_ & _ & _ & _ & Htempo & _ & _ & _ & _ & _ & Hpt & Hpr).
  split; [exact Htempo|].
  split.
  - exact (proj1 (proj2 (proj2
             (proj2 C2_effective_rate_and_tempo
                (Worklet.SoundTouchEngine.new 44100) 2%Q H2)))).
  - split; [apply Hpt|apply Hpr]; vm_compute; reflexivity.
Defined.

(** C3, counterexample.  On a freshly built engine, [pitch = 2] followed by
    [pitch = 0.5] leaves effective tempo 2 and effective rate 0.5, whereas
    [pitch = 1] leaves effective tempo 1 and effective rate 1: the setters
    assign, they do not compose. *)
Lemma C3_counterexample :
  (Lib.SoundTouch._tempo pitch_2_then_half == 2)%Q
  /\ (Lib.SoundTouch._rate pitch_2_then_half == 1 # 2)%Q
  /\ (Lib.SoundTouch._tempo pitch_1 == 1)%Q
  /\ (Lib.SoundTouch._rate pitch_1 == 1)%Q
  /\ ~ (Lib.SoundTouch._tempo pitch_2_then_half
        == Lib.SoundTouch._tempo pitch_1)%Q
  /\ ~ (Lib.SoundTouch._rate pitch_2_then_half
        == Lib.SoundTouch._rate pitch_1)%Q.
Proof.
  repeat split; vm_compute; congruence.
Qed.

(** C3, amended.  Setting the pitch to [p] and then to [q] leaves the engine
    with the same virtual controls, effective tempo and effective rate as
    setting the pitch to [q] directly: the last assignment wins.  With
    [p = 2] and [q = 0.5] the engine ends as after [pitch = 0.5], with
    effective tempo [virtualTempo / 0.5] and effective rate
    [virtualRate * 0.5]. *)
Theorem C3_last_pitch_wins :
  forall (e : Lib.SoundTouch.state) (p q : Q),
    let a := Lib.SoundTouch.set_pitch (Lib.SoundTouch.set_pitch e p) q in
    let b := Lib.SoundTouch.set_pitch e q in
    Lib.SoundTouch.virtualPitch a = Lib.SoundTouch.virtualPitch b
    /\ Lib.SoundTouch.virtualTempo a = Lib.SoundTouch.virtualTempo b
    /\ Lib.SoundTouch.virtualRate a = Lib.SoundTouch.virtualRate b
    /\ Lib.SoundTouch._tempo a = Lib.SoundTouch._tempo b
    /\ Lib.SoundTouch._rate a = Lib.SoundTouch._rate b
    /\ Lib.SoundTouch._tempo a = (Lib.SoundTouch.virtualTempo e / q)%Q
    /\ Lib.SoundTouch._rate a = (Lib.SoundTouch.virtualRate e * q)%Q.
Proof.
  intros e p q a b. subst a b. unfold Lib.SoundTouch.set_pitch.
  set (e1 := Lib.SoundTouch.set_virtualPitch e p).
  set (e2 := Lib.SoundTouch.calculateEffectiveRateAndTempo e1).
  destruct (Lib_calculate_fields e1) as (P1 & T1 & R1 & _).
  fold e2 in P1, T1, R1.
  destruct (Lib_calculate_fields (Lib.SoundTouch.set_virtualPitch e2 q))
    as (Pa & Ta & Ra & Etempo_a & Erate_a & _).
  destruct (Lib_calculate_fields (Lib.SoundTouch.set_virtualPitch e q))
    as (Pb & Tb & Rb & Etempo_b & Erate_b & _).
  rewrite Pa, Ta, Ra, Pb, Tb, Rb, Etempo_a, Erate_a, Etempo_b, Erate_b.
  cbn [Lib.SoundTouch.set_virtualPitch Lib.SoundTouch.virtualPitch
       Lib.SoundTouch.virtualTempo Lib.SoundTouch.virtualRate].
  rewrite T1, R1. subst e1.
  cbn [Lib.SoundTouch.set_virtualPitch Lib.SoundTouch.virtualPitch
       Lib.SoundTouch.virtualTempo Lib.SoundTouch.virtualRate].
  repeat split; reflexivity.
Qed.

(** ** Blocks *)

Lemma F32_set_same_length (dst src : F32.t) :
  F32.length src = F32.length dst -> F32.set dst src 0 = Ok src.
Proof.
  intros H. rewrite F32_set_ok by lia.
  cbn [Z.to_nat firstn app]. rewrite Z.add_0_l.
  rewrite skipn_all2; [rewrite app_nil_r; reflexivity|].
  unfold F32.length in *. lia.
Qed.

Lemma map_nth_seq_id {A : Type} (l : list A) (d : A) :
  map (fun i => nth i l d) (seq 0 (List.length l)) = l.
Proof.
  induction l as [|a l IH]; [reflexivity|].
  cbn [List.length seq map nth]. f_equal.
  rewrite <- seq_shift, map_map. exact IH.
Qed.

Lemma channel_or_first_length (n : Z) (input : list F32.t) (ch : nat) :
  block_of n input -> input <> [] ->
  F32.length (RubberbandProcessor.channel_or_first input ch) = n.
Proof.
  intros Hin Hne. unfold RubberbandProcessor.channel_or_first.
  unfold block_of in Hin. rewrite Forall_forall in Hin. apply Hin.
  destruct (Nat.lt_ge_cases ch (List.length input)) as [Hlt|Hge].
  - apply nth_In. exact Hlt.
  - rewrite nth_overflow by exact Hge.
    apply nth_In. destruct input; [congruence|cbn; lia].
Qed.

Lemma passthrough_from_ok (n : Z) (input output : list F32.t) (ch : nat) :
  block_of n input -> input <> [] -> block_of n output ->
  RubberbandProcessor.passthrough_from ch input output
  = Ok (map (RubberbandProcessor.channel_or_first input)
          (seq ch (List.length output))).
Proof.
  intros Hin Hne Hout. revert ch.
  induction Hout as [|out rest Hlen Hrest IH]; intros ch; [reflexivity|].
  cbn [RubberbandProcessor.passthrough_from List.length seq map].
  rewrite F32_set_same_length
    by (rewrite Hlen; apply channel_or_first_length; assumption).
  cbn [bind]. rewrite IH. reflexivity.
Qed.

Lemma passthrough_ok (n : Z) (input output : list F32.t) :
  block_of n input -> input <> [] -> block_of n output ->
  RubberbandProcessor.passthrough input output
  = Ok (passed_through input output).
Proof. apply passthrough_from_ok. Qed.

Lemma passed_through_same_channels (input output : list F32.t) :
  List.length output = List.length input ->
  passed_through input output = input.
Proof.
  intros H. unfold passed_through. rewrite H.
  apply (map_nth_seq_id input (nth 0 input [])).
Qed.

(** ** C4 and C1: the RubberBand processor *)

Section RubberbandProperties.

Variable Stretcher : Type.
Variable rubberband_set_pitch_scale : Stretcher -> Q -> Stretcher.
Variable rubberband_set_formant_scale : Stretcher -> Q -> Stretcher.
Variable rubberband_process : Stretcher -> list F32.t -> Z -> Stretcher.
Variable rubberband_available : Stretcher -> Z.
Variable rubberband_retrieve :
  Stretcher -> list F32.t -> Z -> Stretcher * list F32.t.
Variable Math_sin : Q -> Q.
Variable Math_cos : Q -> Q.
Variable Math_PI : Q.

Let rb_process :=
  RubberbandProcessor.process rubberband_set_pitch_scale
    rubberband_set_formant_scale rubberband_process rubberband_available
    rubberband_retrieve Math_sin Math_cos Math_PI.

(** C4.  When the engine is not initialized, [process] returns normally and
    the output block is the input block passed through, whatever the
    parameters and the enabled flag: every output channel is the input
    channel of the same index (the first input channel where the input has
    fewer channels), so that with as many output as input channels the
    output block is the input block. *)
Theorem C4_uninitialized_passes_through :
  forall (p : RubberbandProcessor.state Stretcher)
         (parameters : RubberbandProcessor.parameters)
         (n : Z) (input output : list F32.t),
    not_initialized p ->
    block_of n input -> input <> [] ->
    block_of n output -> output <> [] ->
    exists p',
      rb_process p input output parameters
      = Ok (p', passed_through input output)
      /\ (List.length output = List.length input ->
          passed_through input output = input).
Proof.
  intros p parameters n input output Hni Hin Hine Hout Houte.
  destruct input as [|in0 input_rest]; [congruence|].
  destruct output as [|out0 output_rest]; [congruence|].
  subst rb_process. unfold RubberbandProcessor.process.
  set (tr := if _ : bool then (RubberbandProcessor.FADE_FRAMES, true) else _).
  destruct tr as [fadeCounter1 bypassed1].
  rewrite (passthrough_ok Hin Hine Hout).
  assert (Hcase :
    match RubberbandProcessor.ready p && RubberbandProcessor.wasm p,
          RubberbandProcessor.stretcher p with
    | true, Some _ => False
    | _, _ => True
    end).
  { destruct Hni as [H|[H|H]]; rewrite H;
      destruct (RubberbandProcessor.ready p), (RubberbandProcessor.wasm p),
        (RubberbandProcessor.stretcher p); cbn; trivial; discriminate. }
  destruct (RubberbandProcessor.ready p && RubberbandProcessor.wasm p);
    destruct (RubberbandProcessor.stretcher p); try contradiction;
    cbn [bind]; eexists; (split; [reflexivity|]);
    apply passed_through_same_channels.
Qed.

(** The RubberBand half of C1.  On a block of [n] frames for which the
    initialized engine is running, if the stretcher has fewer than [n]
    frames available once the block has been pushed, the output block is the
    input block passed through.  Nothing is latched: the processor stays
    initialized and not bypassed, and keeps the stretcher that received the
    block, so the following block is decided on its own availability. *)
Lemma Rubberband_underrun_passes_through :
  forall (p : RubberbandProcessor.state Stretcher) (s : Stretcher)
         (parameters : RubberbandProcessor.parameters)
         (n : Z) (input output : list F32.t),
    RubberbandProcessor.ready p = true ->
    RubberbandProcessor.wasm p = true ->
    RubberbandProcessor.stretcher p = Some s ->
    wants_processing parameters ->
    block_of n input -> input <> [] ->
    block_of n output -> output <> [] ->
    rubberband_available (polled_stretcher rubberband_set_pitch_scale
         rubberband_set_formant_scale rubberband_process p s parameters
         input n) < n ->
    exists p',
      rb_process p input output parameters
      = Ok (p', passed_through input output)
      /\ (List.length output = List.length input ->
          passed_through input output = input)
      /\ RubberbandProcessor.ready p' = true
      /\ RubberbandProcessor.wasm p' = true
      /\ RubberbandProcessor.bypassed p' = false
      /\ RubberbandProcessor.stretcher p'
         = Some (polled_stretcher rubberband_set_pitch_scale
         rubberband_set_formant_scale rubberband_process p s parameters
         input n).
Proof.
  intros p s parameters n input output Hready Hwasm Hs (Hen & Hpitch)
    Hin Hine Hout Houte Hav.
  destruct input as [|in0 input_rest]; [congruence|].
  destruct output as [|out0 output_rest]; [congruence|].
  assert (Hn : F32.length in0 = n) by (inversion Hin; assumption).
  subst rb_process. unfold RubberbandProcessor.process.
  rewrite Hready, Hwasm, Hs, Hn. cbn [andb].
  apply Qleb_le in Hen. rewrite Hen.
  apply Qltb_ge in Hpitch. rewrite Hpitch. cbn [negb orb andb].
  unfold polled_stretcher in Hav.
  destruct (RubberbandProcessor.bypassed p); cbn [negb andb];
    apply Z.leb_gt in Hav; rewrite Hav;
    rewrite (passthrough_ok Hin Hine Hout); cbn [bind];
    eexists; (split; [reflexivity|]);
    (split; [apply passed_through_same_channels|]);
    repeat split; reflexivity.
Qed.

End RubberbandProperties.

(** ** The FIFO never throws on well-formed requests *)

Lemma FifoBuffer_is_FifoSampleBuffer :
  FifoBuffer.put = FifoSampleBuffer.put
  /\ FifoBuffer.receive = FifoSampleBuffer.receive
  /\ FifoBuffer.rewind = FifoSampleBuffer.rewind
  /\ FifoBuffer.clear = FifoSampleBuffer.clear
  /\ FifoBuffer.ensureCapacity = FifoSampleBuffer.ensureCapacity
  /\ FifoBuffer.putSamples = FifoSampleBuffer.putSamples
  /\ FifoBuffer.putBuffer = FifoSampleBuffer.putBuffer
  /\ FifoBuffer.receiveSamples = FifoSampleBuffer.receiveSamples
  /\ FifoBuffer.extract = FifoSampleBuffer.extract.
Proof. repeat split; reflexivity. Qed.

Lemma subarray_length_le_count (v : F32.t) (b c : Z) :
  0 <= c -> F32.length (F32.subarray v b (b + c)) <= c.
Proof.
  intros Hc. rewrite F32_length_subarray.
  pose proof (F32_length_nonneg v).
  unfold F32.relative.
  destruct (Z.ltb_spec b 0), (Z.ltb_spec (b + c) 0); lia.
Qed.

Lemma rewind_total (f : Fifo) :
  0 <= _position f ->
  exists v,
    FifoSampleBuffer.rewind f = Ok (mkFifo v 0 (_frameCount f))
    /\ F32.length v = F32.length (_vector f).
Proof.
  intros Hp. unfold FifoSampleBuffer.rewind.
  destruct (Z.ltb_spec 0 (_position f)).
  - pose proof (F32_length_subarray_le (_vector f)
                  (FifoSampleBuffer.startIndex f) (FifoSampleBuffer.endIndex f)).
    rewrite F32_set_ok by lia. cbn [bind].
    eexists. split; [reflexivity|].
    eapply F32_set_length. apply F32_set_ok; lia.
  - exists (_vector f). split; [|reflexivity].
    destruct f as [v p k]. cbn in *. f_equal. f_equal. lia.
Qed.

Lemma ensureCapacity_total (f : Fifo) (n : Z) :
  0 <= _position f ->
  exists v,
    FifoSampleBuffer.ensureCapacity f n = Ok (mkFifo v 0 (_frameCount f))
    /\ n * 2 <= F32.length v.
Proof.
  intros Hp. unfold FifoSampleBuffer.ensureCapacity.
  destruct (Z.ltb_spec (F32.length (_vector f)) (n * 2)) as [Hlt|Hge].
  - pose proof (F32_length_nonneg (_vector f)).
    pose proof (F32_length_subarray_le (_vector f)
                  (FifoSampleBuffer.startIndex f) (FifoSampleBuffer.endIndex f)).
    assert (Hnew : F32.length (F32.new (n * 2)) = n * 2)
      by (rewrite F32_length_new; lia).
    rewrite F32_set_ok by lia. cbn [bind].
    eexists. split; [reflexivity|].
    erewrite F32_set_length by (apply F32_set_ok; lia). lia.
  - destruct (rewind_total f Hp) as (v & Hv & Hlen).
    exists v. split; [exact Hv|]. lia.
Qed.

Lemma putSamples_total (f : Fifo) (samples : F32.t) (offset n : Z) :
  0 <= _position f -> 0 <= _frameCount f -> 0 <= n ->
  exists v,
    FifoSampleBuffer.putSamples f samples offset n
    = Ok (mkFifo v 0 (_frameCount f + n))
    /\ (_frameCount f + n) * 2 <= F32.length v.
Proof.
  intros Hp Hk Hn. unfold FifoSampleBuffer.putSamples.
  destruct (ensureCapacity_total f (_frameCount f + n) Hp) as (v & Hv & Hlen).
  rewrite Hv. cbn [bind].
  unfold FifoSampleBuffer.endIndex. cbn [_vector _position _frameCount].
  pose proof (subarray_length_le_count samples (offset * 2) (c := n * 2)).
  rewrite F32_set_ok by lia. cbn [bind].
  eexists. split; [reflexivity|].
  erewrite F32_set_length by (apply F32_set_ok; lia). lia.
Qed.

(** ** Loops that fill an array from front to back *)

Lemma F32_put_in_range (v : F32.t) (i : Z) (x : sample) :
  0 <= i < F32.length v ->
  F32.put v i x
  = firstn (Z.to_nat i) v ++ x :: skipn (S (Z.to_nat i)) v.
Proof.
  intros H. unfold F32.put.
  destruct (Z.leb_spec 0 i); [|lia].
  destruct (Z.ltb_spec i (F32.length v)); [|lia].
  reflexivity.
Qed.

Lemma F32_put_length (v : F32.t) (i : Z) (x : sample) :
  F32.length (F32.put v i x) = F32.length v.
Proof.
  unfold F32.put.
  destruct (Z.leb_spec 0 i); [|reflexivity].
  destruct (Z.ltb_spec i (F32.length v)); [|reflexivity].
  cbn [andb]. unfold F32.length in *.
  rewrite length_app. cbn [List.length].
  rewrite length_firstn, length_skipn. lia.
Qed.

Lemma F32_get_put_same (v : F32.t) (i : Z) (x : sample) :
  0 <= i < F32.length v -> F32.get (F32.put v i x) i = x.
Proof.
  intros H. rewrite F32_put_in_range by assumption.
  unfold F32.get. destruct (Z.ltb_spec i 0); [lia|].
  unfold F32.length in H.
  rewrite app_nth2; rewrite length_firstn; [|lia].
  replace (Z.to_nat i - Nat.min (Z.to_nat i) (List.length v))%nat with 0%nat
    by lia.
  reflexivity.
Qed.

Lemma F32_get_put_other (v : F32.t) (i j : Z) (x : sample) :
  i <> j -> F32.get (F32.put v i x) j = F32.get v j.
Proof.
  intros Hij. unfold F32.put.
  destruct (Z.leb_spec 0 i); [|reflexivity].
  destruct (Z.ltb_spec i (F32.length v)); [|reflexivity].
  cbn [andb]. unfold F32.get.
  destruct (Z.ltb_spec j 0); [reflexivity|].
  unfold F32.length in *.
  destruct (Z.lt_ge_cases j i) as [Hlt|Hge].
  - rewrite app_nth1 by (rewrite length_firstn; lia).
    rewrite nth_firstn.
    destruct (Nat.ltb_spec (Z.to_nat j) (Z.to_nat i)); [reflexivity|lia].
  - rewrite app_nth2 by (rewrite length_firstn; lia).
    rewrite length_firstn.
    replace (Z.to_nat j - Nat.min (Z.to_nat i) (List.length v))%nat
      with (S (Z.to_nat j - S (Z.to_nat i)))%nat by lia.
    cbn [nth]. rewrite nth_skipn. f_equal. lia.
Qed.

Lemma F32_ext (u v : F32.t) :
  F32.length u = F32.length v ->
  (forall j, 0 <= j < F32.length u -> F32.get u j = F32.get v j) ->
  u = v.
Proof.
  intros Hlen Hget. unfold F32.length in *.
  apply (nth_ext u v NaN NaN); [lia|].
  intros i Hi. specialize (Hget (Z.of_nat i)).
  unfold F32.get in Hget.
  destruct (Z.ltb_spec (Z.of_nat i) 0); [lia|].
  rewrite Nat2Z.id in Hget. apply Hget. lia.
Qed.

Lemma fill_loop_length (g : Z -> sample) (count : nat) :
  forall (start : Z) (out : F32.t),
    F32.length (for_range start count (fun i o => F32.put o i (g i)) out)
    = F32.length out.
Proof.
  induction count as [|count IH]; intros start out; [reflexivity|].
  cbn [for_range]. rewrite IH. apply F32_put_length.
Qed.

Lemma fill_loop_get (g : Z -> sample) (count : nat) :
  forall (start : Z) (out : F32.t) (j : Z),
    0 <= start ->
    F32.get (for_range start count (fun i o => F32.put o i (g i)) out) j
    = if (start <=? j) && (j <? start + Z.of_nat count)
         && (j <? F32.length out)
      then g j else F32.get out j.
Proof.
  induction count as [|count IH]; intros start out j Hs.
  - cbn [for_range].
    destruct (Z.leb_spec start j), (Z.ltb_spec j (start + Z.of_nat 0));
      cbn [andb]; try reflexivity; lia.
  - cbn [for_range]. rewrite IH by lia. rewrite F32_put_length.
    destruct (Z.eq_dec j start) as [->|Hne].
    + destruct (Z.leb_spec (start + 1) start); [lia|]. cbn [andb].
      destruct (Z.leb_spec start start); [|lia].
      destruct (Z.ltb_spec start (start + Z.of_nat (S count))); [|lia].
      cbn [andb].
      destruct (Z.ltb_spec start (F32.length out)).
      * apply F32_get_put_same. lia.
      * unfold F32.put.
        destruct (Z.leb_spec 0 start); [|lia].
        destruct (Z.ltb_spec start (F32.length out)); [lia|]. reflexivity.
    + rewrite F32_get_put_other by congruence.
      destruct (Z.leb_spec (start + 1) j), (Z.leb_spec start j),
        (Z.ltb_spec j (start + 1 + Z.of_nat count)),
        (Z.ltb_spec j (start + Z.of_nat (S count)));
        cbn [andb]; try reflexivity; lia.
Qed.

Lemma F32_get_repeat (x : sample) (n : nat) (j : Z) :
  0 <= j < Z.of_nat n -> F32.get (repeat x n) j = x.
Proof.
  intros H. unfold F32.get. destruct (Z.ltb_spec j 0); [lia|].
  apply nth_repeat_lt. lia.
Qed.

(** ** C1: the SoundTouch worklet on an underrun *)

Lemma copy_channel_silence (out wet : F32.t) (k n : Z) :
  F32.length out = n -> 0 <= k <= 1 -> n * 2 <= F32.length wet ->
  Worklet.SoundTouchProcessor.copy_channel out (F32.fill wet (Fin 0)) k n
  = F32.new n.
Proof.
  intros Hout Hk Hwet. unfold Worklet.SoundTouchProcessor.copy_channel.
  pose proof (F32_length_nonneg out).
  apply F32_ext.
  - rewrite fill_loop_length, F32_length_new. lia.
  - intros j Hj. rewrite fill_loop_length in Hj.
    rewrite fill_loop_get by lia.
    destruct (Z.leb_spec 0 j); [|lia].
    destruct (Z.ltb_spec j (0 + Z.of_nat (Z.to_nat n))); [|lia].
    destruct (Z.ltb_spec j (F32.length out)); [|lia].
    cbn [andb]. unfold F32.fill, F32.new.
    unfold F32.length in Hwet.
    rewrite !F32_get_repeat by lia. reflexivity.
Qed.

Section SoundTouchProcessorProperties.

Variable Math_pow : Q -> Q -> Q.

(** The SoundTouch half of C1, as the code has it.  On a block for which
    the worklet is running and the engine is starved, the output is not the
    input: the first two output channels are silence. *)
Lemma SoundTouch_underrun_emits_silence :
  forall (fuel : nat) (p : Worklet.SoundTouchProcessor.state)
         (parameters : Worklet.SoundTouchProcessor.parameters)
         (n : Z) (input output : list F32.t),
    steady_running Math_pow p parameters -> starved p n ->
    block_of n input -> input <> [] ->
    block_of n output -> output <> [] ->
    n * 2 <= F32.length (Worklet.SoundTouchProcessor.outputBuffer p) ->
    exists p',
      Worklet.SoundTouchProcessor.process Math_pow fuel p input output
        parameters
      = Ok (p', silenced n output).
Proof.
  intros fuel p parameters n input output
    (Hbyp & Hskip & Hcnt & Hfade & Hen & Hpitch & Hsame)
    (Hpos & Hfc & Hsmall & Hempty) Hin Hine Hout Houte Hbuf.
  destruct input as [|left_ input_rest]; [congruence|].
  destruct output as [|outLeft output_rest]; [congruence|].
  assert (Hn : F32.length left_ = n) by (inversion Hin; assumption).
  assert (HoutL : F32.length outLeft = n) by (inversion Hout; assumption).
  unfold Worklet.SoundTouchProcessor.process.
  unfold target_pitch in Hpitch, Hsame.
  apply Qleb_le in Hen. apply Qltb_ge in Hpitch, Hsame.
  rewrite Hn, Hen, Hpitch, Hsame, Hbyp, Hskip. cbn [negb orb andb bind].
  unfold Worklet.SoundTouchEngine.inputBuffer,
    Worklet.SoundTouchEngine.outputBuffer, FifoBuffer.frameCount,
    Worklet.SoundTouchProcessor.ST_MIN_FRAMES_FOR_PROCESSING in *.
  cbv zeta in Hpos, Hfc, Hsmall, Hempty.
  set (il := Worklet.SoundTouchProcessor.interleave _ _ _).
  pose proof (F32_length_nonneg left_) as Hn0. rewrite Hn in Hn0.
  destruct (putSamples_total
              (Worklet.SoundTouchEngine._inputBuffer
                 (Worklet.SoundTouchProcessor.soundTouch p)) il 0 Hpos Hfc Hn0)
    as (v & Hput & _).
  change FifoBuffer.putSamples with FifoSampleBuffer.putSamples.
  rewrite Hput. cbn [bind].
  unfold Worklet.SoundTouchEngine.assign.
  cbn [Worklet.SoundTouchEngine._inputBuffer _frameCount].
  rewrite (proj2 (Z.leb_gt _ _) Hsmall). cbn [bind].
  cbn [Worklet.SoundTouchEngine._outputBuffer].
  assert (E1 : (0 <? Z.min n
                       (_frameCount
                          (Worklet.SoundTouchEngine._outputBuffer
                             (Worklet.SoundTouchProcessor.soundTouch p))))
               = false) by (apply Z.ltb_ge; lia).
  rewrite E1. cbn [bind].
  rewrite (proj2 (Z.ltb_ge _ _) Hcnt), (proj2 (Z.ltb_ge _ _) Hfade).
  rewrite (copy_channel_silence outLeft _ (k := 0) HoutL) by lia.
  destruct output_rest as [|outRight rest'].
  - eexists. reflexivity.
  - assert (HoutR : F32.length outRight = n).
    { inversion Hout as [|? ? ? Hrest]; subst. inversion Hrest; assumption. }
    rewrite (copy_channel_silence outRight _ (k := 1) HoutR) by lia.
    eexists. reflexivity.
Qed.

End SoundTouchProcessorProperties.

(** *** Concrete inputs *)

(** C1, counterexample.  Fed blocks of the constant 1 with the pitch one
    octave up, the SoundTouch worklet passes its first 32 blocks through
    (the skip period) and the 33rd with a fade at progress 0.  Before the
    34th block it is running, not bypassed, out of the skip period, and its
    engine has no output buffered (the time stretcher is still waiting for
    6614 input frames); the block it emits is 63/64 of the input, not the
    input. *)
Lemma C1_counterexample :
  ~ passes_through_on_underrun (worklet_after 33) (worklet_after 34)
  /\ sample_is (first_sample (block_emitted (worklet_after 34))) (63 # 64).
Proof.
  split.
  - unfold not. vm_compute. intros H.
    specialize (H eq_refl eq_refl eq_refl). discriminate H.
  - vm_compute. reflexivity.
Qed.

(** C1, amended.  In the RubberBand processor's [process], on every block
    of [n] frames for which the initialized engine is running and the
    stretcher has fewer than [n] frames available once the block has been
    pushed, the emitted block is the input block, and nothing is latched
    for the following block.  The SoundTouch worklet's [process] has no such
    pass-through: it passes the input through during its skip period only,
    and on a block for which it is running in its steady state and its
    engine is starved it emits silence. *)
Theorem C1_underrun :
  (forall (Stretcher : Type)
          (rubberband_set_pitch_scale : Stretcher -> Q -> Stretcher)
          (rubberband_set_formant_scale : Stretcher -> Q -> Stretcher)
          (rubberband_process : Stretcher -> list F32.t -> Z -> Stretcher)
          (rubberband_available : Stretcher -> Z)
          (rubberband_retrieve :
             Stretcher -> list F32.t -> Z -> Stretcher * list F32.t)
          (Math_sin Math_cos : Q -> Q) (Math_PI : Q)
          (p : RubberbandProcessor.state Stretcher) (s : Stretcher)
          (parameters : RubberbandProcessor.parameters)
          (n : Z) (input output : list F32.t),
      RubberbandProcessor.ready p = true ->
      RubberbandProcessor.wasm p = true ->
      RubberbandProcessor.stretcher p = Some s ->
      wants_processing parameters ->
      block_of n input -> input <> [] ->
      block_of n output -> output <> [] ->
      rubberband_available
        (polled_stretcher rubberband_set_pitch_scale
           rubberband_set_formant_scale rubberband_process p s parameters
           input n) < n ->
      exists p',
        RubberbandProcessor.process rubberband_set_pitch_scale
          rubberband_set_formant_scale rubberband_process
          rubberband_available rubberband_retrieve Math_sin Math_cos Math_PI
          p input output parameters
        = Ok (p', passed_through input output)
        /\ (List.length output = List.length input ->
            passed_through input output = input)
        /\ RubberbandProcessor.ready p' = true
        /\ RubberbandProcessor.wasm p' = true
        /\ RubberbandProcessor.bypassed p' = false
        /\ RubberbandProcessor.stretcher p'
           = Some (polled_stretcher rubberband_set_pitch_scale
                     rubberband_set_formant_scale rubberband_process p s
                     parameters input n))
  /\ (forall (Math_pow : Q -> Q -> Q) (fuel : nat)
             (p : Worklet.SoundTouchProcessor.state)
             (parameters : Worklet.SoundTouchProcessor.parameters)
             (n : Z) (input output : list F32.t),
         steady_running Math_pow p parameters -> starved p n ->
         block_of n input -> input <> [] ->
         block_of n output -> output <> [] ->
         n * 2 <= F32.length (Worklet.SoundTouchProcessor.outputBuffer p) ->
         exists p',
           Worklet.SoundTouchProcessor.process Math_pow fuel p input output
             parameters
           = Ok (p', silenced n output)).
Proof.
  split.
  - intros. eapply Rubberband_underrun_passes_through; eassumption.
  - intros. eapply SoundTouch_underrun_emits_silence; eassumption.
Qed.

Lemma ones_block_is_block : block_of 128 ones_block.
Proof. repeat constructor. Qed.

Lemma zero_block_is_block : block_of 128 zero_block.
Proof. repeat constructor. Qed.

Lemma ones_block_nonempty : ones_block <> [].
Proof. discriminate. Qed.

Lemma zero_block_nonempty : zero_block <> [].
Proof. discriminate. Qed.

(** C1 at the stand-in stretcher during its start-up latency, and at the
    steady worklet. *)
Lemma C1_witness :
  (exists p',
      RubberbandProcessor.process (fun s _ => s) (fun s _ => s)
        (fun s _ n => s + n) latency_stretcher_available
        latency_stretcher_retrieve sin_standin cos_standin PI_standin
        latency_processor ones_block zero_block octave_up_scale
      = Ok (p', ones_block))
  /\ (exists p',
         Worklet.SoundTouchProcessor.process pow_octaves 0 steady_worklet
           ones_block zero_block octave_up
         = Ok (p', zero_block)).
Proof.
  split.
  - assert (Hw : wants_processing octave_up_scale)
      by (split; vm_compute; congruence).
    assert (Hav : latency_stretcher_available
                    (polled_stretcher (fun s _ => s) (fun s _ => s)
                       (fun s _ n => s + n) latency_processor 0
                       octave_up_scale ones_block 128) < 128)
      by reflexivity.
    destruct (proj1 C1_underrun Z (fun s _ => s) (fun s _ => s)
                (fun s _ n => s + n) latency_stretcher_available
                latency_stretcher_retrieve sin_standin cos_standin PI_standin
                latency_processor 0 octave_up_scale 128 ones_block zero_block
                eq_refl eq_refl eq_refl Hw ones_block_is_block
                ones_block_nonempty zero_block_is_block zero_block_nonempty
                Hav)
      as (p' & Hp & Hsame & _).
    exists p'. rewrite Hp. rewrite (Hsame eq_refl). reflexivity.
  - assert (Hs : steady_running pow_octaves steady_worklet octave_up)
      by (repeat split; vm_compute; congruence).
    assert (Hst : starved steady_worklet 128)
      by (repeat split; vm_compute; congruence).
    assert (Hb : 128 * 2
                 <= F32.length
                      (Worklet.SoundTouchProcessor.outputBuffer steady_worklet))
      by (vm_compute; congruence).
    destruct (proj2 C1_underrun pow_octaves 0%nat steady_worklet octave_up
                128 ones_block zero_block Hs Hst ones_block_is_block
                ones_block_nonempty zero_block_is_block zero_block_nonempty
                Hb)
      as (p' & Hp).
    exists p'. exact Hp.
Defined.

(** C4 at a processor that was given no WASM bytes. *)
Lemma C4_witness :
  exists p',
    RubberbandProcessor.process (fun s _ => s) (fun s _ => s)
      (fun s _ n => s + n) latency_stretcher_available
      latency_stretcher_retrieve sin_standin cos_standin PI_standin
      (RubberbandProcessor.new Z (Some 2) None) ones_block zero_block
      octave_up_scale
    = Ok (p', ones_block).
Proof.
  assert (Hni : not_initialized (RubberbandProcessor.new Z (Some 2) None))
    by (left; reflexivity).
  destruct (C4_uninitialized_passes_through (fun s _ => s) (fun s _ => s)
              (fun s _ n => s + n) latency_stretcher_available
              latency_stretcher_retrieve sin_standin cos_standin PI_standin
              octave_up_scale Hni ones_block_is_block ones_block_nonempty
              zero_block_is_block zero_block_nonempty)
    as (p' & Hp & Hsame).
  exists p'. rewrite Hp. rewrite (Hsame eq_refl). reflexivity.
Defined.

(** ** C6: the phase accumulator of the rate transposer *)

Lemma Qmax_1_bounds (r : Q) :
  (0 < r)%Q -> (1 <= Qmax 1 r)%Q /\ (r <= Qmax 1 r)%Q /\ (Qmax 1 r < 1 + r)%Q.
Proof.
  intros Hr.
  pose proof (Q.le_max_l 1 r). pose proof (Q.le_max_r 1 r).
  destruct (Q.max_spec 1 r) as [[_ E]|[_ E]]; rewrite E; repeat split; lra.
Qed.

Lemma transpose_prev_slope (fuel : nat) (rt : RT.state) (input : F32.t)
  (inputStart outputStart : Z) :
  forall (output : F32.t) (s : Q) (cnt : Z) (output' : F32.t) (s' : Q)
         (cnt' : Z),
    Lib.RateTransposer.transpose_prev fuel rt input inputStart outputStart
      output s cnt = Ok (output', s', cnt') ->
    (1 <= s')%Q /\ ((s' < 1 + RT._rate rt)%Q \/ s' = s).
Proof.
  induction fuel as [|fuel IH]; intros output s cnt output' s' cnt' H;
    cbn [Lib.RateTransposer.transpose_prev] in H;
    destruct (Qltb s 1) eqn:E.
  - discriminate.
  - inversion H; subst. apply Qltb_ge in E. split; [exact E|right; reflexivity].
  - apply IH in H. apply Qltb_lt in E. destruct H as (H1 & [H2|H2]).
    + split; [exact H1|left; exact H2].
    + split; [exact H1|left]. rewrite H2. lra.
  - inversion H; subst. apply Qltb_ge in E. split; [exact E|right; reflexivity].
Qed.

Lemma transpose_advance_slope (fuel : nat) (numFrames : Z) :
  forall (s : Q) (idx : Z) (s' : Q) (idx' : Z),
    Lib.RateTransposer.transpose_advance fuel numFrames s idx = Ok (s', idx') ->
    (0 <= s)%Q ->
    (0 <= s')%Q
    /\ (inject_Z idx' + s' == inject_Z idx + s)%Q
    /\ idx <= idx'
    /\ ((s' = s /\ idx' = idx /\ (s < 1)%Q)
        \/ ((s' <= s - 1)%Q /\ ((s' < 1)%Q \/ numFrames - 1 <= idx'))).
Proof.
  induction fuel as [|fuel IH]; intros s idx s' idx' H Hs;
    cbn [Lib.RateTransposer.transpose_advance] in H;
    destruct (Qleb 1 s) eqn:E.
  - discriminate.
  - inversion H; subst. apply Qleb_gt in E.
    repeat split; try lra; try lia. left. repeat split; assumption.
  - apply Qleb_le in E.
    destruct (Z.leb_spec (numFrames - 1) (idx + 1)) as [Hb|Hb].
    + inversion H; subst.
      repeat split; try lra; try lia.
      * rewrite inject_Z_plus. unfold inject_Z at 2. lra.
      * right. split; [lra|right; lia].
    + apply IH in H; [|lra].
      destruct H as (H0 & Hpos & Hidx & Hcase).
      repeat split; try assumption; try lia.
      * rewrite Hpos. rewrite inject_Z_plus. unfold inject_Z at 2. lra.
      * right. destruct Hcase as [(-> & -> & Hlt)|(Hle & Hor)].
        -- split; [lra|left; exact Hlt].
        -- split; [lra|exact Hor].
  - inversion H; subst. apply Qleb_gt in E.
    repeat split; try lra; try lia. left. repeat split; assumption.
Qed.

Lemma transpose_rest_slope (fuel inner : nat) (rt : RT.state) (input : F32.t)
  (inputStart outputStart numFrames : Z) :
  forall (output : F32.t) (s : Q) (idx cnt : Z) (output' : F32.t) (s' : Q)
         (cnt' : Z),
    Lib.RateTransposer.transpose_rest fuel inner rt input inputStart
      outputStart numFrames output s idx cnt = Ok (output', s', cnt') ->
    (0 < RT._rate rt)%Q -> (0 <= s)%Q -> (s < 1 + RT._rate rt)%Q ->
    (0 <= s')%Q /\ (s' < Qmax 1 (RT._rate rt))%Q.
Proof.
  induction fuel as [|fuel IH];
    intros output s idx cnt output' s' cnt' H Hr Hs0 Hs1;
    cbn [Lib.RateTransposer.transpose_rest] in H; [discriminate|].
  destruct (Lib.RateTransposer.transpose_advance inner numFrames s idx)
    as [[s1 idx1]| |] eqn:Ha; cbn [bind] in H; try discriminate.
  apply transpose_advance_slope in Ha; [|exact Hs0].
  destruct Ha as (H0 & _ & _ & Hcase).
  destruct (Qmax_1_bounds Hr) as (Hm1 & Hm2 & Hm3).
  destruct (Z.leb_spec (numFrames - 1) idx1) as [Hb|Hb].
  - inversion H; subst.
    split; [exact H0|].
    destruct Hcase as [(-> & _ & Hlt)|(Hle & _)]; lra.
  - apply IH in H; try assumption; [lra|].
    destruct Hcase as [(-> & _ & Hlt)|(Hle & [Hlt|Hge])]; try lra; lia.
Qed.

Lemma transpose_slope (fuel : nat) (rt : RT.state) (inputBuffer outputBuffer : Fifo)
  (numFrames : Z) (rt' : RT.state) (outputBuffer' : Fifo) (cnt : Z) :
  Lib.RateTransposer.transpose fuel rt inputBuffer outputBuffer numFrames
  = Ok (rt', outputBuffer', cnt) ->
  (0 < RT._rate rt)%Q -> slope_in_bounds rt ->
  slope_in_bounds rt' /\ RT._rate rt' = RT._rate rt.
Proof.
  intros H Hr (Hs0 & Hs1). unfold Lib.RateTransposer.transpose in H.
  destruct (numFrames =? 0); [inversion H; subst; repeat split; assumption|].
  destruct (Lib.RateTransposer.transpose_prev _ _ _ _ _ _ _ _)
    as [[[o1 s1] c1]| |] eqn:H1; cbn [bind] in H; try discriminate.
  apply transpose_prev_slope in H1. destruct H1 as (H1a & H1b).
  destruct (Qmax_1_bounds Hr) as (Hm1 & Hm2 & Hm3).
  destruct (1 <? numFrames).
  - destruct (Lib.RateTransposer.transpose_rest _ _ _ _ _ _ _ _ _ _ _)
      as [[[o2 s2] c2]| |] eqn:H2; cbn [bind] in H; try discriminate.
    inversion H; subst. cbn [RT._rate RT.slopeCount].
    apply transpose_rest_slope in H2; try assumption.
    + unfold slope_in_bounds. cbn [RT._rate RT.slopeCount].
      split; [exact H2|reflexivity].
    + lra.
    + destruct H1b as [H1b| ->]; lra.
  - cbn [bind] in H. inversion H; subst.
    unfold slope_in_bounds. cbn [RT._rate RT.slopeCount].
    split; [|reflexivity].
    destruct H1b as [H1b| ->]; split; lra.
Qed.

Lemma process_slope (fuel : nat) (rt : RT.state) (inputBuffer outputBuffer : Fifo)
  (rt' : RT.state) (inputBuffer' outputBuffer' : Fifo) :
  Lib.RateTransposer.process fuel rt inputBuffer outputBuffer
  = Ok (rt', inputBuffer', outputBuffer') ->
  (0 < RT._rate rt)%Q -> slope_in_bounds rt ->
  slope_in_bounds rt' /\ RT._rate rt' = RT._rate rt.
Proof.
  intros H Hr Hinv. unfold Lib.RateTransposer.process in H.
  destruct (FifoSampleBuffer.frameCount inputBuffer =? 0);
    [inversion H; subst; split; [assumption|reflexivity]|].
  destruct (FifoSampleBuffer.ensureCapacity _ _) as [o1| |];
    cbn [bind] in H; try discriminate.
  destruct (Lib.RateTransposer.transpose _ _ _ _ _)
    as [[[rt1 o2] c]| |] eqn:Ht; cbn [bind] in H; try discriminate.
  inversion H; subst.
  eapply transpose_slope; eassumption.
Qed.

(** The phase stays non-negative, whatever value it starts from. *)
Lemma transpose_rest_nonneg (fuel inner : nat) (rt : RT.state) (input : F32.t)
  (inputStart outputStart numFrames : Z) :
  forall (output : F32.t) (s : Q) (idx cnt : Z) (output' : F32.t) (s' : Q)
         (cnt' : Z),
    Lib.RateTransposer.transpose_rest fuel inner rt input inputStart
      outputStart numFrames output s idx cnt = Ok (output', s', cnt') ->
    (0 < RT._rate rt)%Q -> (0 <= s)%Q -> (0 <= s')%Q.
Proof.
  induction fuel as [|fuel IH];
    intros output s idx cnt output' s' cnt' H Hr Hs0;
    cbn [Lib.RateTransposer.transpose_rest] in H; [discriminate|].
  destruct (Lib.RateTransposer.transpose_advance inner numFrames s idx)
    as [[s1 idx1]| |] eqn:Ha; cbn [bind] in H; try discriminate.
  apply transpose_advance_slope in Ha; [|exact Hs0].
  destruct Ha as (H0 & _).
  destruct (Z.leb_spec (numFrames - 1) idx1) as [Hb|Hb].
  - inversion H; subst. exact H0.
  - apply IH in H; [exact H|exact Hr|lra].
Qed.

Lemma transpose_nonneg (fuel : nat) (rt : RT.state)
  (inputBuffer outputBuffer : Fifo) (numFrames : Z) (rt' : RT.state)
  (outputBuffer' : Fifo) (cnt : Z) :
  Lib.RateTransposer.transpose fuel rt inputBuffer outputBuffer numFrames
  = Ok (rt', outputBuffer', cnt) ->
  (0 < RT._rate rt)%Q -> (0 <= RT.slopeCount rt)%Q ->
  (0 <= RT.slopeCount rt')%Q.
Proof.
  intros H Hr Hs0. unfold Lib.RateTransposer.transpose in H.
  destruct (numFrames =? 0); [inversion H; subst; assumption|].
  destruct (Lib.RateTransposer.transpose_prev _ _ _ _ _ _ _ _)
    as [[[o1 s1] c1]| |] eqn:H1; cbn [bind] in H; try discriminate.
  apply transpose_prev_slope in H1. destruct H1 as (H1a & _).
  destruct (1 <? numFrames).
  - destruct (Lib.RateTransposer.transpose_rest _ _ _ _ _ _ _ _ _ _ _)
      as [[[o2 s2] c2]| |] eqn:H2; cbn [bind] in H; try discriminate.
    inversion H; subst. cbn [RT.slopeCount].
    apply transpose_rest_nonneg in H2; [exact H2|exact Hr|lra].
  - cbn [bind] in H. inversion H; subst. cbn [RT.slopeCount]. lra.
Qed.

Lemma process_nonneg (fuel : nat) (rt : RT.state)
  (inputBuffer outputBuffer : Fifo)
  (rt' : RT.state) (inputBuffer' outputBuffer' : Fifo) :
  Lib.RateTransposer.process fuel rt inputBuffer outputBuffer
  = Ok (rt', inputBuffer', outputBuffer') ->
  (0 < RT._rate rt)%Q -> (0 <= RT.slopeCount rt)%Q ->
  (0 <= RT.slopeCount rt')%Q /\ RT._rate rt' = RT._rate rt.
Proof.
  intros H Hr Hs0. unfold Lib.RateTransposer.process in H.
  destruct (FifoSampleBuffer.frameCount inputBuffer =? 0);
    [inversion H; subst; split; [assumption|reflexivity]|].
  destruct (FifoSampleBuffer.ensureCapacity _ _) as [o1| |];
    cbn [bind] in H; try discriminate.
  destruct (Lib.RateTransposer.transpose _ _ _ _ _)
    as [[[rt1 o2] c]| |] eqn:Ht; cbn [bind] in H; try discriminate.
  inversion H; subst. split.
  - eapply transpose_nonneg; eassumption.
  - unfold Lib.RateTransposer.transpose in Ht.
    destruct (_ =? 0); [inversion Ht; reflexivity|].
    destruct (Lib.RateTransposer.transpose_prev _ _ _ _ _ _ _ _)
      as [[[o3 s3] c3]| |]; cbn [bind] in Ht; try discriminate.
    destruct (if 1 <? _ then _ else _) as [[[o4 s4] c4]| |];
      cbn [bind] in Ht; try discriminate.
    inversion Ht; reflexivity.
Qed.

(** *** [process] finishes, given enough fuel *)

Lemma inject_Z_succ (n : nat) :
  (inject_Z (Z.of_nat (S n)) == inject_Z (Z.of_nat n) + 1)%Q.
Proof. rewrite Nat2Z.inj_succ, <- Z.add_1_r, inject_Z_plus. reflexivity. Qed.

Lemma transpose_prev_terminates (fuel : nat) (rt : RT.state) (input : F32.t)
  (inputStart outputStart : Z) :
  forall (output : F32.t) (s : Q) (cnt : Z),
    (0 < RT._rate rt)%Q ->
    (1 - s <= inject_Z (Z.of_nat fuel) * RT._rate rt)%Q ->
    exists r,
      Lib.RateTransposer.transpose_prev fuel rt input inputStart outputStart
        output s cnt = Ok r.
Proof.
  induction fuel as [|fuel IH]; intros output s cnt Hr Hf;
    cbn [Lib.RateTransposer.transpose_prev];
    destruct (Qltb s 1) eqn:E; try (eexists; reflexivity).
  - apply Qltb_lt in E. change (inject_Z (Z.of_nat 0)) with 0%Q in Hf. lra.
  - apply IH; [exact Hr|]. rewrite inject_Z_succ in Hf. lra.
Qed.

Lemma transpose_advance_terminates (fuel : nat) (numFrames : Z) :
  forall (s : Q) (idx : Z),
    (1 <= fuel)%nat -> numFrames - 1 - idx <= Z.of_nat fuel ->
    exists r,
      Lib.RateTransposer.transpose_advance fuel numFrames s idx = Ok r.
Proof.
  induction fuel as [|fuel IH]; intros s idx H1 Hf; [lia|].
  cbn [Lib.RateTransposer.transpose_advance].
  destruct (Qleb 1 s); [|eexists; reflexivity].
  destruct (Z.leb_spec (numFrames - 1) (idx + 1)); [eexists; reflexivity|].
  apply IH; lia.
Qed.

Lemma transpose_rest_terminates (fuel inner : nat) (rt : RT.state)
  (input : F32.t) (inputStart outputStart numFrames : Z) :
  forall (output : F32.t) (s : Q) (idx cnt : Z),
    (0 < RT._rate rt)%Q -> (0 <= s)%Q -> 0 <= idx ->
    (1 <= inner)%nat -> numFrames <= Z.of_nat inner ->
    (1 <= fuel)%nat ->
    (inject_Z (numFrames - 1 - idx) - s
     <= (inject_Z (Z.of_nat fuel) - 1) * RT._rate rt)%Q ->
    exists r,
      Lib.RateTransposer.transpose_rest fuel inner rt input inputStart
        outputStart numFrames output s idx cnt = Ok r.
Proof.
  induction fuel as [|fuel IH];
    intros output s idx cnt Hr Hs Hidx Hin1 Hin Hf1 Hf; [lia|].
  cbn [Lib.RateTransposer.transpose_rest].
  destruct (@transpose_advance_terminates inner numFrames s idx Hin1)
    as ([s1 idx1] & Ha); [lia|].
  rewrite Ha. cbn [bind].
  apply transpose_advance_slope in Ha; [|exact Hs].
  destruct Ha as (Hs1 & Hpos & Hidx1 & Hcase).
  destruct (Z.leb_spec (numFrames - 1) idx1) as [Hb|Hb];
    [eexists; reflexivity|].
  assert (Hlt : (s1 < 1)%Q).
  { destruct Hcase as [(-> & _ & Hlt)|(_ & [Hlt|Hge])];
      [exact Hlt|exact Hlt|lia]. }
  assert (Hgap : (1 <= inject_Z (numFrames - 1 - idx1))%Q).
  { change 1%Q with (inject_Z 1). rewrite <- Zle_Qle. lia. }
  rewrite inject_Z_succ in Hf.
  assert (Hshift : (inject_Z (numFrames - 1 - idx) + inject_Z idx
                    == inject_Z (numFrames - 1 - idx1) + inject_Z idx1)%Q).
  { rewrite <- !inject_Z_plus. apply inject_Z_injective. lia. }
  apply IH; try assumption; try lra; try lia.
  destruct fuel as [|fuel]; [|lia].
  change (inject_Z (Z.of_nat 0)) with 0%Q in Hf. lra.
Qed.

Lemma transposer_fuel_enough (r : Q) (n : Z) (fuel : nat) :
  (0 < r)%Q -> 0 <= n -> (transposer_fuel r n <= fuel)%nat ->
  (1 <= fuel)%nat /\ n <= Z.of_nat fuel
  /\ (1 <= inject_Z (Z.of_nat fuel) * r)%Q
  /\ (inject_Z n <= (inject_Z (Z.of_nat fuel) - 1) * r)%Q.
Proof.
  intros Hr Hn Hf. unfold transposer_fuel in Hf.
  set (m := Z.max n 1) in *.
  set (K := Qceiling (inject_Z m / r)) in *.
  assert (Hm1 : (1 <= inject_Z m)%Q)
    by (change 1%Q with (inject_Z 1); rewrite <- Zle_Qle; subst m; lia).
  assert (Hmn : (inject_Z n <= inject_Z m)%Q)
    by (rewrite <- Zle_Qle; subst m; lia).
  assert (HK : (inject_Z m <= inject_Z K * r)%Q).
  { pose proof (Qle_ceiling (inject_Z m / r)) as Hc. fold K in Hc.
    apply (Qmult_le_compat_r _ _ r) in Hc; [|lra].
    rewrite Qmult_comm, Qmult_div_r in Hc by lra. exact Hc. }
  assert (HK1 : 1 <= K).
  { destruct (Z.lt_ge_cases K 1) as [Hlt|Hge]; [|exact Hge].
    assert (HK0 : (inject_Z K <= 0)%Q)
      by (change 0%Q with (inject_Z 0); rewrite <- Zle_Qle; lia).
    assert ((inject_Z K * r <= 0)%Q) by nra.
    lra. }
  assert (HF : (inject_Z K + inject_Z n + 1 <= inject_Z (Z.of_nat fuel))%Q).
  { change 1%Q with (inject_Z 1). rewrite <- !inject_Z_plus, <- Zle_Qle. lia. }
  assert (Hn0 : (0 <= inject_Z n)%Q)
    by (change 0%Q with (inject_Z 0); rewrite <- Zle_Qle; lia).
  repeat split; try lia; nra.
Qed.

Lemma ensureCapacity_never_throws (f : Fifo) (n : Z) :
  exists f', FifoSampleBuffer.ensureCapacity f n = Ok f'.
Proof.
  unfold FifoSampleBuffer.ensureCapacity, FifoSampleBuffer.rewind.
  pose proof (F32_length_nonneg (_vector f)).
  pose proof (F32_length_subarray_le (_vector f)
                (FifoSampleBuffer.startIndex f) (FifoSampleBuffer.endIndex f)).
  destruct (Z.ltb_spec (F32.length (_vector f)) (n * 2)).
  - assert (Hnew : F32.length (F32.new (n * 2)) = n * 2)
      by (rewrite F32_length_new; lia).
    rewrite F32_set_ok by lia. eexists. reflexivity.
  - destruct (0 <? _position f); [|eexists; reflexivity].
    rewrite F32_set_ok by lia. eexists. reflexivity.
Qed.

Lemma transpose_terminates (fuel : nat) (rt : RT.state)
  (inputBuffer outputBuffer : Fifo) (numFrames : Z) :
  (0 < RT._rate rt)%Q -> (0 <= RT.slopeCount rt)%Q -> 0 <= numFrames ->
  (transposer_fuel (RT._rate rt) numFrames <= fuel)%nat ->
  exists r,
    Lib.RateTransposer.transpose fuel rt inputBuffer outputBuffer numFrames
    = Ok r.
Proof.
  intros Hr Hs Hn Hf.
  destruct (transposer_fuel_enough Hr Hn Hf) as (Hf1 & Hfn & Hf2 & Hf3).
  unfold Lib.RateTransposer.transpose.
  destruct (numFrames =? 0); [eexists; reflexivity|].
  destruct (@transpose_prev_terminates fuel rt
              (FifoSampleBuffer.vector inputBuffer)
              (FifoSampleBuffer.startIndex inputBuffer)
              (FifoSampleBuffer.endIndex outputBuffer)
              (FifoSampleBuffer.vector outputBuffer) (RT.slopeCount rt) 0 Hr)
    as ([[o1 s1] c1] & H1); [lra|].
  rewrite H1. cbn [bind].
  apply transpose_prev_slope in H1. destruct H1 as (H1a & _).
  destruct (1 <? numFrames); [|eexists; reflexivity].
  destruct (@transpose_rest_terminates fuel fuel rt
              (FifoSampleBuffer.vector inputBuffer)
              (FifoSampleBuffer.startIndex inputBuffer)
              (FifoSampleBuffer.endIndex outputBuffer) numFrames o1
              (s1 - 1)%Q 0 c1 Hr)
    as ([[o2 s2] c2] & H2); try lia; try lra.
  - assert (Hle : (inject_Z (numFrames - 1 - 0) <= inject_Z numFrames)%Q)
      by (rewrite <- Zle_Qle; lia).
    lra.
  - rewrite H2. eexists. reflexivity.
Qed.

Lemma process_terminates (fuel : nat) (rt : RT.state)
  (inputBuffer outputBuffer : Fifo) :
  (0 < RT._rate rt)%Q -> (0 <= RT.slopeCount rt)%Q ->
  0 <= _frameCount inputBuffer ->
  (transposer_fuel (RT._rate rt) (_frameCount inputBuffer) <= fuel)%nat ->
  exists r, Lib.RateTransposer.process fuel rt inputBuffer outputBuffer = Ok r.
Proof.
  intros Hr Hs Hpos Hf. unfold Lib.RateTransposer.process.
  destruct (FifoSampleBuffer.frameCount inputBuffer =? 0);
    [eexists; reflexivity|].
  destruct (ensureCapacity_never_throws outputBuffer
              (FifoSampleBuffer.frameCount outputBuffer
               + Qceiling (inject_Z (FifoSampleBuffer.frameCount inputBuffer)
                           / RT._rate rt) + 1)) as (o1 & Ho1).
  rewrite Ho1. cbn [bind].
  destruct (@transpose_terminates fuel rt inputBuffer o1
              (FifoSampleBuffer.frameCount inputBuffer) Hr Hs Hpos Hf)
    as ([[rt1 o2] c] & Ht).
  rewrite Ht. cbn [bind]. eexists. reflexivity.
Qed.

(** *** The worklet's copy of the rate transposer is the library's *)

Lemma transposer_process_same :
  Worklet.RateTransposer.process = Lib.RateTransposer.process.
Proof. reflexivity. Qed.

Lemma process_calls_slope (fuel : nat) (calls : list (Fifo * Fifo)) :
  forall (rt rt' : RT.state),
    process_calls Lib.RateTransposer.process fuel rt calls = Ok rt' ->
    (0 < RT._rate rt)%Q -> slope_in_bounds rt ->
    slope_in_bounds rt' /\ RT._rate rt' = RT._rate rt.
Proof.
  induction calls as [|[i o] calls IH]; intros rt rt' H Hr Hinv.
  - inversion H; subst. split; [assumption|reflexivity].
  - cbn [process_calls] in H.
    destruct (Lib.RateTransposer.process fuel rt i o)
      as [[[rt1 i1] o1]| |] eqn:Hp; cbn [bind] in H; try discriminate.
    destruct (@process_slope _ _ _ _ _ _ _ Hp Hr Hinv) as (Hinv1 & Hr1).
    apply IH in H; [|rewrite Hr1; exact Hr|exact Hinv1].
    destruct H as (Hinv' & Hr'). split; [exact Hinv'|congruence].
Qed.

Lemma process_calls_terminates (fuel : nat) (calls : list (Fifo * Fifo)) :
  forall rt : RT.state,
    (0 < RT._rate rt)%Q -> slope_in_bounds rt -> calls_nonneg calls ->
    (calls_fuel (RT._rate rt) calls <= fuel)%nat ->
    exists rt', process_calls Lib.RateTransposer.process fuel rt calls = Ok rt'.
Proof.
  induction calls as [|[i o] calls IH]; intros rt Hr Hinv Hnn Hf.
  - eexists. reflexivity.
  - cbn [process_calls]. cbn [calls_fuel fold_right fst] in Hf.
    inversion Hnn as [|? ? Hi Hrest]; subst. cbn [fst] in Hi.
    destruct (@process_terminates fuel rt i o Hr (proj1 Hinv) Hi)
      as ([[rt1 i1] o1] & Hp); [lia|].
    rewrite Hp. cbn [bind].
    destruct (@process_slope _ _ _ _ _ _ _ Hp Hr Hinv) as (Hinv1 & Hr1).
    apply IH; try assumption.
    + rewrite Hr1. exact Hr.
    + rewrite Hr1. unfold calls_fuel. lia.
Qed.

(** C6, counterexample.  With rate 2.5, one [process] call on a single
    input frame from the initial state emits one frame, advances the phase
    from 0 to 2.5 and leaves it at 1.5: the phase carries the input frames
    still to be skipped over to the next call. *)
Lemma C6_counterexample :
  exists q,
    slope_after
      (Lib.RateTransposer.process 3
         (Lib.RateTransposer.set_rate Lib.RateTransposer.new (5 # 2))
         one_frame_fifo (FifoSampleBuffer.new 4)) = Some q
    /\ (q == 3 # 2)%Q /\ ~ (q < 1)%Q.
Proof.
  eexists. split; [vm_compute; reflexivity|].
  split; vm_compute; congruence.
Qed.

(** C6, amended.  For a RateTransposer of either copy with rate [r > 0],
    started from its initial state, after every sequence of [process]
    calls, whatever the FIFOs hold at each call, the phase accumulator lies
    in [[0, max(1, r))]: in [[0, 1)] when [r <= 1].  Every such sequence
    runs to completion given enough fuel, provided the input frame counts
    are not negative. *)
Theorem C6_slope_bounds :
  forall (process : transposer_process) (r : Q),
    process = Lib.RateTransposer.process
    \/ process = Worklet.RateTransposer.process ->
    (0 < r)%Q ->
    let rt0 := Lib.RateTransposer.set_rate Lib.RateTransposer.new r in
    (forall (fuel : nat) (calls : list (Fifo * Fifo)) (rt : RT.state),
        process_calls process fuel rt0 calls = Ok rt ->
        RT._rate rt = r
        /\ (0 <= RT.slopeCount rt)%Q
        /\ (RT.slopeCount rt < Qmax 1 r)%Q
        /\ ((r <= 1)%Q -> (RT.slopeCount rt < 1)%Q))
    /\ (forall (calls : list (Fifo * Fifo)) (fuel : nat),
           calls_nonneg calls -> (calls_fuel r calls <= fuel)%nat ->
           exists rt, process_calls process fuel rt0 calls = Ok rt).
Proof.
  intros process r Hprocess Hr rt0.
  assert (Hsame : process = Lib.RateTransposer.process)
    by (destruct Hprocess as [->| ->]; reflexivity).
  subst process.
  assert (Hinv0 : slope_in_bounds rt0).
  { destruct (Qmax_1_bounds Hr) as (Hm & _). split; cbn; lra. }
  split.
  - intros fuel calls rt H.
    destruct (process_calls_slope _ _ H Hr Hinv0) as ((H0 & H1) & Hrate).
    change (RT._rate rt0) with r in *. rewrite Hrate in H1.
    repeat split; try assumption.
    intros Hle.
    destruct (Q.max_spec 1 r) as [[Hlt _]|[_ E]]; [lra|].
    rewrite E in H1. exact H1.
  - intros calls fuel Hnn Hf.
    apply process_calls_terminates; assumption.
Qed.

(** C6 at rate 1/2: a call on one frame, then a call on an empty FIFO. *)
Lemma C6_witness :
  exists rt,
    process_calls Worklet.RateTransposer.process 5
      (Lib.RateTransposer.set_rate Lib.RateTransposer.new (1 # 2))
      [(one_frame_fifo, FifoSampleBuffer.new 4);
       (FifoSampleBuffer.new 4, FifoSampleBuffer.new 4)] = Ok rt
    /\ (RT.slopeCount rt < 1)%Q.
Proof.
  assert (Hr : (0 < 1 # 2)%Q) by reflexivity.
  assert (Hle : (1 # 2 <= 1)%Q) by (vm_compute; congruence).
  eexists. split; [vm_compute; reflexivity|].
  refine (proj2 (proj2 (proj2
            (proj1 (C6_slope_bounds (or_intror eq_refl) Hr) 5%nat
               [(one_frame_fifo, FifoSampleBuffer.new 4);
                (FifoSampleBuffer.new 4, FifoSampleBuffer.new 4)] _ _))) Hle).
  vm_compute. reflexivity.
Defined.

(** ** C8: a constant input through the rate transposer *)

Lemma interpolate_constant (w : Q) (a b : sample) (c : Q) :
  sample_is a c -> sample_is b c ->
  sample_is (sadd (scale (1 - w) a) (scale w b)) c.
Proof.
  destruct a as [a|], b as [b|]; cbn; intros Ha Hb; try contradiction.
  rewrite Ha, Hb. ring.
Qed.

Lemma frames_are_put (v : F32.t) (start cnt : Z) (x y : sample) (c : Q) :
  0 <= start -> 0 <= cnt -> start + cnt * 2 + 1 < F32.length v ->
  sample_is x c -> sample_is y c ->
  frames_are v start 0 cnt c ->
  frames_are
    (F32.put (F32.put v (start + cnt * 2) x) (start + cnt * 2 + 1) y)
    start 0 (cnt + 1) c.
Proof.
  intros Hs Hc Hlen Hx Hy Hv j Hj.
  destruct (Z.eq_dec j cnt) as [->|Hne].
  - rewrite F32_get_put_other by lia.
    rewrite F32_get_put_same by lia.
    rewrite F32_get_put_same by (rewrite F32_put_length; lia).
    split; assumption.
  - rewrite !F32_get_put_other by lia. apply Hv. lia.
Qed.

Section ConstantInput.

Variable rt : RT.state.
Variable input : F32.t.
Variables inputStart outputStart numFrames : Z.
Variable c : Q.
Variable s0 : Q.
Variable length_out : Z.

Hypothesis rate_pos : (0 < RT._rate rt)%Q.
Hypothesis s0_nonneg : (0 <= s0)%Q.
Hypothesis prevL_is : sample_is (RT.prevSampleL rt) c.
Hypothesis prevR_is : sample_is (RT.prevSampleR rt) c.
Hypothesis input_is : frames_are input inputStart 0 numFrames c.
Hypothesis frames_pos : 1 <= numFrames.
Hypothesis outputStart_nonneg : 0 <= outputStart.

(** Room in the output for every frame emitted before position
    [numFrames] of the input is passed. *)
Hypothesis room :
  forall k, 0 <= k ->
    (inject_Z k * RT._rate rt < inject_Z numFrames)%Q ->
    outputStart + k * 2 + 1 < length_out.

Lemma transpose_prev_constant (fuel : nat) :
  forall (output : F32.t) (s : Q) (cnt : Z) (output' : F32.t) (s' : Q)
         (cnt' : Z),
    Lib.RateTransposer.transpose_prev fuel rt input inputStart outputStart
      output s cnt = Ok (output', s', cnt') ->
    F32.length output = length_out -> 0 <= cnt ->
    (s == s0 + inject_Z cnt * RT._rate rt)%Q ->
    frames_are output outputStart 0 cnt c ->
    F32.length output' = length_out /\ cnt <= cnt'
    /\ (s' == s0 + inject_Z cnt' * RT._rate rt)%Q
    /\ frames_are output' outputStart 0 cnt' c.
Proof.
  induction fuel as [|fuel IH];
    intros output s cnt output' s' cnt' H Hlen Hcnt Hs Hout;
    cbn [Lib.RateTransposer.transpose_prev] in H;
    destruct (Qltb s 1) eqn:E; try discriminate;
    try (injection H as <- <- <-;
         split; [assumption|split; [lia|split; assumption]]).
  apply Qltb_lt in E.
  assert (Hroom : outputStart + cnt * 2 + 1 < F32.length output).
  { rewrite Hlen. apply room; [exact Hcnt|].
    assert ((1 <= inject_Z numFrames)%Q)
      by (change 1%Q with (inject_Z 1); rewrite <- Zle_Qle; lia).
    lra. }
  apply IH in H.
  - destruct H as (H1 & H2 & H3 & H4).
    split; [assumption|split; [lia|split; assumption]].
  - rewrite !F32_put_length. exact Hlen.
  - lia.
  - rewrite inject_Z_plus. change (inject_Z 1) with 1%Q. lra.
  - destruct (input_is (j := 0)) as (HinL & HinR); [lia|].
    rewrite Z.add_0_r in HinL. change (0 * 2) with 0 in HinR.
    rewrite Z.add_0_r in HinR.
    apply frames_are_put; try assumption;
      apply interpolate_constant; assumption.
Qed.

Lemma transpose_rest_constant (fuel inner : nat) :
  forall (output : F32.t) (s : Q) (idx cnt : Z) (output' : F32.t) (s' : Q)
         (cnt' : Z),
    Lib.RateTransposer.transpose_rest fuel inner rt input inputStart
      outputStart numFrames output s idx cnt = Ok (output', s', cnt') ->
    F32.length output = length_out -> 0 <= cnt -> 0 <= idx -> (0 <= s)%Q ->
    (inject_Z idx + 1 + s == s0 + inject_Z cnt * RT._rate rt)%Q ->
    frames_are output outputStart 0 cnt c ->
    F32.length output' = length_out /\ cnt <= cnt'
    /\ frames_are output' outputStart 0 cnt' c.
Proof.
  induction fuel as [|fuel IH];
    intros output s idx cnt output' s' cnt' H Hlen Hcnt Hidx Hs0 Hs Hout;
    cbn [Lib.RateTransposer.transpose_rest] in H; [discriminate|].
  destruct (Lib.RateTransposer.transpose_advance inner numFrames s idx)
    as [[s1 idx1]| |] eqn:Ha; cbn [bind] in H; try discriminate.
  apply transpose_advance_slope in Ha; [|exact Hs0].
  destruct Ha as (Hs1 & Hpos & Hidx1 & Hcase).
  destruct (Z.leb_spec (numFrames - 1) idx1) as [Hb|Hb].
  - injection H as <- <- <-.
    split; [assumption|split; [lia|assumption]].
  - assert (Hlt : (s1 < 1)%Q).
    { destruct Hcase as [(-> & _ & Hlt)|(_ & [Hlt|Hge])];
        [exact Hlt|exact Hlt|lia]. }
    assert (Hin : (inject_Z idx1 + 2 <= inject_Z numFrames)%Q).
    { change 2%Q with (inject_Z 2). rewrite <- inject_Z_plus, <- Zle_Qle. lia. }
    assert (Hroom : outputStart + cnt * 2 + 1 < F32.length output).
    { rewrite Hlen. apply room; [exact Hcnt|]. lra. }
    apply IH in H.
    + destruct H as (H1 & H2 & H3).
      split; [assumption|split; [lia|assumption]].
    + rewrite !F32_put_length. exact Hlen.
    + lia.
    + lia.
    + lra.
    + rewrite inject_Z_plus. change (inject_Z 1) with 1%Q. lra.
    + destruct (input_is (j := idx1)) as (HaL & HaR); [lia|].
      destruct (input_is (j := idx1 + 1)) as (HbL & HbR); [lia|].
      replace (inputStart + (idx1 + 1) * 2)
        with (inputStart + idx1 * 2 + 2) in HbL by lia.
      replace (inputStart + (idx1 + 1) * 2 + 1)
        with (inputStart + idx1 * 2 + 3) in HbR by lia.
      apply frames_are_put; try assumption;
        apply interpolate_constant; assumption.
Qed.

End ConstantInput.

Lemma room_after_ensureCapacity (r : Q) (n fc len : Z) :
  (0 < r)%Q -> 0 <= fc ->
  (fc + Qceiling (inject_Z n / r) + 1) * 2 <= len ->
  forall k, 0 <= k -> (inject_Z k * r < inject_Z n)%Q ->
    (0 + fc) * 2 + k * 2 + 1 < len.
Proof.
  intros Hr Hfc Hlen k Hk Hkr.
  assert (Hlt : (inject_Z k < inject_Z n / r)%Q)
    by (apply Qlt_shift_div_l; assumption).
  pose proof (Qle_ceiling (inject_Z n / r)) as Hc.
  assert (HkK : k < Qceiling (inject_Z n / r)) by (rewrite Zlt_Qlt; lra).
  lia.
Qed.

Lemma process_constant (fuel : nat) (rt : RT.state)
  (inputBuffer outputBuffer : Fifo) (c : Q)
  (rt' : RT.state) (inputBuffer' outputBuffer' : Fifo) :
  Lib.RateTransposer.process fuel rt inputBuffer outputBuffer
  = Ok (rt', inputBuffer', outputBuffer') ->
  (0 < RT._rate rt)%Q -> (0 <= RT.slopeCount rt)%Q ->
  sample_is (RT.prevSampleL rt) c -> sample_is (RT.prevSampleR rt) c ->
  1 <= _frameCount inputBuffer ->
  frames_are (_vector inputBuffer) (FifoSampleBuffer.startIndex inputBuffer)
    0 (_frameCount inputBuffer) c ->
  0 <= _position outputBuffer -> 0 <= _frameCount outputBuffer ->
  _frameCount outputBuffer <= _frameCount outputBuffer'
  /\ frames_are (_vector outputBuffer')
       (FifoSampleBuffer.startIndex outputBuffer')
       (_frameCount outputBuffer) (_frameCount outputBuffer') c
  /\ sample_is (RT.prevSampleL rt') c /\ sample_is (RT.prevSampleR rt') c.
Proof.
  intros H Hr Hs0 HpL HpR Hn Hin Hop Hofc.
  unfold Lib.RateTransposer.process in H.
  unfold FifoSampleBuffer.frameCount in H.
  destruct (Z.eqb_spec (_frameCount inputBuffer) 0) as [E|_]; [lia|].
  destruct (ensureCapacity_total outputBuffer
              (_frameCount outputBuffer
               + Qceiling (inject_Z (_frameCount inputBuffer) / RT._rate rt)
               + 1) Hop) as (v & Hv & Hlen).
  rewrite Hv in H. cbn [bind] in H.
  unfold Lib.RateTransposer.transpose in H.
  destruct (Z.eqb_spec (_frameCount inputBuffer) 0) as [E|_]; [lia|].
  unfold FifoSampleBuffer.vector, FifoSampleBuffer.endIndex in H.
  cbn [_vector _position _frameCount] in H.
  pose proof (room_after_ensureCapacity Hr Hofc Hlen) as Hroom.
  assert (Hos : 0 <= (0 + _frameCount outputBuffer) * 2) by lia.
  destruct (Lib.RateTransposer.transpose_prev _ _ _ _ _ _ _ _)
    as [[[o1 s1] c1]| |] eqn:H1; cbn [bind] in H; try discriminate.
  pose proof (transpose_prev_slope _ _ _ _ _ _ _ _ H1) as (H1a & _).
  destruct (transpose_prev_constant rt Hs0 HpL HpR Hin Hn Hos Hroom fuel H1
              eq_refl (Z.le_refl 0)) as (Hlen1 & Hc1 & Hs1 & Hfr1).
  { change (inject_Z 0) with 0%Q. lra. }
  { intros j Hj. lia. }
  assert (Hfinal :
    forall (o2 : F32.t) (c2 : Z),
      c1 <= c2 ->
      frames_are o2 ((0 + _frameCount outputBuffer) * 2) 0 c2 c ->
      _frameCount outputBuffer <= _frameCount outputBuffer + c2
      /\ frames_are o2 (0 * 2) (_frameCount outputBuffer)
           (_frameCount outputBuffer + c2) c).
  { intros o2 c2 Hc2 Hfr. split; [lia|].
    intros j Hj. destruct (Hfr (j - _frameCount outputBuffer)) as (HL & HR);
      [lia|].
    replace ((0 + _frameCount outputBuffer) * 2
             + (j - _frameCount outputBuffer) * 2) with (0 * 2 + j * 2)
      in HL, HR by lia.
    split; assumption. }
  assert (Hlast : sample_is
                    (F32.get (_vector inputBuffer)
                       (FifoSampleBuffer.startIndex inputBuffer
                        + (_frameCount inputBuffer - 1) * 2)) c
                  /\ sample_is
                       (F32.get (_vector inputBuffer)
                          (FifoSampleBuffer.startIndex inputBuffer
                           + (_frameCount inputBuffer - 1) * 2 + 1)) c)
    by (apply Hin; lia).
  destruct (1 <? _frameCount inputBuffer).
  - destruct (Lib.RateTransposer.transpose_rest _ _ _ _ _ _ _ _ _ _ _)
      as [[[o2 s2] c2]| |] eqn:H2; cbn [bind] in H; try discriminate.
    destruct (transpose_rest_constant rt Hr Hs0 Hin Hos Hroom fuel fuel H2
                Hlen1 Hc1 (Z.le_refl 0)) as (Hlen2 & Hc2 & Hfr2).
    { lra. }
    { change (inject_Z 0) with 0%Q. lra. }
    { exact Hfr1. }
    injection H as <- <- <-.
    cbn [FifoSampleBuffer.put _vector _position _frameCount
         FifoSampleBuffer.startIndex RT.prevSampleL RT.prevSampleR].
    destruct (Hfinal o2 c2 Hc2 Hfr2) as (Ha & Hb).
    split; [exact Ha|]. split; [exact Hb|]. exact Hlast.
  - cbn [bind] in H. injection H as <- <- <-.
    cbn [FifoSampleBuffer.put _vector _position _frameCount
         FifoSampleBuffer.startIndex RT.prevSampleL RT.prevSampleR].
    destruct (Hfinal o1 c1 (Z.le_refl c1) Hfr1) as (Ha & Hb).
    split; [exact Ha|]. split; [exact Hb|]. exact Hlast.
Qed.

(** C8, counterexample.  From the initial state the retained previous
    frame is [(0, 0)] and the phase is 0: at rate 1, fed one frame of the
    constant 1, the transposer emits one frame, and that frame is
    [(0, 0)], not [(1, 1)]. *)
Lemma C8_counterexample :
  _frameCount
    (output_after
       (Lib.RateTransposer.process 3
          (Lib.RateTransposer.set_rate Lib.RateTransposer.new 1)
          one_frame_fifo (FifoSampleBuffer.new 4))) = 1
  /\ frames_are
       (_vector
          (output_after
             (Lib.RateTransposer.process 3
                (Lib.RateTransposer.set_rate Lib.RateTransposer.new 1)
                one_frame_fifo (FifoSampleBuffer.new 4)))) 0 0 1 0
  /\ ~ frames_are
         (_vector
            (output_after
               (Lib.RateTransposer.process 3
                  (Lib.RateTransposer.set_rate Lib.RateTransposer.new 1)
                  one_frame_fifo (FifoSampleBuffer.new 4)))) 0 0 1 1.
Proof.
  split; [reflexivity|]. split.
  - intros j Hj. assert (j = 0) by lia. subst j.
    split; vm_compute; reflexivity.
  - intros H. destruct (H 0) as (HL & _); [lia|].
    revert HL. vm_compute. discriminate.
Qed.

(** C8, amended.  For a RateTransposer of either copy with rate [r > 0]
    and a phase that is not negative, whose retained previous frame holds
    the constant [c], a [process] call on [N >= 1] input frames all equal to
    [c] returns, given enough fuel, and every frame it appends to the output
    FIFO equals [c]; the retained previous frame is again [c] and the phase
    again not negative (and within its bounds, when it was), so the same
    holds for every following call on frames equal to [c].  (From the
    initial state the retained frame is 0: the frames interpolated against
    it are not [c] unless [c = 0].) *)
Theorem C8_constant_in_constant_out :
  forall (process : transposer_process) (fuel : nat) (rt : RT.state)
         (inputBuffer outputBuffer : Fifo) (c : Q),
    process = Lib.RateTransposer.process
    \/ process = Worklet.RateTransposer.process ->
    (0 < RT._rate rt)%Q -> (0 <= RT.slopeCount rt)%Q ->
    sample_is (RT.prevSampleL rt) c -> sample_is (RT.prevSampleR rt) c ->
    1 <= _frameCount inputBuffer ->
    frames_are (_vector inputBuffer) (FifoSampleBuffer.startIndex inputBuffer)
      0 (_frameCount inputBuffer) c ->
    0 <= _position outputBuffer -> 0 <= _frameCount outputBuffer ->
    (transposer_fuel (RT._rate rt) (_frameCount inputBuffer) <= fuel)%nat ->
    exists rt' inputBuffer' outputBuffer',
      process fuel rt inputBuffer outputBuffer
      = Ok (rt', inputBuffer', outputBuffer')
      /\ _frameCount inputBuffer' = 0
      /\ _frameCount outputBuffer <= _frameCount outputBuffer'
      /\ frames_are (_vector outputBuffer')
           (FifoSampleBuffer.startIndex outputBuffer')
           (_frameCount outputBuffer) (_frameCount outputBuffer') c
      /\ sample_is (RT.prevSampleL rt') c
      /\ sample_is (RT.prevSampleR rt') c
      /\ (0 <= RT.slopeCount rt')%Q
      /\ (slope_in_bounds rt -> slope_in_bounds rt')
      /\ RT._rate rt' = RT._rate rt.
Proof.
  intros process fuel rt inputBuffer outputBuffer c Hprocess Hr Hs0 HpL HpR
    Hn Hin Hop Hofc Hf.
  assert (Hsame : process = Lib.RateTransposer.process)
    by (destruct Hprocess as [->| ->]; reflexivity).
  subst process.
  destruct (@process_terminates fuel rt inputBuffer outputBuffer Hr Hs0)
    as ([[rt' i'] o'] & Hp); [lia|exact Hf|].
  exists rt', i', o'. split; [exact Hp|].
  destruct (@process_nonneg _ _ _ _ _ _ _ Hp Hr Hs0) as (Hs0' & Hrate).
  destruct (@process_constant _ _ _ _ _ _ _ _ Hp Hr Hs0 HpL HpR Hn
              Hin Hop Hofc) as (Hcnt & Hfr & HL & HR).
  assert (Hi' : _frameCount i' = 0).
  { unfold Lib.RateTransposer.process in Hp.
    unfold FifoSampleBuffer.frameCount in Hp.
    destruct (Z.eqb_spec (_frameCount inputBuffer) 0); [lia|].
    destruct (FifoSampleBuffer.ensureCapacity _ _) as [o1| |];
      cbn [bind] in Hp; try discriminate.
    destruct (Lib.RateTransposer.transpose _ _ _ _ _)
      as [[[rt1 o2] cnt]| |]; cbn [bind] in Hp; try discriminate.
    injection Hp as <- <- <-.
    unfold FifoSampleBuffer.receive.
    destruct (Z.ltb_spec (_frameCount inputBuffer) 0); [lia|].
    destruct (Z.ltb_spec (_frameCount inputBuffer) (_frameCount inputBuffer));
      [lia|].
    cbn [orb _frameCount]. lia. }
  split; [exact Hi'|]. split; [exact Hcnt|]. split; [exact Hfr|].
  split; [exact HL|]. split; [exact HR|]. split; [exact Hs0'|].
  split; [|exact Hrate].
  intros Hinv.
  exact (proj1 (@process_slope _ _ _ _ _ _ _ Hp Hr Hinv)).
Qed.

(** C8 at rate 1/2 on one frame of the constant 1, after such a frame. *)
Lemma C8_witness :
  exists rt' inputBuffer' outputBuffer',
    Worklet.RateTransposer.process 4 transposer_after_ones one_frame_fifo
      (FifoSampleBuffer.new 4)
    = Ok (rt', inputBuffer', outputBuffer')
    /\ frames_are (_vector outputBuffer')
         (FifoSampleBuffer.startIndex outputBuffer') 0
         (_frameCount outputBuffer') 1.
Proof.
  assert (Hr : (0 < RT._rate transposer_after_ones)%Q) by reflexivity.
  assert (Hinv : (0 <= RT.slopeCount transposer_after_ones)%Q)
    by (vm_compute; congruence).
  assert (HpL : sample_is (RT.prevSampleL transposer_after_ones) 1)
    by reflexivity.
  assert (HpR : sample_is (RT.prevSampleR transposer_after_ones) 1)
    by reflexivity.
  assert (Hn : 1 <= _frameCount one_frame_fifo) by (vm_compute; congruence).
  assert (Hin : frames_are (_vector one_frame_fifo)
                  (FifoSampleBuffer.startIndex one_frame_fifo) 0
                  (_frameCount one_frame_fifo) 1).
  { intros j Hj. assert (j = 0) by (cbn in Hj; lia). subst j.
    split; reflexivity. }
  assert (Hop : 0 <= _position (FifoSampleBuffer.new 4))
    by (vm_compute; congruence).
  assert (Hofc : 0 <= _frameCount (FifoSampleBuffer.new 4))
    by (vm_compute; congruence).
  assert (Hf : (transposer_fuel (RT._rate transposer_after_ones)
                  (_frameCount one_frame_fifo) <= 4)%nat)
    by (vm_compute; repeat constructor).
  destruct (@C8_constant_in_constant_out Worklet.RateTransposer.process
              4%nat transposer_after_ones one_frame_fifo
              (FifoSampleBuffer.new 4) 1%Q (or_intror eq_refl) Hr Hinv HpL HpR
              Hn Hin Hop Hofc Hf)
    as (rt' & i' & o' & Hp & _ & _ & Hfr & _).
  exists rt', i', o'. split; [exact Hp|exact Hfr].
Defined.

(** ** C10: the worklet's copies against the library *)

Lemma precalcCorrReference_same (l : Lib.TimeStretch.state) :
  Worklet.TimeStretch.precalcCorrReference (to_worklet l)
  = match Lib.TimeStretch.precalcCorrReference l with
    | Ok l' => Ok (to_worklet l')
    | Throw e => Throw e
    | OutOfFuel => OutOfFuel
    end.
Proof.
  unfold Worklet.TimeStretch.precalcCorrReference,
    Lib.TimeStretch.precalcCorrReference.
  change Worklet.TimeStretch.nonnull with Lib.TimeStretch.nonnull.
  cbn [to_worklet Worklet.TimeStretch.overlapLength
       Worklet.TimeStretch.midBuffer Worklet.TimeStretch.refMidBuffer].
  destruct (for_range_res _ _ _ _) as [r| |]; reflexivity.
Qed.

Lemma calculateCrossCorr_same (l : Lib.TimeStretch.state) (inputBuffer : Fifo)
  (offset : Z) :
  Worklet.TimeStretch.calculateCrossCorr (to_worklet l) inputBuffer offset
  = Lib.TimeStretch.calculateCrossCorr l inputBuffer offset.
Proof. reflexivity. Qed.

Lemma scan_level_same (l : Lib.TimeStretch.state) (inputBuffer : Fifo)
  (corrOffset : Z) (entries : list Z) :
  forall (bestOffset : Z) (bestCorr : sample),
    Worklet.TimeStretch.scan_level (to_worklet l) inputBuffer corrOffset
      entries bestOffset bestCorr
    = Lib.TimeStretch.scan_level l inputBuffer corrOffset entries bestOffset
        bestCorr.
Proof.
  induction entries as [|entry entries IH]; intros bestOffset bestCorr;
    [reflexivity|].
  cbn [Worklet.TimeStretch.scan_level Lib.TimeStretch.scan_level].
  rewrite calculateCrossCorr_same.
  change (Worklet.TimeStretch.seekLength (to_worklet l))
    with (Lib.TimeStretch.seekLength l).
  destruct (if _ : bool then _ else _) as [[b c]| |]; cbn [bind];
    [apply IH|reflexivity|reflexivity].
Qed.

Lemma scan_levels_same (l : Lib.TimeStretch.state) (inputBuffer : Fifo)
  (rows : list (list Z)) :
  forall (corrOffset bestOffset : Z) (bestCorr : sample),
    Worklet.TimeStretch.scan_levels (to_worklet l) inputBuffer rows corrOffset
      bestOffset bestCorr
    = Lib.TimeStretch.scan_levels l inputBuffer rows corrOffset bestOffset
        bestCorr.
Proof.
  induction rows as [|row rows IH]; intros corrOffset bestOffset bestCorr;
    [reflexivity|].
  cbn [Worklet.TimeStretch.scan_levels Lib.TimeStretch.scan_levels].
  rewrite scan_level_same.
  destruct (Lib.TimeStretch.scan_level _ _ _ _ _ _) as [[b c]| |]; cbn [bind];
    [apply IH|reflexivity|reflexivity].
Qed.

Lemma process_step_same (l : Lib.TimeStretch.state)
  (inputBuffer outputBuffer : Fifo) :
  Worklet.TimeStretch.process_step (to_worklet l) inputBuffer outputBuffer
  = to_worklet_result (Lib.TimeStretch.process_step l inputBuffer outputBuffer).
Proof.
  unfold Worklet.TimeStretch.process_step, Lib.TimeStretch.process_step.
  unfold Worklet.TimeStretch.seekBestOverlapPosition,
    Lib.TimeStretch.seekBestOverlapPosition.
  rewrite precalcCorrReference_same.
  destruct (Lib.TimeStretch.precalcCorrReference l) as [l1| |];
    cbn [bind to_worklet_result]; try reflexivity.
  unfold Worklet.TimeStretch.seekBestOverlapPositionQuick,
    Lib.TimeStretch.seekBestOverlapPositionQuick.
  change Worklet.TimeStretch.SCAN_OFFSETS with Lib.TimeStretch.SCAN_OFFSETS.
  rewrite scan_levels_same.
  destruct (Lib.TimeStretch.scan_levels _ _ _ _ _ _) as [offset| |];
    cbn [bind to_worklet_result]; try reflexivity.
  change FifoBuffer.ensureCapacity with FifoSampleBuffer.ensureCapacity.
  change FifoBuffer.frameCount with FifoSampleBuffer.frameCount.
  change (Worklet.TimeStretch.overlapLength (to_worklet l1))
    with (Lib.TimeStretch.overlapLength l1).
  destruct (FifoSampleBuffer.ensureCapacity _ _) as [o1| |];
    cbn [bind to_worklet_result]; try reflexivity.
  change (Worklet.TimeStretch.overlap (to_worklet l1) inputBuffer o1 offset)
    with (Lib.TimeStretch.overlap l1 inputBuffer o1 offset).
  destruct (Lib.TimeStretch.overlap l1 inputBuffer o1 offset) as [o2| |];
    cbn [bind to_worklet_result]; try reflexivity.
  change (Worklet.TimeStretch.sequenceLength (to_worklet l1))
    with (Lib.TimeStretch.seekWindowLength l1).
  change FifoBuffer.putBuffer with FifoSampleBuffer.putBuffer.
  change FifoBuffer.put with FifoSampleBuffer.put.
  destruct (if _ : bool then _ else _) as [o3| |];
    cbn [bind to_worklet_result]; try reflexivity.
  change (Worklet.TimeStretch.nonnull
            (Worklet.TimeStretch.midBuffer (to_worklet l1)))
    with (Lib.TimeStretch.nonnull (Lib.TimeStretch.midBuffer l1)).
  destruct (Lib.TimeStretch.nonnull (Lib.TimeStretch.midBuffer l1))
    as [m| |]; cbn [bind to_worklet_result]; try reflexivity.
  change FifoBuffer.startIndex with FifoSampleBuffer.startIndex.
  change FifoBuffer.vector with FifoSampleBuffer.vector.
  destruct (F32.set m _ 0) as [m'| |]; cbn [bind to_worklet_result];
    reflexivity.
Qed.

Lemma process_loop_same (fuel : nat) :
  forall (l : Lib.TimeStretch.state) (inputBuffer outputBuffer : Fifo),
    Worklet.TimeStretch.process_loop fuel (to_worklet l) inputBuffer
      outputBuffer
    = to_worklet_result
        (Lib.TimeStretch.process_loop fuel l inputBuffer outputBuffer).
Proof.
  induction fuel as [|fuel IH]; intros l inputBuffer outputBuffer;
    cbn [Worklet.TimeStretch.process_loop Lib.TimeStretch.process_loop];
    change (Worklet.TimeStretch.sampleReq (to_worklet l))
      with (Lib.TimeStretch.sampleReq l);
    change FifoBuffer.frameCount with FifoSampleBuffer.frameCount;
    destruct (Lib.TimeStretch.sampleReq l
              <=? FifoSampleBuffer.frameCount inputBuffer);
    try reflexivity.
  rewrite process_step_same.
  destruct (Lib.TimeStretch.process_step l inputBuffer outputBuffer)
    as [[[l1 i1] o1]| |]; cbn [bind to_worklet_result]; try reflexivity.
  apply IH.
Qed.

Lemma timeStretch_process_same (fuel : nat) (l : Lib.TimeStretch.state)
  (inputBuffer outputBuffer : Fifo) :
  Worklet.TimeStretch.process fuel (to_worklet l) inputBuffer outputBuffer
  = to_worklet_result
      (Lib.TimeStretch.process fuel l inputBuffer outputBuffer).
Proof.
  unfold Worklet.TimeStretch.process, Lib.TimeStretch.process.
  change (Worklet.TimeStretch.midBuffer_missing (to_worklet l))
    with (Lib.TimeStretch.midBuffer_missing l).
  change (Worklet.TimeStretch.overlapLength (to_worklet l))
    with (Lib.TimeStretch.overlapLength l).
  change FifoBuffer.frameCount with FifoSampleBuffer.frameCount.
  change FifoBuffer.receiveSamples with FifoSampleBuffer.receiveSamples.
  destruct (Lib.TimeStretch.midBuffer_missing l).
  - destruct (FifoSampleBuffer.frameCount inputBuffer
              <? Lib.TimeStretch.overlapLength l); [reflexivity|].
    destruct (FifoSampleBuffer.receiveSamples _ _ _) as [[i1 m]| |];
      cbn [bind to_worklet_result]; try reflexivity.
    apply (process_loop_same fuel
             (Lib.TimeStretch.set_midBuffer l (Some m))).
  - apply process_loop_same.
Qed.

Lemma calculateEffectiveParams_same (l : Lib.TimeStretch.state) :
  auto_tuned l ->
  Worklet.TimeStretch.calculateEffectiveParams (to_worklet l)
  = to_worklet (Lib.TimeStretch.calculateEffectiveParams l).
Proof.
  intros (Hseq & Hseek).
  unfold Worklet.TimeStretch.calculateEffectiveParams,
    Lib.TimeStretch.calculateEffectiveParams, to_worklet.
  rewrite Hseq, Hseek. reflexivity.
Qed.

Lemma set_tempo_same (l : Lib.TimeStretch.state) (value : Q) :
  auto_tuned l ->
  Worklet.TimeStretch.set_tempo (to_worklet l) value
  = to_worklet (Lib.TimeStretch.set_tempo l value)
  /\ auto_tuned (Lib.TimeStretch.set_tempo l value).
Proof.
  intros (Hseq & Hseek). split; [|split; assumption].
  unfold Worklet.TimeStretch.set_tempo, Lib.TimeStretch.set_tempo.
  unfold Worklet.TimeStretch.calculateEffectiveParams,
    Lib.TimeStretch.calculateEffectiveParams, to_worklet.
  cbn [Lib.TimeStretch.sequenceMs Lib.TimeStretch.seekWindowMs].
  rewrite Hseq, Hseek. reflexivity.
Qed.

Lemma setParameters_same (l : Lib.TimeStretch.state) (sampleRate overlapMs : Q) :
  (0 < overlapMs)%Q ->
  Worklet.TimeStretch.setParameters (to_worklet l) sampleRate overlapMs
  = to_worklet (Lib.TimeStretch.setParameters l sampleRate 0 0 overlapMs)
  /\ auto_tuned (Lib.TimeStretch.setParameters l sampleRate 0 0 overlapMs).
Proof.
  intros Hov. apply Qltb_lt in Hov. split; [|split; reflexivity].
  unfold Worklet.TimeStretch.setParameters, Lib.TimeStretch.setParameters.
  rewrite Hov. reflexivity.
Qed.

Lemma reset_same (l : Lib.TimeStretch.state) (inputBuffer outputBuffer : Fifo) :
  Worklet.TimeStretch.reset (to_worklet l) inputBuffer outputBuffer
  = to_worklet_result (Lib.TimeStretch.reset l inputBuffer outputBuffer)
  /\ (auto_tuned l ->
      result_auto_tuned (Lib.TimeStretch.reset l inputBuffer outputBuffer)).
Proof.
  unfold Worklet.TimeStretch.reset, Lib.TimeStretch.reset.
  change FifoBuffer.clear with FifoSampleBuffer.clear.
  destruct (FifoSampleBuffer.clear inputBuffer) as [i1| |]; cbn [bind];
    [|split; [reflexivity|intros _; exact I]
     |split; [reflexivity|intros _; exact I]].
  destruct (FifoSampleBuffer.clear outputBuffer) as [o1| |]; cbn [bind];
    (split; [reflexivity|]); intros Ha; try exact I.
  exact Ha.
Qed.

(** [process] does not touch the millisecond settings. *)
Lemma process_step_settings (l l' : Lib.TimeStretch.state)
  (inputBuffer outputBuffer inputBuffer' outputBuffer' : Fifo) :
  Lib.TimeStretch.process_step l inputBuffer outputBuffer
  = Ok (l', inputBuffer', outputBuffer') ->
  Lib.TimeStretch.sequenceMs l' = Lib.TimeStretch.sequenceMs l
  /\ Lib.TimeStretch.seekWindowMs l' = Lib.TimeStretch.seekWindowMs l.
Proof.
  unfold Lib.TimeStretch.process_step, Lib.TimeStretch.seekBestOverlapPosition,
    Lib.TimeStretch.precalcCorrReference.
  destruct (for_range_res _ _ _ _) as [r| |]; cbn [bind]; try discriminate.
  destruct (Lib.TimeStretch.seekBestOverlapPositionQuick _ _) as [offset| |];
    cbn [bind]; try discriminate.
  destruct (FifoSampleBuffer.ensureCapacity _ _) as [o1| |]; cbn [bind];
    try discriminate.
  destruct (Lib.TimeStretch.overlap _ _ _ _) as [o2| |]; cbn [bind];
    try discriminate.
  destruct (if _ : bool then _ else _) as [o3| |]; cbn [bind];
    try discriminate.
  destruct (Lib.TimeStretch.nonnull _) as [m| |]; cbn [bind];
    try discriminate.
  destruct (F32.set m _ 0) as [m'| |]; cbn [bind]; try discriminate.
  intros H. injection H as <- _ _. split; reflexivity.
Qed.

Lemma process_loop_settings (fuel : nat) :
  forall (l l' : Lib.TimeStretch.state)
         (inputBuffer outputBuffer inputBuffer' outputBuffer' : Fifo),
    Lib.TimeStretch.process_loop fuel l inputBuffer outputBuffer
    = Ok (l', inputBuffer', outputBuffer') ->
    Lib.TimeStretch.sequenceMs l' = Lib.TimeStretch.sequenceMs l
    /\ Lib.TimeStretch.seekWindowMs l' = Lib.TimeStretch.seekWindowMs l.
Proof.
  induction fuel as [|fuel IH]; intros l l' i o i' o' H;
    cbn [Lib.TimeStretch.process_loop] in H;
    destruct (Lib.TimeStretch.sampleReq l <=? FifoSampleBuffer.frameCount i);
    try discriminate;
    try (injection H as <- _ _; split; reflexivity).
  destruct (Lib.TimeStretch.process_step l i o) as [[[l1 i1] o1]| |] eqn:Hs;
    cbn [bind] in H; try discriminate.
  apply process_step_settings in Hs. apply IH in H.
  destruct Hs as (E1 & E2). destruct H as (H1 & H2). split; congruence.
Qed.

Lemma process_settings (fuel : nat) (l : Lib.TimeStretch.state)
  (inputBuffer outputBuffer : Fifo) :
  auto_tuned l ->
  result_auto_tuned (Lib.TimeStretch.process fuel l inputBuffer outputBuffer).
Proof.
  intros (Hseq & Hseek). unfold result_auto_tuned.
  destruct (Lib.TimeStretch.process fuel l inputBuffer outputBuffer)
    as [[[l' i'] o']| |] eqn:H; trivial.
  unfold Lib.TimeStretch.process in H.
  assert (Hkeep : Lib.TimeStretch.sequenceMs l' = Lib.TimeStretch.sequenceMs l
                  /\ Lib.TimeStretch.seekWindowMs l'
                     = Lib.TimeStretch.seekWindowMs l).
  { destruct (Lib.TimeStretch.midBuffer_missing l).
    - destruct (FifoSampleBuffer.frameCount inputBuffer
                <? Lib.TimeStretch.overlapLength l).
      + injection H as <- _ _. split; reflexivity.
      + destruct (FifoSampleBuffer.receiveSamples _ _ _) as [[i1 m]| |];
          cbn [bind] in H; try discriminate.
        apply process_loop_settings in H. exact H.
    - apply process_loop_settings in H. exact H. }
  destruct Hkeep as (E1 & E2). unfold auto_tuned. rewrite E1, E2.
  split; assumption.
Qed.

(** C10, counterexample.  With sample rate 8000 and overlap-ms 0 the
    library keeps its stored overlap duration (16 ms, 128 frames) while the
    worklet computes with 0 ms and falls back to the minimum of 16 frames;
    after one [process] call on the same 1000 frames of input the library
    has produced 672 frames and the worklet 784. *)
Lemma C10_counterexample :
  Lib.TimeStretch.overlapLength
    (Lib.TimeStretch.setParameters Lib.TimeStretch.new 8000 0 0 0) = 128
  /\ Worklet.TimeStretch.overlapLength
       (Worklet.TimeStretch.setParameters Worklet.TimeStretch.new 8000 0) = 16
  /\ frames_out
       (Lib.TimeStretch.process 1
          (Lib.TimeStretch.setParameters Lib.TimeStretch.new 8000 0 0 0)
          silence_fifo (FifoSampleBuffer.new 16)) = 672
  /\ frames_out
       (Worklet.TimeStretch.process 1
          (Worklet.TimeStretch.setParameters Worklet.TimeStretch.new 8000 0)
          silence_fifo (FifoBuffer.new 16)) = 784.
Proof.
  repeat split; vm_compute; reflexivity.
Qed.

(** C10, amended.  With auto sequence and seek parameters and an overlap
    duration greater than 0, the worklet's RateTransposer and TimeStretch
    are the library's: the rate transposers are the same functions on the
    same state, and the time stretchers correspond through [to_worklet].
    They start in corresponding states; [setParameters] (with the same
    sample rate and a positive overlap-ms), the [tempo] setter, [reset] and
    [process] take corresponding states and the same FIFOs to corresponding
    states and the same FIFOs, with the same exception or lack of fuel
    otherwise; and the library state stays auto-tuned. *)
Theorem C10_worklet_refines_library :
  (Worklet.RateTransposer.new = Lib.RateTransposer.new
   /\ Worklet.RateTransposer.set_rate = Lib.RateTransposer.set_rate
   /\ Worklet.RateTransposer.reset = Lib.RateTransposer.reset
   /\ Worklet.RateTransposer.process = Lib.RateTransposer.process)
  /\ (Worklet.TimeStretch.new = to_worklet Lib.TimeStretch.new
      /\ auto_tuned Lib.TimeStretch.new)
  /\ (forall (l : Lib.TimeStretch.state) (sampleRate overlapMs : Q),
         (0 < overlapMs)%Q ->
         Worklet.TimeStretch.setParameters (to_worklet l) sampleRate overlapMs
         = to_worklet
             (Lib.TimeStretch.setParameters l sampleRate 0 0 overlapMs)
         /\ auto_tuned
              (Lib.TimeStretch.setParameters l sampleRate 0 0 overlapMs))
  /\ (forall (l : Lib.TimeStretch.state) (value : Q),
         auto_tuned l ->
         Worklet.TimeStretch.set_tempo (to_worklet l) value
         = to_worklet (Lib.TimeStretch.set_tempo l value)
         /\ auto_tuned (Lib.TimeStretch.set_tempo l value))
  /\ (forall (l : Lib.TimeStretch.state) (inputBuffer outputBuffer : Fifo),
         Worklet.TimeStretch.reset (to_worklet l) inputBuffer outputBuffer
         = to_worklet_result
             (Lib.TimeStretch.reset l inputBuffer outputBuffer)
         /\ (auto_tuned l ->
             result_auto_tuned
               (Lib.TimeStretch.reset l inputBuffer outputBuffer)))
  /\ (forall (fuel : nat) (l : Lib.TimeStretch.state)
             (inputBuffer outputBuffer : Fifo),
         Worklet.TimeStretch.process fuel (to_worklet l) inputBuffer
           outputBuffer
         = to_worklet_result
             (Lib.TimeStretch.process fuel l inputBuffer outputBuffer)
         /\ (auto_tuned l ->
             result_auto_tuned
               (Lib.TimeStretch.process fuel l inputBuffer outputBuffer))).
Proof.
  split; [repeat split; reflexivity|].
  split; [split; [reflexivity|split; reflexivity]|].
  split; [intros; apply setParameters_same; assumption|].
  split; [intros; apply set_tempo_same; assumption|].
  split; [intros; apply reset_same|].
  intros fuel l inputBuffer outputBuffer.
  split; [apply timeStretch_process_same|apply process_settings].
Qed.

(** C10 at 44100 Hz with the default overlap of 16 ms, then tempo 1/2, then
    a [process] call on 1000 frames of silence. *)
Lemma C10_witness :
  Worklet.TimeStretch.set_tempo
    (Worklet.TimeStretch.setParameters Worklet.TimeStretch.new 44100 16)
    (1 # 2)
  = to_worklet
      (Lib.TimeStretch.set_tempo
         (Lib.TimeStretch.setParameters Lib.TimeStretch.new 44100 0 0 16)
         (1 # 2))
  /\ result_auto_tuned
       (Lib.TimeStretch.process 1
          (Lib.TimeStretch.setParameters Lib.TimeStretch.new 44100 0 0 16)
          silence_fifo (FifoSampleBuffer.new 16)).
Proof.
  assert (H16 : (0 < 16)%Q) by reflexivity.
  destruct C10_worklet_refines_library
    as (_ & _ & Hset & Htempo & _ & Hprocess).
  destruct (Hset Lib.TimeStretch.new 44100%Q 16%Q H16) as (E & Hauto).
  split.
  - change (Worklet.TimeStretch.setParameters Worklet.TimeStretch.new 44100 16)
      with (Worklet.TimeStretch.setParameters (to_worklet Lib.TimeStretch.new)
              44100 16).
    rewrite E. exact (proj1 (Htempo _ (1 # 2)%Q Hauto)).
  - exact (proj2 (Hprocess 1%nat _ silence_fifo (FifoSampleBuffer.new 16))
             Hauto).
Defined.

(** ** C5: the time stretcher at tempo 1 *)

Lemma for_range_res_some {A : Type}
  (body : Z -> option A -> res (option A)) (count : nat) :
  (forall i a, exists a', body i (Some a) = Ok (Some a')) ->
  forall (start : Z) (a : A),
    exists a', for_range_res start count body (Some a) = Ok (Some a').
Proof.
  intros Hbody. induction count as [|count IH]; intros start a.
  - exists a. reflexivity.
  - cbn [for_range_res]. destruct (Hbody start a) as (a1 & ->).
    cbn [bind]. apply IH.
Qed.

Lemma for_range_res_total {A : Type} (body : Z -> A -> res A) (count : nat) :
  (forall i a, exists a', body i a = Ok a') ->
  forall (start : Z) (a : A),
    exists a', for_range_res start count body a = Ok a'.
Proof.
  intros Hbody. induction count as [|count IH]; intros start a.
  - exists a. reflexivity.
  - cbn [for_range_res]. destruct (Hbody start a) as (a1 & ->).
    cbn [bind]. apply IH.
Qed.

Lemma for_range_res_length (body : Z -> F32.t -> res F32.t) (count : nat) :
  (forall i a a', body i a = Ok a' -> F32.length a' = F32.length a) ->
  forall (start : Z) (a a' : F32.t),
    for_range_res start count body a = Ok a' ->
    F32.length a' = F32.length a.
Proof.
  intros Hbody. induction count as [|count IH]; intros start a a' H.
  - injection H as <-. reflexivity.
  - cbn [for_range_res] in H.
    destruct (body start a) as [a1| |] eqn:E; cbn [bind] in H;
      try discriminate.
    apply IH in H. apply Hbody in E. congruence.
Qed.

Lemma precalcCorrReference_total (ts : Lib.TimeStretch.state) (m r : F32.t) :
  Lib.TimeStretch.midBuffer ts = Some m ->
  Lib.TimeStretch.refMidBuffer ts = Some r ->
  exists r',
    Lib.TimeStretch.precalcCorrReference ts
    = Ok (Lib.TimeStretch.set_refMidBuffer ts (Some r')).
Proof.
  intros Hm Hr. unfold Lib.TimeStretch.precalcCorrReference.
  rewrite Hm, Hr.
  match goal with
  | |- context [for_range_res ?s ?n ?body (Some r)] =>
      destruct (@for_range_res_some _ body n) with (start := s) (a := r)
        as (r' & ->)
  end.
  - intros i a. cbn [Lib.TimeStretch.nonnull bind]. eexists. reflexivity.
  - exists r'. reflexivity.
Qed.

Lemma calculateCrossCorr_total (ts : Lib.TimeStretch.state)
  (inputBuffer : Fifo) (offset : Z) (r : F32.t) :
  Lib.TimeStretch.refMidBuffer ts = Some r ->
  exists corr,
    Lib.TimeStretch.calculateCrossCorr ts inputBuffer offset = Ok corr.
Proof.
  intros Hr. unfold Lib.TimeStretch.calculateCrossCorr. rewrite Hr.
  apply for_range_res_total.
  intros i a. cbn [Lib.TimeStretch.nonnull bind]. eexists. reflexivity.
Qed.

Lemma scan_level_total (ts : Lib.TimeStretch.state) (inputBuffer : Fifo)
  (corrOffset : Z) (r : F32.t) (entries : list Z) :
  Lib.TimeStretch.refMidBuffer ts = Some r ->
  forall (bestOffset : Z) (bestCorr : sample),
    exists best,
      Lib.TimeStretch.scan_level ts inputBuffer corrOffset entries bestOffset
        bestCorr = Ok best.
Proof.
  intros Hr. induction entries as [|entry entries IH];
    intros bestOffset bestCorr; [eexists; reflexivity|].
  cbn [Lib.TimeStretch.scan_level].
  destruct ((0 <=? corrOffset + entry)
            && (corrOffset + entry <? Lib.TimeStretch.seekLength ts)).
  - destruct (calculateCrossCorr_total ts inputBuffer
                ((corrOffset + entry) * 2) Hr) as (corr & ->).
    cbn [bind]. destruct (sgtb corr bestCorr); cbn [bind]; apply IH.
  - cbn [bind]. apply IH.
Qed.

Lemma scan_levels_total (ts : Lib.TimeStretch.state) (inputBuffer : Fifo)
  (r : F32.t) (rows : list (list Z)) :
  Lib.TimeStretch.refMidBuffer ts = Some r ->
  forall (corrOffset bestOffset : Z) (bestCorr : sample),
    exists offset,
      Lib.TimeStretch.scan_levels ts inputBuffer rows corrOffset bestOffset
        bestCorr = Ok offset.
Proof.
  intros Hr. induction rows as [|row rows IH];
    intros corrOffset bestOffset bestCorr; [eexists; reflexivity|].
  cbn [Lib.TimeStretch.scan_levels].
  destruct (scan_level_total ts inputBuffer corrOffset (truthy_prefix row) Hr
              bestOffset bestCorr) as ([b c] & ->).
  cbn [bind]. apply IH.
Qed.

Lemma overlap_total (ts : Lib.TimeStretch.state)
  (inputBuffer outputBuffer : Fifo) (offset : Z) (m : F32.t) :
  Lib.TimeStretch.midBuffer ts = Some m ->
  exists v,
    Lib.TimeStretch.overlap ts inputBuffer outputBuffer offset
    = Ok (mkFifo v (_position outputBuffer) (_frameCount outputBuffer)).
Proof.
  intros Hm. unfold Lib.TimeStretch.overlap. rewrite Hm.
  match goal with
  | |- context [for_range_res ?s ?n ?body ?init] =>
      destruct (@for_range_res_total _ body n) with (start := s) (a := init)
        as (v & ->)
  end.
  - intros i a. cbn [Lib.TimeStretch.nonnull bind]. eexists. reflexivity.
  - exists v. reflexivity.
Qed.

Lemma receive_within (f : Fifo) (n : Z) :
  0 <= n <= _frameCount f ->
  FifoSampleBuffer.receive f n
  = mkFifo (_vector f) (_position f + n) (_frameCount f - n).
Proof.
  intros H. unfold FifoSampleBuffer.receive.
  destruct (Z.ltb_spec n 0); [lia|].
  destruct (Z.ltb_spec (_frameCount f) n); [lia|]. reflexivity.
Qed.

Lemma unit_skip (ts : Lib.TimeStretch.state) :
  unit_tempo ts ->
  Qfloor (Lib.TimeStretch.skipFract ts + Lib.TimeStretch.nominalSkip ts)
  = Lib.TimeStretch.sequenceLength ts - Lib.TimeStretch.overlapLength ts
  /\ (Lib.TimeStretch.skipFract ts + Lib.TimeStretch.nominalSkip ts
      - inject_Z
          (Qfloor (Lib.TimeStretch.skipFract ts
                   + Lib.TimeStretch.nominalSkip ts)) == 0)%Q.
Proof.
  intros (_ & _ & _ & Hskip & Hfract & _).
  assert (E : (Lib.TimeStretch.skipFract ts + Lib.TimeStretch.nominalSkip ts
               == inject_Z (Lib.TimeStretch.sequenceLength ts
                            - Lib.TimeStretch.overlapLength ts))%Q)
    by (rewrite Hskip, Hfract; ring).
  assert (F : Qfloor (Lib.TimeStretch.skipFract ts
                      + Lib.TimeStretch.nominalSkip ts)
              = Lib.TimeStretch.sequenceLength ts
                - Lib.TimeStretch.overlapLength ts)
    by (rewrite (Qfloor_comp _ _ E); apply Qfloor_Z).
  split; [exact F|]. rewrite F, E. ring.
Qed.

Lemma process_step_unit (ts : Lib.TimeStretch.state)
  (inputBuffer outputBuffer : Fifo) (m : F32.t) :
  unit_tempo ts -> Lib.TimeStretch.midBuffer ts = Some m ->
  0 <= _position inputBuffer ->
  Lib.TimeStretch.sampleReq ts <= _frameCount inputBuffer ->
  0 <= _position outputBuffer -> 0 <= _frameCount outputBuffer ->
  exists ts' inputBuffer' outputBuffer' m',
    Lib.TimeStretch.process_step ts inputBuffer outputBuffer
    = Ok (ts', inputBuffer', outputBuffer')
    /\ unit_tempo ts'
    /\ Lib.TimeStretch.midBuffer ts' = Some m'
    /\ Lib.TimeStretch.overlapLength ts' = Lib.TimeStretch.overlapLength ts
    /\ Lib.TimeStretch.sequenceLength ts' = Lib.TimeStretch.sequenceLength ts
    /\ 0 <= _position inputBuffer'
    /\ _frameCount inputBuffer'
       = _frameCount inputBuffer
         - (Lib.TimeStretch.sequenceLength ts
            - Lib.TimeStretch.overlapLength ts)
    /\ 0 <= _position outputBuffer'
    /\ _frameCount outputBuffer'
       = _frameCount outputBuffer
         + (Lib.TimeStretch.sequenceLength ts
            - Lib.TimeStretch.overlapLength ts).
Proof.
  intros Hunit Hm Hip Hfc Hop Hofc.
  destruct (unit_skip Hunit) as (Hfloor & Hnew).
  destruct Hunit as (Hovl & Hseq & Hreq & Hskip & Hfract & (r & Hr) & Hmid).
  pose proof (Hmid m Hm) as Hmlen.
  unfold Lib.TimeStretch.process_step, Lib.TimeStretch.seekBestOverlapPosition.
  destruct (precalcCorrReference_total ts Hm Hr) as (r' & ->). cbn [bind].
  unfold Lib.TimeStretch.seekBestOverlapPositionQuick.
  destruct (@scan_levels_total
              (Lib.TimeStretch.set_refMidBuffer ts (Some r')) inputBuffer r'
              Lib.TimeStretch.SCAN_OFFSETS eq_refl 0 0 (Fin Number_MIN_VALUE))
    as (offset & ->).
  cbn [bind].
  cbn [Lib.TimeStretch.set_refMidBuffer Lib.TimeStretch.overlapLength
       Lib.TimeStretch.seekWindowLength Lib.TimeStretch.sequenceLength
       Lib.TimeStretch.midBuffer Lib.TimeStretch.skipFract
       Lib.TimeStretch.nominalSkip].
  unfold FifoSampleBuffer.frameCount.
  destruct (ensureCapacity_total outputBuffer
              (_frameCount outputBuffer + Lib.TimeStretch.overlapLength ts)
              Hop) as (v1 & -> & Hlen1).
  cbn [bind].
  destruct (@overlap_total (Lib.TimeStretch.set_refMidBuffer ts (Some r'))
              inputBuffer (mkFifo v1 0 (_frameCount outputBuffer)) offset m Hm)
    as (v2 & Hov).
  cbn [Lib.TimeStretch.set_refMidBuffer] in Hov. rewrite Hov. cbn [bind].
  unfold FifoSampleBuffer.put. cbn [_position _frameCount _vector].
  rewrite Hm. cbn [Lib.TimeStretch.nonnull].
  pose proof (subarray_length_le_count (FifoSampleBuffer.vector inputBuffer)
                (FifoSampleBuffer.startIndex inputBuffer
                 + (offset + Lib.TimeStretch.sequenceLength ts
                    - Lib.TimeStretch.overlapLength ts) * 2)
                (c := Lib.TimeStretch.overlapLength ts * 2)) as Hsub.
  assert (Hset : exists m',
             F32.set m
               (F32.subarray (FifoSampleBuffer.vector inputBuffer)
                  (FifoSampleBuffer.startIndex inputBuffer
                   + (offset + Lib.TimeStretch.sequenceLength ts
                      - Lib.TimeStretch.overlapLength ts) * 2)
                  (FifoSampleBuffer.startIndex inputBuffer
                   + (offset + Lib.TimeStretch.sequenceLength ts
                      - Lib.TimeStretch.overlapLength ts) * 2
                   + Lib.TimeStretch.overlapLength ts * 2)) 0 = Ok m'
             /\ F32.length m' = Lib.TimeStretch.overlapLength ts * 2).
  { rewrite F32_set_ok by lia. eexists. split; [reflexivity|].
    erewrite F32_set_length by (apply F32_set_ok; lia). exact Hmlen. }
  destruct Hset as (m' & Hset & Hm'len).
  assert (Hput : exists o3,
             (if 0 <? Lib.TimeStretch.sequenceLength ts
                      - 2 * Lib.TimeStretch.overlapLength ts
              then
                FifoSampleBuffer.putBuffer
                  (mkFifo v2 0 (_frameCount outputBuffer
                                + Lib.TimeStretch.overlapLength ts))
                  inputBuffer (offset + Lib.TimeStretch.overlapLength ts)
                  (Some (Lib.TimeStretch.sequenceLength ts
                         - 2 * Lib.TimeStretch.overlapLength ts))
              else
                Ok (mkFifo v2 0 (_frameCount outputBuffer
                                 + Lib.TimeStretch.overlapLength ts)))
             = Ok o3
             /\ 0 <= _position o3
             /\ _frameCount o3
                = _frameCount outputBuffer
                  + (Lib.TimeStretch.sequenceLength ts
                     - Lib.TimeStretch.overlapLength ts)).
  { destruct (Z.ltb_spec 0 (Lib.TimeStretch.sequenceLength ts
                            - 2 * Lib.TimeStretch.overlapLength ts)).
    - unfold FifoSampleBuffer.putBuffer.
      destruct (@putSamples_total
                  (mkFifo v2 0 (_frameCount outputBuffer
                                + Lib.TimeStretch.overlapLength ts))
                  (FifoSampleBuffer.vector inputBuffer)
                  (FifoSampleBuffer.position inputBuffer
                   + (offset + Lib.TimeStretch.overlapLength ts))
                  (Lib.TimeStretch.sequenceLength ts
                   - 2 * Lib.TimeStretch.overlapLength ts))
        as (v3 & -> & _); cbn [_position _frameCount]; try lia.
      eexists. split; [reflexivity|]. cbn [_position _frameCount]. lia.
    - eexists. split; [reflexivity|]. cbn [_position _frameCount]. lia. }
  destruct Hput as (o3 & -> & Ho3p & Ho3c).
  cbn [bind]. rewrite Hset. cbn [bind].
  cbn [Lib.TimeStretch.set_skipFract Lib.TimeStretch.set_midBuffer
       Lib.TimeStretch.set_refMidBuffer Lib.TimeStretch.skipFract
       Lib.TimeStretch.nominalSkip].
  rewrite Hfloor.
  rewrite receive_within by lia.
  eexists _, _, _, m'. split; [reflexivity|].
  split.
  { unfold unit_tempo.
    cbn [Lib.TimeStretch.overlapLength
         Lib.TimeStretch.sequenceLength Lib.TimeStretch.sampleReq
         Lib.TimeStretch.nominalSkip Lib.TimeStretch.skipFract
         Lib.TimeStretch.refMidBuffer Lib.TimeStretch.midBuffer].
    split; [exact Hovl|]. split; [exact Hseq|]. split; [exact Hreq|].
    split; [exact Hskip|].
    split; [rewrite <- Hfloor; exact Hnew|].
    split; [exists r'; reflexivity|].
    intros m0 E. injection E as <-. exact Hm'len. }
  cbn [Lib.TimeStretch.overlapLength Lib.TimeStretch.sequenceLength
       Lib.TimeStretch.midBuffer _position _frameCount].
  split; [reflexivity|]. split; [reflexivity|]. split; [reflexivity|].
  split; [lia|]. split; [reflexivity|]. split; assumption.
Qed.

Lemma held_frames_present (ts : Lib.TimeStretch.state) (m : F32.t) :
  unit_tempo ts -> Lib.TimeStretch.midBuffer ts = Some m ->
  held_frames ts = Lib.TimeStretch.overlapLength ts.
Proof.
  intros (Hovl & _ & _ & _ & _ & _ & Hmid) Hm.
  unfold held_frames, Lib.TimeStretch.midBuffer_missing. rewrite Hm.
  rewrite (Hmid m Hm).
  destruct (Z.eqb_spec (Lib.TimeStretch.overlapLength ts * 2) 0); [lia|].
  reflexivity.
Qed.

Lemma process_loop_unit (fuel : nat) :
  forall (ts : Lib.TimeStretch.state) (inputBuffer outputBuffer : Fifo)
         (m : F32.t),
    unit_tempo ts -> Lib.TimeStretch.midBuffer ts = Some m ->
    0 <= _position inputBuffer -> 0 <= _frameCount inputBuffer ->
    0 <= _position outputBuffer -> 0 <= _frameCount outputBuffer ->
    _frameCount inputBuffer <= Z.of_nat fuel ->
    exists ts' inputBuffer' outputBuffer' m',
      Lib.TimeStretch.process_loop fuel ts inputBuffer outputBuffer
      = Ok (ts', inputBuffer', outputBuffer')
      /\ unit_tempo ts'
      /\ Lib.TimeStretch.midBuffer ts' = Some m'
      /\ Lib.TimeStretch.overlapLength ts' = Lib.TimeStretch.overlapLength ts
      /\ Lib.TimeStretch.sequenceLength ts'
         = Lib.TimeStretch.sequenceLength ts
      /\ 0 <= _position inputBuffer' /\ 0 <= _frameCount inputBuffer'
      /\ 0 <= _position outputBuffer' /\ 0 <= _frameCount outputBuffer'
      /\ _frameCount inputBuffer' + _frameCount outputBuffer'
         = _frameCount inputBuffer + _frameCount outputBuffer
      /\ _frameCount inputBuffer' <= _frameCount inputBuffer.
Proof.
  induction fuel as [|fuel IH];
    intros ts inputBuffer outputBuffer m Hunit Hm Hip Hic Hop Hoc Hf;
    cbn [Lib.TimeStretch.process_loop];
    unfold FifoSampleBuffer.frameCount;
    destruct (Z.leb_spec (Lib.TimeStretch.sampleReq ts)
                (_frameCount inputBuffer)) as [Hreq|Hreq];
    try (exists ts, inputBuffer, outputBuffer, m;
         repeat (split; [first [reflexivity | assumption]|]); lia).
  - destruct Hunit as (Hovl & Hseq & Hsr & _). lia.
  - destruct (@process_step_unit ts inputBuffer outputBuffer m Hunit Hm Hip Hreq
                Hop Hoc)
      as (ts1 & i1 & o1 & m1 & -> & Hunit1 & Hm1 & Eo & Es & Hi1p & Hi1c
          & Ho1p & Ho1c).
    cbn [bind].
    destruct Hunit as (Hovl & Hseq & Hsr & _).
    destruct (IH ts1 i1 o1 m1 Hunit1 Hm1 Hi1p) as
      (ts' & i' & o' & m' & -> & Hunit' & Hm' & Eo' & Es' & Hi'p & Hi'c
       & Ho'p & Ho'c & Hsum & Hle); try lia.
    exists ts', i', o', m'.
    split; [reflexivity|]. split; [exact Hunit'|]. split; [exact Hm'|].
    split; [congruence|]. split; [congruence|].
    repeat (split; [first [assumption | lia]|]). lia.
Qed.

Lemma process_unit (fuel : nat) (ts : Lib.TimeStretch.state)
  (inputBuffer outputBuffer : Fifo) :
  unit_tempo ts ->
  0 <= _position inputBuffer -> 0 <= _frameCount inputBuffer ->
  0 <= _position outputBuffer -> 0 <= _frameCount outputBuffer ->
  _frameCount inputBuffer <= Z.of_nat fuel ->
  exists ts' inputBuffer' outputBuffer',
    Lib.TimeStretch.process fuel ts inputBuffer outputBuffer
    = Ok (ts', inputBuffer', outputBuffer')
    /\ unit_tempo ts'
    /\ Lib.TimeStretch.overlapLength ts' = Lib.TimeStretch.overlapLength ts
    /\ 0 <= _position inputBuffer' /\ 0 <= _frameCount inputBuffer'
    /\ 0 <= _position outputBuffer' /\ 0 <= _frameCount outputBuffer'
    /\ held_frames ts <= held_frames ts'
    /\ _frameCount inputBuffer' + _frameCount outputBuffer' + held_frames ts'
       = _frameCount inputBuffer + _frameCount outputBuffer + held_frames ts
    /\ _frameCount inputBuffer' <= _frameCount inputBuffer.
Proof.
  intros Hunit Hip Hic Hop Hoc Hf.
  unfold Lib.TimeStretch.process.
  destruct (Lib.TimeStretch.midBuffer ts) as [m|] eqn:Hm.
  - (* the mid buffer exists *)
    assert (Hmiss : Lib.TimeStretch.midBuffer_missing ts = false).
    { unfold Lib.TimeStretch.midBuffer_missing. rewrite Hm.
      destruct Hunit as (Hovl & _ & _ & _ & _ & _ & Hmid).
      rewrite (Hmid m Hm). apply Z.eqb_neq. lia. }
    rewrite Hmiss.
    destruct (@process_loop_unit fuel ts inputBuffer outputBuffer m Hunit Hm Hip
                Hic Hop Hoc Hf)
      as (ts' & i' & o' & m' & -> & Hunit' & Hm' & Eo & Es & Hi'p & Hi'c
          & Ho'p & Ho'c & Hsum & Hle).
    exists ts', i', o'.
    rewrite (@held_frames_present ts m Hunit Hm),
      (@held_frames_present ts' m' Hunit' Hm').
    repeat (split; [first [reflexivity | assumption | lia]|]); lia.
  - (* after a reset: seed the mid buffer *)
    assert (Hheld : held_frames ts = 0).
    { unfold held_frames, Lib.TimeStretch.midBuffer_missing. rewrite Hm.
      reflexivity. }
    unfold Lib.TimeStretch.midBuffer_missing. rewrite Hm.
    unfold FifoSampleBuffer.frameCount.
    destruct (Z.ltb_spec (_frameCount inputBuffer)
                (Lib.TimeStretch.overlapLength ts)) as [Hlt|Hge].
    + exists ts, inputBuffer, outputBuffer.
      repeat (split; [first [reflexivity | assumption | lia]|]); lia.
    + pose proof Hunit as (Hovl & Hseq & Hsr & Hskip & Hfract & Href & Hmid).
      unfold FifoSampleBuffer.receiveSamples.
      pose proof (subarray_length_le_count (_vector inputBuffer)
                    (FifoSampleBuffer.startIndex inputBuffer)
                    (c := Lib.TimeStretch.overlapLength ts * 2)) as Hsub.
      assert (Hnew : F32.length (F32.new (Lib.TimeStretch.overlapLength ts * 2))
                     = Lib.TimeStretch.overlapLength ts * 2)
        by (rewrite F32_length_new; lia).
      assert (Hset : exists m,
                 F32.set (F32.new (Lib.TimeStretch.overlapLength ts * 2))
                   (F32.subarray (_vector inputBuffer)
                      (FifoSampleBuffer.startIndex inputBuffer)
                      (FifoSampleBuffer.startIndex inputBuffer
                       + Lib.TimeStretch.overlapLength ts * 2)) 0 = Ok m
                 /\ F32.length m = Lib.TimeStretch.overlapLength ts * 2).
      { rewrite F32_set_ok by lia. eexists. split; [reflexivity|].
        erewrite F32_set_length by (apply F32_set_ok; lia). exact Hnew. }
      destruct Hset as (m & -> & Hmlen). cbn [bind].
      rewrite receive_within by lia.
      assert (Hunit1 : unit_tempo (Lib.TimeStretch.set_midBuffer ts (Some m))).
      { unfold unit_tempo.
        cbn [Lib.TimeStretch.set_midBuffer Lib.TimeStretch.overlapLength
             Lib.TimeStretch.sequenceLength Lib.TimeStretch.sampleReq
             Lib.TimeStretch.nominalSkip Lib.TimeStretch.skipFract
             Lib.TimeStretch.refMidBuffer Lib.TimeStretch.midBuffer].
        split; [exact Hovl|]. split; [exact Hseq|]. split; [exact Hsr|].
        split; [exact Hskip|]. split; [exact Hfract|].
        split; [exact Href|].
        intros m0 E. injection E as <-. exact Hmlen. }
      destruct (@process_loop_unit fuel
                  (Lib.TimeStretch.set_midBuffer ts (Some m))
                  (mkFifo (_vector inputBuffer)
                     (_position inputBuffer + Lib.TimeStretch.overlapLength ts)
                     (_frameCount inputBuffer
                      - Lib.TimeStretch.overlapLength ts))
                  outputBuffer m Hunit1 eq_refl)
        as (ts' & i' & o' & m' & -> & Hunit' & Hm' & Eo & Es & Hi'p & Hi'c
            & Ho'p & Ho'c & Hsum & Hle); cbn [_position _frameCount]; try lia.
      cbn [_frameCount Lib.TimeStretch.set_midBuffer
           Lib.TimeStretch.overlapLength] in Hsum, Eo, Hle.
      exists ts', i', o'.
      rewrite Hheld, (@held_frames_present ts' m' Hunit' Hm').
      repeat (split; [first [reflexivity | assumption | lia]|]); lia.
Qed.

Lemma stretch_blocks_unit (fuel : nat) (blocks : list (F32.t * Z)) :
  forall (ts : Lib.TimeStretch.state) (inputBuffer outputBuffer : Fifo),
    unit_tempo ts -> blocks_nonneg blocks ->
    0 <= _position inputBuffer -> 0 <= _frameCount inputBuffer ->
    0 <= _position outputBuffer -> 0 <= _frameCount outputBuffer ->
    _frameCount inputBuffer + frames_fed blocks <= Z.of_nat fuel ->
    exists ts' inputBuffer' outputBuffer',
      stretch_blocks fuel ts inputBuffer outputBuffer blocks
      = Ok (ts', inputBuffer', outputBuffer')
      /\ unit_tempo ts'
      /\ Lib.TimeStretch.overlapLength ts' = Lib.TimeStretch.overlapLength ts
      /\ 0 <= _frameCount inputBuffer' /\ 0 <= _frameCount outputBuffer'
      /\ held_frames ts <= held_frames ts'
      /\ _frameCount inputBuffer' + _frameCount outputBuffer'
         + held_frames ts'
         = _frameCount inputBuffer + frames_fed blocks
           + _frameCount outputBuffer + held_frames ts.
Proof.
  induction blocks as [|[samples numFrames] blocks IH];
    intros ts inputBuffer outputBuffer Hunit Hblocks Hip Hic Hop Hoc Hf.
  - exists ts, inputBuffer, outputBuffer. cbn [stretch_blocks frames_fed fold_right].
    repeat (split; [first [reflexivity | assumption | lia]|]). lia.
  - cbn [stretch_blocks].
    inversion Hblocks as [|block blocks0 Hn Hrest]; subst.
    cbn [snd] in Hn.
    assert (Hfed : 0 <= frames_fed blocks).
    { clear -Hrest. induction Hrest as [|block blocks Hb _ IHb];
        cbn [frames_fed fold_right]; [lia|].
      change (fold_right (fun block acc => snd block + acc) 0 blocks)
        with (frames_fed blocks). lia. }
    change (frames_fed ((samples, numFrames) :: blocks))
      with (numFrames + frames_fed blocks) in *.
    destruct (putSamples_total inputBuffer samples 0 Hip Hic Hn)
      as (v & -> & _).
    cbn [bind].
    destruct (@process_unit fuel ts
                (mkFifo v 0 (_frameCount inputBuffer + numFrames))
                outputBuffer Hunit)
      as (ts1 & i1 & o1 & -> & Hunit1 & Eo1 & Hi1p & Hi1c & Ho1p & Ho1c
          & Hheld1 & Hsum1 & Hle1); cbn [_position _frameCount]; try lia.
    cbn [bind _frameCount] in *.
    destruct (IH ts1 i1 o1 Hunit1 Hrest Hi1p Hi1c Ho1p Ho1c)
      as (ts' & i' & o' & -> & Hunit' & Eo' & Hi'c & Ho'c & Hheld' & Hsum');
      [lia|].
    exists ts', i', o'.
    split; [reflexivity|]. split; [exact Hunit'|].
    split; [congruence|].
    repeat (split; [first [assumption | lia]|]). lia.
Qed.

(** Implicit arguments are not inferred for the statements below, which
    mention configured stretchers inside comparisons. *)
Unset Implicit Arguments.

Lemma configured_eq (ts0 : Lib.TimeStretch.state) (sampleRate overlapMs : Q) :
  configured ts0 sampleRate overlapMs
  = Lib.TimeStretch.set_tempo
      (Lib.TimeStretch.setParameters ts0 sampleRate 0 0 overlapMs) 1.
Proof. reflexivity. Qed.

Lemma set_tempo_keeps (ts : Lib.TimeStretch.state) (value : Q) :
  Lib.TimeStretch.sampleRate (Lib.TimeStretch.set_tempo ts value)
  = Lib.TimeStretch.sampleRate ts
  /\ Lib.TimeStretch.seekWindowMs (Lib.TimeStretch.set_tempo ts value)
     = Lib.TimeStretch.seekWindowMs ts
  /\ Lib.TimeStretch.overlapLength (Lib.TimeStretch.set_tempo ts value)
     = Lib.TimeStretch.overlapLength ts
  /\ Lib.TimeStretch.midBuffer (Lib.TimeStretch.set_tempo ts value)
     = Lib.TimeStretch.midBuffer ts
  /\ Lib.TimeStretch.refMidBuffer (Lib.TimeStretch.set_tempo ts value)
     = Lib.TimeStretch.refMidBuffer ts.
Proof. repeat split. Qed.

Lemma set_tempo_unit (ts : Lib.TimeStretch.state) :
  Lib.TimeStretch.skipFract (Lib.TimeStretch.set_tempo ts 1) = 0%Q
  /\ Lib.TimeStretch.nominalSkip (Lib.TimeStretch.set_tempo ts 1)
     = (1 * inject_Z
              (Lib.TimeStretch.sequenceLength (Lib.TimeStretch.set_tempo ts 1)
               - Lib.TimeStretch.overlapLength
                   (Lib.TimeStretch.set_tempo ts 1)))%Q
  /\ Lib.TimeStretch.sampleReq (Lib.TimeStretch.set_tempo ts 1)
     = Z.max
         (Qfloor (Lib.TimeStretch.nominalSkip (Lib.TimeStretch.set_tempo ts 1)
                  + (1 # 2))
          + Lib.TimeStretch.overlapLength (Lib.TimeStretch.set_tempo ts 1))
         (Lib.TimeStretch.sequenceLength (Lib.TimeStretch.set_tempo ts 1))
       + Lib.TimeStretch.seekLength (Lib.TimeStretch.set_tempo ts 1).
Proof. repeat split. Qed.

Lemma set_tempo_seekLength (ts : Lib.TimeStretch.state) (value : Q) :
  Lib.TimeStretch.seekWindowMs ts = 0%Q ->
  (0 < Lib.TimeStretch.sampleRate ts)%Q ->
  0 <= Lib.TimeStretch.seekLength (Lib.TimeStretch.set_tempo ts value).
Proof.
  destruct ts as [sr t sqm skm ovm sql skl ovl ns sf mb rmb rq].
  cbn [Lib.TimeStretch.seekWindowMs Lib.TimeStretch.sampleRate].
  intros -> Hsr.
  unfold Lib.TimeStretch.set_tempo, Lib.TimeStretch.calculateEffectiveParams.
  cbn [Lib.TimeStretch.seekLength Lib.TimeStretch.seekWindowMs
       Lib.TimeStretch.sampleRate Lib.TimeStretch._tempo].
  change (Qeqb 0 0) with true. cbv iota.
  set (seekMs := Qmax 15 _).
  assert (15 <= seekMs)%Q by (subst seekMs; apply Q.le_max_l).
  change 0 with (Qfloor 0). apply Qfloor_resp_le.
  apply Qle_shift_div_l; [reflexivity|].
  nra.
Qed.

Lemma setParameters_fields (ts0 : Lib.TimeStretch.state) (sr ov : Q) :
  (0 < sr)%Q ->
  Lib.TimeStretch.seekWindowMs (Lib.TimeStretch.setParameters ts0 sr 0 0 ov)
  = 0%Q
  /\ (0 < Lib.TimeStretch.sampleRate
             (Lib.TimeStretch.setParameters ts0 sr 0 0 ov))%Q
  /\ 16 <= Lib.TimeStretch.overlapLength
             (Lib.TimeStretch.setParameters ts0 sr 0 0 ov)
  /\ Lib.TimeStretch.midBuffer (Lib.TimeStretch.setParameters ts0 sr 0 0 ov)
     = Some (F32.new
               (Lib.TimeStretch.overlapLength
                  (Lib.TimeStretch.setParameters ts0 sr 0 0 ov) * 2))
  /\ Lib.TimeStretch.refMidBuffer
       (Lib.TimeStretch.setParameters ts0 sr 0 0 ov)
     = Some (F32.new
               (Lib.TimeStretch.overlapLength
                  (Lib.TimeStretch.setParameters ts0 sr 0 0 ov) * 2)).
Proof.
  intros Hsr.
  split; [reflexivity|].
  split.
  { unfold Lib.TimeStretch.setParameters.
    rewrite (proj2 (Qltb_lt 0 sr) Hsr). exact Hsr. }
  split.
  { apply Lib_setParameters_overlapLength_bounds. }
  split; reflexivity.
Qed.

(** Setting tempo 1 on a stretcher with an auto seek duration, allocated
    overlap buffers and a sequence of two overlap windows or more. *)
Lemma set_tempo_unit_regime (p : Lib.TimeStretch.state) :
  Lib.TimeStretch.seekWindowMs p = 0%Q ->
  (0 < Lib.TimeStretch.sampleRate p)%Q ->
  16 <= Lib.TimeStretch.overlapLength p ->
  Lib.TimeStretch.midBuffer p
  = Some (F32.new (Lib.TimeStretch.overlapLength p * 2)) ->
  Lib.TimeStretch.refMidBuffer p
  = Some (F32.new (Lib.TimeStretch.overlapLength p * 2)) ->
  2 * Lib.TimeStretch.overlapLength p
  <= Lib.TimeStretch.sequenceLength (Lib.TimeStretch.set_tempo p 1) ->
  unit_tempo (Lib.TimeStretch.set_tempo p 1)
  /\ held_frames (Lib.TimeStretch.set_tempo p 1)
     = Lib.TimeStretch.overlapLength p.
Proof.
  intros Eseek Hsr Hovl Em Er Hseq.
  pose proof (@set_tempo_seekLength p 1 Eseek Hsr) as Hseek.
  destruct (@set_tempo_keeps p 1) as (_ & _ & Eo & Em' & Er').
  destruct (@set_tempo_unit p) as (Ef & En & Eq).
  remember (Lib.TimeStretch.set_tempo p 1) as ts eqn:Ets.
  assert (Hunit : unit_tempo ts).
  { unfold unit_tempo.
    split; [lia|]. split; [lia|]. split; [lia|].
    split; [rewrite En; apply Qmult_1_l|].
    split; [rewrite Ef; reflexivity|].
    split; [rewrite Er', Er; eexists; reflexivity|].
    intros m Hm. rewrite Em', Em in Hm.
    replace m with (F32.new (Lib.TimeStretch.overlapLength p * 2))
      by congruence.
    rewrite F32_length_new. lia. }
  split; [exact Hunit|].
  rewrite <- Eo.
  apply (@held_frames_present ts (F32.new (Lib.TimeStretch.overlapLength p * 2))
           Hunit).
  rewrite Em'. exact Em.
Qed.

(** A stretcher configured with auto parameters at tempo 1 whose sequence
    holds two overlap windows is in the [unit_tempo] regime. *)
Lemma configured_unit (ts0 : Lib.TimeStretch.state) (sr ov : Q) :
  (0 < sr)%Q ->
  2 * Lib.TimeStretch.overlapLength (configured ts0 sr ov)
  <= Lib.TimeStretch.sequenceLength (configured ts0 sr ov) ->
  unit_tempo (configured ts0 sr ov)
  /\ held_frames (configured ts0 sr ov)
     = Lib.TimeStretch.overlapLength (configured ts0 sr ov).
Proof.
  intros Hsr. rewrite configured_eq.
  pose proof (@setParameters_fields ts0 sr ov Hsr) as Hfields.
  generalize dependent (Lib.TimeStretch.setParameters ts0 sr 0 0 ov).
  intros p (Eseek & Hsrp & Hovl & Em & Er).
  rewrite (proj1 (proj2 (proj2 (@set_tempo_keeps p 1)))).
  intros Hseq.
  apply (@set_tempo_unit_regime p); assumption.
Qed.

(** [reset()] keeps the regime and empties the mid buffer. *)
Lemma reset_unit (ts : Lib.TimeStretch.state) :
  unit_tempo ts ->
  let ts' :=
    Lib.TimeStretch.set_skipFract (Lib.TimeStretch.set_midBuffer ts None) 0 in
  unit_tempo ts' /\ held_frames ts' = 0
  /\ Lib.TimeStretch.overlapLength ts' = Lib.TimeStretch.overlapLength ts.
Proof.
  intros (Hovl & Hseq & Hreq & Hskip & _ & Href & _). cbv zeta.
  split; [|split; reflexivity].
  unfold unit_tempo.
  cbn [Lib.TimeStretch.set_skipFract Lib.TimeStretch.set_midBuffer
       Lib.TimeStretch.overlapLength Lib.TimeStretch.sequenceLength
       Lib.TimeStretch.sampleReq Lib.TimeStretch.nominalSkip
       Lib.TimeStretch.skipFract Lib.TimeStretch.refMidBuffer
       Lib.TimeStretch.midBuffer].
  repeat (split; [first [assumption | reflexivity]|]).
  intros m Hm. discriminate Hm.
Qed.

(** Both ways of starting give empty FIFOs at position 0. *)
Lemma started_ok (reset_first : bool) (ts : Lib.TimeStretch.state) :
  exists inputBuffer outputBuffer,
    started reset_first ts
    = Ok (if reset_first
          then Lib.TimeStretch.set_skipFract
                 (Lib.TimeStretch.set_midBuffer ts None) 0
          else ts, inputBuffer, outputBuffer)
    /\ _position inputBuffer = 0 /\ _frameCount inputBuffer = 0
    /\ _position outputBuffer = 0 /\ _frameCount outputBuffer = 0.
Proof.
  destruct reset_first;
    exists (mkFifo (F32.new (4096 * 2)) 0 0), (mkFifo (F32.new (4096 * 2)) 0 0);
    repeat split.
Qed.

(** C5, counterexample.  At a sample rate of 300 Hz with the default
    overlap duration the sequence has 30 frames and the overlap window 16:
    every iteration emits the 16 overlapped frames and no middle section
    while the input advances by 14 frames.  After 200 frames of input the
    stretcher has consumed 168 frames and produced 192; after 1000 frames
    it has consumed 966 and produced 1104.  The surplus grows with the
    length of the run and exceeds the overlap window. *)
Lemma C5_counterexample :
  Lib.TimeStretch.overlapLength (configured Lib.TimeStretch.new 300 16) = 16
  /\ Lib.TimeStretch.sequenceLength (configured Lib.TimeStretch.new 300 16)
     = 30
  /\ (let run :=
        stretch_run 200 false (configured Lib.TimeStretch.new 300 16)
          [(F32.new 400, 200)] in
      200 - frames_in run = 168 /\ frames_out run = 192)
  /\ (let run :=
        stretch_run 1000 false (configured Lib.TimeStretch.new 300 16)
          [(F32.new 2000, 1000)] in
      1000 - frames_in run = 966 /\ frames_out run = 1104).
Proof.
  cbv zeta.
  split; [vm_compute; reflexivity|].
  split; [vm_compute; reflexivity|].
  split; (split; vm_compute; reflexivity).
Qed.

(** C5, amended.  Take a TimeStretch configured with any positive sample
    rate, auto sequence and seek durations and tempo exactly 1, whose
    sequence holds at least two overlap windows, with the FIFOs of its
    constructor, optionally [reset()] first.  For every run that feeds
    blocks of frames and calls [process()] after each, with enough fuel for
    the loop, every call returns, and at the end the number of input frames
    consumed minus the number of output frames produced is the number of
    frames seeded into the mid buffer: 0 without the [reset()], and after a
    [reset()] either 0 or exactly one overlap window.  The skip fraction is
    0 at the end. *)
Theorem C5_unit_tempo_keeps_length
  (ts0 : Lib.TimeStretch.state) (sampleRate overlapMs : Q)
  (reset_first : bool) (blocks : list (F32.t * Z)) (fuel : nat) :
  (0 < sampleRate)%Q ->
  2 * Lib.TimeStretch.overlapLength (configured ts0 sampleRate overlapMs)
  <= Lib.TimeStretch.sequenceLength (configured ts0 sampleRate overlapMs) ->
  blocks_nonneg blocks ->
  frames_fed blocks <= Z.of_nat fuel ->
  exists ts' inputBuffer' outputBuffer',
    stretch_run fuel reset_first (configured ts0 sampleRate overlapMs) blocks
    = Ok (ts', inputBuffer', outputBuffer')
    /\ (frames_fed blocks - _frameCount inputBuffer')
       - _frameCount outputBuffer'
       = (if reset_first then held_frames ts' else 0)
    /\ (held_frames ts' = 0
        \/ held_frames ts'
           = Lib.TimeStretch.overlapLength
               (configured ts0 sampleRate overlapMs))
    /\ 0 <= _frameCount inputBuffer' <= frames_fed blocks
    /\ 0 <= _frameCount outputBuffer'
    /\ (Lib.TimeStretch.skipFract ts' == 0)%Q.
Proof.
  intros Hsr Hseq Hblocks Hfuel.
  destruct (@configured_unit ts0 sampleRate overlapMs Hsr Hseq) as (Hunit & Hheld).
  set (ts := configured ts0 sampleRate overlapMs) in *.
  assert (Hheld' : forall ts', Lib.TimeStretch.overlapLength ts'
                               = Lib.TimeStretch.overlapLength ts ->
                     held_frames ts' = 0
                     \/ held_frames ts' = Lib.TimeStretch.overlapLength ts).
  { intros ts' E. unfold held_frames.
    destruct (Lib.TimeStretch.midBuffer_missing ts'); [left|right]; congruence. }
  unfold stretch_run.
  destruct (started_ok reset_first ts)
    as (i & o & -> & Hip & Hic & Hop & Hoc).
  cbn [bind].
  assert (Hstart : exists ts1,
             ts1 = (if reset_first
                    then Lib.TimeStretch.set_skipFract
                           (Lib.TimeStretch.set_midBuffer ts None) 0
                    else ts)
             /\ unit_tempo ts1
             /\ Lib.TimeStretch.overlapLength ts1
                = Lib.TimeStretch.overlapLength ts
             /\ held_frames ts1
                = if reset_first then 0
                  else Lib.TimeStretch.overlapLength ts).
  { eexists. split; [reflexivity|].
    destruct reset_first.
    - destruct (@reset_unit ts Hunit) as (Hunit0 & Hheld0 & Eo0).
      split; [exact Hunit0|]. split; [exact Eo0|exact Hheld0].
    - split; [exact Hunit|]. split; [reflexivity|exact Hheld]. }
  destruct Hstart as (ts1 & <- & Hunit1 & Eo1 & Hheld1).
  destruct (@stretch_blocks_unit fuel blocks ts1 i o Hunit1 Hblocks)
    as (ts' & i' & o' & -> & Hunit' & Eo' & Hi'c & Ho'c & Hmono & Hsum);
    try lia.
  exists ts', i', o'.
  split; [reflexivity|].
  pose proof (Hheld' ts' (eq_trans Eo' Eo1)) as Hcases.
  pose proof Hunit as (Hovl & _).
  split; [destruct reset_first; lia|].
  split; [exact Hcases|].
  split; [lia|]. split; [exact Ho'c|].
  apply Hunit'.
Qed.

(** C5 at 44100 Hz with the default overlap of 16 ms (a sequence of 4410
    frames, an overlap window of 704), after a [reset()], on one block of
    6000 frames. *)
Lemma C5_witness :
  exists ts' inputBuffer' outputBuffer',
    stretch_run (Z.to_nat 6000) true (configured Lib.TimeStretch.new 44100 16)
      [(F32.new 12000, 6000)]
    = Ok (ts', inputBuffer', outputBuffer')
    /\ (frames_fed [(F32.new 12000, 6000)] - _frameCount inputBuffer')
       - _frameCount outputBuffer'
       = (if true then held_frames ts' else 0)
    /\ (held_frames ts' = 0
        \/ held_frames ts'
           = Lib.TimeStretch.overlapLength
               (configured Lib.TimeStretch.new 44100 16))
    /\ 0 <= _frameCount inputBuffer' <= frames_fed [(F32.new 12000, 6000)]
    /\ 0 <= _frameCount outputBuffer'
    /\ (Lib.TimeStretch.skipFract ts' == 0)%Q.
Proof.
  apply (C5_unit_tempo_keeps_length Lib.TimeStretch.new 44100 16 true
           [(F32.new 12000, 6000)] (Z.to_nat 6000)).
  - reflexivity.
  - vm_compute. discriminate.
  - constructor; [cbn; lia | constructor].
  - vm_compute. discriminate.
Defined.

(** * Further properties of the code *)

(** ** The FIFO as a queue *)

Lemma F32_subarray_in_range (v : F32.t) (b e : Z) :
  0 <= b <= e -> e <= F32.length v ->
  F32.subarray v b e = firstn (Z.to_nat (e - b)) (skipn (Z.to_nat b) v).
Proof.
  intros Hb He. unfold F32.subarray, F32.relative.
  destruct (Z.ltb_spec b 0); [lia|]. destruct (Z.ltb_spec e 0); [lia|].
  rewrite !Z.min_l by lia. rewrite Z.max_l by lia. reflexivity.
Qed.

Lemma live_wf (f : Fifo) :
  fifo_wf f ->
  live f = firstn (Z.to_nat (_frameCount f * 2))
             (skipn (Z.to_nat (_position f * 2)) (_vector f))
  /\ F32.length (live f) = _frameCount f * 2.
Proof.
  intros (Hp & Hc & Hlen). unfold live, FifoSampleBuffer.startIndex,
    FifoSampleBuffer.endIndex.
  rewrite F32_subarray_in_range by lia.
  replace ((_position f + _frameCount f) * 2 - _position f * 2)
    with (_frameCount f * 2) by lia.
  split; [reflexivity|].
  unfold F32.length in *. rewrite length_firstn, length_skipn. lia.
Qed.

(** The live samples of a FIFO at position 0 whose storage begins with
    them. *)
Lemma live_front (l rest : F32.t) (k : Z) :
  F32.length l = k * 2 -> live (mkFifo (l ++ rest) 0 k) = l.
Proof.
  intros Hl. unfold live, FifoSampleBuffer.startIndex,
    FifoSampleBuffer.endIndex. cbn [_vector _position _frameCount].
  assert (0 <= k) by (unfold F32.length in Hl; lia).
  rewrite F32_subarray_in_range
    by (rewrite ?F32_length_app; unfold F32.length in *; lia).
  cbn [Z.to_nat skipn Z.mul]. rewrite Z.sub_0_r.
  replace (Z.to_nat ((0 + k) * 2)) with (List.length l + 0)%nat
    by (unfold F32.length in Hl; lia).
  rewrite firstn_app_2. cbn [firstn]. apply app_nil_r.
Qed.

Lemma ensureCapacity_front (f : Fifo) (n : Z) :
  fifo_wf f ->
  exists rest,
    FifoSampleBuffer.ensureCapacity f n
    = Ok (mkFifo (live f ++ rest) 0 (_frameCount f))
    /\ n * 2 <= F32.length (live f ++ rest)
    /\ F32.length (_vector f) <= F32.length (live f ++ rest).
Proof.
  intros Hwf. destruct (live_wf f Hwf) as (Elive & Hlive).
  destruct Hwf as (Hp & Hc & Hlen).
  unfold FifoSampleBuffer.ensureCapacity.
  fold (live f).
  destruct (Z.ltb_spec (F32.length (_vector f)) (n * 2)) as [Hgrow|Hfits].
  - (* a larger storage is allocated *)
    rewrite F32_set_ok by (rewrite ?F32_length_new; lia).
    cbn [bind Z.to_nat firstn app]. eexists. split; [reflexivity|].
    rewrite F32_length_app, F32_length_skipn, F32_length_new. lia.
  - unfold FifoSampleBuffer.rewind. fold (live f).
    destruct (Z.ltb_spec 0 (_position f)) as [Hmove|Hstay].
    + rewrite F32_set_ok by lia.
      cbn [bind Z.to_nat firstn app]. eexists. split; [reflexivity|].
      rewrite F32_length_app, F32_length_skipn. lia.
    + assert (E0 : _position f = 0) by lia.
      exists (skipn (Z.to_nat (_frameCount f * 2)) (_vector f)).
      assert (Ev : live f ++ skipn (Z.to_nat (_frameCount f * 2)) (_vector f)
                   = _vector f).
      { rewrite Elive, E0. cbn [Z.mul Z.to_nat skipn]. apply firstn_skipn. }
      rewrite Ev. split; [|lia].
      destruct f as [v p c]. cbn [_position _vector _frameCount] in *.
      subst p. reflexivity.
Qed.

(** X1.  [ensureCapacity(n)] on a well-formed FIFO never throws.  It keeps
    the live samples and their order, moves them to the front of the
    storage (position 0), leaves room for [n] frames, never shrinks the
    storage, and the FIFO stays well-formed. *)
Theorem ensureCapacity_keeps_queue (f : Fifo) (n : Z) :
  fifo_wf f ->
  exists f',
    FifoSampleBuffer.ensureCapacity f n = Ok f'
    /\ live f' = live f
    /\ _position f' = 0 /\ _frameCount f' = _frameCount f
    /\ n * 2 <= F32.length (_vector f')
    /\ F32.length (_vector f) <= F32.length (_vector f')
    /\ fifo_wf f'.
Proof.
  intros Hwf. destruct (live_wf f Hwf) as (_ & Hlive).
  destruct (ensureCapacity_front f n Hwf) as (rest & E & Hroom & Hkeep).
  pose proof Hwf as (Hp & Hc & Hlen).
  exists (mkFifo (live f ++ rest) 0 (_frameCount f)).
  split; [exact E|]. split; [apply live_front; exact Hlive|].
  cbn [_position _frameCount _vector].
  repeat (split; [first [reflexivity | assumption | lia]|]).
  unfold fifo_wf. cbn [_position _frameCount _vector].
  rewrite F32_length_app in *. pose proof (F32_length_nonneg rest). lia.
Qed.

Lemma ensureCapacity_keeps_queue_witness :
  exists f',
    FifoSampleBuffer.ensureCapacity two_frame_fifo 6 = Ok f'
    /\ live f' = live two_frame_fifo
    /\ _position f' = 0 /\ _frameCount f' = _frameCount two_frame_fifo
    /\ 6 * 2 <= F32.length (_vector f')
    /\ F32.length (_vector two_frame_fifo) <= F32.length (_vector f')
    /\ fifo_wf f'.
Proof.
  apply (ensureCapacity_keeps_queue two_frame_fifo 6).
  unfold fifo_wf. vm_compute. repeat split; discriminate.
Defined.

(** Putting [n] frames of a source that holds them. *)
Lemma putSamples_front (f : Fifo) (samples : F32.t) (offset n : Z) :
  fifo_wf f -> 0 <= offset -> 0 <= n ->
  (offset + n) * 2 <= F32.length samples ->
  exists rest,
    FifoSampleBuffer.putSamples f samples offset n
    = Ok (mkFifo
            ((live f ++ F32.subarray samples (offset * 2) (offset * 2 + n * 2))
             ++ rest) 0 (_frameCount f + n))
    /\ F32.length (F32.subarray samples (offset * 2) (offset * 2 + n * 2))
       = n * 2.
Proof.
  intros Hwf Hoff Hn Hsrc. destruct (live_wf f Hwf) as (_ & Hlive).
  destruct (ensureCapacity_front f (_frameCount f + n) Hwf)
    as (rest & E & Hroom & _).
  pose proof Hwf as (Hp & Hc & Hlen).
  assert (Hsub : F32.length
                   (F32.subarray samples (offset * 2) (offset * 2 + n * 2))
                 = n * 2).
  { rewrite F32_subarray_in_range by lia.
    unfold F32.length in *. rewrite length_firstn, length_skipn. lia. }
  unfold FifoSampleBuffer.putSamples. rewrite E. cbn [bind].
  unfold FifoSampleBuffer.endIndex. cbn [_vector _position _frameCount].
  rewrite F32_set_ok by lia. cbn [bind].
  exists (skipn (Z.to_nat ((0 + _frameCount f) * 2
                           + F32.length
                               (F32.subarray samples (offset * 2)
                                  (offset * 2 + n * 2))))
            (live f ++ rest)).
  split; [|exact Hsub].
  do 2 f_equal.
  replace (Z.to_nat ((0 + _frameCount f) * 2))
    with (List.length (live f) + 0)%nat
    by (unfold F32.length in Hlive; lia).
  rewrite firstn_app_2. cbn [firstn]. rewrite app_nil_r.
  rewrite <- app_assoc. reflexivity.
Qed.

(** X2.  [putSamples(samples, offset, n)] on a well-formed FIFO, with a
    source that holds the [n] frames from [offset], never throws and
    appends exactly those frames, in order, behind the live ones; the FIFO
    is compacted to position 0 and stays well-formed. *)
Theorem putSamples_appends (f : Fifo) (samples : F32.t) (offset n : Z) :
  fifo_wf f -> 0 <= offset -> 0 <= n ->
  (offset + n) * 2 <= F32.length samples ->
  exists f',
    FifoSampleBuffer.putSamples f samples offset n = Ok f'
    /\ live f'
       = live f ++ F32.subarray samples (offset * 2) (offset * 2 + n * 2)
    /\ F32.length (F32.subarray samples (offset * 2) (offset * 2 + n * 2))
       = n * 2
    /\ _position f' = 0 /\ _frameCount f' = _frameCount f + n
    /\ fifo_wf f'.
Proof.
  intros Hwf Hoff Hn Hsrc. destruct (live_wf f Hwf) as (_ & Hlive).
  destruct (putSamples_front f samples offset n Hwf Hoff Hn Hsrc)
    as (rest & E & Hsub).
  pose proof Hwf as (Hp & Hc & Hlen).
  eexists. split; [exact E|].
  assert (Hl : F32.length
                 (live f ++ F32.subarray samples (offset * 2)
                              (offset * 2 + n * 2))
               = (_frameCount f + n) * 2)
    by (rewrite F32_length_app; lia).
  split; [apply live_front; exact Hl|].
  split; [exact Hsub|].
  cbn [_position _frameCount _vector].
  split; [reflexivity|]. split; [reflexivity|].
  unfold fifo_wf. cbn [_position _frameCount _vector].
  rewrite F32_length_app, Hl. pose proof (F32_length_nonneg rest). lia.
Qed.

Lemma putSamples_appends_witness :
  exists f',
    FifoSampleBuffer.putSamples two_frame_fifo [Fin 7; Fin 7; Fin 8; Fin 8] 1 1
    = Ok f'
    /\ live f'
       = live two_frame_fifo
         ++ F32.subarray [Fin 7; Fin 7; Fin 8; Fin 8] (1 * 2) (1 * 2 + 1 * 2)
    /\ F32.length
         (F32.subarray [Fin 7; Fin 7; Fin 8; Fin 8] (1 * 2) (1 * 2 + 1 * 2))
       = 1 * 2
    /\ _position f' = 0 /\ _frameCount f' = _frameCount two_frame_fifo + 1
    /\ fifo_wf f'.
Proof.
  apply (putSamples_appends two_frame_fifo [Fin 7; Fin 7; Fin 8; Fin 8] 1 1).
  - unfold fifo_wf. vm_compute. repeat split; discriminate.
  - lia.
  - lia.
  - vm_compute. discriminate.
Defined.

(** Reading [n] of the live frames into an output array with room. *)
Lemma receiveSamples_front (f : Fifo) (output : F32.t) (n : Z) :
  fifo_wf f -> 0 <= n <= _frameCount f -> n * 2 <= F32.length output ->
  FifoSampleBuffer.receiveSamples f output n
  = Ok (mkFifo (_vector f) (_position f + n) (_frameCount f - n),
        firstn (Z.to_nat (n * 2)) (live f)
        ++ skipn (Z.to_nat (n * 2)) output)
  /\ live (mkFifo (_vector f) (_position f + n) (_frameCount f - n))
     = skipn (Z.to_nat (n * 2)) (live f)
  /\ F32.length (firstn (Z.to_nat (n * 2)) (live f)) = n * 2.
Proof.
  intros Hwf Hn Hout. destruct (live_wf f Hwf) as (Elive & Hlive).
  pose proof Hwf as (Hp & Hc & Hlen).
  assert (Hhead : F32.subarray (_vector f) (FifoSampleBuffer.startIndex f)
                    (FifoSampleBuffer.startIndex f + n * 2)
                  = firstn (Z.to_nat (n * 2)) (live f)).
  { unfold FifoSampleBuffer.startIndex.
    rewrite F32_subarray_in_range by lia.
    rewrite Elive, firstn_firstn.
    replace (_position f * 2 + n * 2 - _position f * 2) with (n * 2) by lia.
    f_equal. lia. }
  assert (Hheadlen : F32.length (firstn (Z.to_nat (n * 2)) (live f)) = n * 2).
  { unfold F32.length in *. rewrite length_firstn. lia. }
  split; [|split; [|exact Hheadlen]].
  - unfold FifoSampleBuffer.receiveSamples. rewrite Hhead.
    rewrite F32_set_ok by lia. cbn [bind Z.to_nat firstn app].
    rewrite receive_within by lia. rewrite Hheadlen. reflexivity.
  - assert (Hwf' : fifo_wf (mkFifo (_vector f) (_position f + n)
                              (_frameCount f - n)))
      by (unfold fifo_wf; cbn [_position _frameCount _vector]; lia).
    destruct (live_wf _ Hwf') as (E' & _). rewrite E', Elive.
    cbn [_position _frameCount _vector].
    rewrite skipn_firstn_comm, skipn_skipn.
    f_equal; [lia|]. f_equal. lia.
Qed.

(** X3.  [receiveSamples(output, n)] on a well-formed FIFO holding at least
    [n] frames, with an output array that has room for them, never throws:
    it writes the [n] oldest frames over the head of the output array,
    leaves the rest of the array as it was, removes those frames from the
    FIFO and leaves the younger ones, in order. *)
Theorem receiveSamples_takes_oldest (f : Fifo) (output : F32.t) (n : Z) :
  fifo_wf f -> 0 <= n <= _frameCount f -> n * 2 <= F32.length output ->
  exists f' output',
    FifoSampleBuffer.receiveSamples f output n = Ok (f', output')
    /\ output' = firstn (Z.to_nat (n * 2)) (live f)
                 ++ skipn (Z.to_nat (n * 2)) output
    /\ F32.length output' = F32.length output
    /\ live f' = skipn (Z.to_nat (n * 2)) (live f)
    /\ _frameCount f' = _frameCount f - n
    /\ fifo_wf f'.
Proof.
  intros Hwf Hn Hout.
  destruct (receiveSamples_front f output n Hwf Hn Hout)
    as (E & Hrest & Hhead).
  pose proof Hwf as (Hp & Hc & Hlen).
  do 2 eexists. split; [exact E|]. split; [reflexivity|].
  split.
  { rewrite F32_length_app, Hhead, F32_length_skipn. lia. }
  split; [exact Hrest|]. split; [reflexivity|].
  unfold fifo_wf. cbn [_position _frameCount _vector]. lia.
Qed.

Lemma receiveSamples_takes_oldest_witness :
  exists f' output',
    FifoSampleBuffer.receiveSamples two_frame_fifo (F32.new 4) 1
    = Ok (f', output')
    /\ output' = firstn (Z.to_nat (1 * 2)) (live two_frame_fifo)
                 ++ skipn (Z.to_nat (1 * 2)) (F32.new 4)
    /\ F32.length output' = F32.length (F32.new 4)
    /\ live f' = skipn (Z.to_nat (1 * 2)) (live two_frame_fifo)
    /\ _frameCount f' = _frameCount two_frame_fifo - 1
    /\ fifo_wf f'.
Proof.
  apply (receiveSamples_takes_oldest two_frame_fifo (F32.new 4) 1).
  - unfold fifo_wf. vm_compute. repeat split; discriminate.
  - vm_compute. split; discriminate.
  - vm_compute. discriminate.
Defined.

(** X4.  First in, first out: after [putSamples] of [n] frames into a
    well-formed FIFO, one [receiveSamples] of everything returns the frames
    that were live before followed by the frames just put, and leaves the
    FIFO empty. *)
Theorem fifo_round_trip (f : Fifo) (samples output : F32.t) (n : Z) :
  fifo_wf f -> 0 <= n -> F32.length samples = n * 2 ->
  F32.length output = (_frameCount f + n) * 2 ->
  exists f' f'',
    FifoSampleBuffer.putSamples f samples 0 n = Ok f'
    /\ FifoSampleBuffer.receiveSamples f' output (_frameCount f + n)
       = Ok (f'', live f ++ samples)
    /\ _frameCount f'' = 0 /\ live f'' = [].
Proof.
  intros Hwf Hn Hsrc Hout. destruct (live_wf f Hwf) as (_ & Hlive).
  pose proof Hwf as (Hp & Hc & Hlen).
  destruct (putSamples_front f samples 0 n Hwf (Z.le_refl 0) Hn)
    as (rest & E & Hsub); [lia|].
  assert (Eall : F32.subarray samples (0 * 2) (0 * 2 + n * 2) = samples).
  { rewrite F32_subarray_in_range by lia.
    cbn [Z.mul Z.to_nat skipn Z.add]. rewrite Z.sub_0_r.
    apply firstn_all2. unfold F32.length in Hsrc. lia. }
  rewrite Eall in E. clear Hsub.
  set (f' := mkFifo ((live f ++ samples) ++ rest) 0 (_frameCount f + n)) in *.
  assert (Hl : F32.length (live f ++ samples) = (_frameCount f + n) * 2)
    by (rewrite F32_length_app; lia).
  assert (Hwf' : fifo_wf f').
  { unfold fifo_wf, f'. cbn [_position _frameCount _vector].
    rewrite F32_length_app, Hl. pose proof (F32_length_nonneg rest). lia. }
  assert (Elive' : live f' = live f ++ samples)
    by (apply live_front; exact Hl).
  destruct (receiveSamples_front f' output (_frameCount f + n) Hwf')
    as (E' & Hrest & _); cbn [f' _frameCount]; try lia.
  exists f'. eexists. split; [exact E|].
  split.
  { rewrite E'. do 2 f_equal. rewrite Elive'.
    rewrite firstn_all2 by (unfold F32.length in Hl; lia).
    rewrite skipn_all2 by (unfold F32.length in Hout; lia).
    apply app_nil_r. }
  cbn [_frameCount]. split; [cbn [f' _frameCount]; lia|].
  rewrite Hrest, Elive'. apply skipn_all2.
  unfold F32.length in Hl. cbn [f' _frameCount]. lia.
Qed.

Lemma fifo_round_trip_witness :
  exists f' f'',
    FifoSampleBuffer.putSamples two_frame_fifo [Fin 7; Fin 7] 0 1 = Ok f'
    /\ FifoSampleBuffer.receiveSamples f' (F32.new 6)
         (_frameCount two_frame_fifo + 1)
       = Ok (f'', live two_frame_fifo ++ [Fin 7; Fin 7])
    /\ _frameCount f'' = 0 /\ live f'' = [].
Proof.
  apply (fifo_round_trip two_frame_fifo [Fin 7; Fin 7] (F32.new 6) 1).
  - unfold fifo_wf. vm_compute. repeat split; discriminate.
  - lia.
  - reflexivity.
  - reflexivity.
Defined.

(** [clear()] on a FIFO whose end index is not negative. *)
Lemma clear_ok (f : Fifo) :
  0 <= _position f + _frameCount f ->
  FifoSampleBuffer.clear f = Ok (mkFifo (_vector f) 0 0).
Proof.
  intros Hend. unfold FifoSampleBuffer.clear, FifoSampleBuffer.receive.
  assert (En : (if (_frameCount f <? 0) || (_frameCount f <? _frameCount f)
                then _frameCount f else _frameCount f) = _frameCount f)
    by (destruct (_ || _); reflexivity).
  rewrite En, Z.sub_diag.
  unfold FifoSampleBuffer.rewind, FifoSampleBuffer.startIndex,
    FifoSampleBuffer.endIndex.
  cbn [_position _frameCount _vector]. rewrite Z.add_0_r.
  destruct (Z.ltb_spec 0 (_position f + _frameCount f)) as [Hpos|Hzero].
  - assert (Enil : F32.subarray (_vector f)
                     ((_position f + _frameCount f) * 2)
                     ((_position f + _frameCount f) * 2) = []).
    { unfold F32.subarray. rewrite Z.sub_diag. reflexivity. }
    rewrite Enil.
    rewrite F32_set_ok
      by (pose proof (F32_length_nonneg (_vector f)); cbn; lia).
    reflexivity.
  - replace (_position f + _frameCount f) with 0 by lia. reflexivity.
Qed.

(** X5.  [clear()] never throws on a FIFO whose end index is not negative:
    it leaves the FIFO empty at position 0 and keeps the storage, contents
    and capacity included. *)
Theorem clear_empties (f : Fifo) :
  0 <= _position f + _frameCount f ->
  FifoSampleBuffer.clear f = Ok (mkFifo (_vector f) 0 0).
Proof. apply clear_ok. Qed.

Lemma clear_empties_witness :
  FifoSampleBuffer.clear two_frame_fifo
  = Ok (mkFifo (_vector two_frame_fifo) 0 0).
Proof.
  apply (clear_empties two_frame_fifo). vm_compute. discriminate.
Defined.

(** A window of the live frames, as a slice of the storage. *)
Lemma live_window (f : Fifo) (offset n : Z) :
  fifo_wf f -> 0 <= offset -> 0 <= n -> offset + n <= _frameCount f ->
  F32.subarray (_vector f) ((_position f + offset) * 2)
    ((_position f + offset) * 2 + n * 2)
  = firstn (Z.to_nat (n * 2)) (skipn (Z.to_nat (offset * 2)) (live f))
  /\ F32.length
       (firstn (Z.to_nat (n * 2)) (skipn (Z.to_nat (offset * 2)) (live f)))
     = n * 2.
Proof.
  intros Hwf Hoff Hn Hin. destruct (live_wf f Hwf) as (Elive & Hlive).
  pose proof Hwf as (Hp & Hc & Hlen).
  split.
  - rewrite F32_subarray_in_range by lia. rewrite Elive.
    rewrite skipn_firstn_comm, firstn_firstn, skipn_skipn.
    f_equal; [lia|]. f_equal. lia.
  - unfold F32.length in *. rewrite length_firstn, length_skipn. lia.
Qed.

(** X6.  [putBuffer(buffer, offset, numFrames)] between well-formed FIFOs
    appends to the live frames of the destination the [numFrames] live
    frames of [buffer] that follow its first [offset] ones (all that
    follow, when [numFrames] is omitted); it never throws and does not
    remove anything from [buffer], which is not among its results. *)
Theorem putBuffer_appends_window (f buffer : Fifo) (offset : Z)
  (numFrames : option Z) :
  fifo_wf f -> fifo_wf buffer -> 0 <= offset ->
  let n := match numFrames with
           | Some n => n
           | None => _frameCount buffer - offset
           end in
  0 <= n -> offset + n <= _frameCount buffer ->
  exists f',
    FifoSampleBuffer.putBuffer f buffer offset numFrames = Ok f'
    /\ live f'
       = live f
         ++ firstn (Z.to_nat (n * 2))
              (skipn (Z.to_nat (offset * 2)) (live buffer))
    /\ _frameCount f' = _frameCount f + n
    /\ fifo_wf f'.
Proof.
  intros Hwf Hwfb Hoff n Hn Hin.
  destruct (live_window buffer offset n Hwfb Hoff Hn Hin) as (Ewin & Hwin).
  destruct (live_wf f Hwf) as (_ & Hlive).
  pose proof Hwfb as (Hbp & Hbc & Hblen).
  unfold FifoSampleBuffer.putBuffer, FifoSampleBuffer.frameCount,
    FifoSampleBuffer.vector, FifoSampleBuffer.position.
  fold n.
  destruct (putSamples_front f (_vector buffer) (_position buffer + offset) n
              Hwf) as (rest & E & _); try lia.
  rewrite Ewin in E. rewrite E.
  eexists. split; [reflexivity|].
  assert (Hl : F32.length
                 (live f ++ firstn (Z.to_nat (n * 2))
                              (skipn (Z.to_nat (offset * 2)) (live buffer)))
               = (_frameCount f + n) * 2)
    by (rewrite F32_length_app; lia).
  split; [apply live_front; exact Hl|].
  split; [reflexivity|].
  destruct Hwf as (Hp & Hc & Hlen).
  unfold fifo_wf. cbn [_position _frameCount _vector].
  rewrite F32_length_app, Hl. pose proof (F32_length_nonneg rest). lia.
Qed.

Lemma putBuffer_appends_window_witness :
  exists f',
    FifoSampleBuffer.putBuffer (FifoSampleBuffer.new 1) two_frame_fifo 1 None
    = Ok f'
    /\ live f'
       = live (FifoSampleBuffer.new 1)
         ++ firstn (Z.to_nat ((_frameCount two_frame_fifo - 1) * 2))
              (skipn (Z.to_nat (1 * 2)) (live two_frame_fifo))
    /\ _frameCount f'
       = _frameCount (FifoSampleBuffer.new 1)
         + (_frameCount two_frame_fifo - 1)
    /\ fifo_wf f'.
Proof.
  apply (putBuffer_appends_window (FifoSampleBuffer.new 1) two_frame_fifo 1
           None).
  - unfold fifo_wf. vm_compute. repeat split; discriminate.
  - unfold fifo_wf. vm_compute. repeat split; discriminate.
  - lia.
  - vm_compute. discriminate.
  - vm_compute. discriminate.
Defined.

(** X7.  [extract(output, offset, n)] is a peek: on a well-formed FIFO that
    holds the frames [offset .. offset + n - 1], with an output array that
    has room, it never throws and writes those frames over the head of the
    output array, leaving the rest of the array as it was.  The FIFO is not
    among its results: nothing is removed. *)
Theorem extract_peeks (f : Fifo) (output : F32.t) (offset n : Z) :
  fifo_wf f -> 0 <= offset -> 0 <= n -> offset + n <= _frameCount f ->
  n * 2 <= F32.length output ->
  FifoSampleBuffer.extract f output offset n
  = Ok (firstn (Z.to_nat (n * 2)) (skipn (Z.to_nat (offset * 2)) (live f))
        ++ skipn (Z.to_nat (n * 2)) output).
Proof.
  intros Hwf Hoff Hn Hin Hout.
  destruct (live_window f offset n Hwf Hoff Hn Hin) as (Ewin & Hwin).
  unfold FifoSampleBuffer.extract, FifoSampleBuffer.startIndex.
  replace (_position f * 2 + offset * 2) with ((_position f + offset) * 2)
    by lia.
  rewrite Ewin. rewrite F32_set_ok by lia.
  cbn [Z.to_nat firstn app]. rewrite Hwin. reflexivity.
Qed.

Lemma extract_peeks_witness :
  FifoSampleBuffer.extract two_frame_fifo (F32.new 4) 1 1
  = Ok (firstn (Z.to_nat (1 * 2))
          (skipn (Z.to_nat (1 * 2)) (live two_frame_fifo))
        ++ skipn (Z.to_nat (1 * 2)) (F32.new 4)).
Proof.
  apply (extract_peeks two_frame_fifo (F32.new 4) 1 1).
  - unfold fifo_wf. vm_compute. repeat split; discriminate.
  - lia.
  - lia.
  - vm_compute. discriminate.
  - vm_compute. discriminate.
Defined.

(** ** The rate transposer as an interpolator *)

Lemma Qfloor_unique (p : Q) (i : Z) :
  (inject_Z i <= p)%Q -> (p < inject_Z i + 1)%Q -> Qfloor p = i.
Proof.
  intros Hlo Hhi.
  pose proof (Qfloor_le p) as H1. pose proof (Qlt_floor p) as H2.
  rewrite inject_Z_plus in H2. change (inject_Z 1) with 1%Q in H2.
  assert (i < Qfloor p + 1).
  { rewrite Zlt_Qlt, inject_Z_plus. change (inject_Z 1) with 1%Q. lra. }
  assert (Qfloor p < i + 1).
  { rewrite Zlt_Qlt, inject_Z_plus. change (inject_Z 1) with 1%Q. lra. }
  lia.
Qed.

Lemma Qceiling_unique (x : Q) (k : Z) :
  (inject_Z k - 1 < x)%Q -> (x <= inject_Z k)%Q -> Qceiling x = k.
Proof.
  intros Hlo Hhi.
  pose proof (Qle_ceiling x) as H1. pose proof (Qceiling_lt x) as H2.
  unfold Z.sub in H2. rewrite inject_Z_plus in H2.
  change (inject_Z (- (1))) with (- (1))%Q in H2.
  assert (k - 1 < Qceiling x).
  { rewrite Zlt_Qlt. unfold Z.sub. rewrite inject_Z_plus.
    change (inject_Z (- (1))) with (- (1))%Q. lra. }
  assert (Qceiling x - 1 < k).
  { rewrite Zlt_Qlt. unfold Z.sub. rewrite inject_Z_plus.
    change (inject_Z (- (1))) with (- (1))%Q. lra. }
  lia.
Qed.

Lemma transpose_advance_idx (fuel : nat) (numFrames : Z) :
  forall (s : Q) (idx : Z) (s' : Q) (idx' : Z),
    Lib.RateTransposer.transpose_advance fuel numFrames s idx = Ok (s', idx') ->
    idx < numFrames - 1 -> idx' <= numFrames - 1.
Proof.
  induction fuel as [|fuel IH]; intros s idx s' idx' H Hidx;
    cbn [Lib.RateTransposer.transpose_advance] in H;
    destruct (Qleb 1 s); try discriminate;
    try (injection H as <- <-; lia).
  destruct (Z.leb_spec (numFrames - 1) (idx + 1)) as [Hb|Hb].
  - injection H as <- <-. lia.
  - apply IH in H; lia.
Qed.

Lemma interpolated_put (rt : RT.state) (input : F32.t) (inputStart : Z)
  (s0 : Q) (v : F32.t) (start cnt : Z) (x y : sample) :
  0 <= start -> 0 <= cnt -> start + cnt * 2 + 1 < F32.length v ->
  interpolated_at rt input inputStart (s0 + inject_Z cnt * RT._rate rt) 0 x ->
  interpolated_at rt input inputStart (s0 + inject_Z cnt * RT._rate rt) 1 y ->
  interpolated rt input inputStart s0 v start 0 cnt ->
  interpolated rt input inputStart s0
    (F32.put (F32.put v (start + cnt * 2) x) (start + cnt * 2 + 1) y)
    start 0 (cnt + 1).
Proof.
  intros Hs Hc Hlen Hx Hy Hv j channel Hj Hch.
  destruct (Z.eq_dec j cnt) as [->|Hne].
  - assert (Hcase : channel = 0 \/ channel = 1) by lia.
    destruct Hcase as [-> | ->].
    + rewrite Z.add_0_r.
      rewrite F32_get_put_other by lia.
      rewrite F32_get_put_same by lia. exact Hx.
    + rewrite F32_get_put_same by (rewrite F32_put_length; lia). exact Hy.
  - rewrite !F32_get_put_other by lia. apply Hv; lia.
Qed.

Section TransposerSpec.

Variable rt : RT.state.
Variable input : F32.t.
Variables inputStart outputStart numFrames : Z.
Variable s0 : Q.
Variable output0 : F32.t.

Hypothesis rate_pos : (0 < RT._rate rt)%Q.
Hypothesis s0_nonneg : (0 <= s0)%Q.
Hypothesis frames_pos : 1 <= numFrames.
Hypothesis outputStart_nonneg : 0 <= outputStart.

(** Room in the output for every frame at a position before [numFrames]. *)
Hypothesis room :
  forall k, 0 <= k ->
    (inject_Z k * RT._rate rt < inject_Z numFrames)%Q ->
    outputStart + k * 2 + 1 < F32.length output0.

Lemma transposed_put (output : F32.t) (cnt : Z) (x y : sample) :
  0 <= cnt ->
  (s0 + inject_Z cnt * RT._rate rt < inject_Z numFrames)%Q ->
  interpolated_at rt input inputStart (s0 + inject_Z cnt * RT._rate rt) 0 x ->
  interpolated_at rt input inputStart (s0 + inject_Z cnt * RT._rate rt) 1 y ->
  transposed rt input inputStart outputStart s0 output0 output cnt ->
  transposed rt input inputStart outputStart s0 output0
    (F32.put (F32.put output (outputStart + cnt * 2) x)
       (outputStart + cnt * 2 + 1) y) (cnt + 1).
Proof.
  intros Hcnt Hpos Hx Hy (Hlen & Hfront & Hint).
  assert (Hroom : outputStart + cnt * 2 + 1 < F32.length output).
  { rewrite Hlen. apply room; [exact Hcnt|]. lra. }
  split; [rewrite !F32_put_length; exact Hlen|].
  split.
  - intros j Hj. rewrite !F32_get_put_other by lia. apply Hfront. exact Hj.
  - apply interpolated_put; assumption.
Qed.

Lemma transpose_prev_spec (fuel : nat) :
  forall (output : F32.t) (s : Q) (cnt : Z) (output' : F32.t) (s' : Q)
         (cnt' : Z),
    Lib.RateTransposer.transpose_prev fuel rt input inputStart outputStart
      output s cnt = Ok (output', s', cnt') ->
    0 <= cnt -> (s == s0 + inject_Z cnt * RT._rate rt)%Q ->
    transposed rt input inputStart outputStart s0 output0 output cnt ->
    cnt <= cnt'
    /\ (s' == s0 + inject_Z cnt' * RT._rate rt)%Q
    /\ (1 <= s')%Q
    /\ (cnt' = cnt \/ (s' - RT._rate rt < 1)%Q)
    /\ transposed rt input inputStart outputStart s0 output0 output' cnt'.
Proof.
  induction fuel as [|fuel IH];
    intros output s cnt output' s' cnt' H Hcnt Hs Hout;
    cbn [Lib.RateTransposer.transpose_prev] in H;
    destruct (Qltb s 1) eqn:E; try discriminate;
    try (injection H as <- <- <-; apply Qltb_ge in E;
         split; [lia|split; [exact Hs|split; [exact E|split;
           [left; reflexivity|exact Hout]]]]).
  apply Qltb_lt in E.
  assert (Hn : (1 <= inject_Z numFrames)%Q)
    by (change 1%Q with (inject_Z 1); rewrite <- Zle_Qle; lia).
  assert (Hcq : (0 <= inject_Z cnt)%Q)
    by (change 0%Q with (inject_Z 0); rewrite <- Zle_Qle; lia).
  assert (Hs_nonneg : (0 <= s)%Q) by nra.
  assert (Hfloor : Qfloor (s0 + inject_Z cnt * RT._rate rt) = 0).
  { apply Qfloor_unique; change (inject_Z 0) with 0%Q; lra. }
  apply IH in H.
  - destruct H as (H1 & H2 & H3 & H4 & H5).
    split; [lia|]. split; [exact H2|]. split; [exact H3|].
    split; [|exact H5].
    right. destruct H4 as [-> | H4]; [|exact H4].
    rewrite H2, inject_Z_plus. change (inject_Z 1) with 1%Q. lra.
  - lia.
  - rewrite inject_Z_plus. change (inject_Z 1) with 1%Q. lra.
  - apply transposed_put; try assumption; try lra.
    + exists s. rewrite Hfloor. split; [change (inject_Z 0) with 0%Q; lra|].
      unfold stream_sample. cbn [Z.eqb Z.add Z.sub Z.mul Z.opp Z.pos_sub].
      do 3 f_equal. lia.
    + exists s. rewrite Hfloor. split; [change (inject_Z 0) with 0%Q; lra|].
      unfold stream_sample. cbn [Z.eqb Z.add Z.sub Z.mul Z.opp Z.pos_sub].
      do 3 f_equal. lia.
Qed.

Lemma transpose_rest_spec (fuel inner : nat) :
  forall (output : F32.t) (s : Q) (idx cnt : Z) (output' : F32.t) (s' : Q)
         (cnt' : Z),
    Lib.RateTransposer.transpose_rest fuel inner rt input inputStart
      outputStart numFrames output s idx cnt = Ok (output', s', cnt') ->
    0 <= cnt -> 0 <= idx -> idx < numFrames - 1 -> (0 <= s)%Q ->
    (inject_Z idx + 1 + s == s0 + inject_Z cnt * RT._rate rt)%Q ->
    transposed rt input inputStart outputStart s0 output0 output cnt ->
    cnt <= cnt'
    /\ (inject_Z numFrames + s' == s0 + inject_Z cnt' * RT._rate rt)%Q
    /\ (0 <= s')%Q
    /\ (cnt' = cnt \/ (s' < RT._rate rt)%Q)
    /\ transposed rt input inputStart outputStart s0 output0 output' cnt'.
Proof.
  induction fuel as [|fuel IH];
    intros output s idx cnt output' s' cnt' H Hcnt Hidx Hidx' Hs0 Hs Hout;
    cbn [Lib.RateTransposer.transpose_rest] in H; [discriminate|].
  destruct (Lib.RateTransposer.transpose_advance inner numFrames s idx)
    as [[s1 idx1]| |] eqn:Ha; cbn [bind] in H; try discriminate.
  pose proof (transpose_advance_idx _ _ _ _ _ _ Ha Hidx') as Hle.
  apply transpose_advance_slope in Ha; [|exact Hs0].
  destruct Ha as (Hs1 & Hpos & Hidx1 & Hcase).
  destruct (Z.leb_spec (numFrames - 1) idx1) as [Hb|Hb].
  - injection H as <- <- <-.
    assert (E1 : idx1 = numFrames - 1) by lia.
    split; [lia|]. split.
    { rewrite <- Hs. rewrite E1 in Hpos. unfold Z.sub in Hpos.
      rewrite inject_Z_plus in Hpos.
      change (inject_Z (- (1))) with (- (1))%Q in Hpos. lra. }
    split; [exact Hs1|]. split; [left; reflexivity|exact Hout].
  - assert (Hlt : (s1 < 1)%Q).
    { destruct Hcase as [(-> & _ & Hlt)|(_ & [Hlt|Hge])];
        [exact Hlt|exact Hlt|lia]. }
    assert (Hin : (inject_Z idx1 + 2 <= inject_Z numFrames)%Q).
    { change 2%Q with (inject_Z 2). rewrite <- inject_Z_plus, <- Zle_Qle. lia. }
    assert (Hi0 : (0 <= inject_Z idx1)%Q)
      by (change 0%Q with (inject_Z 0); rewrite <- Zle_Qle; lia).
    assert (Hfloor : Qfloor (s0 + inject_Z cnt * RT._rate rt) = idx1 + 1).
    { apply Qfloor_unique; rewrite inject_Z_plus;
        change (inject_Z 1) with 1%Q; lra. }
    apply IH in H.
    + destruct H as (H1 & H2 & H3 & H4 & H5).
      split; [lia|]. split; [exact H2|]. split; [exact H3|].
      split; [|exact H5].
      right. destruct H4 as [-> | H4]; [|exact H4].
      rewrite inject_Z_plus in H2. change (inject_Z 1) with 1%Q in H2. lra.
    + lia.
    + lia.
    + lia.
    + lra.
    + rewrite inject_Z_plus. change (inject_Z 1) with 1%Q. lra.
    + apply transposed_put; try assumption; try lra.
      * exists s1. rewrite Hfloor. split.
        { rewrite inject_Z_plus. change (inject_Z 1) with 1%Q. lra. }
        unfold stream_sample.
        rewrite (proj2 (Z.eqb_neq (idx1 + 1) 0)) by lia.
        rewrite (proj2 (Z.eqb_neq (idx1 + 1 + 1) 0)) by lia.
        do 3 f_equal; lia.
      * exists s1. rewrite Hfloor. split.
        { rewrite inject_Z_plus. change (inject_Z 1) with 1%Q. lra. }
        unfold stream_sample.
        rewrite (proj2 (Z.eqb_neq (idx1 + 1) 0)) by lia.
        rewrite (proj2 (Z.eqb_neq (idx1 + 1 + 1) 0)) by lia.
        do 3 f_equal; lia.
Qed.

End TransposerSpec.

Lemma transposed_start (rt : RT.state) (input : F32.t)
  (inputStart outputStart : Z) (s0 : Q) (output0 : F32.t) :
  transposed rt input inputStart outputStart s0 output0 output0 0.
Proof.
  split; [reflexivity|]. split; [reflexivity|].
  intros j channel Hj. lia.
Qed.

(** [transpose], once it has returned: the count of frames written, the
    phase, the retained frame and the output array. *)
Lemma transpose_spec (fuel : nat) (rt : RT.state)
  (inputBuffer outputBuffer : Fifo) (numFrames : Z)
  (rt' : RT.state) (outputBuffer' : Fifo) (k : Z) :
  Lib.RateTransposer.transpose fuel rt inputBuffer outputBuffer numFrames
  = Ok (rt', outputBuffer', k) ->
  (0 < RT._rate rt)%Q -> (0 <= RT.slopeCount rt)%Q -> 1 <= numFrames ->
  0 <= FifoSampleBuffer.endIndex outputBuffer ->
  (forall j, 0 <= j ->
     (inject_Z j * RT._rate rt < inject_Z numFrames)%Q ->
     FifoSampleBuffer.endIndex outputBuffer + j * 2 + 1
     < F32.length (_vector outputBuffer)) ->
  0 <= k
  /\ (inject_Z numFrames + RT.slopeCount rt'
      == RT.slopeCount rt + inject_Z k * RT._rate rt)%Q
  /\ (0 <= RT.slopeCount rt')%Q
  /\ (k = 0 \/ (RT.slopeCount rt' < RT._rate rt)%Q)
  /\ RT._rate rt' = RT._rate rt
  /\ RT.prevSampleL rt'
     = F32.get (_vector inputBuffer)
         (FifoSampleBuffer.startIndex inputBuffer + (numFrames - 1) * 2)
  /\ RT.prevSampleR rt'
     = F32.get (_vector inputBuffer)
         (FifoSampleBuffer.startIndex inputBuffer + (numFrames - 1) * 2 + 1)
  /\ _position outputBuffer' = _position outputBuffer
  /\ _frameCount outputBuffer' = _frameCount outputBuffer
  /\ transposed rt (_vector inputBuffer)
       (FifoSampleBuffer.startIndex inputBuffer)
       (FifoSampleBuffer.endIndex outputBuffer) (RT.slopeCount rt)
       (_vector outputBuffer) (_vector outputBuffer') k.
Proof.
  intros H Hr Hs0 Hn Hend Hroom.
  unfold Lib.RateTransposer.transpose in H.
  destruct (Z.eqb_spec numFrames 0) as [E0|_]; [lia|].
  unfold FifoSampleBuffer.vector in H.
  destruct (Lib.RateTransposer.transpose_prev _ _ _ _ _ _ _ _)
    as [[[o1 s1] c1]| |] eqn:H1; cbn [bind] in H; try discriminate.
  eapply (transpose_prev_spec rt (_vector inputBuffer)
            (FifoSampleBuffer.startIndex inputBuffer)
            (FifoSampleBuffer.endIndex outputBuffer) numFrames
            (RT.slopeCount rt) (_vector outputBuffer) Hr Hs0 Hn Hend Hroom)
    in H1; [|lia| |apply transposed_start].
  2:{ change (inject_Z 0) with 0%Q. lra. }
  destruct H1 as (Hc1 & Hs1 & Hs1' & Hlast1 & Hout1).
  destruct (Z.ltb_spec 1 numFrames) as [Hmany|Hone].
  - destruct (Lib.RateTransposer.transpose_rest _ _ _ _ _ _ _ _ _ _ _)
      as [[[o2 s2] c2]| |] eqn:H2; cbn [bind] in H; try discriminate.
    injection H as <- <- <-.
    eapply (transpose_rest_spec rt (_vector inputBuffer)
              (FifoSampleBuffer.startIndex inputBuffer)
              (FifoSampleBuffer.endIndex outputBuffer) numFrames
              (RT.slopeCount rt) (_vector outputBuffer) Hr Hs0 Hend Hroom)
      in H2; [|lia|lia|lia|lra| |exact Hout1].
    2:{ change (inject_Z 0) with 0%Q. lra. }
    destruct H2 as (Hc2 & Hs2 & Hs2' & Hlast2 & Hout2).
    cbn [RT._rate RT.slopeCount RT.prevSampleL RT.prevSampleR
         _position _frameCount _vector].
    split; [lia|]. split; [lra|]. split; [exact Hs2'|].
    split.
    { destruct (Z.eq_dec c2 0) as [Ez|Hnz]; [left; exact Ez|right].
      destruct Hlast2 as [E2|Hlt2]; [|exact Hlt2].
      destruct Hlast1 as [E1|Hlt1]; [lia|].
      assert ((2 <= inject_Z numFrames)%Q)
        by (change 2%Q with (inject_Z 2); rewrite <- Zle_Qle; lia).
      rewrite E2 in Hs2. lra. }
    repeat (split; [reflexivity|]). exact Hout2.
  - cbn [bind] in H. injection H as <- <- <-.
    assert (E1 : numFrames = 1) by lia. subst numFrames.
    cbn [RT._rate RT.slopeCount RT.prevSampleL RT.prevSampleR
         _position _frameCount _vector].
    change (inject_Z 1) with 1%Q.
    split; [lia|]. split; [lra|]. split; [lra|].
    split.
    { destruct Hlast1 as [E1|Hlt1]; [left; exact E1|right; lra]. }
    repeat (split; [reflexivity|]). exact Hout1.
Qed.

Lemma frames_emitted_unique (r s : Q) (n k : Z) :
  (0 < r)%Q -> 0 <= k ->
  (inject_Z n - s <= inject_Z k * r)%Q ->
  (k = 0 \/ (inject_Z k * r - r < inject_Z n - s)%Q) ->
  frames_emitted r s n = k.
Proof.
  intros Hr Hk Hhi Hlo. unfold frames_emitted.
  assert (Hx : ((inject_Z n - s) / r <= inject_Z k)%Q)
    by (apply Qle_shift_div_r; assumption).
  destruct Hlo as [-> | Hlo].
  - apply Z.max_l. change 0 with (Qceiling (inject_Z 0)) at 1.
    apply Qceiling_resp_le. exact Hx.
  - rewrite (Qceiling_unique ((inject_Z n - s) / r) k); [lia| |exact Hx].
    apply Qlt_shift_div_l; [exact Hr|]. lra.
Qed.

Lemma frames_emitted_room (r s : Q) (n : Z) :
  (0 < r)%Q -> (0 <= s)%Q -> 0 <= n ->
  0 <= frames_emitted r s n <= Qceiling (inject_Z n / r).
Proof.
  intros Hr Hs Hn. unfold frames_emitted.
  assert (Hinv : (0 < / r)%Q) by (apply Qinv_lt_0_compat; exact Hr).
  assert (Hnq : (0 <= inject_Z n)%Q)
    by (change 0%Q with (inject_Z 0); rewrite <- Zle_Qle; lia).
  assert (H0 : 0 <= Qceiling (inject_Z n / r)).
  { change 0 with (Qceiling (inject_Z 0)) at 1. apply Qceiling_resp_le.
    change (inject_Z 0) with 0%Q. unfold Qdiv. nra. }
  assert (H1 : Qceiling ((inject_Z n - s) / r) <= Qceiling (inject_Z n / r)).
  { apply Qceiling_resp_le. unfold Qdiv. nra. }
  lia.
Qed.

(** [process] on a non-empty input: the call returns, and what it leaves. *)
Lemma process_spec (fuel : nat) (rt : RT.state)
  (inputBuffer outputBuffer : Fifo) :
  fifo_wf outputBuffer ->
  (0 < RT._rate rt)%Q -> (0 <= RT.slopeCount rt)%Q ->
  1 <= _frameCount inputBuffer ->
  (transposer_fuel (RT._rate rt) (_frameCount inputBuffer) <= fuel)%nat ->
  let n := _frameCount inputBuffer in
  let k := frames_emitted (RT._rate rt) (RT.slopeCount rt) n in
  exists rest rt' v',
    Lib.RateTransposer.process fuel rt inputBuffer outputBuffer
    = Ok (rt', FifoSampleBuffer.receive inputBuffer n,
          mkFifo v' 0 (_frameCount outputBuffer + k))
    /\ transposed rt (_vector inputBuffer)
         (FifoSampleBuffer.startIndex inputBuffer)
         (_frameCount outputBuffer * 2) (RT.slopeCount rt)
         (live outputBuffer ++ rest) v' k
    /\ (_frameCount outputBuffer + k) * 2
       <= F32.length (live outputBuffer ++ rest)
    /\ (RT.slopeCount rt'
        == RT.slopeCount rt + inject_Z k * RT._rate rt - inject_Z n)%Q
    /\ (0 <= RT.slopeCount rt')%Q
    /\ RT._rate rt' = RT._rate rt
    /\ RT.prevSampleL rt'
       = F32.get (_vector inputBuffer)
           (FifoSampleBuffer.startIndex inputBuffer + (n - 1) * 2)
    /\ RT.prevSampleR rt'
       = F32.get (_vector inputBuffer)
           (FifoSampleBuffer.startIndex inputBuffer + (n - 1) * 2 + 1).
Proof.
  intros Hwf Hr Hs Hn Hfuel n k.
  pose proof Hwf as (Hp & Hc & Hlen).
  destruct (ensureCapacity_front outputBuffer
              (_frameCount outputBuffer
               + Qceiling (inject_Z n / RT._rate rt) + 1) Hwf)
    as (rest & Ecap & Hroom & _).
  set (out1 := mkFifo (live outputBuffer ++ rest) 0 (_frameCount outputBuffer))
    in *.
  destruct (@transpose_terminates fuel rt inputBuffer out1 n Hr Hs)
    as ([[rt' out'] k'] & Et); [lia|exact Hfuel|].
  pose proof (@room_after_ensureCapacity (RT._rate rt) n
                (_frameCount outputBuffer)
                (F32.length (live outputBuffer ++ rest)) Hr Hc Hroom)
    as Hfits.
  destruct (transpose_spec fuel rt inputBuffer out1 n rt' out' k' Et Hr Hs Hn)
    as (Hk0 & Hphase & Hs' & Hlast & Hrate & HpL & HpR & Epos & Efc & Hout).
  { unfold FifoSampleBuffer.endIndex, out1. cbn [_position _frameCount]. lia. }
  { exact Hfits. }
  assert (Ek : k = k').
  { apply frames_emitted_unique; [exact Hr|exact Hk0|lra|].
    destruct Hlast as [E|Hlt]; [left; exact E|right; lra]. }
  subst k'.
  destruct (frames_emitted_room (RT._rate rt) (RT.slopeCount rt) n Hr Hs)
    as (_ & Hkmax); [lia|].
  fold k in Hkmax.
  exists rest, rt', (_vector out').
  split.
  { unfold Lib.RateTransposer.process, FifoSampleBuffer.frameCount.
    fold n. destruct (Z.eqb_spec n 0) as [E0|_]; [lia|].
    rewrite Ecap. cbn [bind]. fold out1. rewrite Et. cbn [bind].
    unfold FifoSampleBuffer.put. rewrite Epos, Efc. reflexivity. }
  split.
  { unfold FifoSampleBuffer.endIndex, out1 in Hout.
    cbn [_position _frameCount _vector Z.add] in Hout. exact Hout. }
  split; [lia|]. split; [lra|].
  repeat (split; [assumption|]). exact HpR.
Qed.

Lemma F32_get_firstn (v : F32.t) (n : nat) (j : Z) :
  0 <= j < Z.of_nat n -> F32.get (firstn n v) j = F32.get v j.
Proof.
  intros Hj. unfold F32.get. destruct (Z.ltb_spec j 0); [lia|].
  rewrite nth_firstn. destruct (Nat.ltb_spec (Z.to_nat j) n); [reflexivity|lia].
Qed.

Lemma F32_get_app_l (u v : F32.t) (j : Z) :
  0 <= j < F32.length u -> F32.get (u ++ v) j = F32.get u j.
Proof.
  intros Hj. unfold F32.get, F32.length in *.
  destruct (Z.ltb_spec j 0); [lia|]. apply app_nth1. lia.
Qed.

(** X8.  One [process()] call of a rate transposer with rate [r > 0] and
    phase [s >= 0] on well-formed FIFOs, the input holding [n >= 1] frames,
    returns (given the fuel [transposer_fuel]) and drains its input: all
    [n] frames are consumed, the input FIFO is left empty with its storage
    untouched.  The frames it emits are appended behind the frames the
    output FIFO held, which are kept, in order; at least one frame is
    emitted when the phase is below 1.  The frame retained for the next
    call is the last input frame; the rate is kept and the phase stays
    non-negative.  None of this depends on the values the interpolation
    computes. *)
Theorem transposer_drains_input (fuel : nat) (rt : RT.state)
  (inputBuffer outputBuffer : Fifo) :
  fifo_wf inputBuffer -> fifo_wf outputBuffer ->
  (0 < RT._rate rt)%Q -> (0 <= RT.slopeCount rt)%Q ->
  1 <= _frameCount inputBuffer ->
  (transposer_fuel (RT._rate rt) (_frameCount inputBuffer) <= fuel)%nat ->
  exists rt' inputBuffer' outputBuffer',
    Lib.RateTransposer.process fuel rt inputBuffer outputBuffer
    = Ok (rt', inputBuffer', outputBuffer')
    /\ _vector inputBuffer' = _vector inputBuffer
    /\ _position inputBuffer'
       = _position inputBuffer + _frameCount inputBuffer
    /\ _frameCount inputBuffer' = 0
    /\ _position outputBuffer' = 0
    /\ _frameCount outputBuffer <= _frameCount outputBuffer'
    /\ ((RT.slopeCount rt < 1)%Q ->
        _frameCount outputBuffer < _frameCount outputBuffer')
    /\ firstn (Z.to_nat (_frameCount outputBuffer * 2)) (live outputBuffer')
       = live outputBuffer
    /\ RT.prevSampleL rt'
       = F32.get (_vector inputBuffer)
           (FifoSampleBuffer.startIndex inputBuffer
            + (_frameCount inputBuffer - 1) * 2)
    /\ RT.prevSampleR rt'
       = F32.get (_vector inputBuffer)
           (FifoSampleBuffer.startIndex inputBuffer
            + (_frameCount inputBuffer - 1) * 2 + 1)
    /\ RT._rate rt' = RT._rate rt
    /\ (0 <= RT.slopeCount rt')%Q.
Proof.
  intros Hwfi Hwfo Hr Hs Hn Hfuel.
  destruct (process_spec fuel rt inputBuffer outputBuffer Hwfo Hr Hs Hn Hfuel)
    as (rest & rt' & v' & E & (Hlen & Hfront & _) & Hroom & _ & Hs'
        & Hrate & HpL & HpR).
  set (n := _frameCount inputBuffer) in *.
  set (k := frames_emitted (RT._rate rt) (RT.slopeCount rt) n) in *.
  destruct (live_wf outputBuffer Hwfo) as (_ & Hlive).
  destruct (frames_emitted_room (RT._rate rt) (RT.slopeCount rt) n Hr Hs)
    as (Hk0 & _); [lia|]. fold k in Hk0.
  pose proof Hwfi as (Hip & Hic & Hilen).
  pose proof Hwfo as (Hop & Hoc & Holen).
  rewrite receive_within in E by (fold n; lia).
  do 3 eexists. split; [exact E|].
  cbn [_position _frameCount _vector].
  split; [reflexivity|]. split; [reflexivity|]. split; [fold n; lia|].
  split; [reflexivity|]. split; [lia|].
  split.
  { intros Hs1.
    assert (Hpos : (0 < (inject_Z n - RT.slopeCount rt) / RT._rate rt)%Q).
    { apply Qlt_shift_div_l; [exact Hr|].
      assert (H1 : (inject_Z 1 <= inject_Z n)%Q) by (rewrite <- Zle_Qle; lia).
      change (inject_Z 1) with 1%Q in H1. lra. }
    pose proof (Qle_ceiling ((inject_Z n - RT.slopeCount rt) / RT._rate rt))
      as Hc.
    assert (Hc0 : (inject_Z 0
                   < inject_Z (Qceiling ((inject_Z n - RT.slopeCount rt)
                                         / RT._rate rt)))%Q)
      by (change (inject_Z 0) with 0%Q; lra).
    rewrite <- Zlt_Qlt in Hc0.
    unfold k, frames_emitted. lia. }
  split;
    [|split; [exact HpL|split; [exact HpR|split; [exact Hrate|exact Hs']]]].
  assert (Hwf' : fifo_wf (mkFifo v' 0 (_frameCount outputBuffer + k)))
    by (unfold fifo_wf; cbn [_position _frameCount _vector]; lia).
  destruct (live_wf _ Hwf') as (E' & _). rewrite E'.
  cbn [_position _frameCount _vector Z.mul Z.to_nat skipn].
  rewrite firstn_firstn.
  replace (Nat.min (Z.to_nat (_frameCount outputBuffer * 2))
             (Z.to_nat ((_frameCount outputBuffer + k) * 2)))
    with (Z.to_nat (_frameCount outputBuffer * 2)) by lia.
  apply F32_ext.
  - unfold F32.length in *. rewrite length_firstn. lia.
  - intros j Hj.
    assert (Hj' : 0 <= j < _frameCount outputBuffer * 2).
    { unfold F32.length in Hj. rewrite length_firstn in Hj. lia. }
    rewrite F32_get_firstn by lia.
    rewrite Hfront by lia. apply F32_get_app_l. lia.
Qed.

Lemma transposer_drains_input_witness :
  exists rt' inputBuffer' outputBuffer',
    Lib.RateTransposer.process 10 fast_transposer two_frame_fifo
      (FifoSampleBuffer.new 4)
    = Ok (rt', inputBuffer', outputBuffer')
    /\ _frameCount inputBuffer' = 0
    /\ RT.prevSampleL rt' = Fin 3 /\ RT.prevSampleR rt' = Fin 3.
Proof.
  destruct (transposer_drains_input 10 fast_transposer two_frame_fifo
              (FifoSampleBuffer.new 4))
    as (rt' & i' & o' & E & _ & _ & Hi & _ & _ & _ & _ & HpL & HpR & _).
  - unfold fifo_wf. vm_compute. repeat split; discriminate.
  - unfold fifo_wf. vm_compute. repeat split; discriminate.
  - reflexivity.
  - vm_compute. discriminate.
  - vm_compute. discriminate.
  - vm_compute. lia.
  - exists rt', i', o'. split; [exact E|]. split; [exact Hi|].
    split; [exact HpL|exact HpR].
Defined.

(** ** The time stretcher *)

Lemma scan_level_window (ts : Lib.TimeStretch.state) (inputBuffer : Fifo)
  (corrOffset : Z) (r : F32.t) (entries : list Z) :
  Lib.TimeStretch.refMidBuffer ts = Some r ->
  forall (bestOffset : Z) (bestCorr : sample),
    in_seek_window ts bestOffset ->
    exists offset corr,
      Lib.TimeStretch.scan_level ts inputBuffer corrOffset entries bestOffset
        bestCorr = Ok (offset, corr)
      /\ in_seek_window ts offset.
Proof.
  intros Hr. induction entries as [|entry entries IH];
    intros bestOffset bestCorr Hbest.
  - exists bestOffset, bestCorr. split; [reflexivity|exact Hbest].
  - cbn [Lib.TimeStretch.scan_level].
    destruct (Z.leb_spec 0 (corrOffset + entry)) as [Hlo|Hlo];
      [destruct (Z.ltb_spec (corrOffset + entry)
                   (Lib.TimeStretch.seekLength ts)) as [Hhi|Hhi]|];
      cbn [andb bind]; try (apply IH; exact Hbest).
    destruct (@calculateCrossCorr_total ts inputBuffer
                ((corrOffset + entry) * 2) r Hr) as (corr & ->).
    cbn [bind]. destruct (sgtb corr bestCorr); cbn [bind]; apply IH;
      [|exact Hbest].
    split; [exact Hlo|right; exact Hhi].
Qed.

Lemma scan_levels_window (ts : Lib.TimeStretch.state) (inputBuffer : Fifo)
  (r : F32.t) (rows : list (list Z)) :
  Lib.TimeStretch.refMidBuffer ts = Some r ->
  forall (corrOffset bestOffset : Z) (bestCorr : sample),
    in_seek_window ts bestOffset ->
    exists offset,
      Lib.TimeStretch.scan_levels ts inputBuffer rows corrOffset bestOffset
        bestCorr = Ok offset
      /\ in_seek_window ts offset.
Proof.
  intros Hr. induction rows as [|row rows IH];
    intros corrOffset bestOffset bestCorr Hbest.
  - exists bestOffset. split; [reflexivity|exact Hbest].
  - cbn [Lib.TimeStretch.scan_levels].
    destruct (scan_level_window ts inputBuffer corrOffset r
                (truthy_prefix row) Hr bestOffset bestCorr Hbest)
      as (offset & corr & -> & Hoffset).
    cbn [bind]. apply IH. exact Hoffset.
Qed.

(** X10.  [seekBestOverlapPosition()] of a stretcher whose two overlap
    buffers exist never throws, changes nothing but the correlation
    reference buffer, and returns an offset inside the seek window: 0, or a
    value in [0 .. seekLength - 1]; whatever the input holds (not-a-number
    samples included) and however short it is. *)
Theorem seek_offset_in_window (ts : Lib.TimeStretch.state)
  (inputBuffer : Fifo) (m r : F32.t) :
  Lib.TimeStretch.midBuffer ts = Some m ->
  Lib.TimeStretch.refMidBuffer ts = Some r ->
  exists r' offset,
    Lib.TimeStretch.seekBestOverlapPosition ts inputBuffer
    = Ok (Lib.TimeStretch.set_refMidBuffer ts (Some r'), offset)
    /\ 0 <= offset
    /\ (offset = 0 \/ offset < Lib.TimeStretch.seekLength ts).
Proof.
  intros Hm Hr. unfold Lib.TimeStretch.seekBestOverlapPosition.
  destruct (@precalcCorrReference_total ts m r Hm Hr) as (r' & ->).
  cbn [bind]. unfold Lib.TimeStretch.seekBestOverlapPositionQuick.
  destruct (scan_levels_window (Lib.TimeStretch.set_refMidBuffer ts (Some r'))
              inputBuffer r' Lib.TimeStretch.SCAN_OFFSETS eq_refl 0 0
              (Fin Number_MIN_VALUE)) as (offset & -> & Hoffset).
  { split; [lia|left; reflexivity]. }
  cbn [bind]. exists r', offset. split; [reflexivity|exact Hoffset].
Qed.

Lemma seek_offset_in_window_witness :
  exists r' offset,
    Lib.TimeStretch.seekBestOverlapPosition
      (Lib.TimeStretch.setParameters Lib.TimeStretch.new 1000 0 0 16)
      (FifoSampleBuffer.new 4)
    = Ok (Lib.TimeStretch.set_refMidBuffer
            (Lib.TimeStretch.setParameters Lib.TimeStretch.new 1000 0 0 16)
            (Some r'), offset)
    /\ 0 <= offset
    /\ (offset = 0
        \/ offset
           < Lib.TimeStretch.seekLength
               (Lib.TimeStretch.setParameters Lib.TimeStretch.new 1000 0 0
                  16)).
Proof.
  apply (seek_offset_in_window
           (Lib.TimeStretch.setParameters Lib.TimeStretch.new 1000 0 0 16)
           (FifoSampleBuffer.new 4) (F32.new 32) (F32.new 32));
    vm_compute; reflexivity.
Defined.

Lemma F32_subarray_empty (v : F32.t) (b : Z) : F32.subarray v b b = [].
Proof. unfold F32.subarray. rewrite Z.sub_diag. reflexivity. Qed.

(** One turn of the loop of [process] on an unconfigured stretcher: it
    returns, and neither the stretcher nor the input count has moved. *)
Lemma process_step_unconfigured (ts : Lib.TimeStretch.state)
  (inputBuffer outputBuffer : Fifo) :
  unconfigured ts -> 0 <= _frameCount inputBuffer ->
  exists ts' inputBuffer' outputBuffer',
    Lib.TimeStretch.process_step ts inputBuffer outputBuffer
    = Ok (ts', inputBuffer', outputBuffer')
    /\ unconfigured ts'
    /\ _frameCount inputBuffer' = _frameCount inputBuffer.
Proof.
  intros (Ereq & Eovl & Eseq & Eseek & Hskip & Hfract & Emid) Hfc.
  unfold Lib.TimeStretch.process_step, Lib.TimeStretch.seekBestOverlapPosition,
    Lib.TimeStretch.precalcCorrReference.
  rewrite Eovl. cbn [Z.to_nat for_range_res bind].
  unfold Lib.TimeStretch.seekBestOverlapPositionQuick.
  assert (Hscan : forall rows corrOffset,
             Lib.TimeStretch.scan_levels
               (Lib.TimeStretch.set_refMidBuffer ts
                  (Lib.TimeStretch.refMidBuffer ts)) inputBuffer rows
               corrOffset 0 (Fin Number_MIN_VALUE) = Ok 0).
  { assert (Hlevel : forall entries corrOffset,
               Lib.TimeStretch.scan_level
                 (Lib.TimeStretch.set_refMidBuffer ts
                    (Lib.TimeStretch.refMidBuffer ts)) inputBuffer corrOffset
                 entries 0 (Fin Number_MIN_VALUE)
               = Ok (0, Fin Number_MIN_VALUE)).
    { induction entries as [|entry entries IH]; intros corrOffset;
        [reflexivity|].
      cbn [Lib.TimeStretch.scan_level Lib.TimeStretch.set_refMidBuffer
           Lib.TimeStretch.seekLength].
      rewrite Eseek.
      destruct (Z.leb_spec 0 (corrOffset + entry));
        destruct (Z.ltb_spec (corrOffset + entry) 0); try lia;
        cbn [andb bind]; apply IH. }
    induction rows as [|row rows IH]; intros corrOffset; [reflexivity|].
    cbn [Lib.TimeStretch.scan_levels]. rewrite Hlevel. cbn [bind]. apply IH. }
  rewrite Hscan. cbn [bind].
  cbn [Lib.TimeStretch.set_refMidBuffer Lib.TimeStretch.overlapLength
       Lib.TimeStretch.midBuffer Lib.TimeStretch.skipFract
       Lib.TimeStretch.nominalSkip].
  rewrite Eovl.
  destruct (@ensureCapacity_never_throws outputBuffer
              (FifoSampleBuffer.frameCount outputBuffer + 0))
    as (out1 & ->).
  cbn [bind]. unfold Lib.TimeStretch.overlap. 
  cbn [Lib.TimeStretch.set_refMidBuffer Lib.TimeStretch.overlapLength].
  rewrite Eovl. cbn [Z.to_nat for_range_res bind].
  unfold Lib.TimeStretch.seekWindowLength.
  cbn [Lib.TimeStretch.set_refMidBuffer Lib.TimeStretch.sequenceLength
       Lib.TimeStretch.midBuffer].
  rewrite Eseq, Emid. cbn [Z.mul Z.sub Z.add Z.opp Z.ltb Z.compare bind
    Lib.TimeStretch.nonnull].
  rewrite !Z.add_0_r, F32_subarray_empty.
  cbn [F32.set F32.length List.length Z.of_nat Z.ltb Z.compare orb Z.add
       Z.to_nat firstn skipn app bind].
  assert (Efloor : Qfloor (Lib.TimeStretch.skipFract ts
                           + Lib.TimeStretch.nominalSkip ts) = 0).
  { apply Qfloor_unique; change (inject_Z 0) with 0%Q; lra. }
  cbn [Lib.TimeStretch.set_midBuffer Lib.TimeStretch.set_skipFract
       Lib.TimeStretch.set_refMidBuffer
       Lib.TimeStretch.skipFract Lib.TimeStretch.nominalSkip
       Lib.TimeStretch.sampleRate Lib.TimeStretch._tempo
       Lib.TimeStretch.sequenceMs Lib.TimeStretch.seekWindowMs
       Lib.TimeStretch.overlapMs Lib.TimeStretch.sequenceLength
       Lib.TimeStretch.seekLength Lib.TimeStretch.overlapLength
       Lib.TimeStretch.midBuffer Lib.TimeStretch.refMidBuffer
       Lib.TimeStretch.sampleReq].
  rewrite Efloor.
  do 3 eexists. split; [reflexivity|].
  split.
  - unfold unconfigured.
    cbn [Lib.TimeStretch.set_midBuffer Lib.TimeStretch.set_skipFract
         Lib.TimeStretch.set_refMidBuffer
         Lib.TimeStretch.skipFract Lib.TimeStretch.nominalSkip
         Lib.TimeStretch.sequenceLength Lib.TimeStretch.seekLength
         Lib.TimeStretch.overlapLength Lib.TimeStretch.midBuffer
         Lib.TimeStretch.sampleReq].
    repeat (split; [assumption|]).
    split; [change (inject_Z 0) with 0%Q; lra|reflexivity].
  - rewrite receive_within by lia. cbn [_frameCount]. lia.
Qed.

Lemma process_loop_unconfigured (fuel : nat) :
  forall (ts : Lib.TimeStretch.state) (inputBuffer outputBuffer : Fifo),
    unconfigured ts -> 0 <= _frameCount inputBuffer ->
    Lib.TimeStretch.process_loop fuel ts inputBuffer outputBuffer = OutOfFuel.
Proof.
  induction fuel as [|fuel IH]; intros ts inputBuffer outputBuffer Hts Hfc;
    cbn [Lib.TimeStretch.process_loop];
    unfold FifoSampleBuffer.frameCount;
    pose proof Hts as (Ereq & _); rewrite Ereq;
    destruct (Z.leb_spec 0 (_frameCount inputBuffer)); try lia;
    [reflexivity|].
  destruct (process_step_unconfigured ts inputBuffer outputBuffer Hts Hfc)
    as (ts' & i' & o' & -> & Hts' & Efc).
  cbn [bind]. apply IH; [exact Hts'|lia].
Qed.

(** X11.  A [TimeStretch] that was never given [setParameters] (nor a
    tempo) does not return from [process()]: whatever its two FIFOs hold,
    the call runs out of every amount of fuel.  Its required input length
    is 0 and its skip is 0, so the loop
    [while (inputBuffer.frameCount >= sampleReq)] never ends.  The library's
    [SoundTouch] constructor leaves its stretcher in that state, so
    [new SoundTouch().process()] does not return either. *)
Theorem unconfigured_stretcher_never_returns :
  (forall (fuel : nat) (inputBuffer outputBuffer : Fifo),
      0 <= _frameCount inputBuffer ->
      Lib.TimeStretch.process fuel Lib.TimeStretch.new inputBuffer
        outputBuffer = OutOfFuel)
  /\ (forall fuel : nat,
         Lib.SoundTouch.process fuel Lib.SoundTouch.new = OutOfFuel).
Proof.
  assert (Hstretch : forall (fuel : nat) (inputBuffer outputBuffer : Fifo),
             0 <= _frameCount inputBuffer ->
             Lib.TimeStretch.process fuel Lib.TimeStretch.new inputBuffer
               outputBuffer = OutOfFuel).
  { intros fuel inputBuffer outputBuffer Hfc.
    unfold Lib.TimeStretch.process.
    change (Lib.TimeStretch.midBuffer_missing Lib.TimeStretch.new) with true.
    change (Lib.TimeStretch.overlapLength Lib.TimeStretch.new) with 0.
    unfold FifoSampleBuffer.frameCount.
    destruct (Z.ltb_spec (_frameCount inputBuffer) 0); [lia|].
    unfold FifoSampleBuffer.receiveSamples.
    cbn [Z.mul]. rewrite Z.add_0_r, F32_subarray_empty.
    cbn [F32.set F32.new F32.length List.length Z.of_nat Z.ltb Z.compare orb
         Z.add Z.to_nat firstn skipn app bind repeat].
    apply process_loop_unconfigured.
    - repeat split; reflexivity.
    - rewrite receive_within by lia. cbn [_frameCount]. lia. }
  split; [exact Hstretch|].
  intros fuel. unfold Lib.SoundTouch.process.
  change (Qltb 1 (Lib.SoundTouch._rate Lib.SoundTouch.new)) with false.
  cbv iota.
  assert (E : Lib.SoundTouch.rateTransposer_process fuel Lib.SoundTouch.new
              = Ok Lib.SoundTouch.new) by reflexivity.
  rewrite E. cbn [bind]. unfold Lib.SoundTouch.timeStretch_process.
  change (Lib.SoundTouch.timeStretch Lib.SoundTouch.new)
    with Lib.TimeStretch.new.
  rewrite Hstretch; [reflexivity|].
  cbn. lia.
Qed.

Lemma unconfigured_stretcher_never_returns_witness :
  Lib.TimeStretch.process 3 Lib.TimeStretch.new (FifoSampleBuffer.new 4)
    (FifoSampleBuffer.new 4) = OutOfFuel.
Proof.
  apply (proj1 unconfigured_stretcher_never_returns 3%nat
           (FifoSampleBuffer.new 4) (FifoSampleBuffer.new 4)).
  vm_compute. discriminate.
Defined.

Lemma Qfloor_scaled_le (sr a b : Q) :
  (0 <= sr)%Q -> (a <= b)%Q ->
  Qfloor (sr * a / 1000) <= Qfloor (sr * b / 1000).
Proof.
  intros Hsr Hab. apply Qfloor_resp_le.
  apply Qle_shift_div_l; [reflexivity|].
  setoid_replace (sr * a / 1000 * 1000)%Q with (sr * a)%Q by field.
  nra.
Qed.

Lemma Qfloor_scaled_eq (sr a b : Q) :
  (a == b)%Q -> Qfloor (sr * a / 1000) = Qfloor (sr * b / 1000).
Proof. intros E. apply Qfloor_comp. rewrite E. reflexivity. Qed.

(** X12.  With auto sequence and seek durations ([sequenceMs === 0],
    [seekWindowMs === 0]) and a sample rate that is not negative, the
    [tempo] setter always leaves a sequence of 50 to 125 ms and a seek
    window of 15 to 25 ms, whatever the tempo (zero and negative values
    included): the sequence has 125 ms and the seek window 25 ms for every
    tempo up to 0.5, and 50 ms and 15 ms for every tempo from 2 on. *)
Theorem auto_lengths_bounds (ts : Lib.TimeStretch.state) (tempo : Q) :
  Qeqb (Lib.TimeStretch.sequenceMs ts) 0 = true ->
  Qeqb (Lib.TimeStretch.seekWindowMs ts) 0 = true ->
  (0 <= Lib.TimeStretch.sampleRate ts)%Q ->
  let sr := Lib.TimeStretch.sampleRate ts in
  let ts' := Lib.TimeStretch.set_tempo ts tempo in
  Qfloor (sr * 50 / 1000) <= Lib.TimeStretch.sequenceLength ts'
  /\ Lib.TimeStretch.sequenceLength ts' <= Qfloor (sr * 125 / 1000)
  /\ Qfloor (sr * 15 / 1000) <= Lib.TimeStretch.seekLength ts'
  /\ Lib.TimeStretch.seekLength ts' <= Qfloor (sr * 25 / 1000)
  /\ ((tempo <= 1 # 2)%Q ->
      Lib.TimeStretch.sequenceLength ts' = Qfloor (sr * 125 / 1000)
      /\ Lib.TimeStretch.seekLength ts' = Qfloor (sr * 25 / 1000))
  /\ ((2 <= tempo)%Q ->
      Lib.TimeStretch.sequenceLength ts' = Qfloor (sr * 50 / 1000)
      /\ Lib.TimeStretch.seekLength ts' = Qfloor (sr * 15 / 1000)).
Proof.
  destruct ts as [sr t sqm skm ovm sql skl ovl ns sf mb rmb rq].
  cbn [Lib.TimeStretch.sequenceMs Lib.TimeStretch.seekWindowMs
       Lib.TimeStretch.sampleRate].
  intros Eseq Eseek Hsr. cbv zeta.
  unfold Lib.TimeStretch.set_tempo, Lib.TimeStretch.calculateEffectiveParams.
  cbn [Lib.TimeStretch.sequenceLength Lib.TimeStretch.seekLength
       Lib.TimeStretch.sequenceMs Lib.TimeStretch.seekWindowMs
       Lib.TimeStretch.sampleRate Lib.TimeStretch._tempo].
  rewrite Eseq, Eseek.
  set (seqMs := (125 - (125 - 50) / (2 - (1 # 2)) * (tempo - (1 # 2)))%Q).
  set (seekMs := (25 - (25 - 15) / (2 - (1 # 2)) * (tempo - (1 # 2)))%Q).
  assert (Eseqms : (seqMs == 125 - 50 * (tempo - (1 # 2)))%Q)
    by (subst seqMs; field).
  assert (Eseekms : (seekMs == 25 - (20 # 3) * (tempo - (1 # 2)))%Q)
    by (subst seekMs; field).
  assert (H1 : (50 <= Qmax 50 (Qmin 125 seqMs))%Q) by apply Q.le_max_l.
  assert (H2 : (Qmax 50 (Qmin 125 seqMs) <= 125)%Q).
  { apply Q.max_lub; [discriminate|apply Q.le_min_l]. }
  assert (H3 : (15 <= Qmax 15 (Qmin 25 seekMs))%Q) by apply Q.le_max_l.
  assert (H4 : (Qmax 15 (Qmin 25 seekMs) <= 25)%Q).
  { apply Q.max_lub; [discriminate|apply Q.le_min_l]. }
  split; [apply Qfloor_scaled_le; assumption|].
  split; [apply Qfloor_scaled_le; assumption|].
  split; [apply Qfloor_scaled_le; assumption|].
  split; [apply Qfloor_scaled_le; assumption|].
  split.
  - intros Hslow. split; apply Qfloor_scaled_eq.
    + rewrite (Q.min_l 125 seqMs) by lra. apply Q.max_r. discriminate.
    + rewrite (Q.min_l 25 seekMs) by lra. apply Q.max_r. discriminate.
  - intros Hfast. split; apply Qfloor_scaled_eq.
    + apply Q.max_l. rewrite (Q.min_r 125 seqMs) by lra. lra.
    + apply Q.max_l. rewrite (Q.min_r 25 seekMs) by lra. lra.
Qed.

Lemma auto_lengths_bounds_witness :
  let ts := Lib.TimeStretch.setParameters Lib.TimeStretch.new 44100 0 0 16 in
  let sr := Lib.TimeStretch.sampleRate ts in
  let ts' := Lib.TimeStretch.set_tempo ts (3 # 2) in
  Qfloor (sr * 50 / 1000) <= Lib.TimeStretch.sequenceLength ts'
  /\ Lib.TimeStretch.sequenceLength ts' <= Qfloor (sr * 125 / 1000)
  /\ Qfloor (sr * 15 / 1000) <= Lib.TimeStretch.seekLength ts'
  /\ Lib.TimeStretch.seekLength ts' <= Qfloor (sr * 25 / 1000)
  /\ (((3 # 2) <= 1 # 2)%Q ->
      Lib.TimeStretch.sequenceLength ts' = Qfloor (sr * 125 / 1000)
      /\ Lib.TimeStretch.seekLength ts' = Qfloor (sr * 25 / 1000))
  /\ ((2 <= 3 # 2)%Q ->
      Lib.TimeStretch.sequenceLength ts' = Qfloor (sr * 50 / 1000)
      /\ Lib.TimeStretch.seekLength ts' = Qfloor (sr * 15 / 1000)).
Proof.
  apply (auto_lengths_bounds
           (Lib.TimeStretch.setParameters Lib.TimeStretch.new 44100 0 0 16)
           (3 # 2)).
  - vm_compute. reflexivity.
  - vm_compute. reflexivity.
  - vm_compute. discriminate.
Defined.

(** ** The library engine *)

Lemma same_wiring_refl (e : Lib.SoundTouch.state) : same_wiring e e.
Proof. repeat split. Qed.

Lemma same_wiring_trans (e1 e2 e3 : Lib.SoundTouch.state) :
  same_wiring e1 e2 -> same_wiring e2 e3 -> same_wiring e1 e3.
Proof.
  intros (A1 & A2 & A3 & A4 & A5) (B1 & B2 & B3 & B4 & B5).
  repeat split; congruence.
Qed.

Lemma wired_same_wiring (e e' : Lib.SoundTouch.state) :
  same_wiring e e' -> wired e -> wired e'.
Proof.
  intros (A1 & A2 & A3 & A4 & A5). unfold wired.
  rewrite A1, A2, A3, A4, A5. exact (fun H => H).
Qed.

Lemma rateTransposer_process_same_wiring (fuel : nat)
  (e e' : Lib.SoundTouch.state) :
  Lib.SoundTouch.rateTransposer_process fuel e = Ok e' -> same_wiring e e'.
Proof.
  unfold Lib.SoundTouch.rateTransposer_process.
  destruct (Lib.RateTransposer.process _ _ _ _) as [[[rt i] o]| |];
    cbn [bind]; try discriminate.
  intros H. injection H as <-. repeat split.
Qed.

Lemma timeStretch_process_same_wiring (fuel : nat)
  (e e' : Lib.SoundTouch.state) :
  Lib.SoundTouch.timeStretch_process fuel e = Ok e' -> same_wiring e e'.
Proof.
  unfold Lib.SoundTouch.timeStretch_process.
  destruct (Lib.TimeStretch.process _ _ _ _) as [[[ts i] o]| |];
    cbn [bind]; try discriminate.
  intros H. injection H as <-. repeat split.
Qed.

Lemma process_same_wiring (fuel : nat) (e e' : Lib.SoundTouch.state) :
  Lib.SoundTouch.process fuel e = Ok e' -> same_wiring e e'.
Proof.
  unfold Lib.SoundTouch.process.
  destruct (Qltb 1 (Lib.SoundTouch._rate e)).
  - destruct (Lib.SoundTouch.timeStretch_process fuel e) as [e1| |] eqn:E1;
      cbn [bind]; try discriminate.
    intros E2. eapply same_wiring_trans.
    + eapply timeStretch_process_same_wiring; exact E1.
    + eapply rateTransposer_process_same_wiring; exact E2.
  - destruct (Lib.SoundTouch.rateTransposer_process fuel e) as [e1| |] eqn:E1;
      cbn [bind]; try discriminate.
    intros E2. eapply same_wiring_trans.
    + eapply rateTransposer_process_same_wiring; exact E1.
    + eapply timeStretch_process_same_wiring; exact E2.
Qed.

Lemma clear_buffer_same_wiring (e e' : Lib.SoundTouch.state)
  (r : Lib.SoundTouch.bufref) :
  Lib.SoundTouch.clear_buffer e r = Ok e' -> same_wiring e e'.
Proof.
  unfold Lib.SoundTouch.clear_buffer.
  destruct (FifoSampleBuffer.clear _) as [f| |]; cbn [bind]; try discriminate.
  intros H. injection H as <-. repeat split.
Qed.

Lemma reset_same_wiring (e e' : Lib.SoundTouch.state) :
  Lib.SoundTouch.reset e = Ok e' -> same_wiring e e'.
Proof.
  unfold Lib.SoundTouch.reset.
  destruct (Lib.RateTransposer.reset _ _ _) as [[[rt i] o]| |];
    cbn [bind]; try discriminate.
  match goal with
  | |- context [Lib.TimeStretch.reset ?a ?b ?c] =>
      destruct (Lib.TimeStretch.reset a b c) as [[[ts i2] o2]| |]
  end; cbn [bind]; try discriminate.
  match goal with
  | |- context [Lib.SoundTouch.clear_buffer ?a Lib.SoundTouch.InputBuffer] =>
      set (e0 := a);
      destruct (Lib.SoundTouch.clear_buffer e0 Lib.SoundTouch.InputBuffer)
        as [e1| |] eqn:E1
  end; cbn [bind]; try discriminate.
  destruct (Lib.SoundTouch.clear_buffer e1 Lib.SoundTouch.IntermediateBuffer)
    as [e2| |] eqn:E2; cbn [bind]; try discriminate.
  intros E3.
  apply clear_buffer_same_wiring in E1, E2, E3.
  assert (H0 : same_wiring e e0) by (repeat split).
  eauto using same_wiring_trans.
Qed.

(** [calculateEffectiveRateAndTempo] leaves the engine wired for its new
    rate, when it finds it wired for the old one. *)
Lemma calculate_wired (e : Lib.SoundTouch.state) :
  wired e -> wired (Lib.SoundTouch.calculateEffectiveRateAndTempo e).
Proof.
  unfold wired, Lib.SoundTouch.calculateEffectiveRateAndTempo.
  cbn [Lib.SoundTouch._rate Lib.SoundTouch.rateTransposer_outputBuffer
       Lib.SoundTouch.timeStretch_outputBuffer].
  destruct (Qltb 1 (Lib.SoundTouch._rate e));
    intros (H1 & H2 & H3 & H4);
    destruct (Qltb 1 (Lib.SoundTouch.virtualRate e
                      * Lib.SoundTouch.virtualPitch e)) eqn:Enew;
    rewrite ?H1, ?H2, ?H3, ?H4;
    cbn [Lib.SoundTouch.bufref_eqb negb Lib.SoundTouch.wire
         Lib.SoundTouch._rate Lib.SoundTouch.rateTransposer_inputBuffer
         Lib.SoundTouch.rateTransposer_outputBuffer
         Lib.SoundTouch.timeStretch_inputBuffer
         Lib.SoundTouch.timeStretch_outputBuffer];
    rewrite ?Enew; repeat split; assumption.
Qed.

Lemma assign_control_wired (c : control) (e : Lib.SoundTouch.state) (v : Q) :
  wired e -> wired (assign_control c e v).
Proof.
  intros H. destruct c; apply calculate_wired; exact H.
Qed.

Lemma run_op_wired (op : engine_op) (e e' : Lib.SoundTouch.state) :
  run_op op e = Ok e' -> wired e -> wired e'.
Proof.
  destruct op; cbn [run_op]; intros H Hw.
  - injection H as <-. apply assign_control_wired. exact Hw.
  - injection H as <-. exact Hw.
  - destruct (FifoSampleBuffer.putSamples _ _ _ _) as [f| |];
      cbn [bind] in H; try discriminate.
    injection H as <-. exact Hw.
  - eapply wired_same_wiring; [|exact Hw].
    eapply process_same_wiring; exact H.
  - injection H as <-. exact Hw.
  - eapply wired_same_wiring; [|exact Hw].
    eapply reset_same_wiring; exact H.
Qed.

(** X13.  The library engine is always wired for the order in which its
    [process()] runs the two stages.  After any sequence of control
    assignments ([rate], [tempo], [pitch]), [setParameters], puts into the
    input FIFO, [process()] calls, takes from the output FIFO and
    [reset()] calls on a new engine: when the effective rate is above 1 the
    time stretcher reads the engine's input FIFO and the rate transposer
    writes its output FIFO, otherwise the rate transposer reads the input
    FIFO and the time stretcher writes the output FIFO; and the
    intermediate FIFO links the two. *)
Theorem engine_stays_wired (ops : list engine_op) (e : Lib.SoundTouch.state) :
  run_ops ops Lib.SoundTouch.new = Ok e -> wired e.
Proof.
  assert (Hgen : forall ops e0 e,
             wired e0 -> run_ops ops e0 = Ok e -> wired e).
  { clear ops e. induction ops as [|op ops IH]; intros e0 e Hw H.
    - injection H as <-. exact Hw.
    - cbn [run_ops] in H.
      destruct (run_op op e0) as [e1| |] eqn:E1; cbn [bind] in H;
        try discriminate.
      eapply IH; [|exact H]. eapply run_op_wired; [exact E1|exact Hw]. }
  apply Hgen. unfold wired. cbn. repeat split.
Qed.

Lemma engine_stays_wired_witness :
  wired (assign_control Rate
           (assign_control Pitch Lib.SoundTouch.new 2) (1 # 4)).
Proof.
  apply (engine_stays_wired [SetControl Pitch 2; SetControl Rate (1 # 4)]).
  reflexivity.
Defined.

Lemma Qltb_epsilon_same (x : Q) : Qltb (1 # 10 ^ 10) (Qabs (x - x)) = false.
Proof.
  apply Qltb_ge. setoid_replace (x - x)%Q with 0%Q by ring.
  vm_compute. discriminate.
Qed.

(** A second [calculateEffectiveRateAndTempo] in a row changes nothing. *)
Lemma calculate_idempotent (e : Lib.SoundTouch.state) :
  Lib.SoundTouch.calculateEffectiveRateAndTempo
    (Lib.SoundTouch.calculateEffectiveRateAndTempo e)
  = Lib.SoundTouch.calculateEffectiveRateAndTempo e.
Proof.
  destruct e as [rt rti rto ts tsi tso ib mb ob r t vp vr vt].
  unfold Lib.SoundTouch.calculateEffectiveRateAndTempo. cbv zeta.
  cbn [Lib.SoundTouch._rate Lib.SoundTouch._tempo
       Lib.SoundTouch.virtualPitch Lib.SoundTouch.virtualRate
       Lib.SoundTouch.virtualTempo Lib.SoundTouch.rateTransposer
       Lib.SoundTouch.timeStretch
       Lib.SoundTouch.rateTransposer_inputBuffer
       Lib.SoundTouch.rateTransposer_outputBuffer
       Lib.SoundTouch.timeStretch_inputBuffer
       Lib.SoundTouch.timeStretch_outputBuffer
       Lib.SoundTouch._inputBuffer Lib.SoundTouch._intermediateBuffer
       Lib.SoundTouch._outputBuffer].
  destruct (Qltb 1 (vr * vp)) eqn:E; [destruct rto|destruct tso];
    cbn [Lib.SoundTouch.bufref_eqb negb Lib.SoundTouch.wire
         Lib.SoundTouch._rate Lib.SoundTouch._tempo
         Lib.SoundTouch.virtualPitch Lib.SoundTouch.virtualRate
         Lib.SoundTouch.virtualTempo Lib.SoundTouch.rateTransposer
         Lib.SoundTouch.timeStretch
         Lib.SoundTouch.rateTransposer_inputBuffer
         Lib.SoundTouch.rateTransposer_outputBuffer
         Lib.SoundTouch.timeStretch_inputBuffer
         Lib.SoundTouch.timeStretch_outputBuffer
         Lib.SoundTouch._inputBuffer Lib.SoundTouch._intermediateBuffer
         Lib.SoundTouch._outputBuffer];
    rewrite ?E, !Qltb_epsilon_same; reflexivity.
Qed.

(** X14.  Assigning a control the value it was just given changes nothing:
    the second assignment leaves the whole engine as the first one left it,
    so nothing is pushed to the time stretcher or the rate transposer a
    second time and the FIFOs are not rewired.  (Pitch other than 0, where
    the quotient [virtualTempo / virtualPitch] is a number.) *)
Theorem assign_control_idempotent (c : control) (e : Lib.SoundTouch.state)
  (v : Q) :
  ~ (pitch_after c e v == 0)%Q ->
  assign_control c (assign_control c e v) v = assign_control c e v.
Proof.
  intros _.
  destruct c; cbn [assign_control];
    unfold Lib.SoundTouch.set_pitch, Lib.SoundTouch.set_tempo,
      Lib.SoundTouch.set_rate;
    match goal with
    | |- Lib.SoundTouch.calculateEffectiveRateAndTempo (?set ?x v) = ?x =>
        rewrite <- (calculate_idempotent (set e v)) at 2; f_equal;
        destruct (Lib_calculate_fields (set e v)) as (A1 & A2 & A3 & _);
        cbv zeta in A1, A2, A3;
        destruct (Lib.SoundTouch.calculateEffectiveRateAndTempo (set e v));
        cbn in A1, A2, A3; subst; reflexivity
    end.
Qed.

Lemma assign_control_idempotent_witness :
  assign_control Pitch (assign_control Pitch Lib.SoundTouch.new 2) 2
  = assign_control Pitch Lib.SoundTouch.new 2.
Proof.
  apply (assign_control_idempotent Pitch Lib.SoundTouch.new 2).
  cbn. discriminate.
Defined.

(** X15.  A slow ramp never reaches the components.  The engine compares
    each new effective tempo and rate with the value of the assignment
    before, not with the value the component last received: a sequence of
    assignments each of which moves the effective tempo and rate by at most
    [1e-10] leaves the time stretcher and the rate transposer exactly as
    they were, however far the sequence moves the tempo and rate in
    total. *)
Theorem slow_ramp_not_pushed (e : Lib.SoundTouch.state)
  (steps : list (control * Q)) :
  small_steps e steps ->
  Lib.SoundTouch.timeStretch (assign_all e steps)
  = Lib.SoundTouch.timeStretch e
  /\ Lib.SoundTouch.rateTransposer (assign_all e steps)
     = Lib.SoundTouch.rateTransposer e.
Proof.
  revert e. induction steps as [|[c v] steps IH]; intros e H.
  - split; reflexivity.
  - cbn [small_steps] in H. cbv zeta in H. destruct H as (_ & Ht & Hr & H).
    cbn [assign_all]. destruct (IH _ H) as [IHt IHr].
    rewrite IHt, IHr. clear IH IHt IHr H.
    apply Qltb_ge in Ht, Hr. unfold epsilon in Ht, Hr.
    destruct c; cbn [assign_control] in *;
      unfold Lib.SoundTouch.set_pitch, Lib.SoundTouch.set_tempo,
        Lib.SoundTouch.set_rate in *;
      match goal with
      | |- context [Lib.SoundTouch.calculateEffectiveRateAndTempo ?x] =>
          destruct (Lib_calculate_fields x)
            as (_ & _ & _ & _ & _ & A6 & A7);
          cbv zeta in A6, A7; unfold epsilon in A6, A7;
          cbn [Lib.SoundTouch._tempo Lib.SoundTouch._rate
               Lib.SoundTouch.set_virtualPitch
               Lib.SoundTouch.set_virtualTempo
               Lib.SoundTouch.set_virtualRate] in A6, A7;
          rewrite Ht in A6; rewrite Hr in A7; split; assumption
      end.
Qed.

Lemma slow_ramp_not_pushed_witness :
  (Lib.SoundTouch.timeStretch (assign_all Lib.SoundTouch.new slow_ramp)
   = Lib.SoundTouch.timeStretch Lib.SoundTouch.new
   /\ Lib.SoundTouch.rateTransposer (assign_all Lib.SoundTouch.new slow_ramp)
      = Lib.SoundTouch.rateTransposer Lib.SoundTouch.new)
  /\ (epsilon
      < Qabs (Lib.SoundTouch._rate (assign_all Lib.SoundTouch.new slow_ramp)
              - Lib.RateTransposer.rate
                  (Lib.SoundTouch.rateTransposer
                     (assign_all Lib.SoundTouch.new slow_ramp))))%Q.
Proof.
  split.
  - apply (slow_ramp_not_pushed Lib.SoundTouch.new slow_ramp).
    vm_compute. repeat split; discriminate.
  - vm_compute. reflexivity.
Defined.

(** X17.  [reset()] of the engine never throws on FIFOs whose end index is
    not negative and returns the engine to a clean streaming state: the
    three FIFOs are empty at position 0 (their storage kept), the rate
    transposer's phase and retained frame are 0, the time stretcher has no
    [midBuffer] and no fractional skip.  It keeps every setting: the
    transposer's rate, the stretcher's parameters, the wiring, the
    effective rate and tempo and the three controls. *)
Theorem reset_empties (e : Lib.SoundTouch.state) :
  0 <= _position (Lib.SoundTouch._inputBuffer e)
       + _frameCount (Lib.SoundTouch._inputBuffer e) ->
  0 <= _position (Lib.SoundTouch._intermediateBuffer e)
       + _frameCount (Lib.SoundTouch._intermediateBuffer e) ->
  0 <= _position (Lib.SoundTouch._outputBuffer e)
       + _frameCount (Lib.SoundTouch._outputBuffer e) ->
  Lib.SoundTouch.reset e
  = Ok (Lib.SoundTouch.mk
          (RT.mk (RT._rate (Lib.SoundTouch.rateTransposer e)) 0
             (Fin 0) (Fin 0))
          (Lib.SoundTouch.rateTransposer_inputBuffer e)
          (Lib.SoundTouch.rateTransposer_outputBuffer e)
          (Lib.TimeStretch.set_skipFract
             (Lib.TimeStretch.set_midBuffer (Lib.SoundTouch.timeStretch e)
                None) 0)
          (Lib.SoundTouch.timeStretch_inputBuffer e)
          (Lib.SoundTouch.timeStretch_outputBuffer e)
          (mkFifo (_vector (Lib.SoundTouch._inputBuffer e)) 0 0)
          (mkFifo (_vector (Lib.SoundTouch._intermediateBuffer e)) 0 0)
          (mkFifo (_vector (Lib.SoundTouch._outputBuffer e)) 0 0)
          (Lib.SoundTouch._rate e) (Lib.SoundTouch._tempo e)
          (Lib.SoundTouch.virtualPitch e) (Lib.SoundTouch.virtualRate e)
          (Lib.SoundTouch.virtualTempo e)).
Proof.
  destruct e as [rt rti rto ts tsi tso ib mb ob r t vp vr vt].
  cbn [Lib.SoundTouch._inputBuffer Lib.SoundTouch._intermediateBuffer
       Lib.SoundTouch._outputBuffer Lib.SoundTouch.rateTransposer
       Lib.SoundTouch.timeStretch Lib.SoundTouch._rate Lib.SoundTouch._tempo
       Lib.SoundTouch.virtualPitch Lib.SoundTouch.virtualRate
       Lib.SoundTouch.virtualTempo
       Lib.SoundTouch.rateTransposer_inputBuffer
       Lib.SoundTouch.rateTransposer_outputBuffer
       Lib.SoundTouch.timeStretch_inputBuffer
       Lib.SoundTouch.timeStretch_outputBuffer].
  intros Hi Hm Ho.
  unfold Lib.SoundTouch.reset, Lib.RateTransposer.reset,
    Lib.TimeStretch.reset, Lib.SoundTouch.clear_buffer.
  destruct rti, rto, tsi, tso;
    repeat (cbv zeta;
            cbn [bind Lib.SoundTouch.deref Lib.SoundTouch.assign
                 Lib.SoundTouch.set_rateTransposer
                 Lib.SoundTouch.set_timeStretch
                 Lib.SoundTouch._inputBuffer
                 Lib.SoundTouch._intermediateBuffer
                 Lib.SoundTouch._outputBuffer Lib.SoundTouch.rateTransposer
                 Lib.SoundTouch.timeStretch Lib.SoundTouch._rate
                 Lib.SoundTouch._tempo Lib.SoundTouch.virtualPitch
                 Lib.SoundTouch.virtualRate Lib.SoundTouch.virtualTempo
                 Lib.SoundTouch.rateTransposer_inputBuffer
                 Lib.SoundTouch.rateTransposer_outputBuffer
                 Lib.SoundTouch.timeStretch_inputBuffer
                 Lib.SoundTouch.timeStretch_outputBuffer
                 _vector _position _frameCount];
            try rewrite clear_ok
              by (cbn [_position _frameCount]; lia));
    reflexivity.
Qed.

Lemma reset_empties_witness :
  exists e,
    Lib.SoundTouch.reset
      (Lib.SoundTouch.assign (assign_control Pitch Lib.SoundTouch.new 2)
         Lib.SoundTouch.InputBuffer two_frame_fifo) = Ok e
    /\ _frameCount (Lib.SoundTouch._inputBuffer e) = 0
    /\ Lib.SoundTouch.virtualPitch e = 2%Q.
Proof.
  eexists. split.
  - apply (reset_empties
             (Lib.SoundTouch.assign
                (assign_control Pitch Lib.SoundTouch.new 2)
                Lib.SoundTouch.InputBuffer two_frame_fifo));
      vm_compute; discriminate.
  - split; reflexivity.
Defined.

(** ** The time stretcher at any tempo *)

Lemma same_settings_refl (ts : Lib.TimeStretch.state) : same_settings ts ts.
Proof. repeat split. Qed.

Lemma same_settings_trans (ts1 ts2 ts3 : Lib.TimeStretch.state) :
  same_settings ts1 ts2 -> same_settings ts2 ts3 -> same_settings ts1 ts3.
Proof.
  unfold same_settings. intros H1 H2.
  decompose [and] H1. decompose [and] H2. repeat split; congruence.
Qed.

Lemma frames_per_sequence_same (ts ts' : Lib.TimeStretch.state) :
  same_settings ts ts' -> frames_per_sequence ts' = frames_per_sequence ts.
Proof.
  unfold same_settings, frames_per_sequence. intros H.
  decompose [and] H. congruence.
Qed.

(** The skip of one turn is between 0 and the frames the loop requires,
    and the fractional skip stays in [0, 1). *)
Lemma stretching_skip (ts : Lib.TimeStretch.state) :
  stretching ts ->
  (0 < Lib.TimeStretch.nominalSkip ts)%Q
  /\ 0 <= Qfloor (Lib.TimeStretch.skipFract ts + Lib.TimeStretch.nominalSkip ts)
     <= Lib.TimeStretch.sampleReq ts
  /\ (0 <= Lib.TimeStretch.skipFract ts + Lib.TimeStretch.nominalSkip ts
           - inject_Z (Qfloor (Lib.TimeStretch.skipFract ts
                               + Lib.TimeStretch.nominalSkip ts)))%Q
  /\ (Lib.TimeStretch.skipFract ts + Lib.TimeStretch.nominalSkip ts
      - inject_Z (Qfloor (Lib.TimeStretch.skipFract ts
                          + Lib.TimeStretch.nominalSkip ts)) < 1)%Q
  /\ 1 <= Lib.TimeStretch.sampleReq ts.
Proof.
  intros (Ht & Hovl & Hseq & Hseek & Hskip & Hreq & Hf0 & Hf1 & _).
  set (nu := Lib.TimeStretch.nominalSkip ts) in *.
  set (sf := Lib.TimeStretch.skipFract ts) in *.
  assert (Hnu : (0 < nu)%Q).
  { rewrite Hskip. apply Qmult_lt_0_compat; [exact Ht|].
    change 0%Q with (inject_Z 0). rewrite <- Zlt_Qlt. lia. }
  pose proof (Qfloor_le (sf + nu)) as Hfl.
  pose proof (Qlt_floor (sf + nu)) as Hfu.
  rewrite inject_Z_plus in Hfu. change (inject_Z 1) with 1%Q in Hfu.
  assert (H0 : 0 <= Qfloor (sf + nu)).
  { assert (H : (inject_Z (-1) < inject_Z (Qfloor (sf + nu)))%Q).
    { change (inject_Z (-1)) with (-1)%Q. lra. }
    rewrite <- Zlt_Qlt in H. lia. }
  assert (H1 : Qfloor (sf + nu) <= Qfloor (nu + (1 # 2)) + 1).
  { assert (H : (inject_Z (Qfloor (sf + nu))
                 < inject_Z (Qfloor (nu + (1 # 2)) + 1 + 1))%Q).
    { pose proof (Qlt_floor (nu + (1 # 2))) as Hh.
      rewrite !inject_Z_plus in *. change (inject_Z 1) with 1%Q in *. lra. }
    rewrite <- Zlt_Qlt in H. lia. }
  assert (H2 : 0 <= Qfloor (nu + (1 # 2))).
  { assert (H : (inject_Z (-1) < inject_Z (Qfloor (nu + (1 # 2))))%Q).
    { pose proof (Qlt_floor (nu + (1 # 2))) as Hh.
      rewrite inject_Z_plus in Hh. change (inject_Z 1) with 1%Q in Hh.
      change (inject_Z (-1)) with (-1)%Q. lra. }
    rewrite <- Zlt_Qlt in H. lia. }
  split; [exact Hnu|]. split; [lia|]. split; [lra|]. split; [lra|]. lia.
Qed.

(** One turn of the stretcher's loop, at any tempo. *)
Lemma process_step_law (ts : Lib.TimeStretch.state)
  (inputBuffer outputBuffer : Fifo) (m : F32.t) :
  stretching ts -> Lib.TimeStretch.midBuffer ts = Some m ->
  0 <= _position inputBuffer ->
  Lib.TimeStretch.sampleReq ts <= _frameCount inputBuffer ->
  0 <= _position outputBuffer -> 0 <= _frameCount outputBuffer ->
  exists ts' inputBuffer' outputBuffer' m',
    Lib.TimeStretch.process_step ts inputBuffer outputBuffer
    = Ok (ts', inputBuffer', outputBuffer')
    /\ stretching ts'
    /\ Lib.TimeStretch.midBuffer ts' = Some m'
    /\ same_settings ts ts'
    /\ Lib.TimeStretch.skipFract ts'
       = (Lib.TimeStretch.skipFract ts + Lib.TimeStretch.nominalSkip ts
          - inject_Z (Qfloor (Lib.TimeStretch.skipFract ts
                              + Lib.TimeStretch.nominalSkip ts)))%Q
    /\ 0 <= _position inputBuffer'
    /\ _frameCount inputBuffer'
       = _frameCount inputBuffer
         - Qfloor (Lib.TimeStretch.skipFract ts
                   + Lib.TimeStretch.nominalSkip ts)
    /\ 0 <= _position outputBuffer'
    /\ _frameCount outputBuffer'
       = _frameCount outputBuffer + frames_per_sequence ts.
Proof.
  intros Hst Hm Hip Hfc Hop Hofc.
  destruct (stretching_skip ts Hst) as (Hnu & Hskip01 & Hnew0 & Hnew1 & Hreq1).
  destruct Hst as (Ht & Hovl & Hseq & Hseek & Hskip & Hreq & Hf0 & Hf1
                   & (r & Hr) & Hmid).
  pose proof (Hmid m Hm) as Hmlen.
  unfold Lib.TimeStretch.process_step, Lib.TimeStretch.seekBestOverlapPosition.
  destruct (@precalcCorrReference_total ts m r Hm Hr) as (r' & ->).
  cbn [bind].
  unfold Lib.TimeStretch.seekBestOverlapPositionQuick.
  destruct (@scan_levels_total
              (Lib.TimeStretch.set_refMidBuffer ts (Some r')) inputBuffer r'
              Lib.TimeStretch.SCAN_OFFSETS eq_refl 0 0 (Fin Number_MIN_VALUE))
    as (offset & ->).
  cbn [bind].
  cbn [Lib.TimeStretch.set_refMidBuffer Lib.TimeStretch.overlapLength
       Lib.TimeStretch.seekWindowLength Lib.TimeStretch.sequenceLength
       Lib.TimeStretch.midBuffer Lib.TimeStretch.skipFract
       Lib.TimeStretch.nominalSkip].
  unfold FifoSampleBuffer.frameCount.
  destruct (@ensureCapacity_total outputBuffer
              (_frameCount outputBuffer + Lib.TimeStretch.overlapLength ts)
              Hop) as (v1 & -> & Hlen1).
  cbn [bind].
  destruct (@overlap_total (Lib.TimeStretch.set_refMidBuffer ts (Some r'))
              inputBuffer (mkFifo v1 0 (_frameCount outputBuffer)) offset m Hm)
    as (v2 & Hov).
  cbn [Lib.TimeStretch.set_refMidBuffer] in Hov. rewrite Hov. cbn [bind].
  unfold FifoSampleBuffer.put. cbn [_position _frameCount _vector].
  rewrite Hm. cbn [Lib.TimeStretch.nonnull].
  assert (Hc0 : 0 <= Lib.TimeStretch.overlapLength ts * 2) by lia.
  pose proof (@subarray_length_le_count (FifoSampleBuffer.vector inputBuffer)
                (FifoSampleBuffer.startIndex inputBuffer
                 + (offset + Lib.TimeStretch.sequenceLength ts
                    - Lib.TimeStretch.overlapLength ts) * 2)
                (Lib.TimeStretch.overlapLength ts * 2) Hc0) as Hsub.
  assert (Hset : exists m',
             F32.set m
               (F32.subarray (FifoSampleBuffer.vector inputBuffer)
                  (FifoSampleBuffer.startIndex inputBuffer
                   + (offset + Lib.TimeStretch.sequenceLength ts
                      - Lib.TimeStretch.overlapLength ts) * 2)
                  (FifoSampleBuffer.startIndex inputBuffer
                   + (offset + Lib.TimeStretch.sequenceLength ts
                      - Lib.TimeStretch.overlapLength ts) * 2
                   + Lib.TimeStretch.overlapLength ts * 2)) 0 = Ok m'
             /\ F32.length m' = Lib.TimeStretch.overlapLength ts * 2).
  { rewrite F32_set_ok by lia. eexists. split; [reflexivity|].
    erewrite F32_set_length by (apply F32_set_ok; lia). exact Hmlen. }
  destruct Hset as (m' & Hset & Hm'len).
  assert (Hput : exists o3,
             (if 0 <? Lib.TimeStretch.sequenceLength ts
                      - 2 * Lib.TimeStretch.overlapLength ts
              then
                FifoSampleBuffer.putBuffer
                  (mkFifo v2 0 (_frameCount outputBuffer
                                + Lib.TimeStretch.overlapLength ts))
                  inputBuffer (offset + Lib.TimeStretch.overlapLength ts)
                  (Some (Lib.TimeStretch.sequenceLength ts
                         - 2 * Lib.TimeStretch.overlapLength ts))
              else
                Ok (mkFifo v2 0 (_frameCount outputBuffer
                                 + Lib.TimeStretch.overlapLength ts)))
             = Ok o3
             /\ 0 <= _position o3
             /\ _frameCount o3
                = _frameCount outputBuffer + frames_per_sequence ts).
  { unfold frames_per_sequence.
    destruct (Z.ltb_spec 0 (Lib.TimeStretch.sequenceLength ts
                            - 2 * Lib.TimeStretch.overlapLength ts)).
    - unfold FifoSampleBuffer.putBuffer.
      destruct (@putSamples_total
                  (mkFifo v2 0 (_frameCount outputBuffer
                                + Lib.TimeStretch.overlapLength ts))
                  (FifoSampleBuffer.vector inputBuffer)
                  (FifoSampleBuffer.position inputBuffer
                   + (offset + Lib.TimeStretch.overlapLength ts))
                  (Lib.TimeStretch.sequenceLength ts
                   - 2 * Lib.TimeStretch.overlapLength ts))
        as (v3 & -> & _); cbn [_position _frameCount]; try lia.
      eexists. split; [reflexivity|]. cbn [_position _frameCount]. lia.
    - eexists. split; [reflexivity|]. cbn [_position _frameCount]. lia. }
  destruct Hput as (o3 & -> & Ho3p & Ho3c).
  cbn [bind]. rewrite Hset. cbn [bind].
  cbn [Lib.TimeStretch.set_skipFract Lib.TimeStretch.set_midBuffer
       Lib.TimeStretch.set_refMidBuffer Lib.TimeStretch.skipFract
       Lib.TimeStretch.nominalSkip].
  rewrite receive_within by lia.
  eexists _, _, _, m'. split; [reflexivity|].
  split.
  { unfold stretching.
    cbn [Lib.TimeStretch.overlapLength Lib.TimeStretch._tempo
         Lib.TimeStretch.sequenceLength Lib.TimeStretch.sampleReq
         Lib.TimeStretch.seekLength
         Lib.TimeStretch.nominalSkip Lib.TimeStretch.skipFract
         Lib.TimeStretch.refMidBuffer Lib.TimeStretch.midBuffer].
    repeat (split; [assumption|]).
    split; [exists r'; reflexivity|].
    intros m0 E. injection E as <-. exact Hm'len. }
  cbn [Lib.TimeStretch.midBuffer Lib.TimeStretch.skipFract
       _position _frameCount].
  split; [reflexivity|]. split; [repeat split|].
  split; [reflexivity|]. split; [lia|]. split; [reflexivity|].
  split; assumption.
Qed.

Lemma inject_Z_sub (a b : Z) : (inject_Z (a - b) == inject_Z a - inject_Z b)%Q.
Proof. unfold Z.sub. rewrite inject_Z_plus, inject_Z_opp. ring. Qed.

(** The stretcher's loop, at any tempo: it ends, after [k] turns. *)
Lemma process_loop_law (fuel : nat) :
  forall (ts : Lib.TimeStretch.state) (inputBuffer outputBuffer : Fifo)
         (m : F32.t),
    stretching ts -> Lib.TimeStretch.midBuffer ts = Some m ->
    0 <= _position inputBuffer -> 0 <= _frameCount inputBuffer ->
    0 <= _position outputBuffer -> 0 <= _frameCount outputBuffer ->
    (inject_Z (_frameCount inputBuffer) - Lib.TimeStretch.skipFract ts
     <= inject_Z (Z.of_nat fuel) * Lib.TimeStretch.nominalSkip ts)%Q ->
    exists k ts' inputBuffer' outputBuffer' m',
      Lib.TimeStretch.process_loop fuel ts inputBuffer outputBuffer
      = Ok (ts', inputBuffer', outputBuffer')
      /\ stretching ts'
      /\ Lib.TimeStretch.midBuffer ts' = Some m'
      /\ same_settings ts ts'
      /\ 0 <= k
      /\ 0 <= _position inputBuffer' /\ 0 <= _frameCount inputBuffer'
      /\ _frameCount inputBuffer' < Lib.TimeStretch.sampleReq ts
      /\ 0 <= _position outputBuffer'
      /\ _frameCount outputBuffer'
         = _frameCount outputBuffer + k * frames_per_sequence ts
      /\ (inject_Z (_frameCount inputBuffer - _frameCount inputBuffer')
          + Lib.TimeStretch.skipFract ts'
          == Lib.TimeStretch.skipFract ts
             + inject_Z k * Lib.TimeStretch.nominalSkip ts)%Q.
Proof.
  induction fuel as [|fuel IH];
    intros ts inputBuffer outputBuffer m Hst Hm Hip Hic Hop Hoc Hf;
    cbn [Lib.TimeStretch.process_loop];
    unfold FifoSampleBuffer.frameCount;
    destruct (Z.leb_spec (Lib.TimeStretch.sampleReq ts)
                (_frameCount inputBuffer)) as [Hreq|Hreq];
    try (exists 0, ts, inputBuffer, outputBuffer, m;
         split; [reflexivity|]; split; [exact Hst|]; split; [exact Hm|];
         split; [apply same_settings_refl|];
         repeat (split; [first [assumption | lia]|]);
         rewrite Z.sub_diag; change (inject_Z 0) with 0%Q; ring).
  - (* no fuel is needed once the loop condition fails *)
    exfalso.
    destruct (stretching_skip ts Hst) as (_ & _ & _ & _ & Hreq1).
    destruct Hst as (_ & _ & _ & _ & _ & _ & _ & Hf1 & _).
    assert (H1 : (inject_Z 1 <= inject_Z (_frameCount inputBuffer))%Q)
      by (rewrite <- Zle_Qle; lia).
    change (inject_Z 1) with 1%Q in H1.
    change (inject_Z (Z.of_nat 0)) with 0%Q in Hf. lra.
  - destruct (stretching_skip ts Hst) as (Hnu & Hskip01 & _ & _ & Hreq1).
    destruct (@process_step_law ts inputBuffer outputBuffer m Hst Hm Hip Hreq
                Hop Hoc)
      as (ts1 & i1 & o1 & m1 & -> & Hst1 & Hm1 & Hsame1 & Hsf1 & Hi1p & Hi1c
          & Ho1p & Ho1c).
    cbn [bind].
    assert (Ei1 : (inject_Z (_frameCount i1)
                   == inject_Z (_frameCount inputBuffer)
                      - inject_Z (Qfloor (Lib.TimeStretch.skipFract ts
                                          + Lib.TimeStretch.nominalSkip ts)))%Q)
      by (rewrite Hi1c; apply inject_Z_sub).
    pose proof Hsame1 as Hs. unfold same_settings in Hs.
    decompose [and] Hs. clear Hs.
    assert (Hf' : (inject_Z (_frameCount i1) - Lib.TimeStretch.skipFract ts1
                   <= inject_Z (Z.of_nat fuel)
                      * Lib.TimeStretch.nominalSkip ts1)%Q).
    { rewrite Nat2Z.inj_succ in Hf. unfold Z.succ in Hf.
      rewrite inject_Z_plus in Hf. change (inject_Z 1) with 1%Q in Hf.
      rewrite Ei1, Hsf1.
      match goal with
      | E : Lib.TimeStretch.nominalSkip ts1 = _ |- _ => rewrite E
      end.
      lra. }
    assert (Hi1n : 0 <= _frameCount i1) by lia.
    assert (Ho1n : 0 <= _frameCount o1).
    { destruct Hst as (_ & Hovl & _). unfold frames_per_sequence in Ho1c.
      lia. }
    destruct (IH ts1 i1 o1 m1 Hst1 Hm1 Hi1p Hi1n Ho1p Ho1n Hf')
      as (k & ts' & i' & o' & m' & -> & Hst' & Hm' & Hsame' & Hk & Hi'p
          & Hi'c & Hexit & Ho'p & Ho'c & Hlaw).
    exists (k + 1), ts', i', o', m'.
    split; [reflexivity|]. split; [exact Hst'|]. split; [exact Hm'|].
    split; [exact (same_settings_trans _ _ _ Hsame1 Hsame')|].
    split; [lia|]. split; [exact Hi'p|]. split; [exact Hi'c|].
    split; [congruence|]. split; [exact Ho'p|].
    split.
    { rewrite Ho'c, Ho1c, (frames_per_sequence_same _ _ Hsame1). ring. }
    rewrite inject_Z_plus. change (inject_Z 1) with 1%Q.
    rewrite inject_Z_sub. rewrite inject_Z_sub in Hlaw.
    rewrite Hsf1 in Hlaw.
    match goal with
    | E : Lib.TimeStretch.nominalSkip ts1 = _ |- _ => rewrite E in Hlaw
    end.
    lra.
Qed.

Lemma held_frames_some (ts : Lib.TimeStretch.state) (m : F32.t) :
  stretching ts -> Lib.TimeStretch.midBuffer ts = Some m ->
  Lib.TimeStretch.midBuffer_missing ts = false
  /\ held_frames ts = Lib.TimeStretch.overlapLength ts.
Proof.
  intros (_ & Hovl & _ & _ & _ & _ & _ & _ & _ & Hmid) Hm.
  unfold held_frames, Lib.TimeStretch.midBuffer_missing.
  rewrite Hm, (Hmid m Hm).
  destruct (Z.eqb_spec (Lib.TimeStretch.overlapLength ts * 2) 0); [lia|].
  split; reflexivity.
Qed.

(** [process()] of the stretcher, at any tempo. *)
Lemma process_law (fuel : nat) (ts : Lib.TimeStretch.state)
  (inputBuffer outputBuffer : Fifo) :
  stretching ts ->
  0 <= _position inputBuffer -> 0 <= _frameCount inputBuffer ->
  0 <= _position outputBuffer -> 0 <= _frameCount outputBuffer ->
  (inject_Z (_frameCount inputBuffer)
   <= inject_Z (Z.of_nat fuel) * Lib.TimeStretch.nominalSkip ts)%Q ->
  exists k ts' inputBuffer' outputBuffer',
    Lib.TimeStretch.process fuel ts inputBuffer outputBuffer
    = Ok (ts', inputBuffer', outputBuffer')
    /\ stretching ts' /\ same_settings ts ts'
    /\ 0 <= k
    /\ 0 <= _position inputBuffer' /\ 0 <= _frameCount inputBuffer'
    /\ 0 <= _position outputBuffer'
    /\ _frameCount outputBuffer'
       = _frameCount outputBuffer + k * frames_per_sequence ts
    /\ (inject_Z (_frameCount inputBuffer - _frameCount inputBuffer'
                  - (held_frames ts' - held_frames ts))
        + Lib.TimeStretch.skipFract ts'
        == Lib.TimeStretch.skipFract ts
           + inject_Z k * Lib.TimeStretch.nominalSkip ts)%Q
    /\ (2 * Lib.TimeStretch.overlapLength ts
        <= Lib.TimeStretch.sequenceLength ts ->
        (inject_Z (_frameCount inputBuffer - _frameCount inputBuffer'
                   - (held_frames ts' - held_frames ts))
         + Lib.TimeStretch.skipFract ts' - Lib.TimeStretch.skipFract ts
         == Lib.TimeStretch._tempo ts
            * inject_Z (_frameCount outputBuffer'
                        - _frameCount outputBuffer))%Q)
    /\ held_frames ts <= held_frames ts'
    /\ (held_frames ts' = 0
        \/ _frameCount inputBuffer' < Lib.TimeStretch.sampleReq ts).
Proof.
  intros Hst Hip Hic Hop Hoc Hf.
  assert (Hfinish : forall k ts' i' o',
    same_settings ts ts' -> 0 <= k ->
    _frameCount o' = _frameCount outputBuffer + k * frames_per_sequence ts ->
    (inject_Z (_frameCount inputBuffer - _frameCount i'
               - (held_frames ts' - held_frames ts))
     + Lib.TimeStretch.skipFract ts'
     == Lib.TimeStretch.skipFract ts
        + inject_Z k * Lib.TimeStretch.nominalSkip ts)%Q ->
    2 * Lib.TimeStretch.overlapLength ts
    <= Lib.TimeStretch.sequenceLength ts ->
    (inject_Z (_frameCount inputBuffer - _frameCount i'
               - (held_frames ts' - held_frames ts))
     + Lib.TimeStretch.skipFract ts' - Lib.TimeStretch.skipFract ts
     == Lib.TimeStretch._tempo ts
        * inject_Z (_frameCount o' - _frameCount outputBuffer))%Q).
  { intros k ts' i' o' _ Hk Ho Hlaw Hseq2.
    destruct Hst as (_ & _ & _ & _ & Hskip & _).
    rewrite Hskip in Hlaw.
    replace (_frameCount o' - _frameCount outputBuffer)
      with (k * (Lib.TimeStretch.sequenceLength ts
                 - Lib.TimeStretch.overlapLength ts))
      by (rewrite Ho; unfold frames_per_sequence;
          rewrite Z.max_r by lia; ring).
    rewrite inject_Z_mult. lra. }
  pose proof Hst as (Ht & Hovl & Hseq & Hseek & Hskip & Hreq & Hf0 & Hf1
                     & Href & Hmid).
  unfold Lib.TimeStretch.process.
  destruct (Lib.TimeStretch.midBuffer ts) as [m|] eqn:Hm.
  - (* the mid buffer exists *)
    destruct (held_frames_some ts m Hst Hm) as (Hmiss & Hheld).
    rewrite Hmiss.
    assert (Hf' : (inject_Z (_frameCount inputBuffer)
                   - Lib.TimeStretch.skipFract ts
                   <= inject_Z (Z.of_nat fuel)
                      * Lib.TimeStretch.nominalSkip ts)%Q) by lra.
    destruct (process_loop_law fuel ts inputBuffer outputBuffer m Hst Hm Hip
                Hic Hop Hoc Hf')
      as (k & ts' & i' & o' & m' & -> & Hst' & Hm' & Hsame & Hk & Hi'p
          & Hi'c & Hexit & Ho'p & Ho'c & Hlaw).
    destruct (held_frames_some ts' m' Hst' Hm') as (_ & Hheld').
    assert (Eo : Lib.TimeStretch.overlapLength ts'
                 = Lib.TimeStretch.overlapLength ts)
      by (unfold same_settings in Hsame; decompose [and] Hsame; assumption).
    assert (Hlaw' :
      (inject_Z (_frameCount inputBuffer - _frameCount i'
                 - (held_frames ts' - held_frames ts))
       + Lib.TimeStretch.skipFract ts'
       == Lib.TimeStretch.skipFract ts
          + inject_Z k * Lib.TimeStretch.nominalSkip ts)%Q).
    { rewrite Hheld, Hheld', Eo, Z.sub_diag, Z.sub_0_r. exact Hlaw. }
    exists k, ts', i', o'.
    split; [reflexivity|]. split; [exact Hst'|]. split; [exact Hsame|].
    split; [exact Hk|]. split; [exact Hi'p|]. split; [exact Hi'c|].
    split; [exact Ho'p|]. split; [exact Ho'c|]. split; [exact Hlaw'|].
    split; [apply (Hfinish k ts' i' o'); assumption|].
    split; [lia|]. right. exact Hexit.
  - (* after a reset: seed the mid buffer *)
    assert (Hheld : held_frames ts = 0).
    { unfold held_frames, Lib.TimeStretch.midBuffer_missing. rewrite Hm.
      reflexivity. }
    unfold Lib.TimeStretch.midBuffer_missing. rewrite Hm.
    unfold FifoSampleBuffer.frameCount.
    destruct (Z.ltb_spec (_frameCount inputBuffer)
                (Lib.TimeStretch.overlapLength ts)) as [Hlt|Hge].
    + assert (Hlaw0 :
        (inject_Z (_frameCount inputBuffer - _frameCount inputBuffer
                   - (held_frames ts - held_frames ts))
         + Lib.TimeStretch.skipFract ts
         == Lib.TimeStretch.skipFract ts
            + inject_Z 0 * Lib.TimeStretch.nominalSkip ts)%Q).
      { rewrite !Z.sub_diag. change (inject_Z 0) with 0%Q. ring. }
      exists 0, ts, inputBuffer, outputBuffer.
      split; [reflexivity|]. split; [exact Hst|].
      split; [apply same_settings_refl|].
      split; [lia|]. split; [exact Hip|]. split; [exact Hic|].
      split; [exact Hop|]. split; [lia|]. split; [exact Hlaw0|].
      split; [apply (Hfinish 0 ts inputBuffer outputBuffer);
              first [apply same_settings_refl | assumption | lia]|].
      split; [lia|]. left. exact Hheld.
    + unfold FifoSampleBuffer.receiveSamples.
      assert (Hc0 : 0 <= Lib.TimeStretch.overlapLength ts * 2) by lia.
      pose proof (@subarray_length_le_count (_vector inputBuffer)
                    (FifoSampleBuffer.startIndex inputBuffer)
                    (Lib.TimeStretch.overlapLength ts * 2) Hc0) as Hsub.
      assert (Hnew : F32.length (F32.new (Lib.TimeStretch.overlapLength ts * 2))
                     = Lib.TimeStretch.overlapLength ts * 2)
        by (rewrite F32_length_new; lia).
      assert (Hset : exists m,
                 F32.set (F32.new (Lib.TimeStretch.overlapLength ts * 2))
                   (F32.subarray (_vector inputBuffer)
                      (FifoSampleBuffer.startIndex inputBuffer)
                      (FifoSampleBuffer.startIndex inputBuffer
                       + Lib.TimeStretch.overlapLength ts * 2)) 0 = Ok m
                 /\ F32.length m = Lib.TimeStretch.overlapLength ts * 2).
      { rewrite F32_set_ok by lia. eexists. split; [reflexivity|].
        erewrite F32_set_length by (apply F32_set_ok; lia). exact Hnew. }
      destruct Hset as (m & -> & Hmlen). cbn [bind].
      rewrite receive_within by lia.
      assert (Hst1 : stretching (Lib.TimeStretch.set_midBuffer ts (Some m))).
      { unfold stretching.
        cbn [Lib.TimeStretch.set_midBuffer Lib.TimeStretch.overlapLength
             Lib.TimeStretch._tempo Lib.TimeStretch.seekLength
             Lib.TimeStretch.sequenceLength Lib.TimeStretch.sampleReq
             Lib.TimeStretch.nominalSkip Lib.TimeStretch.skipFract
             Lib.TimeStretch.refMidBuffer Lib.TimeStretch.midBuffer].
        repeat (split; [assumption|]).
        intros m0 E. injection E as <-. exact Hmlen. }
      assert (Hf' :
        (inject_Z (_frameCount
                     (mkFifo (_vector inputBuffer)
                        (_position inputBuffer
                         + Lib.TimeStretch.overlapLength ts)
                        (_frameCount inputBuffer
                         - Lib.TimeStretch.overlapLength ts)))
         - Lib.TimeStretch.skipFract
             (Lib.TimeStretch.set_midBuffer ts (Some m))
         <= inject_Z (Z.of_nat fuel)
            * Lib.TimeStretch.nominalSkip
                (Lib.TimeStretch.set_midBuffer ts (Some m)))%Q).
      { cbn [_frameCount Lib.TimeStretch.set_midBuffer
             Lib.TimeStretch.skipFract Lib.TimeStretch.nominalSkip].
        rewrite inject_Z_sub.
        assert (H1 : (inject_Z 1
                      <= inject_Z (Lib.TimeStretch.overlapLength ts))%Q)
          by (rewrite <- Zle_Qle; lia).
        change (inject_Z 1) with 1%Q in H1. lra. }
      destruct (process_loop_law fuel
                  (Lib.TimeStretch.set_midBuffer ts (Some m))
                  (mkFifo (_vector inputBuffer)
                     (_position inputBuffer + Lib.TimeStretch.overlapLength ts)
                     (_frameCount inputBuffer
                      - Lib.TimeStretch.overlapLength ts))
                  outputBuffer m Hst1 eq_refl
                  ltac:(cbn [_position]; lia) ltac:(cbn [_frameCount]; lia)
                  Hop Hoc Hf')
        as (k & ts' & i' & o' & m' & -> & Hst' & Hm' & Hsame & Hk & Hi'p
            & Hi'c & Hexit & Ho'p & Ho'c & Hlaw).
      destruct (held_frames_some ts' m' Hst' Hm') as (_ & Hheld').
      assert (Hsame0 : same_settings ts ts').
      { apply (same_settings_trans ts
                 (Lib.TimeStretch.set_midBuffer ts (Some m)) ts');
          [repeat split|exact Hsame]. }
      assert (Eo : Lib.TimeStretch.overlapLength ts'
                   = Lib.TimeStretch.overlapLength ts)
        by (unfold same_settings in Hsame0; decompose [and] Hsame0;
            assumption).
      cbn [_frameCount Lib.TimeStretch.set_midBuffer
           Lib.TimeStretch.skipFract Lib.TimeStretch.nominalSkip
           Lib.TimeStretch.sampleReq] in Hlaw, Hexit, Ho'c.
      change (frames_per_sequence (Lib.TimeStretch.set_midBuffer ts (Some m)))
        with (frames_per_sequence ts) in Ho'c.
      assert (Hlaw' :
        (inject_Z (_frameCount inputBuffer - _frameCount i'
                   - (held_frames ts' - held_frames ts))
         + Lib.TimeStretch.skipFract ts'
         == Lib.TimeStretch.skipFract ts
            + inject_Z k * Lib.TimeStretch.nominalSkip ts)%Q).
      { rewrite Hheld, Hheld', Eo, Z.sub_0_r.
        replace (_frameCount inputBuffer - _frameCount i'
                 - Lib.TimeStretch.overlapLength ts)
          with (_frameCount inputBuffer - Lib.TimeStretch.overlapLength ts
                - _frameCount i') by lia.
        exact Hlaw. }
      exists k, ts', i', o'.
      split; [reflexivity|]. split; [exact Hst'|]. split; [exact Hsame0|].
      split; [exact Hk|]. split; [exact Hi'p|]. split; [exact Hi'c|].
      split; [exact Ho'p|]. split; [exact Ho'c|]. split; [exact Hlaw'|].
      split; [apply (Hfinish k ts' i' o'); assumption|].
      split; [lia|]. right. exact Hexit.
Qed.


(** The [tempo] setter leaves the stretcher set up, when the sample rate
    is at least 340 Hz, the sequence duration is automatic or at least
    50 ms, and the overlap window is at most 40 ms long. *)
Lemma set_tempo_stretching (ts : Lib.TimeStretch.state) (tempo : Q) :
  (340 <= Lib.TimeStretch.sampleRate ts)%Q ->
  (Lib.TimeStretch.sequenceMs ts == 0
   \/ 50 <= Lib.TimeStretch.sequenceMs ts)%Q ->
  (0 <= Lib.TimeStretch.seekWindowMs ts)%Q ->
  1 <= Lib.TimeStretch.overlapLength ts ->
  Lib.TimeStretch.overlapLength ts
  <= Z.max 16 (Qfloor (Lib.TimeStretch.sampleRate ts * 40 / 1000)) ->
  (exists r, Lib.TimeStretch.refMidBuffer ts = Some r) ->
  (forall m, Lib.TimeStretch.midBuffer ts = Some m ->
     F32.length m = Lib.TimeStretch.overlapLength ts * 2) ->
  (0 < tempo)%Q ->
  stretching (Lib.TimeStretch.set_tempo ts tempo).
Proof.
  destruct ts as [sr t sqm skm ovm sql skl ovl ns sf mb rmb rq].
  cbn [Lib.TimeStretch.sequenceMs Lib.TimeStretch.seekWindowMs
       Lib.TimeStretch.sampleRate Lib.TimeStretch.overlapLength
       Lib.TimeStretch.refMidBuffer Lib.TimeStretch.midBuffer].
  intros Hsr Hsq Hsk Hov1 Hov2 Href Hmid Ht.
  assert (Hsr0 : (0 <= sr)%Q) by lra.
  assert (H17 : 17 <= Qfloor (sr * 50 / 1000)).
  { change 17 with (Qfloor (340 * 50 / 1000)).
    apply Qfloor_resp_le. apply Qle_shift_div_l; [reflexivity|].
    setoid_replace (340 * 50 / 1000 * 1000)%Q with (340 * 50)%Q by field.
    lra. }
  assert (H40 : Qfloor (sr * 40 / 1000) < Qfloor (sr * 50 / 1000)).
  { assert (H : Qfloor (sr * 40 / 1000) + 1 <= Qfloor (sr * 50 / 1000)).
    { rewrite <- (Qfloor_Z (Qfloor (sr * 40 / 1000) + 1)).
      apply Qfloor_resp_le. rewrite inject_Z_plus.
      change (inject_Z 1) with 1%Q.
      pose proof (Qfloor_le (sr * 40 / 1000)) as Hfl.
      assert (E : (sr * 50 / 1000 == sr * 40 / 1000 + sr / 100)%Q) by field.
      assert (H1 : (1 <= sr / 100)%Q).
      { apply Qle_shift_div_l; [reflexivity|]. lra. }
      lra. }
    lia. }
  assert (Hseq : ovl < Lib.TimeStretch.sequenceLength
                         (Lib.TimeStretch.set_tempo
                            (Lib.TimeStretch.mk sr t sqm skm ovm sql skl ovl
                               ns sf mb rmb rq) tempo)).
  { unfold Lib.TimeStretch.set_tempo,
      Lib.TimeStretch.calculateEffectiveParams.
    cbn [Lib.TimeStretch.sequenceLength Lib.TimeStretch.sequenceMs
         Lib.TimeStretch.sampleRate Lib.TimeStretch._tempo].
    assert (Hge : Qfloor (sr * 50 / 1000)
                  <= (if Qeqb sqm 0
                      then Qfloor (sr * Qmax 50
                                          (Qmin 125
                                             (125 - (125 - 50)
                                                    / (2 - (1 # 2))
                                                    * (tempo - (1 # 2))))
                                   / 1000)
                      else Qfloor (sr * sqm / 1000))).
    { destruct (Qeqb sqm 0) eqn:E.
      - apply Qfloor_scaled_le; [exact Hsr0|apply Q.le_max_l].
      - destruct Hsq as [Hz|H50].
        + apply Qeqb_eq in Hz. congruence.
        + apply Qfloor_scaled_le; assumption. }
    lia. }
  assert (Hseek : 0 <= Lib.TimeStretch.seekLength
                         (Lib.TimeStretch.set_tempo
                            (Lib.TimeStretch.mk sr t sqm skm ovm sql skl ovl
                               ns sf mb rmb rq) tempo)).
  { unfold Lib.TimeStretch.set_tempo,
      Lib.TimeStretch.calculateEffectiveParams.
    cbn [Lib.TimeStretch.seekLength Lib.TimeStretch.seekWindowMs
         Lib.TimeStretch.sampleRate Lib.TimeStretch._tempo].
    assert (H0 : forall a, (0 <= a)%Q -> 0 <= Qfloor (sr * a / 1000)).
    { intros a Ha. change 0 with (Qfloor 0) at 1.
      apply Qfloor_resp_le. apply Qle_shift_div_l; [reflexivity|]. nra. }
    destruct (Qeqb skm 0).
    - apply H0. apply Qle_trans with 15%Q; [discriminate|apply Q.le_max_l].
    - apply H0. exact Hsk. }
  unfold stretching.
  split; [exact Ht|]. split; [exact Hov1|]. split; [exact Hseq|].
  split; [exact Hseek|].
  split; [reflexivity|]. split; [reflexivity|].
  split; [cbn; discriminate|]. split; [reflexivity|].
  split; [exact Href|exact Hmid].
Qed.

(** X19.  A configured stretcher is set up.  After
    [setParameters(sampleRate, sequenceMs, seekWindowMs, overlapMs)] with
    a sample rate of at least 340 Hz, a sequence duration that is automatic
    (0) or at least 50 ms, a seek window that is not negative and an
    overlap of at most 40 ms, and with a positive tempo (the one the
    stretcher had, or one assigned afterwards), the sequence is longer than
    the overlap window, the skip is positive and the overlap buffers have
    the size of the window: the law of the stretcher applies. *)
Theorem configuration_sets_up (ts0 : Lib.TimeStretch.state)
  (sampleRate sequenceMs seekWindowMs overlapMs : Q) :
  (340 <= sampleRate)%Q ->
  (sequenceMs == 0 \/ 50 <= sequenceMs)%Q ->
  (0 <= seekWindowMs)%Q ->
  (0 < overlapMs)%Q -> (overlapMs <= 40)%Q ->
  ((0 < Lib.TimeStretch._tempo ts0)%Q ->
   stretching
     (Lib.TimeStretch.setParameters ts0 sampleRate sequenceMs seekWindowMs
        overlapMs))
  /\ (forall tempo, (0 < tempo)%Q ->
        stretching
          (Lib.TimeStretch.set_tempo
             (Lib.TimeStretch.setParameters ts0 sampleRate sequenceMs
                seekWindowMs overlapMs) tempo)).
Proof.
  intros Hsr Hsq Hsk Hov0 Hov40.
  destruct ts0 as [sr0 t sqm skm ovm sql skl ovl ns sf mb rmb rq].
  cbn [Lib.TimeStretch._tempo].
  assert (Esr : Qltb 0 sampleRate = true) by (apply Qltb_lt; lra).
  assert (Eov : Qltb 0 overlapMs = true) by (apply Qltb_lt; exact Hov0).
  set (fl := Qfloor (sampleRate * overlapMs / 1000)).
  set (o := if fl <? 16 then 16 else fl).
  set (pre :=
         Lib.TimeStretch.calculateOverlapLength
           (Lib.TimeStretch.calculateEffectiveParams
              (Lib.TimeStretch.mk sampleRate t sequenceMs seekWindowMs
                 overlapMs sql skl ovl ns sf mb rmb rq))).
  assert (E : Lib.TimeStretch.setParameters
                (Lib.TimeStretch.mk sr0 t sqm skm ovm sql skl ovl ns sf mb
                   rmb rq) sampleRate sequenceMs seekWindowMs overlapMs
              = Lib.TimeStretch.set_tempo pre t).
  { unfold Lib.TimeStretch.setParameters.
    cbn [Lib.TimeStretch.sampleRate Lib.TimeStretch.overlapMs
         Lib.TimeStretch._tempo Lib.TimeStretch.sequenceLength
         Lib.TimeStretch.seekLength Lib.TimeStretch.overlapLength
         Lib.TimeStretch.nominalSkip Lib.TimeStretch.skipFract
         Lib.TimeStretch.midBuffer Lib.TimeStretch.refMidBuffer
         Lib.TimeStretch.sampleReq].
    rewrite Esr, Eov. reflexivity. }
  rewrite E. clear E.
  assert (Ho : 16 <= o /\ o <= Z.max 16 (Qfloor (sampleRate * 40 / 1000))).
  { subst o. destruct (Z.ltb_spec fl 16); [lia|].
    assert (fl <= Qfloor (sampleRate * 40 / 1000))
      by (apply Qfloor_scaled_le; [lra|exact Hov40]).
    lia. }
  assert (Hrem : 0 <= Z.rem o 8 < 8).
  { pose proof (Z.rem_bound_pos o 8). lia. }
  assert (Epre_sr : Lib.TimeStretch.sampleRate pre = sampleRate)
    by reflexivity.
  assert (Epre_sq : Lib.TimeStretch.sequenceMs pre = sequenceMs)
    by reflexivity.
  assert (Epre_sk : Lib.TimeStretch.seekWindowMs pre = seekWindowMs)
    by reflexivity.
  assert (Epre_ov : Lib.TimeStretch.overlapLength pre = o - Z.rem o 8)
    by reflexivity.
  assert (Epre_m : Lib.TimeStretch.midBuffer pre
                   = Some (F32.new ((o - Z.rem o 8) * 2))) by reflexivity.
  assert (Epre_r : Lib.TimeStretch.refMidBuffer pre
                   = Some (F32.new ((o - Z.rem o 8) * 2))) by reflexivity.
  assert (Hset : forall t1 ts1,
    Lib.TimeStretch.sampleRate ts1 = sampleRate ->
    Lib.TimeStretch.sequenceMs ts1 = sequenceMs ->
    Lib.TimeStretch.seekWindowMs ts1 = seekWindowMs ->
    Lib.TimeStretch.overlapLength ts1 = o - Z.rem o 8 ->
    Lib.TimeStretch.midBuffer ts1 = Some (F32.new ((o - Z.rem o 8) * 2)) ->
    Lib.TimeStretch.refMidBuffer ts1
    = Some (F32.new ((o - Z.rem o 8) * 2)) ->
    (0 < t1)%Q -> stretching (Lib.TimeStretch.set_tempo ts1 t1)).
  { intros t1 ts1 E1 E2 E3 E4 E5 E6 Ht1.
    apply set_tempo_stretching.
    - rewrite E1. exact Hsr.
    - rewrite E2. exact Hsq.
    - rewrite E3. exact Hsk.
    - rewrite E4. lia.
    - rewrite E4, E1. lia.
    - rewrite E6. eexists. reflexivity.
    - intros m Em. rewrite E5 in Em. injection Em as <-.
      rewrite E4, F32_length_new. lia.
    - exact Ht1. }
  split.
  - intros Ht. apply Hset; assumption.
  - intros tempo Htempo. apply Hset; try assumption; reflexivity.
Qed.

Lemma configuration_sets_up_witness :
  stretching
    (Lib.TimeStretch.set_tempo
       (Lib.TimeStretch.setParameters Lib.TimeStretch.new 44100 0 0 16)
       (3 # 2)).
Proof.
  refine (proj2 (configuration_sets_up Lib.TimeStretch.new 44100 0 0 16
                   _ _ _ _ _) (3 # 2) _);
    first [left; reflexivity | reflexivity | discriminate].
Defined.


(** ** The library engine's [process()] *)

Lemma transposer_fuel_mono (r : Q) (n n' : Z) :
  (0 < r)%Q -> n <= n' -> (transposer_fuel r n <= transposer_fuel r n')%nat.
Proof.
  intros Hr Hn. unfold transposer_fuel.
  assert (H : Qceiling (inject_Z (Z.max n 1) / r)
              <= Qceiling (inject_Z (Z.max n' 1) / r)).
  { apply Qceiling_resp_le. unfold Qdiv. apply Qmult_le_compat_r.
    - rewrite <- Zle_Qle. lia.
    - apply Qinv_le_0_compat. lra. }
  lia.
Qed.

Lemma stretcher_fuel_enough (fuel : nat) (n : Z) (nu : Q) :
  (0 < nu)%Q ->
  (Z.to_nat (Qceiling (inject_Z n / nu)) <= fuel)%nat ->
  (inject_Z n <= inject_Z (Z.of_nat fuel) * nu)%Q.
Proof.
  intros Hnu Hf.
  pose proof (Qle_ceiling (inject_Z n / nu)) as Hc.
  assert (Hz : (inject_Z (Qceiling (inject_Z n / nu))
                <= inject_Z (Z.of_nat fuel))%Q)
    by (rewrite <- Zle_Qle; lia).
  setoid_replace (inject_Z n) with (inject_Z n / nu * nu)%Q
    by (field; lra).
  apply Qmult_le_compat_r; lra.
Qed.

(** The frame counts of a call of the transposer's [process]. *)
Lemma process_counts (fuel : nat) (rt : RT.state)
  (inputBuffer outputBuffer : Fifo) :
  (0 < RT._rate rt)%Q -> (0 <= RT.slopeCount rt)%Q ->
  0 <= _position inputBuffer -> 0 <= _frameCount inputBuffer ->
  0 <= _position outputBuffer -> 0 <= _frameCount outputBuffer ->
  (transposer_fuel (RT._rate rt) (_frameCount inputBuffer) <= fuel)%nat ->
  exists rt' inputBuffer' outputBuffer',
    Lib.RateTransposer.process fuel rt inputBuffer outputBuffer
    = Ok (rt', inputBuffer', outputBuffer')
    /\ RT._rate rt' = RT._rate rt
    /\ (0 <= RT.slopeCount rt')%Q
    /\ 0 <= _position inputBuffer' /\ _frameCount inputBuffer' = 0
    /\ 0 <= _position outputBuffer'
    /\ _frameCount outputBuffer <= _frameCount outputBuffer'
    /\ _frameCount outputBuffer'
       <= _frameCount outputBuffer
          + Z.max 0 (Qceiling (inject_Z (_frameCount inputBuffer)
                               / RT._rate rt)).
Proof.
  intros Hr Hs Hip Hic Hop Hoc Hfuel.
  unfold Lib.RateTransposer.process, FifoSampleBuffer.frameCount.
  set (n := _frameCount inputBuffer) in *.
  destruct (Z.eqb_spec n 0) as [E0|Hn0].
  - exists rt, inputBuffer, outputBuffer.
    split; [reflexivity|]. split; [reflexivity|]. split; [exact Hs|].
    split; [exact Hip|]. split; [exact E0|]. split; [exact Hop|]. lia.
  - assert (Hn : 1 <= n) by lia.
    destruct (@ensureCapacity_total outputBuffer
                (_frameCount outputBuffer
                 + Qceiling (inject_Z n / RT._rate rt) + 1) Hop)
      as (v1 & -> & Hroom).
    cbn [bind].
    set (out1 := mkFifo v1 0 (_frameCount outputBuffer)).
    destruct (@transpose_terminates fuel rt inputBuffer out1 n Hr Hs)
      as ([[rt' out'] k] & Et); [lia|exact Hfuel|].
    pose proof (@room_after_ensureCapacity (RT._rate rt) n
                  (_frameCount outputBuffer) (F32.length v1) Hr Hoc Hroom)
      as Hfits.
    destruct (transpose_spec fuel rt inputBuffer out1 n rt' out' k Et Hr Hs
                Hn)
      as (Hk0 & Hphase & Hs' & Hlast & Hrate & _ & _ & Epos & Efc & _).
    { unfold FifoSampleBuffer.endIndex, out1. cbn [_position _frameCount].
      lia. }
    { exact Hfits. }
    assert (Ek : frames_emitted (RT._rate rt) (RT.slopeCount rt) n = k).
    { apply frames_emitted_unique; [exact Hr|exact Hk0|lra|].
      destruct Hlast as [E|Hlt]; [left; exact E|right; lra]. }
    destruct (frames_emitted_room (RT._rate rt) (RT.slopeCount rt) n Hr Hs)
      as (_ & Hkmax); [lia|].
    rewrite Ek in Hkmax.
    rewrite Et. cbn [bind].
    rewrite receive_within by (fold n; lia).
    exists rt', (mkFifo (_vector inputBuffer) (_position inputBuffer + n)
                   (_frameCount inputBuffer - n)),
      (FifoSampleBuffer.put out' k).
    split; [reflexivity|]. split; [exact Hrate|]. split; [exact Hs'|].
    unfold FifoSampleBuffer.put. cbn [_position _frameCount].
    rewrite Epos, Efc. unfold out1. cbn [_position _frameCount].
    split; [lia|]. split; [fold n; lia|]. split; [lia|]. lia.
Qed.

Lemma frames_per_sequence_nonneg (ts : Lib.TimeStretch.state) :
  stretching ts -> 0 <= frames_per_sequence ts.
Proof.
  intros (_ & Hovl & _). unfold frames_per_sequence. lia.
Qed.

(** The stretcher stage of the engine's [process()]. *)
Lemma stretcher_stage (fuel : nat) (ts : Lib.TimeStretch.state)
  (inputBuffer outputBuffer : Fifo) (bound : Z) :
  stretching ts ->
  0 <= _position inputBuffer -> 0 <= _frameCount inputBuffer ->
  _frameCount inputBuffer <= bound ->
  0 <= _position outputBuffer -> 0 <= _frameCount outputBuffer ->
  (Z.to_nat (Qceiling (inject_Z bound / Lib.TimeStretch.nominalSkip ts))
   <= fuel)%nat ->
  exists ts' inputBuffer' outputBuffer',
    Lib.TimeStretch.process fuel ts inputBuffer outputBuffer
    = Ok (ts', inputBuffer', outputBuffer')
    /\ stretching ts'
    /\ 0 <= _position inputBuffer' /\ 0 <= _frameCount inputBuffer'
    /\ 0 <= _position outputBuffer' /\ 0 <= _frameCount outputBuffer'
    /\ _frameCount outputBuffer'
       <= _frameCount outputBuffer
          + Qfloor ((inject_Z bound + 1) / Lib.TimeStretch.nominalSkip ts)
            * frames_per_sequence ts.
Proof.
  intros Hst Hip Hic Hb Hop Hoc Hfuel.
  destruct (stretching_skip ts Hst) as (Hnu & _).
  pose proof (frames_per_sequence_nonneg ts Hst) as Hfps.
  assert (Hf : (inject_Z (_frameCount inputBuffer)
                <= inject_Z (Z.of_nat fuel)
                   * Lib.TimeStretch.nominalSkip ts)%Q).
  { apply Qle_trans with (inject_Z bound).
    - rewrite <- Zle_Qle. exact Hb.
    - apply stretcher_fuel_enough; assumption. }
  destruct (process_law fuel ts inputBuffer outputBuffer Hst Hip Hic Hop Hoc
              Hf)
    as (k & ts' & i' & o' & E & Hst' & _ & Hk & Hi'p & Hi'c & Ho'p & Ho'c
        & Hlaw & _ & Hheld & _).
  assert (HkK : k <= Qfloor ((inject_Z bound + 1)
                             / Lib.TimeStretch.nominalSkip ts)).
  { rewrite <- (Qfloor_Z k). apply Qfloor_resp_le.
    apply Qle_shift_div_l; [exact Hnu|].
    destruct Hst as (_ & _ & _ & _ & _ & _ & Hf0 & _).
    destruct Hst' as (_ & _ & _ & _ & _ & _ & _ & Hf1' & _).
    assert (Hc : (inject_Z (_frameCount inputBuffer - _frameCount i'
                            - (held_frames ts' - held_frames ts))
                  <= inject_Z bound)%Q) by (rewrite <- Zle_Qle; lia).
    lra. }
  exists ts', i', o'.
  split; [exact E|]. split; [exact Hst'|]. split; [exact Hi'p|].
  split; [exact Hi'c|]. split; [exact Ho'p|]. split; [nia|]. nia.
Qed.

(** X20.  [process()] of the library engine always returns on an engine
    that is ready, in either order of the two stages: it neither throws
    nor loops for ever, it leaves the engine ready for the next call, and
    it keeps the wiring and the effective rate and tempo.  The stage that
    runs second has taken everything the transposer was given: after the
    call the FIFO the transposer reads is empty. *)
Theorem engine_process_returns (e : Lib.SoundTouch.state) :
  engine_ready e ->
  exists fuel0 : nat, forall fuel : nat, (fuel0 <= fuel)%nat ->
    exists e',
      Lib.SoundTouch.process fuel e = Ok e'
      /\ engine_ready e'
      /\ same_wiring e e'
      /\ Lib.SoundTouch._tempo e' = Lib.SoundTouch._tempo e
      /\ _frameCount
           (Lib.SoundTouch.deref e'
              (Lib.SoundTouch.rateTransposer_inputBuffer e')) = 0.
Proof.
  intros (Hw & Hst & Hr & Hs & Hip & Hic & Hmp & Hmc & Hop & Hoc).
  destruct e as [rt rti rto ts tsi tso ib mb ob r t vp vr vt].
  unfold wired in Hw.
  cbn [Lib.SoundTouch._rate Lib.SoundTouch.rateTransposer
       Lib.SoundTouch.timeStretch Lib.SoundTouch._inputBuffer
       Lib.SoundTouch._intermediateBuffer Lib.SoundTouch._outputBuffer
       Lib.SoundTouch.rateTransposer_inputBuffer
       Lib.SoundTouch.rateTransposer_outputBuffer
       Lib.SoundTouch.timeStretch_inputBuffer
       Lib.SoundTouch.timeStretch_outputBuffer] in *.
  destruct (stretching_skip ts Hst) as (Hnu & _).
  pose proof (frames_per_sequence_nonneg ts Hst) as Hfps.
  destruct (Qltb 1 r) eqn:Erate.
  - (* rate > 1: stretcher, then transposer *)
    destruct Hw as (-> & -> & -> & ->).
    set (bound := _frameCount mb
                  + Qfloor ((inject_Z (_frameCount ib) + 1)
                            / Lib.TimeStretch.nominalSkip ts)
                    * frames_per_sequence ts).
    exists (Nat.max
              (Z.to_nat (Qceiling (inject_Z (_frameCount ib)
                                   / Lib.TimeStretch.nominalSkip ts)))
              (transposer_fuel (RT._rate rt) bound)).
    intros fuel Hfuel.
    destruct (stretcher_stage fuel ts ib mb (_frameCount ib) Hst Hip Hic
                (Z.le_refl _) Hmp Hmc ltac:(lia))
      as (ts' & i1 & o1 & E1 & Hst' & Hi1p & Hi1c & Ho1p & Ho1c & Hb1).
    fold bound in Hb1.
    assert (Hf2 : (transposer_fuel (RT._rate rt) (_frameCount o1)
                   <= fuel)%nat).
    { pose proof (transposer_fuel_mono (RT._rate rt) (_frameCount o1) bound
                    Hr Hb1). lia. }
    destruct (process_counts fuel rt o1 ob Hr Hs Ho1p Ho1c Hop Hoc Hf2)
      as (rt' & i2 & o2 & E2 & Hrate' & Hs' & Hi2p & Hi2c & Ho2p & Ho2c & _).
    unfold Lib.SoundTouch.process. cbn [Lib.SoundTouch._rate].
    rewrite Erate.
    unfold Lib.SoundTouch.timeStretch_process.
    cbn [Lib.SoundTouch.timeStretch Lib.SoundTouch.timeStretch_inputBuffer
         Lib.SoundTouch.timeStretch_outputBuffer Lib.SoundTouch.deref
         Lib.SoundTouch._inputBuffer Lib.SoundTouch._intermediateBuffer].
    rewrite E1. cbn [bind].
    unfold Lib.SoundTouch.rateTransposer_process.
    cbn [Lib.SoundTouch.assign Lib.SoundTouch.set_timeStretch
         Lib.SoundTouch.set_rateTransposer
         Lib.SoundTouch.rateTransposer
         Lib.SoundTouch.timeStretch
         Lib.SoundTouch.rateTransposer_inputBuffer
         Lib.SoundTouch.rateTransposer_outputBuffer
         Lib.SoundTouch.timeStretch_inputBuffer
         Lib.SoundTouch.timeStretch_outputBuffer Lib.SoundTouch.deref
         Lib.SoundTouch._inputBuffer Lib.SoundTouch._intermediateBuffer
         Lib.SoundTouch._outputBuffer Lib.SoundTouch._rate
         Lib.SoundTouch._tempo Lib.SoundTouch.virtualPitch
         Lib.SoundTouch.virtualRate Lib.SoundTouch.virtualTempo].
    rewrite E2. cbn [bind].
    eexists. split; [reflexivity|].
    cbn [Lib.SoundTouch.assign Lib.SoundTouch.set_timeStretch
         Lib.SoundTouch.set_rateTransposer
         Lib.SoundTouch.rateTransposer
         Lib.SoundTouch.timeStretch
         Lib.SoundTouch.rateTransposer_inputBuffer
         Lib.SoundTouch.rateTransposer_outputBuffer
         Lib.SoundTouch.timeStretch_inputBuffer
         Lib.SoundTouch.timeStretch_outputBuffer Lib.SoundTouch.deref
         Lib.SoundTouch._inputBuffer Lib.SoundTouch._intermediateBuffer
         Lib.SoundTouch._outputBuffer Lib.SoundTouch._rate
         Lib.SoundTouch._tempo Lib.SoundTouch.virtualPitch
         Lib.SoundTouch.virtualRate Lib.SoundTouch.virtualTempo].
    split.
    { unfold engine_ready, wired.
      cbn [Lib.SoundTouch.assign Lib.SoundTouch.set_timeStretch
           Lib.SoundTouch.set_rateTransposer
           Lib.SoundTouch.rateTransposer Lib.SoundTouch.timeStretch
           Lib.SoundTouch.rateTransposer_inputBuffer
           Lib.SoundTouch.rateTransposer_outputBuffer
           Lib.SoundTouch.timeStretch_inputBuffer
           Lib.SoundTouch.timeStretch_outputBuffer
           Lib.SoundTouch._inputBuffer Lib.SoundTouch._intermediateBuffer
           Lib.SoundTouch._outputBuffer Lib.SoundTouch._rate].
      rewrite Erate, Hrate'.
      split; [repeat split|]. split; [exact Hst'|]. split; [exact Hr|].
      split; [exact Hs'|]. repeat (split; [first [assumption | lia]|]). lia. }
    split; [repeat split|]. split; [reflexivity|]. exact Hi2c.
  - (* rate <= 1: transposer, then stretcher *)
    destruct Hw as (-> & -> & -> & ->).
    set (bound := _frameCount mb
                  + Z.max 0 (Qceiling (inject_Z (_frameCount ib)
                                       / RT._rate rt))).
    exists (Nat.max
              (transposer_fuel (RT._rate rt) (_frameCount ib))
              (Z.to_nat (Qceiling (inject_Z bound
                                   / Lib.TimeStretch.nominalSkip ts)))).
    intros fuel Hfuel.
    destruct (process_counts fuel rt ib mb Hr Hs Hip Hic Hmp Hmc ltac:(lia))
      as (rt' & i1 & o1 & E1 & Hrate' & Hs' & Hi1p & Hi1c & Ho1p & Ho1c
          & Hb1).
    fold bound in Hb1.
    destruct (stretcher_stage fuel ts o1 ob bound Hst Ho1p ltac:(lia) Hb1
                Hop Hoc ltac:(lia))
      as (ts' & i2 & o2 & E2 & Hst' & Hi2p & Hi2c & Ho2p & Ho2c & _).
    unfold Lib.SoundTouch.process. cbn [Lib.SoundTouch._rate].
    rewrite Erate.
    unfold Lib.SoundTouch.rateTransposer_process.
    cbn [Lib.SoundTouch.rateTransposer
         Lib.SoundTouch.rateTransposer_inputBuffer
         Lib.SoundTouch.rateTransposer_outputBuffer Lib.SoundTouch.deref
         Lib.SoundTouch._inputBuffer Lib.SoundTouch._intermediateBuffer].
    rewrite E1. cbn [bind].
    unfold Lib.SoundTouch.timeStretch_process.
    cbn [Lib.SoundTouch.assign Lib.SoundTouch.set_timeStretch
         Lib.SoundTouch.set_rateTransposer
         Lib.SoundTouch.rateTransposer
         Lib.SoundTouch.timeStretch
         Lib.SoundTouch.rateTransposer_inputBuffer
         Lib.SoundTouch.rateTransposer_outputBuffer
         Lib.SoundTouch.timeStretch_inputBuffer
         Lib.SoundTouch.timeStretch_outputBuffer Lib.SoundTouch.deref
         Lib.SoundTouch._inputBuffer Lib.SoundTouch._intermediateBuffer
         Lib.SoundTouch._outputBuffer Lib.SoundTouch._rate
         Lib.SoundTouch._tempo Lib.SoundTouch.virtualPitch
         Lib.SoundTouch.virtualRate Lib.SoundTouch.virtualTempo].
    rewrite E2. cbn [bind].
    eexists. split; [reflexivity|].
    cbn [Lib.SoundTouch.assign Lib.SoundTouch.set_timeStretch
         Lib.SoundTouch.set_rateTransposer
         Lib.SoundTouch.rateTransposer
         Lib.SoundTouch.timeStretch
         Lib.SoundTouch.rateTransposer_inputBuffer
         Lib.SoundTouch.rateTransposer_outputBuffer
         Lib.SoundTouch.timeStretch_inputBuffer
         Lib.SoundTouch.timeStretch_outputBuffer Lib.SoundTouch.deref
         Lib.SoundTouch._inputBuffer Lib.SoundTouch._intermediateBuffer
         Lib.SoundTouch._outputBuffer Lib.SoundTouch._rate
         Lib.SoundTouch._tempo Lib.SoundTouch.virtualPitch
         Lib.SoundTouch.virtualRate Lib.SoundTouch.virtualTempo].
    split.
    { unfold engine_ready, wired.
      cbn [Lib.SoundTouch.assign Lib.SoundTouch.set_timeStretch
           Lib.SoundTouch.set_rateTransposer
           Lib.SoundTouch.rateTransposer Lib.SoundTouch.timeStretch
           Lib.SoundTouch.rateTransposer_inputBuffer
           Lib.SoundTouch.rateTransposer_outputBuffer
           Lib.SoundTouch.timeStretch_inputBuffer
           Lib.SoundTouch.timeStretch_outputBuffer
           Lib.SoundTouch._inputBuffer Lib.SoundTouch._intermediateBuffer
           Lib.SoundTouch._outputBuffer Lib.SoundTouch._rate].
      rewrite Erate, Hrate'.
      split; [repeat split|]. split; [exact Hst'|]. split; [exact Hr|].
      split; [exact Hs'|]. repeat (split; [first [assumption | lia]|]). lia. }
    split; [repeat split|]. split; [reflexivity|]. exact Hi1c.
Qed.

Lemma engine_process_returns_witness :
  exists fuel0 : nat, forall fuel : nat, (fuel0 <= fuel)%nat ->
    exists e',
      Lib.SoundTouch.process fuel ready_engine = Ok e'
      /\ _frameCount (Lib.SoundTouch._intermediateBuffer e') = 0.
Proof.
  destruct (engine_process_returns ready_engine) as (fuel0 & H).
  - unfold engine_ready, wired, stretching. vm_compute.
    repeat match goal with
           | |- _ /\ _ => split
           | |- exists _, _ => eexists
           end;
      first [reflexivity | discriminate
            | intros m E; injection E as <-; reflexivity].
  - exists fuel0. intros fuel Hf.
    destruct (H fuel Hf) as (e' & E & _ & Hsame & _ & Hempty).
    exists e'. split; [exact E|].
    destruct Hsame as (Hrti & _).
    rewrite Hrti in Hempty. exact Hempty.
Defined.

(** ** The RubberBand processor, bypass and fades *)

Section RubberbandBypass.

Variable Stretcher : Type.
Variable rubberband_set_pitch_scale : Stretcher -> Q -> Stretcher.
Variable rubberband_set_formant_scale : Stretcher -> Q -> Stretcher.
Variable rubberband_process : Stretcher -> list F32.t -> Z -> Stretcher.
Variable rubberband_available : Stretcher -> Z.
Variable rubberband_retrieve :
  Stretcher -> list F32.t -> Z -> Stretcher * list F32.t.
Variable Math_sin : Q -> Q.
Variable Math_cos : Q -> Q.
Variable Math_PI : Q.

(** X21.  A bypassed RubberBand processor is transparent.  Once the
    processor is bypassed and its fade is over, every block for which the
    parameters ask for the bypass (disabled, or a pitch scale less than
    [0.001] away from 1) is the input passed through, initialized or not;
    the state of the processor does not change and the native stretcher is
    not called. *)
Theorem rubberband_bypass_is_transparent
  (p : RubberbandProcessor.state Stretcher)
  (parameters : RubberbandProcessor.parameters) (n : Z)
  (input output : list F32.t) :
  RubberbandProcessor.bypassed p = true ->
  RubberbandProcessor.fadeCounter p <= 0 ->
  asks_bypass parameters = true ->
  block_of n input -> input <> [] -> block_of n output ->
  RubberbandProcessor.process rubberband_set_pitch_scale
    rubberband_set_formant_scale rubberband_process rubberband_available
    rubberband_retrieve Math_sin Math_cos Math_PI p input output parameters
  = Ok (p, passed_through input output).
Proof.
  intros Hb Hf Hask Hin Hne Hout.
  pose proof (@passthrough_ok n input output Hin Hne Hout) as Hpass.
  destruct input as [|in0 input_rest]; [congruence|].
  destruct output as [|out0 output_rest]; [reflexivity|].
  unfold asks_bypass in Hask.
  destruct p as [w s c r b o ib ob pp pf f].
  cbn [RubberbandProcessor.bypassed RubberbandProcessor.fadeCounter] in Hb, Hf.
  subst b.
  unfold RubberbandProcessor.process.
  cbn [RubberbandProcessor.bypassed RubberbandProcessor.fadeCounter
       RubberbandProcessor.wasm RubberbandProcessor.stretcher
       RubberbandProcessor.channels RubberbandProcessor.ready
       RubberbandProcessor.currentOptions RubberbandProcessor.inputBuffers
       RubberbandProcessor.outputBuffers
       RubberbandProcessor.previousPitchScale
       RubberbandProcessor.previousFormantScale].
  rewrite Hask. cbn [negb andb].
  rewrite (proj2 (Z.leb_le f 0) Hf). rewrite Hpass. cbn [bind].
  destruct (r && w); [destruct s|]; reflexivity.
Qed.

Lemma copy_output_fading (channels : Z) (bypassed : bool)
  (outputBuffers input : list F32.t) (numSamples : Z) :
  forall (output : list F32.t) (ch : nat) (f : Z),
    Z.of_nat (List.length output) <= f ->
    exists output',
      RubberbandProcessor.copy_output Math_sin Math_cos Math_PI ch channels
        bypassed outputBuffers input numSamples f output
      = Ok (f - Z.of_nat (List.length output), output')
      /\ List.length output' = List.length output
      /\ forall i, (i < List.length output)%nat ->
           nth i output' []
           = RubberbandProcessor.applyCrossfade Math_sin Math_cos Math_PI
               bypassed (f - Z.of_nat i)
               (RubberbandProcessor.channel_or_first input (ch + i))
               (F32.subarray
                  (nth (Z.to_nat (Z.min (Z.of_nat (ch + i)) (channels - 1)))
                     outputBuffers []) 0 numSamples)
               (nth i output []).
Proof.
  induction output as [|out rest IH]; intros ch f Hlen.
  - exists []. cbn [RubberbandProcessor.copy_output List.length].
    split; [f_equal; f_equal; cbn; lia|]. split; [reflexivity|].
    intros i Hi. cbn in Hi. lia.
  - cbn [List.length] in Hlen.
    cbn [RubberbandProcessor.copy_output].
    destruct (Z.ltb_spec 0 f) as [_|Hno]; [|lia].
    cbn [bind].
    destruct (IH (S ch) (f - 1)) as (rest' & -> & Hl & Hnth); [lia|].
    cbn [bind]. eexists. split.
    { f_equal. f_equal. cbn [List.length]. lia. }
    split; [cbn [List.length]; congruence|].
    intros i Hi. destruct i as [|i].
    + cbn [nth]. rewrite Nat.add_0_r, Z.sub_0_r. reflexivity.
    + cbn [nth]. cbn [List.length] in Hi.
      rewrite (Hnth i) by lia.
      replace (S ch + i)%nat with (ch + S i)%nat by lia.
      replace (f - 1 - Z.of_nat i) with (f - Z.of_nat (S i)) by lia.
      reflexivity.
Qed.

(** X22.  The fade of the RubberBand processor is counted per output
    channel, not per block.  On a block of an initialized processor that
    starts with a fade counter [f] (64 when the block toggles the bypass)
    of at least the number of output channels, and for which the stretcher
    has a block of output available, output channel [ch] is the crossfade
    computed with the counter [f - ch], and the block leaves the counter
    at [f] less the number of output channels: with a stereo output the
    two channels of a block get different gains, and a fade lasts 32
    blocks.  After the block the bypass flag is what the parameters ask
    for. *)
Theorem rubberband_fade_per_channel
  (p : RubberbandProcessor.state Stretcher) (s : Stretcher)
  (parameters : RubberbandProcessor.parameters) (n : Z)
  (input output : list F32.t) :
  RubberbandProcessor.wasm p = true ->
  RubberbandProcessor.ready p = true ->
  RubberbandProcessor.stretcher p = Some s ->
  block_of n input -> input <> [] -> output <> [] ->
  Z.of_nat (List.length output) <= fade_start p parameters ->
  n <= rubberband_available
         (polled_stretcher rubberband_set_pitch_scale
            rubberband_set_formant_scale rubberband_process p s parameters
            input n) ->
  exists p' output',
    RubberbandProcessor.process rubberband_set_pitch_scale
      rubberband_set_formant_scale rubberband_process rubberband_available
      rubberband_retrieve Math_sin Math_cos Math_PI p input output parameters
    = Ok (p', output')
    /\ RubberbandProcessor.bypassed p' = asks_bypass parameters
    /\ RubberbandProcessor.fadeCounter p'
       = fade_start p parameters - Z.of_nat (List.length output)
    /\ List.length output' = List.length output
    /\ forall ch, (ch < List.length output)%nat ->
         nth ch output' []
         = RubberbandProcessor.applyCrossfade Math_sin Math_cos Math_PI
             (asks_bypass parameters)
             (fade_start p parameters - Z.of_nat ch)
             (RubberbandProcessor.channel_or_first input ch)
             (F32.subarray
                (nth (Z.to_nat (Z.min (Z.of_nat ch)
                                  (RubberbandProcessor.channels p - 1)))
                   (RubberbandProcessor.outputBuffers p') []) 0 n)
             (nth ch output []).
Proof.
  intros Hw Hr Hs Hin Hne Hone Hlen Hav.
  destruct input as [|in0 input_rest]; [congruence|].
  destruct output as [|out0 output_rest]; [congruence|].
  assert (Hn : F32.length in0 = n) by (inversion Hin; assumption).
  assert (Hpos : 0 < fade_start p parameters)
    by (cbn [List.length] in Hlen; lia).
  unfold RubberbandProcessor.process.
  rewrite Hw, Hr, Hs, Hn. cbn [andb].
  change (negb (Qleb (1 # 2) (RubberbandProcessor.enabled parameters))
          || Qltb (Qabs (RubberbandProcessor.pitchScale parameters - 1))
               (1 # 1000))
    with (asks_bypass parameters).
  unfold polled_stretcher in Hav. cbv zeta in Hav.
  apply Z.leb_le in Hav.
  assert (Hcase :
    (if asks_bypass parameters && negb (RubberbandProcessor.bypassed p)
     then (RubberbandProcessor.FADE_FRAMES, true)
     else if negb (asks_bypass parameters) && RubberbandProcessor.bypassed p
          then (RubberbandProcessor.FADE_FRAMES, false)
          else (RubberbandProcessor.fadeCounter p,
                RubberbandProcessor.bypassed p))
    = (fade_start p parameters, asks_bypass parameters)).
  { unfold fade_start.
    destruct (asks_bypass parameters), (RubberbandProcessor.bypassed p);
      reflexivity. }
  rewrite Hcase.
  rewrite (proj2 (Z.leb_gt _ _) Hpos), Bool.andb_false_r.
  rewrite Hav.
  destruct (rubberband_retrieve _ (RubberbandProcessor.outputBuffers p) n)
    as [s' bufs].
  destruct (copy_output_fading (RubberbandProcessor.channels p)
              (asks_bypass parameters) bufs (in0 :: input_rest) n
              (out0 :: output_rest) 0 (fade_start p parameters) Hlen)
    as (output' & E & Hl & Hnth).
  rewrite E. cbn [bind].
  eexists _, output'. split; [reflexivity|].
  cbn [RubberbandProcessor.bypassed RubberbandProcessor.fadeCounter
       RubberbandProcessor.outputBuffers RubberbandProcessor.channels].
  split; [reflexivity|]. split; [reflexivity|]. split; [exact Hl|].
  intros ch Hch. rewrite (Hnth ch Hch). reflexivity.
Qed.

End RubberbandBypass.

Lemma rubberband_bypass_is_transparent_witness :
  RubberbandProcessor.process (fun s _ => s) (fun s _ => s)
    (fun s _ n => s + n) latency_stretcher_available
    latency_stretcher_retrieve sin_standin cos_standin PI_standin
    idle_processor ones_block zero_block octave_up_disabled
  = Ok (idle_processor, passed_through ones_block zero_block).
Proof.
  apply (rubberband_bypass_is_transparent Z (fun s _ => s) (fun s _ => s)
           (fun s _ n => s + n) latency_stretcher_available
           latency_stretcher_retrieve sin_standin cos_standin PI_standin
           idle_processor octave_up_disabled 128 ones_block zero_block).
  - reflexivity.
  - cbn. lia.
  - reflexivity.
  - exact ones_block_is_block.
  - exact ones_block_nonempty.
  - exact zero_block_is_block.
Defined.

Lemma rubberband_fade_per_channel_witness :
  exists p' output',
    RubberbandProcessor.process (fun s _ => s) (fun s _ => s)
      (fun s _ n => s + n) latency_stretcher_available
      latency_stretcher_retrieve sin_standin cos_standin PI_standin
      warm_processor ones_block zero_block octave_up_disabled
    = Ok (p', output')
    /\ RubberbandProcessor.fadeCounter p' = 62.
Proof.
  destruct (rubberband_fade_per_channel Z (fun s _ => s) (fun s _ => s)
              (fun s _ n => s + n) latency_stretcher_available
              latency_stretcher_retrieve sin_standin cos_standin PI_standin
              warm_processor 1000 octave_up_disabled 128 ones_block
              zero_block)
    as (p' & output' & E & _ & Hf & _).
  - reflexivity.
  - reflexivity.
  - reflexivity.
  - exact ones_block_is_block.
  - exact ones_block_nonempty.
  - exact zero_block_nonempty.
  - vm_compute. discriminate.
  - vm_compute. discriminate.
  - exists p', output'. split; [exact E|exact Hf].
Defined.

(** ** The SoundTouch worklet, bypass and skip period *)

Lemma set_left_right_ok (n : Z) (input_rest output_rest : list F32.t)
  (left_ outLeft : F32.t) :
  block_of n (left_ :: input_rest) -> block_of n (outLeft :: output_rest) ->
  Worklet.SoundTouchProcessor.set_left_right (outLeft :: output_rest) left_
    (match input_rest with r :: _ => r | [] => left_ end)
  = Ok (dry_block (left_ :: input_rest) (outLeft :: output_rest)).
Proof.
  intros Hin Hout.
  assert (Hl : F32.length left_ = n) by (inversion Hin; assumption).
  assert (Ho : F32.length outLeft = n) by (inversion Hout; assumption).
  assert (Hr : F32.length (match input_rest with r :: _ => r | [] => left_ end)
               = n).
  { destruct input_rest as [|r rest]; [exact Hl|].
    inversion Hin as [|? ? ? Hrest]; subst. inversion Hrest; assumption. }
  cbn [Worklet.SoundTouchProcessor.set_left_right dry_block].
  rewrite F32_set_same_length by congruence. cbn [bind].
  destruct output_rest as [|outRight rest']; [reflexivity|].
  assert (Hor : F32.length outRight = n).
  { inversion Hout as [|? ? ? Hrest]; subst. inversion Hrest; assumption. }
  rewrite F32_set_same_length by congruence. reflexivity.
Qed.

Section SoundTouchProcessorBypass.

Variable Math_pow : Q -> Q -> Q.

(** X23.  A bypassed SoundTouch worklet is transparent.  When the worklet
    is bypassed with no skip period and no fade in progress, every block
    for which the parameters ask for the bypass and keep the pitch is the
    input copied to the output (a mono input to both output channels); the
    state of the worklet does not change and the engine is not fed. *)
Theorem worklet_bypass_is_transparent (fuel : nat)
  (p : Worklet.SoundTouchProcessor.state)
  (parameters : Worklet.SoundTouchProcessor.parameters) (n : Z)
  (input output : list F32.t) :
  Worklet.SoundTouchProcessor.bypassed p = true ->
  Worklet.SoundTouchProcessor.skipBufferCounter p <= 0 ->
  Worklet.SoundTouchProcessor.fadeCounter p <= 0 ->
  worklet_asks_bypass Math_pow parameters = true ->
  pitch_kept Math_pow p parameters ->
  block_of n input -> input <> [] -> block_of n output ->
  Worklet.SoundTouchProcessor.process Math_pow fuel p input output parameters
  = Ok (p, dry_block input output).
Proof.
  intros Hb Hc Hf Hask Hkept Hin Hne Hout.
  destruct input as [|left_ input_rest]; [congruence|].
  destruct output as [|outLeft output_rest]; [reflexivity|].
  pose proof (set_left_right_ok n input_rest output_rest left_ outLeft Hin Hout)
    as Hset.
  unfold worklet_asks_bypass, target_pitch in Hask.
  unfold pitch_kept, target_pitch in Hkept. apply Qltb_ge in Hkept.
  destruct p as [e ob b f pp sb c].
  cbn [Worklet.SoundTouchProcessor.bypassed
       Worklet.SoundTouchProcessor.skipBufferCounter
       Worklet.SoundTouchProcessor.fadeCounter
       Worklet.SoundTouchProcessor.previousPitch] in Hb, Hc, Hf, Hkept.
  subst b.
  unfold Worklet.SoundTouchProcessor.process.
  cbn [Worklet.SoundTouchProcessor.bypassed
       Worklet.SoundTouchProcessor.skipBufferCounter
       Worklet.SoundTouchProcessor.fadeCounter
       Worklet.SoundTouchProcessor.previousPitch
       Worklet.SoundTouchProcessor.skipBuffer
       Worklet.SoundTouchProcessor.soundTouch
       Worklet.SoundTouchProcessor.outputBuffer].
  rewrite Hask, Hkept. cbn [negb andb orb bind].
  rewrite (proj2 (Z.leb_le c 0) Hc), (proj2 (Z.leb_le f 0) Hf).
  cbn [andb]. rewrite Hset. reflexivity.
Qed.

End SoundTouchProcessorBypass.

Lemma worklet_bypass_is_transparent_witness :
  Worklet.SoundTouchProcessor.process pow_octaves 0 new_worklet ones_block
    zero_block unison_disabled
  = Ok (new_worklet, dry_block ones_block zero_block).
Proof.
  apply (worklet_bypass_is_transparent pow_octaves 0 new_worklet
           unison_disabled 128 ones_block zero_block).
  - reflexivity.
  - vm_compute. discriminate.
  - vm_compute. discriminate.
  - reflexivity.
  - vm_compute. discriminate.
  - exact ones_block_is_block.
  - exact ones_block_nonempty.
  - exact zero_block_is_block.
Defined.

Lemma worklet_set_pitch_buffers (e : Worklet.SoundTouchEngine.state) (v : Q) :
  Worklet.SoundTouchEngine._inputBuffer (Worklet.SoundTouchEngine.set_pitch e v)
  = Worklet.SoundTouchEngine._inputBuffer e
  /\ Worklet.SoundTouchEngine._outputBuffer
       (Worklet.SoundTouchEngine.set_pitch e v)
     = Worklet.SoundTouchEngine._outputBuffer e.
Proof.
  unfold Worklet.SoundTouchEngine.set_pitch,
    Worklet.SoundTouchEngine.calculateEffectiveRateAndTempo.
  cbv zeta. destruct (Qltb 1 _); split; reflexivity.
Qed.

Section SoundTouchProcessorSkip.

Variable Math_pow : Q -> Q -> Q.

(** The engine part of a block of a skip period, on a starved engine. *)
Lemma skip_block_tail (fuel : nat) (e : Worklet.SoundTouchEngine.state)
  (ob : F32.t) (f c : Z) (pp : Q) (sb : bool) (n : Z)
  (left_ outLeft : F32.t) (input_rest output_rest : list F32.t) :
  0 <= _position (Worklet.SoundTouchEngine._inputBuffer e) ->
  0 <= _frameCount (Worklet.SoundTouchEngine._inputBuffer e) ->
  _frameCount (Worklet.SoundTouchEngine._inputBuffer e) + n
  < Worklet.SoundTouchProcessor.ST_MIN_FRAMES_FOR_PROCESSING ->
  _frameCount (Worklet.SoundTouchEngine._outputBuffer e) <= 0 ->
  block_of n (left_ :: input_rest) -> block_of n (outLeft :: output_rest) ->
  exists e' ob',
    (let interleavedInput :=
       Worklet.SoundTouchProcessor.interleave left_
         (match input_rest with r :: _ => r | [] => left_ end) n in
     inb <- FifoBuffer.putSamples (Worklet.SoundTouchEngine.inputBuffer e)
              interleavedInput 0 n ;;
     let soundTouch3 :=
       Worklet.SoundTouchEngine.assign e Worklet.SoundTouchEngine.InputBuffer
         inb in
     soundTouch4 <-
       (if Worklet.SoundTouchProcessor.ST_MIN_FRAMES_FOR_PROCESSING
           <=? FifoBuffer.frameCount
                 (Worklet.SoundTouchEngine.inputBuffer soundTouch3)
        then Worklet.SoundTouchEngine.process fuel soundTouch3
        else Ok soundTouch3) ;;
     let outputBuffer1 := F32.fill ob (Fin 0) in
     let available :=
       Z.min n
         (FifoBuffer.frameCount
            (Worklet.SoundTouchEngine.outputBuffer soundTouch4)) in
     '(soundTouch5, outputBuffer2) <-
        (if 0 <? available then
           '(o, b) <-
              FifoBuffer.receiveSamples
                (Worklet.SoundTouchEngine.outputBuffer soundTouch4)
                outputBuffer1 available ;;
           Ok (Worklet.SoundTouchEngine.assign soundTouch4
                 Worklet.SoundTouchEngine.OutputBuffer o, b)
         else Ok (soundTouch4, outputBuffer1)) ;;
     output' <-
       Worklet.SoundTouchProcessor.set_left_right (outLeft :: output_rest)
         left_ (match input_rest with r :: _ => r | [] => left_ end) ;;
     Ok (Worklet.SoundTouchProcessor.mk soundTouch5 outputBuffer2 false f
           pp sb (c - 1), output'))
    = Ok (Worklet.SoundTouchProcessor.mk e' ob' false f pp sb (c - 1),
          dry_block (left_ :: input_rest) (outLeft :: output_rest))
    /\ _frameCount (Worklet.SoundTouchEngine._inputBuffer e')
       = _frameCount (Worklet.SoundTouchEngine._inputBuffer e) + n
    /\ _frameCount (Worklet.SoundTouchEngine._outputBuffer e')
       = _frameCount (Worklet.SoundTouchEngine._outputBuffer e).
Proof.
  intros Hpos Hfc Hsmall Hempty Hin Hout.
  pose proof (set_left_right_ok n input_rest output_rest left_ outLeft Hin Hout)
    as Hset.
  assert (Hn : F32.length left_ = n) by (inversion Hin; assumption).
  pose proof (F32_length_nonneg left_) as Hn0. rewrite Hn in Hn0.
  cbv zeta.
  unfold Worklet.SoundTouchEngine.inputBuffer,
    Worklet.SoundTouchEngine.outputBuffer, FifoBuffer.frameCount,
    Worklet.SoundTouchProcessor.ST_MIN_FRAMES_FOR_PROCESSING in *.
  set (il := Worklet.SoundTouchProcessor.interleave _ _ _).
  destruct (@putSamples_total (Worklet.SoundTouchEngine._inputBuffer e) il 0 n
              Hpos Hfc Hn0)
    as (v & Hput & _).
  change FifoBuffer.putSamples with FifoSampleBuffer.putSamples.
  rewrite Hput. cbn [bind].
  unfold Worklet.SoundTouchEngine.assign.
  cbn [Worklet.SoundTouchEngine._inputBuffer _frameCount].
  rewrite (proj2 (Z.leb_gt _ _) Hsmall). cbn [bind].
  cbn [Worklet.SoundTouchEngine._outputBuffer].
  assert (E1 : (0 <? Z.min n
                       (_frameCount (Worklet.SoundTouchEngine._outputBuffer e)))
               = false) by (apply Z.ltb_ge; lia).
  rewrite E1. cbn [bind].
  rewrite Hset. cbn [bind].
  eexists _, _. split; [reflexivity|].
  cbn [Worklet.SoundTouchEngine._inputBuffer
       Worklet.SoundTouchEngine._outputBuffer _frameCount].
  split; reflexivity.
Qed.

(** X24.  The skip period of the SoundTouch worklet.  On the block that
    switches the worklet on, and on every later block with blocks left to
    skip and an unchanged pitch, while the engine is starved (no output
    buffered, less than 4096 input frames with this block): the block is
    the input copied to the output, the engine has been fed the block, and
    the count of blocks to skip is 31 after the switch-on block and one
    less after every other.  No fade is started or advanced. *)
Theorem worklet_skip_period (fuel : nat)
  (p : Worklet.SoundTouchProcessor.state)
  (parameters : Worklet.SoundTouchProcessor.parameters) (n : Z)
  (input output : list F32.t) :
  worklet_asks_bypass Math_pow parameters = false ->
  skipping Math_pow p parameters ->
  starved p n ->
  block_of n input -> input <> [] -> block_of n output -> output <> [] ->
  exists p',
    Worklet.SoundTouchProcessor.process Math_pow fuel p input output
      parameters
    = Ok (p', dry_block input output)
    /\ Worklet.SoundTouchProcessor.bypassed p' = false
    /\ Worklet.SoundTouchProcessor.skipBufferCounter p'
       = (if Worklet.SoundTouchProcessor.bypassed p then 31
          else Worklet.SoundTouchProcessor.skipBufferCounter p - 1)
    /\ Worklet.SoundTouchProcessor.fadeCounter p'
       = Worklet.SoundTouchProcessor.fadeCounter p
    /\ _frameCount
         (Worklet.SoundTouchEngine.inputBuffer
            (Worklet.SoundTouchProcessor.soundTouch p'))
       = _frameCount
           (Worklet.SoundTouchEngine.inputBuffer
              (Worklet.SoundTouchProcessor.soundTouch p)) + n
    /\ _frameCount
         (Worklet.SoundTouchEngine.outputBuffer
            (Worklet.SoundTouchProcessor.soundTouch p'))
       = _frameCount
           (Worklet.SoundTouchEngine.outputBuffer
              (Worklet.SoundTouchProcessor.soundTouch p)).
Proof.
  intros Hask Hskip (Hpos & Hfc & Hsmall & Hempty) Hin Hine Hout Houte.
  destruct input as [|left_ input_rest]; [congruence|].
  destruct output as [|outLeft output_rest]; [congruence|].
  assert (Hn : F32.length left_ = n) by (inversion Hin; assumption).
  unfold worklet_asks_bypass, target_pitch in Hask.
  destruct p as [e ob b f pp sb c].
  unfold skipping, pitch_kept, target_pitch in Hskip.
  cbn [Worklet.SoundTouchProcessor.bypassed
       Worklet.SoundTouchProcessor.skipBufferCounter
       Worklet.SoundTouchProcessor.fadeCounter
       Worklet.SoundTouchProcessor.previousPitch
       Worklet.SoundTouchProcessor.soundTouch] in *.
  cbv zeta in Hpos, Hfc, Hsmall, Hempty.
  unfold Worklet.SoundTouchEngine.inputBuffer,
    Worklet.SoundTouchEngine.outputBuffer in Hpos, Hfc, Hsmall, Hempty |- *.
  unfold Worklet.SoundTouchProcessor.process.
  cbn [Worklet.SoundTouchProcessor.bypassed
       Worklet.SoundTouchProcessor.skipBufferCounter
       Worklet.SoundTouchProcessor.fadeCounter
       Worklet.SoundTouchProcessor.previousPitch
       Worklet.SoundTouchProcessor.skipBuffer
       Worklet.SoundTouchProcessor.soundTouch
       Worklet.SoundTouchProcessor.outputBuffer].
  rewrite Hask, Hn.
  destruct Hskip as [->|(-> & Hc & Hkept)].
  - (* the block switches the worklet on *)
    cbn [negb andb orb bind].
    set (e1 := if Qltb (1 # 1000) _ then _ else e).
    assert (He1 : Worklet.SoundTouchEngine._inputBuffer e1
                  = Worklet.SoundTouchEngine._inputBuffer e
                  /\ Worklet.SoundTouchEngine._outputBuffer e1
                     = Worklet.SoundTouchEngine._outputBuffer e).
    { subst e1. destruct (Qltb (1 # 1000) _); [|split; reflexivity].
      apply worklet_set_pitch_buffers. }
    destruct He1 as (Ei & Eo).
    match goal with
    | |- context [Worklet.SoundTouchProcessor.mk _ _ false f ?pp1 true _] =>
        destruct (skip_block_tail fuel e1 ob f 32 pp1 true n left_ outLeft
                    input_rest output_rest)
          as (e' & ob' & E & Hi' & Ho')
    end; rewrite ?Ei, ?Eo; try assumption; try lia.
    cbv zeta in E. change (32 - 1) with 31 in E.
    eexists. split; [exact E|].
    cbn [Worklet.SoundTouchProcessor.bypassed
         Worklet.SoundTouchProcessor.skipBufferCounter
         Worklet.SoundTouchProcessor.fadeCounter
         Worklet.SoundTouchProcessor.soundTouch].
    rewrite Hi', Ho', Ei, Eo. repeat split; reflexivity.
  - (* a later block of the skip period *)
    apply Qltb_ge in Hkept. rewrite Hkept.
    cbn [negb andb orb bind].
    destruct (skip_block_tail fuel e ob f c pp sb n left_ outLeft
                input_rest output_rest)
      as (e' & ob' & E & Hi' & Ho'); try assumption.
    cbv zeta in E.
    rewrite (proj2 (Z.ltb_lt 0 c) Hc).
    eexists. split; [exact E|].
    cbn [Worklet.SoundTouchProcessor.bypassed
         Worklet.SoundTouchProcessor.skipBufferCounter
         Worklet.SoundTouchProcessor.fadeCounter
         Worklet.SoundTouchProcessor.soundTouch].
    rewrite Hi', Ho'. repeat split; reflexivity.
Qed.

End SoundTouchProcessorSkip.

Lemma worklet_skip_period_witness :
  exists p',
    Worklet.SoundTouchProcessor.process pow_octaves 0 new_worklet ones_block
      zero_block octave_up
    = Ok (p', dry_block ones_block zero_block)
    /\ Worklet.SoundTouchProcessor.skipBufferCounter p' = 31.
Proof.
  destruct (worklet_skip_period pow_octaves 0 new_worklet octave_up 128
              ones_block zero_block)
    as (p' & E & _ & Hc & _).
  - reflexivity.
  - left. reflexivity.
  - repeat split; vm_compute; congruence.
  - exact ones_block_is_block.
  - exact ones_block_nonempty.
  - exact zero_block_is_block.
  - exact zero_block_nonempty.
  - exists p'. split; [exact E|exact Hc].
Defined.
